(* ===== verification/_CoqProject ===== *)
-Q . S2P
Prelude.v
Buffer.v
Channel.v
Poller.v
EpollPoller.v
PollPoller.v
Pollers.v
Heap.v
Timer.v
TimerHistory.v
EventLoop.v
TcpConnection.v
Thread.v
ThreadPool.v
Net.v
TcpServer.v
Config.v
Client.v
System.v
SystemFacts.v
Echo.v
SystemSteps.v
SystemProps.v
Teardown.v
SystemEffects.v
Descriptors.v
Servers.v
Reactor.v
Calendar.v
LogStream.v
LogFile.v
AsyncLogging.v
Logging.v
