(* ===== verification/Prelude.v ===== *)
(** * A verification of MyNetLib, a reactor-style TCP library

    The library is organised as "one loop per thread". A descriptor is wrapped in a
    [Channel], which has an interest mask and callbacks; an [EventLoop] owns a
    [Poller] (epoll or poll), a [TimerManager] and a queue of functors that other
    threads fill, and waits on an eventfd among its descriptors so that they can wake
    it. A [TcpServer] accepts connections in its base loop through an [Acceptor] and
    hands each [TcpConnection] to one of the loops of an [EventLoopThreadPool]. All
    parts log through [Logger], which writes to a [LogFile] or to an [AsyncLogging]. Two
    example servers and a load generator use the library.

    ** How the code is modelled

    Every definition is a function, or a step relation where threads interleave, on
    explicit state. C++ objects reached through pointers live in maps from addresses,
    so aliasing and use after destruction are visible. Integers are [Z] with the wrap
    of their C++ width written out ([u64], [i32], [i64]). What a function does instead
    of returning is a [fault] in the [result] monad: an exception of the standard
    library, [abort] (a LOG_FATAL line), a failed [assert], or undefined behaviour.
    The kernel, the clock, the muduo library of the load generator and the user's callbacks
    are arguments; where a proof needs documented behaviour of the kernel it is a law of
    a type class that has a concrete instance. Callbacks are names (a type such as [CB])
    that a function given to the model interprets, so a callback may call back into the
    component.

    ** Files and the sources they model (paths below src/)

    - Prelude.v: machine integers, the result monad, byte lists, decimal printing, runs of
      fallible steps, and the tactics, hints and list lemmas the other files share.
    - Buffer.v: include/buffer.h, src/buffer.cc. Module [Vec] is std::vector<char> with
      its bounds, [Buffer] the operations, [ByteQueue] the specification they refine.
    - Channel.v: include/channel.h, src/channel.cc (the mask, the tie, the dispatch).
    - Poller.v: include/poller.h, src/poller.cc. The class [Poller] is the virtual
      interface, [PollerLaws] what its clients rely on.
    - EpollPoller.v: include/epoll_poller.h, src/epoll_poller.cc, over an abstract kernel
      (classes [Epoll], [EpollLaws]; instance [SimpleEpoll]).
    - PollPoller.v: include/poll_poller.h, src/poll_poller.cc. Both files end with the
      instances of [Poller] and [PollerLaws].
    - Pollers.v: src/default_poller.cc, the table of descriptors and masks that every
      implementation of the interface keeps, and one wait on each poller.
    - Heap.v: std::priority_queue as libstdc++ implements it.
    - Timer.v: include/timer.h, include/timer_manager.h, src/timer.cc,
      src/timer_manager.cc. TimerHistory.v follows each timer through any sequence of
      calls.
    - EventLoop.v: include/event_loop.h, src/event_loop.cc, the operations of
      src/channel.cc that go through the loop, and CreateEventfd of include/utils.h.
      Module [Threads] is the loop's thread against any number of other threads, one
      atomic action at a time.
    - TcpConnection.v: include/tcp_connection.h, src/tcp_connection.cc, one connection in
      its loop's thread, against any poller that satisfies the interface.
    - Thread.v: include/current_thread.h, include/thread.h and their sources.
    - ThreadPool.v: include/event_loop_thread.h, include/event_loop_thread_pool.h and their
      sources, with the part of Thread that starts a loop.
    - Net.v: include/inet_addr.h, include/socket.h, include/socket_utils.h,
      include/acceptor.h and their sources, and the socket of a TcpConnection (module
      [ConnectionSocket]).
    - TcpServer.v: include/tcp_server.h, src/tcp_server.cc.
    - Config.v: include/config.h with its regular expression, and what the mains of
      example/echo_server.cc and example/pingpong_server.cc read from the configuration
      file and the command line.
    - Client.v: example/pingpong_client.cc.
    - System.v: the server with its loops, pollers, connections and queues together; a
      step is the acceptance of a connection, the events of one channel or one queued
      functor, in any order, and a connection lives as long as something holds it. What
      the callbacks of the server's user do is the class [App].
    - SystemFacts.v: the invariant of that state and the class [AppLaws].
    - Echo.v: the callbacks of the two servers, instances of both classes.
    - SystemSteps.v, SystemProps.v: that the steps keep the invariant, and what follows.
    - Teardown.v: the destructor of TcpServer in the whole server; it resets the entries of the
      connection map to null and removes none.
    - SystemEffects.v: what each step of the whole server leaves alone, in any state.
    - Descriptors.v: the whole server with its acceptor and the kernel's table of open
      descriptors (src/acceptor.cc, src/socket.cc and the sockets of the connections).
    - Servers.v: the constructors, Start and mains of the two servers with the socket of their
      acceptor (socket, bind and listen answer as they like), up to the start of their loops.
    - Reactor.v: the loops of the whole server as their threads run them
      (EventLoop::Loop, PollAndHandleIoEvent and DoPendingFunctors of
      src/event_loop.cc): a poll, the reported channels one by one, then the swapped batch.
    - Calendar.v: the broken-down time of the C library, src/time_stamp.cc, the dates of
      src/log_file.cc, and TestTime of include/utils.h.
    - LogStream.v: include/log_stream.h, include/logger.h and their sources.
    - LogFile.v: include/log_file.h, src/log_file.cc.
    - AsyncLogging.v: include/async_logging.h, src/async_logging.cc.
    - Logging.v: LOG statements, the asynchronous log and its thread together, as the
      mains of the servers connect them.

    Each file has its operations first, then a [...Facts] module with the lemmas, then a
    [...Props] module with the theorems that state what the component does, each with an
    instance at concrete arguments when it has hypotheses.

    ** What the theorems show

    - The server as a whole (SystemProps): in every legal interleaving no step faults; the
      example servers send back what they receive; connections that were closed are
      destroyed once the queues have run; while nothing waits exactly the
      connections of the map exist, all open, and nothing else is watched; what a functor that holds no reference leads to. An
      interleaving is legal when the kernel answers as it documents and events come only
      for connections that exist and are established ([SystemLaws.pre]).
    - Its loops (Reactor): when every loop polls, handles what the poller reported and runs a
      batch, each in a thread of its own, all they do are legal steps of that server, so
      a channel reported by a poll is still established when its turn comes; a
      batch runs in the order in which it was queued, and what is queued meanwhile waits.
    - Its beginning and its end: run with a configuration or a command line, the servers
      listen on the port and with the threads it says, or abort if the kernel refuses the
      acceptor its socket (Servers); destroying a quiet server
      destroys every connection (Teardown); every accepted descriptor is closed exactly once,
      with its connection, no loop watches a descriptor that is not open, and a destroyed
      server leaves open what was open before it (Descriptors).
    - Connections: the invariant of an established connection under every call, event
      and functor, where the memory a queued send was given may be gone by then (use after
      free); the outgoing bytes reach the socket in order through partial and
      refused writes; a requested shutdown is carried out after the last byte; what
      reading, closing and destroying do. Sends from other threads keep a pointer that
      dangles.
    - Loops: in every interleaving queued functors run at most once and in order, a
      waiting loop has either no work or a wakeup on its way (under the stated
      restrictions on timer callbacks and on code before Loop), and Quit ends a running
      loop; where those restrictions are lifted, work and quit requests are lost.
    - Pollers: both implementations install, change and remove interest for exactly the
      given descriptor and satisfy the interface, so that they watch the same masks and report
      the same channels, as long as no channel is used after its removal and no wait fails;
      channels dispatch exactly the due callbacks in order, also when these change the mask.
    - Timers: a check terminates and runs exactly the due timers in comparator order, if
      repeat counts and identifiers do not overflow (a negative count would, in the end);
      removal and repetition; identifiers, with the race in their generation; a machine type
      for every field through any history of calls, and how often each timer runs.
    - Buffers: the operations refine a byte queue; growth, compaction, the scatter read.
    - Server and threads: fresh names and an exact connection map; the handshake that
      publishes a thread's loop; round-robin choice; what accepting a connection does; how
      a thread may end.
    - Settings and client: the regular expression of the configuration against a
      scanner; settings and time stamps that are read back from their text; the counts and
      the report of the load generator, which counts bytes that arrive after its time is up
      again at every call, since a disconnecting connection does not empty its buffer.
    - Logging: the text of a line (where a platform defines the two reads the language does
      not) and of a number, when files roll and flush and that each
      is a new one, and that the asynchronous logger neither loses, duplicates nor
      reorders a message between its buffers, with the two situations in which its thread
      goes wrong; that lines stay whole on their way through it, that none is too long for
      it, and that a fatal one is lost.

    ** Fuel

    Loops that are not structural take fuel or a list of kernel answers. The sifts of
    Heap.v are given the length of the vector, RemoveTimer the length of the queue; the
    lemmas about them hold with that fuel. CheckAndHandle answers [None] when its fuel
    runs out, and CheckAndHandle_runs_due gives a fuel with which it does not. The loop of
    AppendFile::Append consumes one answer of the stream per round, and its theorem
    shows that answers which make progress are enough.

    ** What is not modelled

    The type aliases of include/callbacks.h and the empty base class of
    include/noncopyable.h; the build files and the test drivers under test/; the dispatch of the
    acceptor's and the wakeup descriptor's channels by a poller inside System.v (in Reactor.v
    they are entries of the list a poll returns; their channels are in Net.v and
    EventLoop.v) and timers there (Timer.v, EventLoop.v), which the servers do not use; how
    the poller comes to report only descriptors with a mask, each once, which Reactor.v
    takes from the kernel (epoll_wait reports what is registered, and a connection that
    closes is taken out; poll(2) may still report a hang-up for an empty mask, and then a
    second close can run); signals (a write that fails with EPIPE answers that to the library, as
    it does when SIGPIPE is ignored, which the mains do not do: Servers.v); what descriptors
    report between the destructor of TcpServer and the end of its loops' threads, beyond the
    example in Teardown.v; the weak memory model (each step of a thread is atomic). The
    printing of the load generator's two quotients stops at their operands. The C
    library's time zone rules are an offset from UTC. *)
From Stdlib Require Import ZArith Lia Ascii.
From stdpp Require Import base gmap sets list strings pretty numbers option fin_maps.

Declare Scope mynet_scope.
Delimit Scope mynet_scope with mynet.

#[global] Set Default Goal Selector "!".

(** * Machine integers *)

(** The C++ integer types the sources use, as [Z] with the wrap-around of the
    LP64 ABI written out: [size_t] and [unsigned long long] are taken modulo
    2^64, a conversion to [int] or [int32_t] keeps the low 32 bits in two's
    complement. *)
Definition u64 (z : Z) : Z := z mod 2 ^ 64.
Definition i32 (z : Z) : Z := (z + 2 ^ 31) mod 2 ^ 32 - 2 ^ 31.
Definition i64 (z : Z) : Z := (z + 2 ^ 63) mod 2 ^ 64 - 2 ^ 63.

(** [a & b != 0], the test every flag check of the sources compiles to. *)
Definition bit_and (a b : Z) : bool := negb (Z.eqb (Z.land a b) 0).
Notation "a &? b" := (bit_and a b) (at level 40, left associativity) : mynet_scope.

(** * Faults and the result monad *)

(** What a C++ function can do instead of returning: throw (an exception of the
    standard library), end the process (a [LOG_FATAL] line calls [abort]), hit a
    failed [assert], or step outside the language's defined behaviour. *)
Inductive ub_kind :=
  | OutOfBounds
  | NullDeref
  | UseAfterFree
  | InvalidIterators
  | SignedOverflow
  | MissingReturn.

Inductive fault :=
  | LengthError
  | BadFunctionCall
  | Aborted
  | AssertFailed
  | SystemError
  | Terminated
  | UB (k : ub_kind).

#[export] Instance ub_kind_eq_dec : EqDecision ub_kind.
Proof. solve_decision. Defined.
#[export] Instance fault_eq_dec : EqDecision fault.
Proof. solve_decision. Defined.

Inductive result (A : Type) :=
  | Ok (a : A)
  | Err (e : fault).
Arguments Ok {A} a.
Arguments Err {A} e.

#[export] Instance result_ret : MRet result := fun A a => Ok a.
#[export] Instance result_bind : MBind result := fun A B f m =>
  match m with Ok a => f a | Err e => Err e end.
#[export] Instance result_fmap : FMap result := fun A B f m =>
  match m with Ok a => Ok (f a) | Err e => Err e end.

Lemma Ok_inj {A} (a b : A) : Ok a = Ok b -> a = b.
Proof. by intros [= ->]. Qed.

Definition is_ok {A} (m : result A) : bool :=
  match m with Ok _ => true | Err _ => false end.

(** The operation goes on only when [b] holds. *)
Definition require (b : bool) (e : fault) : result unit :=
  if b then Ok tt else Err e.

(** * Bytes *)

Abbreviation bytes := (list ascii).

Definition str (s : string) : bytes := String.list_ascii_of_string s.

Definition zlen {A} (l : list A) : Z := Z.of_nat (length l).
Definition ztake {A} (n : Z) (l : list A) : list A := take (Z.to_nat n) l.
Definition zdrop {A} (n : Z) (l : list A) : list A := drop (Z.to_nat n) l.

(** The half-open range [[i, j)] of a list. *)
Definition slice {A} (i j : Z) (l : list A) : list A := ztake (j - i) (zdrop i l).

Definition zreplicate {A} (n : Z) (x : A) : list A := replicate (Z.to_nat n) x.

Arguments zlen : simpl never.
Arguments ztake : simpl never.
Arguments zdrop : simpl never.
Arguments slice : simpl never.
Arguments zreplicate : simpl never.
Arguments u64 : simpl never.
Arguments i32 : simpl never.
Arguments i64 : simpl never.

(** [std::to_string] and [snprintf("%d")] on an integer. *)
Definition to_string (z : Z) : bytes := str (pretty z).

(** * Tactics *)

(** Unfolds one [result] bind in a hypothesis or the goal. *)
Ltac res_simpl :=
  repeat match goal with
  | H : mbind _ _ = Ok _ |- _ =>
      unfold mbind, result_bind in H
  | H : (match ?m with Ok _ => _ | Err _ => Err _ end) = Ok _ |- _ =>
      let E := fresh "E" in destruct m eqn:E; [|discriminate H]
  | H : Ok _ = Ok _ |- _ => injection H as H; subst
  | H : Ok _ = Err _ |- _ => discriminate H
  | H : Err _ = Ok _ |- _ => discriminate H
  | H : require ?b _ = Ok _ |- _ =>
      let E := fresh "E" in unfold require in H; destruct b eqn:E; [|discriminate H]
  end.

(** Turns boolean comparisons of [Z] in the context into propositions. *)
Ltac zb :=
  repeat match goal with
  | H : (_ <? _)%Z = true |- _ => apply Z.ltb_lt in H
  | H : (_ <? _)%Z = false |- _ => apply Z.ltb_ge in H
  | H : (_ <=? _)%Z = true |- _ => apply Z.leb_le in H
  | H : (_ <=? _)%Z = false |- _ => apply Z.leb_gt in H
  | H : (_ =? _)%Z = true |- _ => apply Z.eqb_eq in H
  | H : (_ =? _)%Z = false |- _ => apply Z.eqb_neq in H
  end.

(** Case analysis on the comparison a boolean [if] of the goal tests. *)
Ltac zcase :=
  match goal with
  | |- context [if (?a <? ?b)%Z then _ else _] => destruct (Z.ltb_spec a b)
  | |- context [if (?a <=? ?b)%Z then _ else _] => destruct (Z.leb_spec a b)
  | |- context [if (?a =? ?b)%Z then _ else _] => destruct (Z.eqb_spec a b)
  end.

(** * Machine integer lemmas *)

Create HintDb mynet.
Create Rewrite HintDb zsize.
Create Rewrite HintDb mask.

Lemma u64_small z : (0 <= z < 2 ^ 64)%Z -> u64 z = z.
Proof. apply Z.mod_small. Qed.

Lemma u64_range z : (0 <= u64 z < 2 ^ 64)%Z.
Proof. apply Z.mod_pos_bound. lia. Qed.

Lemma i32_small z : (- 2 ^ 31 <= z < 2 ^ 31)%Z -> i32 z = z.
Proof. intros. unfold i32. rewrite Z.mod_small; lia. Qed.

Lemma i64_small z : (- 2 ^ 63 <= z < 2 ^ 63)%Z -> i64 z = z.
Proof. intros. unfold i64. rewrite Z.mod_small; lia. Qed.

Lemma i32_range z : (- 2 ^ 31 <= i32 z < 2 ^ 31)%Z.
Proof.
  unfold i32. pose proof (Z.mod_pos_bound (z + 2 ^ 31) (2 ^ 32)). lia.
Qed.

Lemma i64_range z : (- 2 ^ 63 <= i64 z < 2 ^ 63)%Z.
Proof.
  unfold i64. pose proof (Z.mod_pos_bound (z + 2 ^ 63) (2 ^ 64)). lia.
Qed.

(** A [u64] value read back as [int]: only the value modulo 2^32 matters. *)
Lemma i32_u64 z : i32 (u64 z) = i32 z.
Proof.
  unfold i32, u64. f_equal.
  rewrite (Z.mod_eq z (2 ^ 64)) by lia.
  replace (z - 2 ^ 64 * (z / 2 ^ 64) + 2 ^ 31)%Z
    with (z + 2 ^ 31 + (- (2 ^ 32 * (z / 2 ^ 64))) * 2 ^ 32)%Z by lia.
  apply Z.mod_add. lia.
Qed.

#[export] Hint Rewrite i32_u64 : zsize.

(** * List lemmas *)

Lemma zlen_nil {A} : zlen (@nil A) = 0%Z.
Proof. reflexivity. Qed.

Lemma zlen_cons {A} (x : A) l : zlen (x :: l) = (1 + zlen l)%Z.
Proof. unfold zlen. cbn [length]. lia. Qed.

Lemma zlen_app {A} (l k : list A) : zlen (l ++ k) = (zlen l + zlen k)%Z.
Proof. unfold zlen. rewrite length_app. lia. Qed.

Lemma zlen_nonneg {A} (l : list A) : (0 <= zlen l)%Z.
Proof. unfold zlen. lia. Qed.

Lemma zlen_zreplicate {A} n (x : A) : (0 <= n)%Z -> zlen (zreplicate n x) = n.
Proof. intros. unfold zlen, zreplicate. rewrite length_replicate. lia. Qed.

Lemma zlen_ztake {A} n (l : list A) :
  (0 <= n <= zlen l)%Z -> zlen (ztake n l) = n.
Proof. unfold zlen, ztake. rewrite length_take. lia. Qed.

Lemma zlen_zdrop {A} n (l : list A) :
  (0 <= n <= zlen l)%Z -> zlen (zdrop n l) = (zlen l - n)%Z.
Proof. unfold zlen, zdrop. rewrite length_drop. lia. Qed.

Lemma zlen_nil_inv {A} (l : list A) : zlen l = 0%Z -> l = [].
Proof. unfold zlen. destruct l; cbn; [done|lia]. Qed.

Lemma zlen_slice {A} i j (l : list A) :
  (0 <= i <= j)%Z -> (j <= zlen l)%Z -> zlen (slice i j l) = (j - i)%Z.
Proof. intros. unfold slice. rewrite zlen_ztake; [done|]. rewrite zlen_zdrop; lia. Qed.

Lemma ztake_zdrop {A} n (l : list A) : ztake n l ++ zdrop n l = l.
Proof. apply take_drop. Qed.

Lemma ztake_app_exact {A} (l k : list A) : ztake (zlen l) (l ++ k) = l.
Proof. unfold ztake, zlen. rewrite Nat2Z.id. apply take_app_length. Qed.

Lemma zdrop_app_exact {A} (l k : list A) : zdrop (zlen l) (l ++ k) = k.
Proof. unfold zdrop, zlen. rewrite Nat2Z.id. apply drop_app_length. Qed.

Lemma ztake_all {A} n (l : list A) : (zlen l <= n)%Z -> ztake n l = l.
Proof. unfold ztake, zlen. intros. apply take_ge. lia. Qed.

Lemma zdrop_all {A} n (l : list A) : (zlen l <= n)%Z -> zdrop n l = [].
Proof. unfold zdrop, zlen. intros. apply drop_ge. lia. Qed.

Lemma ztake_0 {A} (l : list A) : ztake 0 l = [].
Proof. reflexivity. Qed.

Lemma zdrop_0 {A} (l : list A) : zdrop 0 l = l.
Proof. reflexivity. Qed.

(** A list of at least [j] elements splits around the range [[i, j)]. *)
Lemma slice_split {A} i j (l : list A) :
  (0 <= i <= j)%Z -> (j <= zlen l)%Z ->
  l = ztake i l ++ slice i j l ++ zdrop j l.
Proof.
  intros. unfold slice.
  rewrite <- (take_drop (Z.to_nat i) l) at 1. f_equal.
  rewrite <- (take_drop (Z.to_nat (j - i)) (drop (Z.to_nat i) l)) at 1. f_equal.
  unfold zdrop. rewrite drop_drop. f_equal. lia.
Qed.

Lemma ztake_slice {A} i j (l : list A) :
  (0 <= i <= j)%Z -> ztake j l = ztake i l ++ slice i j l.
Proof.
  intros. unfold slice, ztake, zdrop. rewrite take_take_drop. f_equal. lia.
Qed.

(** The middle of a three-part concatenation. *)
Lemma slice_app3 {A} i j (p m s : list A) :
  zlen p = i -> (zlen p + zlen m)%Z = j -> slice i j (p ++ m ++ s) = m.
Proof.
  intros <- <-. unfold slice. rewrite zdrop_app_exact.
  replace (zlen p + zlen m - zlen p)%Z with (zlen m) by lia.
  apply ztake_app_exact.
Qed.

Lemma slice_app {A} i j k (l : list A) :
  (0 <= i <= j)%Z -> (j <= k)%Z -> slice i k l = slice i j l ++ slice j k l.
Proof.
  intros. unfold slice, ztake, zdrop.
  replace (Z.to_nat (k - i)) with (Z.to_nat (j - i) + Z.to_nat (k - j))%nat by lia.
  rewrite <- take_take_drop, drop_drop. do 3 f_equal. lia.
Qed.

Lemma slice_empty {A} i (l : list A) : slice i i l = [].
Proof. unfold slice. rewrite Z.sub_diag. apply ztake_0. Qed.

Lemma insert_perm {A} (l : list A) i x y :
  l !! i = Some x -> exists k, l ≡ₚ x :: k /\ <[i := y]> l ≡ₚ y :: k.
Proof.
  intros Hi. exists (delete i l). split; [by apply delete_Permutation|].
  rewrite (delete_Permutation (<[i := y]> l) i y) at 1.
  - f_equiv. rewrite !delete_take_drop.
    rewrite take_insert_ge, drop_insert_lt by lia. done.
  - apply list_lookup_insert_eq. by eapply lookup_lt_Some.
Qed.

(** Exchanging two elements is a permutation. *)
Lemma swap_perm {A} (l : list A) i j x y :
  i <> j -> l !! i = Some x -> l !! j = Some y ->
  <[i := y]> (<[j := x]> l) ≡ₚ l.
Proof.
  intros Hij Hi Hj.
  destruct (insert_perm l j y x Hj) as (k & Hk1 & Hk2).
  destruct (insert_perm (<[j := x]> l) i x y) as (k' & Hk1' & Hk2').
  { by rewrite list_lookup_insert_ne. }
  rewrite Hk2', Hk1. f_equiv. apply (Permutation_cons_inv (a := x)). by rewrite <- Hk1', Hk2.
Qed.

#[export] Hint Rewrite @zlen_app @zlen_nil @zlen_cons : zsize.
#[export] Hint Resolve zlen_nonneg : mynet.

(** Normalises the lengths of the goal and closes it by linear arithmetic. *)
Ltac zsolve := autorewrite with zsize in *; lia.

(** * Decimal printing *)

Lemma str_inj s t : str s = str t -> s = t.
Proof.
  intros H. unfold str in H.
  rewrite <- (String.string_of_list_ascii_of_string s),
    <- (String.string_of_list_ascii_of_string t). by rewrite H.
Qed.

Lemma to_string_inj x y : to_string x = to_string y -> x = y.
Proof. intros H%str_inj. by apply (inj pretty) in H. Qed.

Lemma length_str s : length (str s) = String.length s.
Proof. unfold str. induction s; cbn; congruence. Qed.

(** A number below 10^k has at most k decimal digits. *)
Lemma pretty_go_length k x s :
  (x < 10 ^ N.of_nat k)%N -> (String.length (pretty_N_go x s) <= k + String.length s)%nat.
Proof.
  revert x s. induction k as [|k IH]; intros x s Hx.
  - cbn in Hx. assert (x = 0%N) as -> by lia. rewrite pretty_N_go_0. cbn. lia.
  - destruct (decide (x = 0%N)) as [->|Hx0]; [rewrite pretty_N_go_0; lia|].
    rewrite pretty_N_go_step by lia.
    etrans; [apply IH|cbn; lia].
    apply N.Div0.div_lt_upper_bound.
    rewrite Nat2N.inj_succ, N.pow_succ_r' in Hx. lia.
Qed.

(** The value of a decimal numeral. *)
Definition is_digit (c : ascii) : bool := (48 <=? nat_of_ascii c)%nat && (nat_of_ascii c <=? 57)%nat.
Fixpoint digits (acc : Z) (s : bytes) : Z :=
  match s with
  | c :: s => if is_digit c then digits (acc * 10 + (Z.of_nat (nat_of_ascii c) - 48))%Z s else acc
  | [] => acc
  end.

Lemma pretty_char_digit x : (x < 10)%N ->
  is_digit (pretty_N_char x) = true /\ Z.of_nat (nat_of_ascii (pretty_N_char x)) = (48 + Z.of_N x)%Z.
Proof.
  intros Hx. assert (In x [0; 1; 2; 3; 4; 5; 6; 7; 8; 9]%N) as Hin by (cbn; lia).
  cbn in Hin. by repeat destruct Hin as [<-|Hin].
Qed.

Lemma pretty_go_app x s : str (pretty_N_go x s) = str (pretty_N_go x "") ++ str s.
Proof.
  revert s. induction (N.lt_wf_0 x) as [x _ IH]; intros s. destruct (decide (x = 0%N)) as [->|Hx].
  { by rewrite !pretty_N_go_0. }
  rewrite !(pretty_N_go_step x) by lia. specialize (IH (x / 10)%N ltac:(by apply N.div_lt; lia)).
  rewrite IH, (IH (String _ "")). by rewrite <- app_assoc.
Qed.

Lemma digits_app acc l k : Forall (fun c => is_digit c = true) l -> digits acc (l ++ k) = digits (digits acc l) k.
Proof. intros Hl. revert acc. induction Hl as [|c l Hc _ IH]; intros acc; cbn; [done|]. rewrite Hc. apply IH. Qed.

Lemma pretty_go_digits x : Forall (fun c => is_digit c = true) (str (pretty_N_go x "")) /\
  digits 0 (str (pretty_N_go x "")) = Z.of_N x.
Proof.
  induction (N.lt_wf_0 x) as [x _ IH]. destruct (decide (x = 0%N)) as [->|Hx].
  { rewrite pretty_N_go_0. split; [constructor|done]. }
  rewrite pretty_N_go_step, pretty_go_app by lia.
  destruct (IH (x / 10)%N ltac:(by apply N.div_lt; lia)) as [IHf IHd].
  destruct (pretty_char_digit (x mod 10)) as [Hd Hv]; [by apply N.mod_lt|].
  change (str (String (pretty_N_char (x mod 10)) "")) with [pretty_N_char (x mod 10)]. split.
  - apply Forall_app. split; [done|by repeat constructor].
  - rewrite digits_app, IHd by done. cbn [digits]. rewrite Hd, Hv.
    pose proof (N.div_mod x 10 ltac:(lia)). lia.
Qed.

Lemma to_string_digits z : (0 <= z)%Z ->
  Forall (fun c => is_digit c = true) (to_string z) /\ to_string z <> [] /\ digits 0 (to_string z) = z.
Proof.
  intros Hz. unfold to_string, pretty, pretty_Z. destruct z as [|p|p]; [|..|lia].
  - split; [by repeat constructor|done].
  - unfold pretty, pretty_positive, pretty, pretty_N. case_decide; [done|].
    destruct (pretty_go_digits (N.pos p)) as [Hf Hd]. split_and!; [done| |done].
    intros E. rewrite E in Hd. done.
Qed.

Lemma to_string_length k z : (0 <= z < 10 ^ Z.of_nat k)%Z -> (0 < k)%nat ->
  (zlen (to_string z) <= Z.of_nat k)%Z.
Proof.
  intros Hz Hk. unfold to_string, zlen. rewrite length_str. unfold pretty, pretty_Z.
  destruct z as [|p|p]; [cbn; lia| |lia].
  unfold pretty, pretty_positive, pretty, pretty_N. case_decide; [done|].
  pose proof (pretty_go_length k (N.pos p) "") as Hlen. cbn in Hlen.
  rewrite Nat.add_0_r in Hlen. apply inj_le, Hlen.
  apply N2Z.inj_lt. rewrite N2Z.inj_pow, nat_N_Z. exact (proj2 Hz).
Qed.

Section Numerals.
Local Open Scope Z_scope.

Lemma digits_bound acc s : Forall (fun c => is_digit c = true) s -> digits acc s < (acc + 1) * 10 ^ zlen s.
Proof.
  intros Hs. revert acc. induction Hs as [|c s Hc _ IH]; intros acc; [change (zlen (@nil ascii)) with 0%Z; cbn; lia|].
  cbn [digits]. rewrite Hc. rewrite zlen_cons, Z.pow_add_r by (pose proof (zlen_nonneg s); lia).
  unfold is_digit in Hc. apply andb_true_iff in Hc as [_ Hc]. apply Nat.leb_le in Hc.
  specialize (IH (acc * 10 + (Z.of_nat (nat_of_ascii c) - 48))).
  pose proof (Z.pow_pos_nonneg 10 (zlen s) ltac:(lia) (zlen_nonneg s)). nia.
Qed.

Lemma numeral_width k z : (0 < k)%nat -> 10 ^ (Z.of_nat k - 1) <= z < 10 ^ Z.of_nat k -> zlen (to_string z) = Z.of_nat k.
Proof.
  intros Hk Hz. pose proof (Z.pow_pos_nonneg 10 (Z.of_nat k - 1) ltac:(lia) ltac:(lia)).
  destruct (to_string_digits z) as (Hd & _ & Ev); [lia|]. pose proof (to_string_length k z ltac:(lia) Hk).
  pose proof (digits_bound 0 _ Hd) as Hb. rewrite Ev in Hb.
  assert (10 ^ (Z.of_nat k - 1) < 10 ^ zlen (to_string z)) as Hp by lia.
  apply Z.pow_lt_mono_r_iff in Hp; [lia|lia|apply zlen_nonneg].
Qed.

(** [%0kd] of a number that is not negative. *)
Definition zero_pad (k : Z) (z : Z) : bytes := zreplicate (k - zlen (to_string z)) "0"%char ++ to_string z.

Lemma digits_zeros n l : digits 0 (replicate n "0"%char ++ l) = digits 0 l.
Proof. by induction n. Qed.

Lemma zero_pad_law k z : (0 < k)%nat -> 0 <= z < 10 ^ Z.of_nat k ->
  zlen (zero_pad (Z.of_nat k) z) = Z.of_nat k /\ digits 0 (zero_pad (Z.of_nat k) z) = z.
Proof.
  intros Hk Hz. unfold zero_pad. pose proof (to_string_length k z Hz Hk).
  destruct (to_string_digits z) as (_ & _ & Ev); [lia|]. split.
  - rewrite zlen_app, zlen_zreplicate by lia. lia.
  - unfold zreplicate. by rewrite digits_zeros.
Qed.

End Numerals.

(** * Runs of a model

    Sequences of steps that may fault, and those whose every step has what it relies on.
    The models define their own [run] and [legal] in this form. *)
Section Runs.
Context {E S : Type} (step : E -> S -> result S) (pre : E -> S -> Prop).

Fixpoint run_steps (es : list E) (s : S) : result S :=
  match es with
  | [] => Ok s
  | e :: es => s ← step e s; run_steps es s
  end.

Fixpoint legal_steps (es : list E) (s : S) : Prop :=
  match es with
  | [] => True
  | e :: es => pre e s /\ match step e s with Ok s' => legal_steps es s' | Err _ => True end
  end.

Lemma run_steps_app es es' s s1 : run_steps es s = Ok s1 -> run_steps (es ++ es') s = run_steps es' s1.
Proof.
  revert s. induction es as [|e es IH]; intros s Hr; cbn in *; [by injection Hr as ->|].
  destruct (step e s) as [s2|]; [|done]. by apply IH.
Qed.

Lemma legal_steps_app es es' s s1 : run_steps es s = Ok s1 ->
  legal_steps (es ++ es') s <-> legal_steps es s /\ legal_steps es' s1.
Proof.
  revert s. induction es as [|e es IH]; intros s Hr; cbn in *; [injection Hr as ->; naive_solver|].
  destruct (step e s) as [s2|]; [|done]. rewrite (IH _ Hr). naive_solver.
Qed.

(** The state a run from [s0] ends in. *)
Definition reach_steps (s0 : S) (es : list E) : S :=
  match run_steps es s0 with Ok s => s | Err _ => s0 end.

(** Each step only needs its precondition where it comes. *)
Lemma legal_steps_reach s0 es : run_steps es s0 = Ok (reach_steps s0 es) ->
  (forall n e, es !! n = Some e -> pre e (reach_steps s0 (take n es))) -> legal_steps es s0.
Proof.
  intros Hr Hp. assert (forall n e s, es !! n = Some e -> run_steps (take n es) s0 = Ok s -> pre e s) as Hp'.
  { intros n e s Hn Hs. specialize (Hp n e Hn). unfold reach_steps in Hp. by rewrite Hs in Hp. }
  clear Hp. revert Hr Hp'. generalize (reach_steps s0 es). revert s0.
  induction es as [|e es IH]; intros s0 s1 Hr Hp; [done|]. cbn in *.
  split; [by apply (Hp 0%nat)|]. destruct (step e s0) as [s2|] eqn:Es; [|done].
  apply (IH _ _ Hr). intros n e1 s Hn Hs. apply (Hp (Datatypes.S n)); [done|]. cbn. by rewrite Es.
Qed.

End Runs.
