(* ===== verification/Buffer.v ===== *)
(** The growable byte buffer of a connection (include/buffer.h, src/buffer.cc):
    the storage vector with its two indices, every operation with its [size_t]
    arithmetic, the byte-queue specification it refines, and the scatter read and
    the write that move bytes between it and a descriptor. *)
From Stdlib Require Import ZArith Lia Ascii.
From stdpp Require Import base list strings.
From S2P Require Import Prelude.

Local Open Scope Z_scope.

(** * std::vector<char> and std::copy, as the buffer uses them *)
Module Vec.

(** [std::vector<char>::max_size()]: [PTRDIFF_MAX]. *)
Definition max_size : Z := 2 ^ 63 - 1.

(** [v.resize(n)]: cut, or extended with zero bytes; [std::length_error] beyond
    [max_size()]. *)
Definition resize (n : Z) (v : bytes) : result bytes :=
  if max_size <? n then Err LengthError
  else Ok (ztake n v ++ zreplicate (n - zlen v) Ascii.zero).

(** [std::copy(data, data + len, begin + d)] from another object into [v]. *)
Definition blit (data : bytes) (d : Z) (v : bytes) : result bytes :=
  if zlen v <? d + zlen data then Err (UB OutOfBounds)
  else Ok (ztake d v ++ data ++ zdrop (d + zlen data) v).

(** [std::copy] inside one vector, element by element from the front, which is
    what makes an overlapping move towards the front correct. *)
Fixpoint copy_fwd (n : nat) (s d : nat) (v : bytes) : result bytes :=
  match n with
  | O => Ok v
  | S n =>
      match v !! s with
      | Some c =>
          if (d <? length v)%nat then copy_fwd n (S s) (S d) (<[d := c]> v)
          else Err (UB OutOfBounds)
      | None => Err (UB OutOfBounds)
      end
  end.

(** [std::copy(first, last, d_first)] is defined only when [d_first] is not in
    [[first, last)]. *)
Definition copy_within (first last d : Z) (v : bytes) : result bytes :=
  if (first <=? d) && (d <? last) then Err (UB InvalidIterators)
  else copy_fwd (Z.to_nat (last - first)) (Z.to_nat first) (Z.to_nat d) v.

End Vec.

(** * The buffer *)
Module Buffer.

Definition kCheapPrepend : Z := 8.
Definition kInitialSize : Z := 1024.

Record t := mk {
  buffer_ : bytes;
  read_index_ : Z;
  write_index_ : Z;
}.

(** [Buffer::Buffer(size_t initialSize)] *)
Definition create (initialSize : Z) : result t :=
  v ← Vec.resize (u64 (kCheapPrepend + initialSize)) [];
  Ok (mk v kCheapPrepend kCheapPrepend).

Definition ReadableBytes (b : t) : Z := u64 (write_index_ b - read_index_ b).
Definition WriteableBytes (b : t) : Z := u64 (zlen (buffer_ b) - write_index_ b).
Definition PrependableBytes (b : t) : Z := read_index_ b.

Definition RetriveAll (b : t) : t := mk (buffer_ b) kCheapPrepend kCheapPrepend.

Definition Retrive (len : Z) (b : t) : t :=
  if len <? ReadableBytes b
  then mk (buffer_ b) (u64 (read_index_ b + len)) (write_index_ b)
  else RetriveAll b.

(** [std::string result(BeginRead(), len)] reads [len] bytes from the read index,
    whatever the number of readable ones is. *)
Definition read_string (len : Z) (b : t) : result bytes :=
  if Vec.max_size <? len then Err LengthError
  else if zlen (buffer_ b) <? read_index_ b + len then Err (UB OutOfBounds)
  else Ok (slice (read_index_ b) (read_index_ b + len) (buffer_ b)).

Definition RetriveAsString (len : Z) (b : t) : result (bytes * t) :=
  s ← read_string len b;
  Ok (s, Retrive len b).

Definition RetriveAllAsString (b : t) : result (bytes * t) :=
  RetriveAsString (ReadableBytes b) b.

Definition MakeSpace (len : Z) (b : t) : result t :=
  if u64 (WriteableBytes b + PrependableBytes b) <? u64 (len + kCheapPrepend)
  then
    v ← Vec.resize (u64 (write_index_ b + len)) (buffer_ b);
    Ok (mk v (read_index_ b) (write_index_ b))
  else
    let readable := ReadableBytes b in
    v ← Vec.copy_within (read_index_ b) (write_index_ b) kCheapPrepend (buffer_ b);
    Ok (mk v kCheapPrepend (u64 (kCheapPrepend + readable))).

Definition EnsureWriteableBytes (len : Z) (b : t) : result t :=
  if WriteableBytes b <? len then MakeSpace len b else Ok b.

(** [Append(const char* data, size_t len)], [len] being the length of [data]. *)
Definition Append (data : bytes) (b : t) : result t :=
  b ← EnsureWriteableBytes (zlen data) b;
  v ← Vec.blit data (write_index_ b) (buffer_ b);
  Ok (mk v (read_index_ b) (u64 (write_index_ b + zlen data))).

(** What [readv] answers: the bytes it stored, or -1 and errno. *)
Inductive read_result :=
  | ReadData (d : bytes)
  | ReadErr (errno : Z).

(** What [write] answers: the number of bytes it took, or -1 and errno. *)
Inductive write_result :=
  | Wrote (n : Z)
  | WriteErr (errno : Z).

(** [sizeof extrabuf] *)
Definition kExtraBuf : Z := 65535.

(** The room [ReadFd] offers to [readv]: the writable tail, and the 64k stack
    buffer when the tail is the smaller of the two. *)
Definition read_capacity (b : t) : Z :=
  let writeable := WriteableBytes b in
  if writeable <? kExtraBuf then writeable + kExtraBuf else writeable.

(** [Buffer::ReadFd]: the kernel's [readv] is the parameter; it fills the first
    vector before the second. The answer is the return value, the saved errno of
    a failed call and the buffer. *)
Definition ReadFd (readv : Z -> read_result) (b : t) : result (Z * option Z * t) :=
  let writeable := WriteableBytes b in
  match readv (read_capacity b) with
  | ReadErr e => Ok (-1, Some e, b)
  | ReadData d =>
      let n := zlen d in
      v ← Vec.blit (ztake writeable d) (write_index_ b) (buffer_ b);
      if n <=? writeable then
        Ok (n, None, mk v (read_index_ b) (u64 (write_index_ b + n)))
      else
        b ← Append (zdrop writeable d) (mk v (read_index_ b) (zlen v));
        Ok (n, None, b)
  end.

(** [Buffer::WriteFd]: [write(fd, BeginRead(), ReadableBytes())], the kernel's
    [write] being the parameter. The answer is the return value and the saved
    errno of a failed call; the buffer does not change, the caller retrieves what
    was sent. *)
Definition WriteFd (write : bytes -> write_result) (b : t) : Z * option Z :=
  match write (slice (read_index_ b) (read_index_ b + ReadableBytes b) (buffer_ b)) with
  | Wrote n => (n, None)
  | WriteErr e => (-1, Some e)
  end.

(** The bytes between the two indices. *)
Definition content (b : t) : bytes := slice (read_index_ b) (write_index_ b) (buffer_ b).

(** The picture drawn above the class: [0 <= readerIndex <= writerIndex <= size],
    with the eight reserved bytes never given up. *)
Definition wf (b : t) : Prop :=
  kCheapPrepend <= read_index_ b <= write_index_ b /\
  write_index_ b <= zlen (buffer_ b) <= Vec.max_size.

End Buffer.

(** * Lemmas on the vector operations *)
Module VecFacts.
Import Vec.

Lemma zlen_resize n v v' :
  0 <= n -> resize n v = Ok v' -> zlen v' = n.
Proof.
  unfold resize, ztake, zreplicate, zlen. intros Hn. zcase; intros; [done|].
  res_simpl. rewrite length_app, length_take, length_replicate. lia.
Qed.

Lemma resize_grow n v :
  zlen v <= n <= max_size ->
  resize n v = Ok (v ++ zreplicate (n - zlen v) Ascii.zero).
Proof.
  intros. unfold resize. zcase; [lia|]. by rewrite ztake_all by lia.
Qed.

Lemma blit_ok data d v :
  d + zlen data <= zlen v ->
  blit data d v = Ok (ztake d v ++ data ++ zdrop (d + zlen data) v).
Proof. intros. unfold blit. zcase; [lia|done]. Qed.

Lemma zlen_blit data d v v' :
  0 <= d -> blit data d v = Ok v' -> zlen v' = zlen v.
Proof.
  intros Hd. unfold blit. zcase; intros; [done|]. res_simpl.
  pose proof (zlen_nonneg data).
  rewrite !zlen_app, zlen_ztake, zlen_zdrop by lia. lia.
Qed.

(** The forward loop moves a block towards the front whether or not the ranges
    overlap: what [memmove] would do. *)
Lemma copy_fwd_move n s d v :
  (d < s)%nat -> (s + n <= length v)%nat ->
  copy_fwd n s d v = Ok (take d v ++ take n (drop s v) ++ drop (d + n) v).
Proof.
  revert s d v. induction n as [|n IH]; intros s d v Hds Hlen; cbn [copy_fwd].
  - rewrite take_0, Nat.add_0_r. cbn [app]. by rewrite take_drop.
  - destruct (lookup_lt_is_Some_2 v s) as [c Hc]; [lia|]. rewrite Hc.
    destruct (Nat.ltb_spec d (length v)); [|lia].
    rewrite IH; [|lia|rewrite length_insert; lia]. f_equal.
    rewrite (take_S_r _ _ c) by (apply list_lookup_insert_eq; lia).
    rewrite take_insert_ge by lia.
    rewrite (drop_insert_lt v (S s)) by lia.
    rewrite (drop_insert_lt v (S d + n)) by lia.
    rewrite (drop_S v c s) by done. cbn [take].
    replace (S d + n)%nat with (d + S n)%nat by lia.
    by rewrite <- app_assoc.
Qed.

End VecFacts.

(** * Lemmas on the buffer *)
Module BufferFacts.
Import Buffer.

Lemma max_size_u64 : Vec.max_size < 2 ^ 64.
Proof. reflexivity. Qed.

Lemma ReadableBytes_wf b : wf b -> ReadableBytes b = write_index_ b - read_index_ b.
Proof.
  unfold wf, ReadableBytes, kCheapPrepend. intros. pose proof max_size_u64.
  apply u64_small. lia.
Qed.

Lemma WriteableBytes_wf b : wf b -> WriteableBytes b = zlen (buffer_ b) - write_index_ b.
Proof.
  unfold wf, WriteableBytes, kCheapPrepend. intros. pose proof max_size_u64.
  apply u64_small. lia.
Qed.

Lemma zlen_content b : wf b -> zlen (content b) = write_index_ b - read_index_ b.
Proof. unfold wf, content, kCheapPrepend. intros. apply zlen_slice; lia. Qed.

Lemma ReadableBytes_content b : wf b -> ReadableBytes b = zlen (content b).
Proof. intros. by rewrite ReadableBytes_wf, zlen_content. Qed.

#[export] Hint Rewrite ReadableBytes_wf WriteableBytes_wf zlen_content
  using assumption : zsize.

(** A record whose storage is [p ++ m ++ s] with the indices around [m] holds
    [m]. *)
Lemma content_mk p m s r w :
  zlen p = r -> zlen p + zlen m = w -> content (mk (p ++ m ++ s) r w) = m.
Proof. intros. unfold content; cbn. by apply slice_app3. Qed.

Lemma storage_split b : wf b ->
  buffer_ b = ztake (read_index_ b) (buffer_ b) ++ content b
              ++ zdrop (write_index_ b) (buffer_ b).
Proof. unfold wf, content, kCheapPrepend. intros. apply slice_split; lia. Qed.

Lemma create_ok n :
  0 <= n <= Vec.max_size - kCheapPrepend ->
  exists b, create n = Ok b /\ wf b /\ content b = [].
Proof.
  unfold create, kCheapPrepend. intros. pose proof max_size_u64.
  rewrite u64_small, VecFacts.resize_grow by (change (@zlen ascii []) with 0; lia).
  change (@zlen ascii []) with 0. cbn. eexists. split; [done|]. split; [|apply slice_empty].
  unfold wf, kCheapPrepend; cbn [buffer_ read_index_ write_index_].
  rewrite zlen_zreplicate; lia.
Qed.

(** ** Retrieving *)

Lemma RetriveAll_wf b : wf b -> wf (RetriveAll b).
Proof. unfold wf, RetriveAll, kCheapPrepend; cbn. lia. Qed.

Lemma RetriveAll_content b : content (RetriveAll b) = [].
Proof. apply slice_empty. Qed.

Lemma Retrive_spec len b : wf b -> 0 <= len ->
  wf (Retrive len b) /\ content (Retrive len b) = zdrop len (content b) /\
  write_index_ (Retrive len b) <= write_index_ b.
Proof.
  intros Hwf Hlen. unfold Retrive. zcase.
  - autorewrite with zsize in *. pose proof max_size_u64.
    pose proof Hwf as [? ?]. unfold wf, kCheapPrepend in *.
    rewrite u64_small by lia. cbn. split; [lia|]. split; [|lia].
    unfold content; cbn. unfold slice, zdrop, ztake.
    rewrite skipn_firstn_comm, drop_drop. f_equal; [|f_equal]; lia.
  - split; [by apply RetriveAll_wf|]. split.
    + rewrite RetriveAll_content, zdrop_all; [done|].
      rewrite <- ReadableBytes_content by done. done.
    + unfold wf, RetriveAll, kCheapPrepend in *; cbn. lia.
Qed.

(** Within the readable bytes a read answers a prefix of the content. *)
Lemma RetriveAsString_ok len b : wf b -> 0 <= len <= zlen (content b) ->
  RetriveAsString len b = Ok (ztake len (content b), Retrive len b).
Proof.
  intros Hwf Hlen. pose proof Hwf as [? ?].
  rewrite zlen_content in Hlen by done.
  unfold RetriveAsString, read_string, kCheapPrepend in *.
  zcase; [lia|]. zcase; [lia|]. cbn. do 2 f_equal.
  unfold content, slice, ztake. rewrite take_take. f_equal. lia.
Qed.

Lemma RetriveAllAsString_ok b : wf b ->
  RetriveAllAsString b = Ok (content b, RetriveAll b).
Proof.
  intros Hwf. unfold RetriveAllAsString.
  rewrite ReadableBytes_content, RetriveAsString_ok by (done || (split; auto with mynet; lia)).
  rewrite ztake_all by lia. do 2 f_equal.
  unfold Retrive. rewrite ReadableBytes_content by done. zcase; [lia|done].
Qed.

(** ** Appending *)

(** The only way an append can fail: neither compaction nor a legal resize makes
    room for [len] more bytes. *)
Definition overflows (b : t) (len : Z) : Prop :=
  Vec.max_size < write_index_ b + len /\
  zlen (buffer_ b) - (write_index_ b - read_index_ b) - kCheapPrepend < len.

Lemma MakeSpace_resize len b : wf b ->
  WriteableBytes b + PrependableBytes b < len + kCheapPrepend ->
  len <= Vec.max_size -> write_index_ b + len <= Vec.max_size ->
  WriteableBytes b < len ->
  exists b', MakeSpace len b = Ok b' /\ wf b' /\ content b' = content b /\
    write_index_ b' = write_index_ b /\ zlen (buffer_ b') = write_index_ b + len.
Proof.
  intros Hwf Hc ? ? Hw. pose proof Hwf as [? ?]. pose proof max_size_u64.
  unfold MakeSpace, PrependableBytes, kCheapPrepend in *.
  autorewrite with zsize in *. rewrite !u64_small by (unfold Vec.max_size in *; lia).
  zcase; [|lia]. rewrite VecFacts.resize_grow by lia. cbn.
  set (k := zreplicate _ _).
  assert (zlen k = write_index_ b + len - zlen (buffer_ b)) as Hk
    by (subst k; apply zlen_zreplicate; lia).
  eexists; split; [done|].
  split; [unfold wf, kCheapPrepend; cbn; rewrite zlen_app; lia|].
  split; [|cbn; rewrite zlen_app; lia].
  rewrite (storage_split b) at 1 by done. rewrite <- !app_assoc.
  apply content_mk; [apply zlen_ztake; lia|].
  rewrite zlen_ztake, zlen_content by (done || lia). lia.
Qed.

Lemma MakeSpace_compact len b : wf b ->
  len + kCheapPrepend <= WriteableBytes b + PrependableBytes b ->
  WriteableBytes b < len -> len <= Vec.max_size ->
  exists b', MakeSpace len b = Ok b' /\ wf b' /\ content b' = content b /\
    write_index_ b' <= write_index_ b /\ zlen (buffer_ b') = zlen (buffer_ b) /\
    len <= WriteableBytes b'.
Proof.
  intros Hwf Hc Hw ?. pose proof Hwf as [? ?]. pose proof max_size_u64.
  unfold MakeSpace, PrependableBytes in *.
  autorewrite with zsize in *. unfold kCheapPrepend in *.
  rewrite !u64_small by (unfold Vec.max_size in *; lia).
  zcase; [lia|]. unfold Vec.copy_within.
  destruct (Z.leb_spec (read_index_ b) 8); [lia|]. cbn [andb].
  rewrite VecFacts.copy_fwd_move by (unfold zlen in *; lia). cbn.
  assert (take (Z.to_nat (write_index_ b - read_index_ b))
    (drop (Z.to_nat (read_index_ b)) (buffer_ b)) = content b) as -> by done.
  set (p := take _ _). set (q := drop _ _).
  assert (zlen p = 8) as Hp by (subst p; apply (zlen_ztake 8); lia).
  assert (zlen q = zlen (buffer_ b) - 8 - (write_index_ b - read_index_ b)) as Hq.
  { subst q. unfold zlen in *. rewrite length_drop. lia. }
  assert (wf (mk (p ++ content b ++ q) 8
    (8 + (write_index_ b - read_index_ b)))) as Hwf'.
  { unfold wf, kCheapPrepend; cbn. rewrite !zlen_app, Hp, Hq, zlen_content by done. lia. }
  eexists; split; [done|]. split; [done|].
  split; [apply content_mk; rewrite ?Hp, ?zlen_content by done; lia|].
  autorewrite with zsize. cbn. rewrite !zlen_app, Hp, Hq, zlen_content by done. lia.
Qed.

(** [EnsureWriteableBytes] makes room and keeps the content. *)
Lemma EnsureWriteableBytes_ok len b : wf b -> 0 <= len <= Vec.max_size ->
  ~ overflows b len ->
  exists b', EnsureWriteableBytes len b = Ok b' /\ wf b' /\ content b' = content b /\
    write_index_ b' <= write_index_ b /\ len <= WriteableBytes b'.
Proof.
  intros Hwf ? Hov. unfold EnsureWriteableBytes. zcase.
  - destruct (decide (len + kCheapPrepend <= WriteableBytes b + PrependableBytes b)).
    + destruct (MakeSpace_compact len b) as (b' & ? & ? & ? & ? & ? & ?); try lia; [done|].
      by exists b'.
    + assert (write_index_ b + len <= Vec.max_size).
      { destruct (decide (write_index_ b + len <= Vec.max_size)); [done|].
        destruct Hov. unfold PrependableBytes, kCheapPrepend in *.
        autorewrite with zsize in *. unfold overflows, kCheapPrepend. lia. }
      destruct (MakeSpace_resize len b) as (b' & ? & Hwf' & ? & ? & ?); try lia; [done|].
      exists b'. split; [done|]. autorewrite with zsize. split_and!; done || lia.
  - exists b. split_and!; done || lia.
Qed.

Lemma EnsureWriteableBytes_overflow len b : wf b -> 0 <= len <= Vec.max_size ->
  overflows b len -> EnsureWriteableBytes len b = Err LengthError.
Proof.
  intros Hwf ? [? Hc]. pose proof Hwf as [? ?]. pose proof max_size_u64.
  unfold EnsureWriteableBytes, MakeSpace, PrependableBytes in *.
  autorewrite with zsize in *. unfold kCheapPrepend in *.
  zcase; [|lia]. rewrite !u64_small by (unfold Vec.max_size in *; lia).
  zcase; [|lia]. unfold Vec.resize. by zcase; [|lia].
Qed.

(** Bytes written into the writable tail, and the write index moved past them,
    extend the content. *)
Lemma refill d b : wf b -> write_index_ b + zlen d <= zlen (buffer_ b) ->
  exists v, Vec.blit d (write_index_ b) (buffer_ b) = Ok v /\
    zlen v = zlen (buffer_ b) /\
    wf (mk v (read_index_ b) (write_index_ b + zlen d)) /\
    content (mk v (read_index_ b) (write_index_ b + zlen d)) = content b ++ d.
Proof.
  intros Hwf Hlen. pose proof Hwf as [? ?]. pose proof (zlen_nonneg d).
  unfold kCheapPrepend in *. rewrite VecFacts.blit_ok by done.
  eexists; split; [done|]. set (v := _ ++ _).
  assert (zlen v = zlen (buffer_ b)) as Hv.
  { subst v. rewrite !zlen_app, zlen_ztake, zlen_zdrop by lia. lia. }
  split_and!; [done| |].
  - unfold wf, kCheapPrepend; cbn. lia.
  - subst v. rewrite (ztake_slice (read_index_ b)) by lia. fold (content b).
    rewrite <- app_assoc, (app_assoc (content b)).
    apply content_mk; rewrite ?zlen_app, ?zlen_content, zlen_ztake by (done || lia); lia.
Qed.

Lemma Append_ok data b : wf b -> zlen data <= Vec.max_size ->
  ~ overflows b (zlen data) ->
  exists b', Append data b = Ok b' /\ wf b' /\ content b' = content b ++ data /\
    write_index_ b' <= write_index_ b + zlen data.
Proof.
  intros Hwf ? Hov. pose proof (zlen_nonneg data).
  destruct (EnsureWriteableBytes_ok (zlen data) b) as (b' & He & Hwf' & Hc & ? & ?);
    [done|lia|done|].
  pose proof Hwf' as [? ?]. autorewrite with zsize in *.
  destruct (refill data b') as (v & Hb & ? & ? & ?); [done|lia|].
  unfold Append. rewrite He; cbn. rewrite Hb; cbn.
  pose proof max_size_u64. unfold kCheapPrepend in *.
  rewrite u64_small by lia. eexists; split_and!; done || cbn; [congruence|lia].
Qed.

End BufferFacts.

(** * The promise of the buffer: a queue of bytes *)
Module ByteQueue.

Inductive op :=
  | OpAppend (data : bytes)
  | OpRetrive (len : Z)
  | OpRetriveAll
  | OpReadString (len : Z)
  | OpReadAll.

(** The specification: the queue's next state and the bytes handed out. *)
Definition spec (o : op) (q : bytes) : bytes * bytes :=
  match o with
  | OpAppend data => ([], q ++ data)
  | OpRetrive len => ([], zdrop len q)
  | OpRetriveAll => ([], [])
  | OpReadString len => (ztake len q, zdrop len q)
  | OpReadAll => (q, [])
  end.

(** The calls a client is entitled to make on a queue holding [q]. *)
Definition legal (o : op) (q : bytes) : Prop :=
  match o with
  | OpAppend data => zlen data <= Vec.max_size
  | OpRetrive len => 0 <= len
  | OpReadString len => 0 <= len <= zlen q
  | OpRetriveAll | OpReadAll => True
  end.

(** The same operations on the buffer itself. *)
Definition exec (o : op) (b : Buffer.t) : result (bytes * Buffer.t) :=
  match o with
  | OpAppend data => b ← Buffer.Append data b; Ok ([], b)
  | OpRetrive len => Ok ([], Buffer.Retrive len b)
  | OpRetriveAll => Ok ([], Buffer.RetriveAll b)
  | OpReadString len => Buffer.RetriveAsString len b
  | OpReadAll => Buffer.RetriveAllAsString b
  end.

Definition size_of (o : op) : Z :=
  match o with OpAppend data => zlen data | _ => 0 end.

Fixpoint appended (os : list op) : Z :=
  match os with [] => 0 | o :: os => size_of o + appended os end.

Fixpoint spec_run (os : list op) (q : bytes) : list bytes * bytes :=
  match os with
  | [] => ([], q)
  | o :: os =>
      let '(out, q) := spec o q in
      let '(outs, q) := spec_run os q in
      (out :: outs, q)
  end.

Fixpoint legal_run (os : list op) (q : bytes) : Prop :=
  match os with
  | [] => True
  | o :: os => legal o q /\ legal_run os (snd (spec o q))
  end.

Fixpoint exec_run (os : list op) (b : Buffer.t) : result (list bytes * Buffer.t) :=
  match os with
  | [] => Ok ([], b)
  | o :: os =>
      '(out, b) ← exec o b;
      '(outs, b) ← exec_run os b;
      Ok (out :: outs, b)
  end.

End ByteQueue.

(** * Properties *)
Module BufferProps.
Import Buffer BufferFacts ByteQueue.

Lemma overflows_le b len : write_index_ b + len <= Vec.max_size -> ~ overflows b len.
Proof. unfold overflows. lia. Qed.

(** Closes what is left of a goal about an emptied buffer. *)
Ltac retrived :=
  first [ done | by apply RetriveAll_wf | by rewrite RetriveAll_content
        | cbn; unfold kCheapPrepend in *; lia ].

(** One operation: the buffer answers what the queue answers. *)
Lemma exec_refines o b : wf b -> legal o (content b) ->
  write_index_ b + size_of o <= Vec.max_size ->
  exists out b', exec o b = Ok (out, b') /\ wf b' /\
    spec o (content b) = (out, content b') /\
    write_index_ b' <= write_index_ b + size_of o.
Proof.
  intros Hwf Hl Hs. pose proof Hwf as [? ?]. pose proof (zlen_nonneg (content b)).
  destruct o as [d|n| |n|]; cbn in *.
  - destruct (Append_ok d b) as (b' & -> & ? & ? & ?); [done|done|by apply overflows_le|].
    cbn. exists [], b'. split_and!; try done. congruence.
  - destruct (Retrive_spec n b) as (? & ? & ?); [done..|].
    exists [], (Retrive n b). split_and!; done || lia || congruence.
  - exists [], (RetriveAll b). split_and!; retrived.
  - destruct (Retrive_spec n b) as (? & ? & ?); [done|lia|].
    rewrite RetriveAsString_ok by done.
    eexists _, _. split_and!; done || lia || congruence.
  - rewrite RetriveAllAsString_ok by done.
    eexists _, _. split_and!; retrived.
Qed.

(** C25: Append succeeds and extends the readable bytes by exactly the appended
    ones, in whichever of its three ways it finds the room, unless no legal
    resize makes room, and then it throws length_error; in particular its
    std::copy and its compaction never leave the storage. *)
Theorem append_correct b data :
  wf b -> zlen data <= Vec.max_size ->
  match Append data b with
  | Ok b' => wf b' /\ content b' = content b ++ data /\ ~ overflows b (zlen data)
  | Err e => e = LengthError /\ overflows b (zlen data)
  end.
Proof.
  intros Hwf Hlen. pose proof (zlen_nonneg data).
  assert (Decision (overflows b (zlen data))) by (unfold overflows; apply _).
  destruct (decide (overflows b (zlen data))) as [Ho|Ho].
  - unfold Append. by rewrite EnsureWriteableBytes_overflow.
  - destruct (Append_ok data b) as (b' & -> & ? & ? & ?); done.
Qed.

(** C24: Any sequence of legal calls on a well-formed buffer, as long as the total
    stays under the vector's size limit, succeeds, keeps the index invariant and
    answers exactly what a plain queue of bytes answers. *)
Theorem buffer_refines_queue os b :
  wf b -> legal_run os (content b) ->
  write_index_ b + appended os <= Vec.max_size ->
  exists outs b', exec_run os b = Ok (outs, b') /\ wf b' /\
    spec_run os (content b) = (outs, content b').
Proof.
  revert b. induction os as [|o os IH]; intros b Hwf Hl Hs; cbn in *.
  - by exists [], b.
  - assert (0 <= appended os) as ?.
    { clear. induction os as [|[] ?]; cbn; try lia. pose proof (zlen_nonneg data). lia. }
    destruct Hl as [Hl Hls].
    destruct (exec_refines o b) as (out & b1 & He & Hwf1 & Hspec & ?); [done..|lia|].
    rewrite Hspec in Hls |- *. cbn in Hls.
    destruct (IH b1) as (outs & b2 & He2 & ? & Hs2); [done|done|lia|].
    rewrite He; cbn. rewrite He2, Hs2; cbn. by eexists _, _.
Qed.

Lemma ReadFd_law readv b :
  wf b -> write_index_ b + 2 * kExtraBuf + zlen (buffer_ b) <= Vec.max_size ->
  (forall cap d, 0 <= cap -> readv cap = ReadData d -> zlen d <= cap) ->
  match readv (read_capacity b) with
  | ReadErr e => ReadFd readv b = Ok (-1, Some e, b)
  | ReadData d => exists b', ReadFd readv b = Ok (zlen d, None, b') /\
                    wf b' /\ content b' = content b ++ d
  end.
Proof.
  intros Hwf Hbig Hk. unfold ReadFd.
  destruct (readv (read_capacity b)) as [d|e] eqn:Er; [|done].
  pose proof Hwf as [? ?]. pose proof max_size_u64.
  pose proof (zlen_nonneg d). set (w := WriteableBytes b) in *.
  assert (w = zlen (buffer_ b) - write_index_ b) as Hw by (by apply WriteableBytes_wf).
  assert (zlen d <= w + kExtraBuf) as Hcap.
  { apply Hk in Er; unfold read_capacity, kExtraBuf in *; fold w in Er |- *;
      destruct (Z.ltb_spec w 65535); lia. }
  clear Er. unfold kCheapPrepend in *. zcase.
  - rewrite ztake_all by lia.
    destruct (refill d b) as (v & -> & ? & ? & ?); [done|lia|]. cbn.
    rewrite u64_small by lia. by eexists.
  - assert (zlen (ztake w d) = w) as Hwd by (apply zlen_ztake; lia).
    destruct (refill (ztake w d) b) as (v & -> & Hv & Hwf1 & Hc1); [done|lia|]. cbn.
    rewrite Hwd in *. replace (zlen v) with (write_index_ b + w) by lia.
    edestruct (Append_ok (zdrop w d)) as (b' & Ha & ? & Hc & ?);
      [exact Hwf1| | |].
    + rewrite zlen_zdrop by lia. unfold kExtraBuf in *. lia.
    + apply overflows_le. cbn. rewrite zlen_zdrop by lia. unfold kExtraBuf in *. lia.
    + rewrite Ha. cbn. exists b'. split_and!; try done.
      by rewrite Hc, Hc1, <- app_assoc, ztake_zdrop.
Qed.

(** C26: Reading from a descriptor appends to the content exactly the bytes the
    kernel delivered, also when they overflow the storage into the stack buffer,
    answers their number, and leaves the buffer alone on an error. *)
Theorem ReadFd_correct readv b :
  wf b -> write_index_ b + 2 * kExtraBuf + zlen (buffer_ b) <= Vec.max_size ->
  (forall cap d, 0 <= cap -> readv cap = ReadData d -> zlen d <= cap) ->
  match readv (read_capacity b) with
  | ReadErr e => ReadFd readv b = Ok (-1, Some e, b)
  | ReadData d => exists b', ReadFd readv b = Ok (zlen d, None, b') /\
                    wf b' /\ content b' = content b ++ d
  end.
Proof. apply ReadFd_law. Qed.

(** RetriveAsString hands out a prefix of the content when asked for no more
    than is readable; asked for more, it hands out the content followed by stale
    storage bytes and forgets everything, and past the end of the storage its
    read is undefined. *)
Theorem RetriveAsString_branches len b :
  wf b -> 0 <= len <= Vec.max_size ->
  RetriveAsString len b =
    if len <=? zlen (content b) then Ok (ztake len (content b), Retrive len b)
    else if read_index_ b + len <=? zlen (buffer_ b) then
      Ok (content b ++ slice (write_index_ b) (read_index_ b + len) (buffer_ b), RetriveAll b)
    else Err (UB OutOfBounds).
Proof.
  intros Hwf Hlen. pose proof Hwf as [? ?]. zcase.
  - apply RetriveAsString_ok; [done|lia].
  - unfold RetriveAsString, read_string.
    assert (Retrive len b = RetriveAll b) as ->.
    { unfold Retrive. rewrite ReadableBytes_content by done. by zcase; [lia|]. }
    rewrite zlen_content in * by done. unfold kCheapPrepend in *.
    zcase; [lia|]. zcase; zcase; try lia; [done|]. cbn. do 2 f_equal.
    unfold content. rewrite (slice_app (read_index_ b) (write_index_ b)) by lia. done.
Qed.

Definition sample : t := mk (zreplicate 10 "x"%char) 8 10.

Lemma append_correct_witness :
  wf sample /\ zlen (str "hello") <= Vec.max_size /\
  match Append (str "hello") sample with
  | Ok b' => wf b' /\ content b' = content sample ++ str "hello"
             /\ ~ overflows sample (zlen (str "hello"))
  | Err e => e = LengthError /\ overflows sample (zlen (str "hello"))
  end.
Proof.
  assert (wf sample) by (vm_compute; repeat split; discriminate).
  assert (zlen (str "hello") <= Vec.max_size) by (vm_compute; discriminate).
  split; [done|]. split; [done|]. by apply (append_correct sample (str "hello")).
Defined.

Lemma buffer_refines_queue_witness :
  exists outs b', exec_run [OpAppend (str "abc"); OpReadString 2; OpAppend (str "d"); OpReadAll]
    (mk (zreplicate 10 "x"%char) 8 8) = Ok (outs, b') /\ wf b' /\
    spec_run [OpAppend (str "abc"); OpReadString 2; OpAppend (str "d"); OpReadAll]
      (content (mk (zreplicate 10 "x"%char) 8 8)) = (outs, content b').
Proof.
  apply buffer_refines_queue; vm_compute; repeat split; discriminate.
Defined.

Lemma ReadFd_correct_witness :
  exists b', ReadFd (fun cap => ReadData (ztake cap (str "0123456789"))) sample
    = Ok (10, None, b') /\ wf b' /\ content b' = content sample ++ str "0123456789".
Proof.
  apply (ReadFd_correct (fun cap => ReadData (ztake cap (str "0123456789"))) sample).
  - vm_compute; repeat split; discriminate.
  - vm_compute; discriminate.
  - intros cap d ? [= <-]. unfold zlen, ztake. rewrite length_take. lia.
Defined.

Lemma RetriveAsString_branches_witness :
  RetriveAsString 3 sample = Err (UB OutOfBounds).
Proof.
  rewrite (RetriveAsString_branches 3 sample); vm_compute; try done.
  all: repeat split; discriminate.
Defined.

End BufferProps.
