(* ===== verification/Channel.v ===== *)
(** Event channels (include/channel.h, src/channel.cc): the interest mask of one
    descriptor, the weak tie to the object that owns the callbacks, and the
    dispatch of the events the poller reported. *)
From Stdlib Require Import ZArith Lia.
From stdpp Require Import base gmap list option.
From S2P Require Import Prelude.

Local Open Scope Z_scope.
Local Open Scope mynet_scope.

Module Channel.

(** The values of <sys/poll.h>, which the file asserts epoll shares. *)
Definition POLLIN : Z := 1.
Definition POLLPRI : Z := 2.
Definition POLLOUT : Z := 4.
Definition POLLERR : Z := 8.
Definition POLLHUP : Z := 16.

Definition kReadEvent : Z := Z.lor POLLIN POLLPRI.
Definition kWriteEvent : Z := POLLOUT.
Definition kNoneEvent : Z := 0.

Section Channel.
(** What a stored [std::function] runs, and what [tie_] points to. *)
Context {CB OBJ : Type}.

Record t := mk {
  fd_ : Z;
  events_ : Z;
  revents_ : Z;
  index_ : Z;
  tie_ : option OBJ;
  tied_ : bool;
  read_event_callback_ : option CB;
  write_event_callback_ : option CB;
  connection_close_callback_ : option CB;
  error_callback_ : option CB;
}.

(** [Channel::Channel(EventLoop* loop, int fd)] *)
Definition create (fd : Z) : t :=
  mk fd 0 0 (-1) None false None None None None.

Definition with_events (e : Z) (c : t) : t :=
  mk (fd_ c) e (revents_ c) (index_ c) (tie_ c) (tied_ c)
    (read_event_callback_ c) (write_event_callback_ c)
    (connection_close_callback_ c) (error_callback_ c).

Definition Set_Revents (r : Z) (c : t) : t :=
  mk (fd_ c) (events_ c) r (index_ c) (tie_ c) (tied_ c)
    (read_event_callback_ c) (write_event_callback_ c)
    (connection_close_callback_ c) (error_callback_ c).

Definition Set_Index (i : Z) (c : t) : t :=
  mk (fd_ c) (events_ c) (revents_ c) i (tie_ c) (tied_ c)
    (read_event_callback_ c) (write_event_callback_ c)
    (connection_close_callback_ c) (error_callback_ c).

(** [Tie]: [tie_ = obj; tied_ = true]. *)
Definition Tie (o : OBJ) (c : t) : t :=
  mk (fd_ c) (events_ c) (revents_ c) (index_ c) (Some o) true
    (read_event_callback_ c) (write_event_callback_ c)
    (connection_close_callback_ c) (error_callback_ c).

(** The four [Set...Callback] calls a constructor makes. *)
Definition SetCallbacks (rd wr cl er : option CB) (c : t) : t :=
  mk (fd_ c) (events_ c) (revents_ c) (index_ c) (tie_ c) (tied_ c) rd wr cl er.

Definition IsNoneEvent (c : t) : bool := events_ c =? kNoneEvent.
Definition IsWriting (c : t) : bool := events_ c &? kWriteEvent.
Definition IsReading (c : t) : bool := events_ c &? kReadEvent.

(** The new value of [events_] in each of the five interest changes; the [Update]
    that follows in each of them is the poller's business. *)
Definition enable_read (e : Z) : Z := Z.lor e kReadEvent.
Definition disable_read (e : Z) : Z := Z.land e (Z.lnot kReadEvent).
Definition enable_write (e : Z) : Z := Z.lor e kWriteEvent.
Definition disable_write (e : Z) : Z := Z.land e (Z.lnot kWriteEvent).
Definition disable_all (_ : Z) : Z := kNoneEvent.

(** ** Dispatch *)

(** The four callbacks a channel can run, in the order the handler tests them. *)
Inductive slot := SClose | SError | SRead | SWrite.

Definition slots : list slot := [SClose; SError; SRead; SWrite].

(** The condition of each of the four [if]s, on [revents_]. *)
Definition slot_cond (s : slot) (r : Z) : bool :=
  match s with
  | SClose => (r &? POLLHUP) && negb (r &? POLLIN)
  | SError => r &? POLLERR
  | SRead => r &? (Z.lor POLLIN POLLPRI)
  | SWrite => r &? POLLOUT
  end.

Definition slot_callback (s : slot) (c : t) : option CB :=
  match s with
  | SClose => connection_close_callback_ c
  | SError => error_callback_ c
  | SRead => read_event_callback_ c
  | SWrite => write_event_callback_ c
  end.

Section Dispatch.
(** The world the callbacks run in: [find c w] is the channel object at address
    [c], gone once its owner has deleted it; [invoke f w] runs a callback. *)
Context {W ADDR : Type}.
Context (find : ADDR -> W -> option t) (invoke : CB -> W -> result W).
Context (alive : OBJ -> W -> bool).

(** One of the four [if]s: the channel is read again each time, because the
    callbacks that ran before may have changed or deleted it. *)
Definition run_slot (c : ADDR) (s : slot) (w : W) : result W :=
  match find c w with
  | None => Err (UB UseAfterFree)
  | Some ch =>
      if slot_cond s (revents_ ch) then
        match slot_callback s ch with
        | Some f => invoke f w
        | None => Ok w
        end
      else Ok w
  end.

Fixpoint run_slots (c : ADDR) (ss : list slot) (w : W) : result W :=
  match ss with
  | [] => Ok w
  | s :: ss => w ← run_slot c s w; run_slots c ss w
  end.

Definition HandleEventWithGuard (c : ADDR) (w : W) : result W := run_slots c slots w.

(** [HandleEvent]: [tie_.lock()] is non-null while the tied object is alive. *)
Definition HandleEvent (c : ADDR) (w : W) : result W :=
  match find c w with
  | None => Err (UB UseAfterFree)
  | Some ch =>
      if tied_ ch then
        match tie_ ch with
        | Some o => if alive o w then HandleEventWithGuard c w else Ok w
        | None => Ok w
        end
      else HandleEventWithGuard c w
  end.

End Dispatch.
End Channel.

Arguments t : clear implicits.

End Channel.

(** * Lemmas *)
Module ChannelFacts.
Import Channel.

Section Facts.
Context {CB OBJ : Type}.
Implicit Types (c : Channel.t CB OBJ).

(** Equal up to what a poller may change: the index. *)
Definition same_but_index c1 c2 : Prop := Set_Index 0 c1 = Set_Index 0 c2.

#[export] Instance same_but_index_equiv : Equivalence same_but_index.
Proof. split; repeat intro; unfold same_but_index in *; congruence. Qed.

Lemma Set_Index_same i c : same_but_index (Set_Index i c) c.
Proof. reflexivity. Qed.

#[export] Instance with_events_proper e :
  Proper (same_but_index ==> same_but_index) (with_events e).
Proof.
  intros [] [] H. unfold same_but_index, Set_Index, with_events in *. cbn in *.
  by injection H as -> -> -> -> -> -> -> -> ->.
Qed.

#[export] Instance Set_Revents_proper r :
  Proper (same_but_index ==> same_but_index) (Set_Revents r).
Proof.
  intros [] [] H. unfold same_but_index, Set_Index, Set_Revents in *. cbn in *.
  by injection H as -> -> -> -> -> -> -> -> ->.
Qed.

#[export] Instance events_proper : Proper (same_but_index ==> eq) (@events_ CB OBJ).
Proof. intros [] [] H. by injection H. Qed.
#[export] Instance fd_proper : Proper (same_but_index ==> eq) (@fd_ CB OBJ).
Proof. intros [] [] H. by injection H. Qed.
#[export] Instance IsWriting_proper : Proper (same_but_index ==> eq) (@IsWriting CB OBJ).
Proof. intros c1 c2 H. unfold IsWriting. by rewrite H. Qed.

(** What a channel's owner set up, and the events last reported. *)
Definition wiring c : Z * Z * (option CB * option CB * option CB * option CB) :=
  (fd_ c, revents_ c,
   (read_event_callback_ c, write_event_callback_ c, connection_close_callback_ c, error_callback_ c)).

#[export] Instance wiring_proper : Proper (same_but_index ==> eq) wiring.
Proof. intros [] [] H. unfold wiring. cbn. by injection H as -> -> -> -> -> -> -> -> ->. Qed.

Lemma with_events_self c : with_events (events_ c) c = c.
Proof. by destruct c. Qed.

Lemma with_events_twice e1 e2 c : with_events e2 (with_events e1 c) = with_events e2 c.
Proof. done. Qed.

End Facts.

(** ** Dispatch *)

(** What every callback keeps, the whole dispatch keeps. *)
Lemma HandleEvent_keeps {CB OBJ W ADDR : Type} (find : ADDR -> W -> option (Channel.t CB OBJ))
    (invoke : CB -> W -> result W) (alive : OBJ -> W -> bool) (R : relation W) `{!PreOrder R} c w w' :
  (forall f w w', invoke f w = Ok w' -> R w w') ->
  HandleEvent find invoke alive c w = Ok w' -> R w w'.
Proof.
  intros Hinv. assert (forall s w w', run_slot find invoke c s w = Ok w' -> R w w') as Hslot.
  { intros s w1 w2. unfold run_slot. destruct (find c w1) as [ch|]; [|done].
    destruct (slot_cond _ _); [|by intros [= <-]]. destruct (slot_callback _ _); [by apply Hinv|by intros [= <-]]. }
  assert (forall ss w w', run_slots find invoke c ss w = Ok w' -> R w w') as Hslots.
  { induction ss as [|s ss IH]; intros w1 w2; cbn; [by intros [= <-]|].
    destruct (run_slot find invoke c s w1) as [w3|] eqn:E; [|done]. cbn. intros Hr.
    transitivity w3; [by eapply Hslot|by apply IH]. }
  unfold HandleEvent. destruct (find c w) as [ch|]; [|done]. destruct (tied_ ch); [|by apply Hslots].
  destruct (tie_ ch) as [o|]; [|by intros [= <-]]. destruct (alive o w); [by apply Hslots|by intros [= <-]].
Qed.

(** ** The interest mask *)

(** A test against a single flag reads one bit. *)
Lemma bit_and_flag e i : 0 <= i -> bit_and e (2 ^ i) = Z.testbit e i.
Proof.
  intros Hi. unfold bit_and.
  assert (Z.land e (2 ^ i) = if Z.testbit e i then 2 ^ i else 0) as ->.
  { apply Z.bits_inj'. intros j Hj. rewrite Z.land_spec, Z.pow2_bits_eqb by lia.
    destruct (Z.eqb_spec i j) as [->|].
    - rewrite andb_true_r. destruct (Z.testbit e j) eqn:E; [|by rewrite Z.bits_0].
      by rewrite Z.pow2_bits_true by lia.
    - rewrite andb_false_r. destruct (Z.testbit e i); [|by rewrite Z.bits_0].
      by rewrite Z.pow2_bits_false by lia. }
  destruct (Z.testbit e i); [|done].
  pose proof (Z.pow_pos_nonneg 2 i). destruct (Z.eqb_spec (2 ^ i) 0); [lia|done].
Qed.

Lemma writing_bit e : bit_and e kWriteEvent = Z.testbit e 2.
Proof. by apply (bit_and_flag e 2). Qed.

Lemma writing_enable_write e : bit_and (enable_write e) kWriteEvent = true.
Proof. rewrite writing_bit. unfold enable_write. rewrite Z.lor_spec. apply orb_true_r. Qed.

Lemma writing_disable_write e : bit_and (disable_write e) kWriteEvent = false.
Proof. rewrite writing_bit. unfold disable_write. rewrite Z.land_spec. apply andb_false_r. Qed.

Lemma writing_enable_read e : bit_and (enable_read e) kWriteEvent = bit_and e kWriteEvent.
Proof. rewrite !writing_bit. unfold enable_read. rewrite Z.lor_spec. apply orb_false_r. Qed.

Lemma writing_disable_all e : bit_and (disable_all e) kWriteEvent = false.
Proof. done. Qed.

End ChannelFacts.

#[export] Hint Rewrite ChannelFacts.writing_enable_write ChannelFacts.writing_disable_write
  ChannelFacts.writing_enable_read ChannelFacts.writing_disable_all : mask.

(** * Properties *)
Module ChannelProps.
Import Channel.

Section Props.
Context {CB OBJ W ADDR : Type}.
Context (find : ADDR -> W -> option (Channel.t CB OBJ)).
Context (invoke : CB -> W -> result W) (alive : OBJ -> W -> bool).

(** The callbacks that are due on a channel, in order. *)
Definition due (ch : Channel.t CB OBJ) : list CB :=
  omap (fun s => if slot_cond s (revents_ ch) then slot_callback s ch else None) slots.

Fixpoint invoke_all (fs : list CB) (w : W) : result W :=
  match fs with
  | [] => Ok w
  | f :: fs => w ← invoke f w; invoke_all fs w
  end.

(** The channel at [c] is still there, for the same descriptor, with the same reported
    events and the same callbacks; its mask and its index may be others. *)
Definition wired (c : ADDR) (ch : Channel.t CB OBJ) (w : W) : Prop :=
  exists ch', find c w = Some ch' /\ ChannelFacts.wiring ch' = ChannelFacts.wiring ch.

Lemma run_slot_wired c ch s w : wired c ch w ->
  run_slot find invoke c s w =
    match (if slot_cond s (revents_ ch) then slot_callback s ch else None) with
    | Some f => invoke f w
    | None => Ok w
    end.
Proof.
  intros (ch' & Hf & Hw). unfold run_slot. rewrite Hf. unfold ChannelFacts.wiring in Hw.
  injection Hw as _ Hr H1 H2 H3 H4. rewrite Hr.
  replace (slot_callback s ch') with (slot_callback s ch) by (by destruct s).
  by destruct (slot_cond _ _).
Qed.

Lemma run_slots_due c ch ss w : wired c ch w ->
  let fs := omap (fun s => if slot_cond s (revents_ ch) then slot_callback s ch else None) ss in
  (forall f w w', f ∈ fs -> invoke f w = Ok w' -> wired c ch w -> wired c ch w') ->
  run_slots find invoke c ss w = invoke_all fs w.
Proof.
  cbv zeta. revert w. induction ss as [|s ss IH]; intros w Hw Hpres; [done|].
  cbn [run_slots]. rewrite (run_slot_wired c ch) by done. cbn [omap list_omap] in *.
  destruct (if slot_cond _ _ then _ else _) as [f|]; cbn [invoke_all].
  - destruct (invoke f w) as [w1|] eqn:E; [|done]. cbn [mbind result_bind]. apply IH.
    + eapply Hpres; [by left|done|done].
    + intros g w2 w3 Hg. apply Hpres. by right.
  - cbn [mbind result_bind]. by apply IH.
Qed.


End Props.

(** A full set of callbacks, named by their slot. *)
Definition sample (revents : Z) : Channel.t slot unit :=
  Set_Revents revents (SetCallbacks (Some SRead) (Some SWrite) (Some SClose) (Some SError)
    (create 5)).

(** A peer that closed and left nothing to read closes; one that left data is
    read first; an error is reported before the data is read. *)
Example due_hangup : due (sample POLLHUP) = [SClose].
Proof. reflexivity. Qed.
Example due_hangup_in : due (sample (Z.lor POLLHUP POLLIN)) = [SRead].
Proof. reflexivity. Qed.
Example due_all : due (sample 31) = [SError; SRead; SWrite].
Proof. reflexivity. Qed.

(** A channel whose callbacks do to it what a connection's do, each leaving its mark: closing
    clears the mask and takes it out of the poller, reading starts a write. *)
Definition sample_find (c : unit) (w : Channel.t slot unit * list slot) : option (Channel.t slot unit) := Some w.1.
Definition sample_invoke (s : slot) (w : Channel.t slot unit * list slot) :
    result (Channel.t slot unit * list slot) :=
  let ch := match s with
            | SClose => Set_Index 2 (with_events (disable_all (events_ w.1)) w.1)
            | SRead => with_events (enable_write (events_ w.1)) w.1
            | SWrite => with_events (disable_write (events_ w.1)) w.1
            | SError => w.1
            end in
  Ok (ch, w.2 ++ [s]).


End ChannelProps.
