(* ===== verification/Poller.v ===== *)
(** The interface of an IO multiplexer (include/poller.h, src/poller.cc,
    src/default_poller.cc): the operations an event loop calls on whichever poller
    it owns, and the laws a client of the interface may rely on. The two
    implementations are in EpollPoller.v and PollPoller.v. *)
From Stdlib Require Import ZArith Lia.
From stdpp Require Import base gmap list option.
From S2P Require Import Prelude Channel.

Local Open Scope Z_scope.

(** The address of a heap object. *)
Abbreviation ptr := positive.

Section Interface.
Context {CB OBJ : Type}.

(** The channel objects of one loop, by address: a [Channel*] of the sources is a
    key of this map, and dereferencing it a lookup. *)
Abbreviation chans := (gmap ptr (Channel.t CB OBJ)).

(** [Poller::UpdateChannel], [Poller::RemoveChannel] (pure virtual in the
    sources) and [Poller::HasChannel]. *)
Class Poller (P : Type) := {
  UpdateChannel : ptr -> chans -> P -> result (chans * P);
  RemoveChannel : ptr -> chans -> P -> result (chans * P);
  channel_maps_of : P -> gmap Z ptr;
}.

Definition HasChannel {P} `{Poller P} (c : ptr) (cs : chans) (p : P) : bool :=
  match cs !! c with
  | Some ch => bool_decide (channel_maps_of p !! Channel.fd_ ch = Some c)
  | None => false
  end.

(** The channel objects of two maps agree except for their indices. *)
Definition same_chans (cs1 cs2 : chans) : Prop :=
  forall c, option_relation ChannelFacts.same_but_index (const False) (const False)
    (cs1 !! c) (cs2 !! c).

(** What a poller promises. [interest p fd] is the event mask the kernel is asked
    to watch [fd] for; [usable p c ch] says that channel [ch] at [c] may be
    handed to [UpdateChannel]: it is either unknown to the poller, its descriptor
    being free, or already managed by it; [can_watch p fd], that the kernel accepts
    the descriptor if it is not watched yet. *)
Class PollerLaws (P : Type) `{Poller P} := {
  poller_inv : chans -> P -> Prop;
  interest : P -> Z -> Z;
  usable : P -> ptr -> Channel.t CB OBJ -> Prop;
  managed : P -> ptr -> Channel.t CB OBJ -> Prop;
  can_watch : P -> Z -> Prop;

  managed_usable p c ch : managed p c ch -> usable p c ch;

  (** A poller looks at a channel's descriptor, mask and index only. *)
  usable_ext p c ch ch' :
    Channel.fd_ ch = Channel.fd_ ch' -> Channel.index_ ch = Channel.index_ ch' ->
    usable p c ch -> usable p c ch';
  managed_ext p c ch ch' :
    Channel.fd_ ch = Channel.fd_ ch' -> Channel.index_ ch = Channel.index_ ch' ->
    managed p c ch -> managed p c ch';
  touch_law cs p c ch ch' :
    poller_inv cs p -> cs !! c = Some ch -> Channel.fd_ ch = Channel.fd_ ch' ->
    Channel.index_ ch = Channel.index_ ch' -> Channel.events_ ch = Channel.events_ ch' ->
    poller_inv (<[c := ch']> cs) p;

  (** A channel that was just constructed is nothing to the poller yet. *)
  new_law cs p c fd :
    poller_inv cs p -> cs !! c = None -> poller_inv (<[c := Channel.create fd]> cs) p;

  (** It becomes usable if no other channel object has its descriptor. *)
  usable_new cs p c ch :
    poller_inv cs p -> cs !! c = Some ch -> Channel.index_ ch = -1 ->
    (forall d chd, d <> c -> cs !! d = Some chd -> Channel.fd_ chd <> Channel.fd_ ch) ->
    can_watch p (Channel.fd_ ch) -> usable p c ch;

  (** A descriptor all of whose channels are new is not watched. *)
  unwatched_law cs p fd :
    poller_inv cs p ->
    (forall c ch, cs !! c = Some ch -> Channel.fd_ ch = fd -> Channel.index_ ch = -1) ->
    interest p fd = 0;

  (** Changing a channel's mask and updating it installs that mask, for that
      descriptor only, never aborts, and leaves the other channels as they are to
      the poller. *)
  update_law cs p c ch e :
    poller_inv cs p -> cs !! c = Some ch -> usable p c ch -> 0 <= e ->
    exists cs' p' ch',
      UpdateChannel c (<[c := Channel.with_events e ch]> cs) p = Ok (cs', p') /\
      poller_inv cs' p' /\ same_chans (<[c := Channel.with_events e ch]> cs) cs' /\
      cs' !! c = Some ch' /\ managed p' c ch' /\
      interest p' (Channel.fd_ ch) = e /\
      (forall fd, fd <> Channel.fd_ ch -> interest p' fd = interest p fd) /\
      (forall d chd chd', d <> c -> cs !! d = Some chd -> cs' !! d = Some chd' ->
         (managed p d chd -> managed p' d chd') /\
         (Channel.index_ chd = -1 -> Channel.index_ chd' = -1));

  (** Removing a managed channel stops the kernel watching its descriptor, and does
      as little to the others. *)
  remove_law cs p c ch :
    poller_inv cs p -> cs !! c = Some ch -> managed p c ch ->
    exists cs' p',
      RemoveChannel c cs p = Ok (cs', p') /\ same_chans cs cs' /\
      poller_inv (delete c cs') p' /\
      interest p' (Channel.fd_ ch) = 0 /\
      (forall fd, fd <> Channel.fd_ ch -> interest p' fd = interest p fd) /\
      (forall d chd chd', d <> c -> cs !! d = Some chd -> cs' !! d = Some chd' ->
         (managed p d chd -> managed p' d chd') /\
         (Channel.index_ chd = -1 -> Channel.index_ chd' = -1));
}.

(** What calls on the channel at [c], of descriptor [fd], leave alone: the other
    channel objects but for their indices, the poller's hold on them, and the interest
    in other descriptors. *)
Definition others {P} `{PollerLaws P} (c : ptr) (fd : Z) (cs : chans) (p : P) (cs' : chans) (p' : P) : Prop :=
  (forall d, d <> c -> option_relation ChannelFacts.same_but_index (const False) (const False)
     (cs !! d) (cs' !! d)) /\
  (forall d chd chd', d <> c -> cs !! d = Some chd -> cs' !! d = Some chd' ->
     (managed p d chd -> managed p' d chd') /\
     (Channel.index_ chd = -1 -> Channel.index_ chd' = -1)) /\
  (forall fd', fd' <> fd -> interest p' fd' = interest p fd').

Lemma same_chans_refl cs : same_chans cs cs.
Proof. intros c. destruct (cs !! c); cbn; done. Qed.

Lemma same_chans_insert cs c ch1 ch2 :
  ChannelFacts.same_but_index ch1 ch2 -> cs !! c = Some ch1 -> same_chans cs (<[c := ch2]> cs).
Proof.
  intros Hs Hc d. destruct (decide (c = d)) as [<-|].
  - by rewrite lookup_insert_eq, Hc.
  - rewrite lookup_insert_ne by done. by destruct (cs !! d).
Qed.

Lemma same_chans_lookup cs cs' c ch :
  same_chans cs cs' -> cs !! c = Some ch ->
  exists ch', cs' !! c = Some ch' /\ ChannelFacts.same_but_index ch ch'.
Proof.
  intros Hs Hc. specialize (Hs c). rewrite Hc in Hs.
  destruct (cs' !! c); cbn in Hs; [eauto|done].
Qed.

Lemma others_refl {P} `{PollerLaws P} c fd cs (p : P) : others c fd cs p cs p.
Proof.
  split_and!; [|by intros d chd chd' _ -> [= ->]|done].
  intros d _. by destruct (cs !! d).
Qed.

Lemma others_trans {P} `{PollerLaws P} c fd cs (p : P) cs1 p1 cs2 p2 :
  others c fd cs p cs1 p1 -> others c fd cs1 p1 cs2 p2 -> others c fd cs p cs2 p2.
Proof.
  intros (Hs1 & Hk1 & Hi1) (Hs2 & Hk2 & Hi2). split_and!.
  - intros d Hd. specialize (Hs1 d Hd). specialize (Hs2 d Hd).
    destruct (cs !! d), (cs1 !! d), (cs2 !! d); cbn in *; try done. by etrans.
  - intros d chd chd2 Hd E E2. specialize (Hs1 d Hd). rewrite E in Hs1.
    destruct (cs1 !! d) as [chd1|] eqn:E1; [|done].
    destruct (Hk1 d chd chd1 Hd E E1), (Hk2 d chd1 chd2 Hd E1 E2). auto.
  - intros fd' Hf. by rewrite Hi2, Hi1.
Qed.

(** So does a change of the channel object itself. *)
Lemma others_touch {P} `{PollerLaws P} c fd ch' cs (p : P) : others c fd cs p (<[c := ch']> cs) p.
Proof.
  split_and!; [| |done].
  - intros d Hd. rewrite lookup_insert_ne by done. by destruct (cs !! d).
  - intros d chd chd' Hd. rewrite lookup_insert_ne by done. by intros -> [= ->].
Qed.

(** And deleting it. *)
Lemma others_delete {P} `{PollerLaws P} c fd cs (p : P) cs' p' :
  others c fd cs p cs' p' -> others c fd cs p (delete c cs') p'.
Proof.
  intros (Hs & Hk & Hi). split_and!; [| |done].
  - intros d Hd. rewrite lookup_delete_ne by done. by apply Hs.
  - intros d chd chd' Hd Hc. rewrite lookup_delete_ne by done. by apply Hk.
Qed.

(** Both operations of a poller leave the others alone. *)
Lemma others_update {P} `{PollerLaws P} c (ch ch1 : Channel.t CB OBJ) cs (p : P) cs' p' :
  same_chans (<[c := ch1]> cs) cs' ->
  (forall d chd chd', d <> c -> cs !! d = Some chd -> cs' !! d = Some chd' ->
     (managed p d chd -> managed p' d chd') /\ (Channel.index_ chd = -1 -> Channel.index_ chd' = -1)) ->
  (forall fd', fd' <> Channel.fd_ ch -> interest p' fd' = interest p fd') ->
  others c (Channel.fd_ ch) cs p cs' p'.
Proof.
  intros Hs Hk Hi. split_and!; [|done|done]. intros d Hd. specialize (Hs d).
  by rewrite lookup_insert_ne in Hs.
Qed.

Lemma others_remove {P} `{PollerLaws P} c fd cs (p : P) cs' p' :
  same_chans cs cs' ->
  (forall d chd chd', d <> c -> cs !! d = Some chd -> cs' !! d = Some chd' ->
     (managed p d chd -> managed p' d chd') /\ (Channel.index_ chd = -1 -> Channel.index_ chd' = -1)) ->
  (forall fd', fd' <> fd -> interest p' fd' = interest p fd') ->
  others c fd cs p cs' p'.
Proof. intros Hs Hk Hi. split_and!; [|done|done]. intros d _. apply Hs. Qed.

End Interface.

#[export] Hint Resolve same_chans_refl others_refl others_trans : mynet.
