(* ===== verification/EpollPoller.v ===== *)
(** The epoll multiplexer (include/epoll_poller.h, src/epoll_poller.cc) over an
    abstract kernel: the channel map, the three-valued index of a channel, the
    choice between add, modify and delete, and the collection of ready channels.
    It is proved to implement the poller interface. *)
From Stdlib Require Import ZArith Lia.
From stdpp Require Import base gmap list option.
From S2P Require Import Prelude Channel Poller.

Local Open Scope Z_scope.

(** * The kernel's epoll interface *)

Inductive ctl_op := EPOLL_CTL_ADD | EPOLL_CTL_MOD | EPOLL_CTL_DEL.

#[export] Instance ctl_op_eq_dec : EqDecision ctl_op.
Proof. solve_decision. Defined.

(** [epoll_ctl op fd events data] answers whether the call succeeded;
    [epoll_wait maxevents timeout] answers the ready list, or the errno of a
    failed call. [registered] is the kernel's interest list and [watchable] the
    descriptors that are open and can be polled. *)
Class Epoll (K : Type) := {
  epoll_ctl : ctl_op -> Z -> Z -> ptr -> K -> bool * K;
  epoll_wait : Z -> Z -> K -> (list (Z * ptr) + Z) * K;
  registered : K -> gmap Z (Z * ptr);
  watchable : K -> Z -> Prop;
}.

(** What epoll_ctl(2) and epoll_wait(2) document, resource exhaustion aside. *)
Class EpollLaws (K : Type) `{Epoll K} := {
  ctl_add k fd e p : watchable k fd -> registered k !! fd = None ->
    exists k', epoll_ctl EPOLL_CTL_ADD fd e p k = (true, k') /\
      registered k' = <[fd := (e, p)]> (registered k);
  ctl_add_dup k fd e p x : registered k !! fd = Some x ->
    (epoll_ctl EPOLL_CTL_ADD fd e p k).1 = false;
  ctl_mod k fd e p x : registered k !! fd = Some x ->
    exists k', epoll_ctl EPOLL_CTL_MOD fd e p k = (true, k') /\
      registered k' = <[fd := (e, p)]> (registered k);
  ctl_mod_absent k fd e p : registered k !! fd = None ->
    (epoll_ctl EPOLL_CTL_MOD fd e p k).1 = false;
  ctl_del k fd e p x : registered k !! fd = Some x ->
    exists k', epoll_ctl EPOLL_CTL_DEL fd e p k = (true, k') /\
      registered k' = delete fd (registered k);
  ctl_watchable k op fd e p fd' :
    watchable k fd' -> watchable (epoll_ctl op fd e p k).2 fd';
  wait_registered k n t : registered (epoll_wait n t k).2 = registered k;
  wait_ready k n t evs : (epoll_wait n t k).1 = inl evs ->
    zlen evs <= n /\
    forall ev p, (ev, p) ∈ evs -> exists fd e, registered k !! fd = Some (e, p);
}.

Module EpollPoller.

(** The meaning of a channel's index for this poller. *)
Definition kNew : Z := -1.
Definition kAdded : Z := 1.
Definition kDeleted : Z := 2.

Definition kInitEventSize : Z := 16.

Section EpollPoller.
Context {CB OBJ K : Type} `{EK : Epoll K}.
Implicit Types (cs : gmap ptr (Channel.t CB OBJ)) (ch : Channel.t CB OBJ).

(** [channel_maps_], the size of [events_], and the kernel object behind
    [epoll_fd_]. *)
Record t := mk {
  channel_maps_ : gmap Z ptr;
  events_size : Z;
  kernel : K;
}.

(** The constructor's effect once [epoll_create1] gave an empty instance. *)
Definition create (k : K) : t := mk ∅ kInitEventSize k.

(** [EpollPoller::Update]: a failed delete is logged, any other failure is fatal. *)
Definition Update (op : ctl_op) (c : ptr) (ch : Channel.t CB OBJ) (p : t) : result t :=
  let '(ok, k) := epoll_ctl op (Channel.fd_ ch) (Channel.events_ ch) c (kernel p) in
  if ok then Ok (mk (channel_maps_ p) (events_size p) k)
  else match op with
       | EPOLL_CTL_DEL => Ok (mk (channel_maps_ p) (events_size p) k)
       | _ => Err Aborted
       end.

(** [EpollPoller::UpdateChannel] *)
Definition UpdateChannel (c : ptr) cs (p : t) : result (gmap ptr (Channel.t CB OBJ) * t) :=
  match cs !! c with
  | None => Err (UB UseAfterFree)
  | Some ch =>
      let index := Channel.index_ ch in
      if (index =? kNew) || (index =? kDeleted) then
        let p := if index =? kNew
                 then mk (<[Channel.fd_ ch := c]> (channel_maps_ p)) (events_size p) (kernel p)
                 else p in
        p ← Update EPOLL_CTL_ADD c (Channel.Set_Index kAdded ch) p;
        Ok (<[c := Channel.Set_Index kAdded ch]> cs, p)
      else if Channel.IsNoneEvent ch then
        p ← Update EPOLL_CTL_DEL c ch p;
        Ok (<[c := Channel.Set_Index kDeleted ch]> cs, p)
      else
        p ← Update EPOLL_CTL_MOD c ch p;
        Ok (cs, p)
  end.

(** [EpollPoller::RemoveChannel] *)
Definition RemoveChannel (c : ptr) cs (p : t) : result (gmap ptr (Channel.t CB OBJ) * t) :=
  match cs !! c with
  | None => Err (UB UseAfterFree)
  | Some ch =>
      let p := mk (delete (Channel.fd_ ch) (channel_maps_ p)) (events_size p) (kernel p) in
      p ← (if Channel.index_ ch =? kAdded then Update EPOLL_CTL_DEL c ch p else Ok p);
      Ok (<[c := Channel.Set_Index kNew ch]> cs, p)
  end.

(** [EpollPoller::FillActiveChannels]: stores the reported mask in each ready
    channel and lists the channels in the kernel's order. *)
Fixpoint FillActiveChannels (evs : list (Z * ptr)) cs : result (gmap ptr (Channel.t CB OBJ) * list ptr) :=
  match evs with
  | [] => Ok (cs, [])
  | (ev, c) :: evs =>
      match cs !! c with
      | None => Err (UB UseAfterFree)
      | Some ch =>
          '(cs, active) ← FillActiveChannels evs (<[c := Channel.Set_Revents ev ch]> cs);
          Ok (cs, c :: active)
      end
  end.

(** [EpollPoller::Polling]: the active list, and the event array doubled when the
    kernel filled it. A failed wait reports no channel. *)
Definition Polling (timeout_ms : Z) cs (p : t) : result (gmap ptr (Channel.t CB OBJ) * list ptr * t) :=
  let '(r, k) := epoll_wait (events_size p) timeout_ms (kernel p) in
  match r with
  | inl [] | inr _ => Ok (cs, [], mk (channel_maps_ p) (events_size p) k)
  | inl evs =>
      '(cs, active) ← FillActiveChannels evs cs;
      let n := if zlen evs =? events_size p then events_size p * 2 else events_size p in
      Ok (cs, active, mk (channel_maps_ p) n k)
  end.

(** ** The invariant: a channel's index says where the poller and the kernel keep
    it, and the kernel's interest list is the added channels' masks. *)

Definition maps_ok cs (maps : gmap Z ptr) : Prop :=
  forall fd c, maps !! fd = Some c <->
    exists ch, cs !! c = Some ch /\ Channel.fd_ ch = fd /\
      (Channel.index_ ch = kAdded \/ Channel.index_ ch = kDeleted).

Definition reg_ok cs (reg : gmap Z (Z * ptr)) : Prop :=
  forall fd e c, reg !! fd = Some (e, c) <->
    exists ch, cs !! c = Some ch /\ Channel.fd_ ch = fd /\
      Channel.index_ ch = kAdded /\ Channel.events_ ch = e.

Definition index_ok cs : Prop :=
  forall c ch, cs !! c = Some ch ->
    Channel.index_ ch = kNew \/ Channel.index_ ch = kAdded \/
    (Channel.index_ ch = kDeleted /\ Channel.events_ ch = Channel.kNoneEvent).

Definition inv cs (p : t) : Prop :=
  maps_ok cs (channel_maps_ p) /\ reg_ok cs (registered (kernel p)) /\ index_ok cs.

(** The mask the kernel watches a descriptor for. *)
Definition watched (p : t) (fd : Z) : Z :=
  match registered (kernel p) !! fd with Some (e, _) => e | None => 0 end.

Definition attached (p : t) (c : ptr) ch : Prop :=
  watchable (kernel p) (Channel.fd_ ch) /\
  channel_maps_ p !! Channel.fd_ ch = Some c.

Definition attachable (p : t) (c : ptr) ch : Prop :=
  attached p c ch \/
  (watchable (kernel p) (Channel.fd_ ch) /\
   channel_maps_ p !! Channel.fd_ ch = None /\ Channel.index_ ch = kNew).

End EpollPoller.

Arguments t : clear implicits.
End EpollPoller.

(** * Lemmas *)
Module EpollFacts.
Import EpollPoller.

Section Facts.
Context {CB OBJ K : Type} `{EL : EpollLaws K}.
Implicit Types (cs : gmap ptr (Channel.t CB OBJ)) (ch : Channel.t CB OBJ) (p : EpollPoller.t K).

Lemma maps_ok_insert cs maps c ch ch' :
  maps_ok cs maps -> cs !! c = Some ch -> Channel.fd_ ch' = Channel.fd_ ch ->
  Channel.index_ ch' = kAdded \/ Channel.index_ ch' = kDeleted ->
  maps !! Channel.fd_ ch = Some c \/ maps !! Channel.fd_ ch = None ->
  maps_ok (<[c := ch']> cs) (<[Channel.fd_ ch := c]> maps).
Proof.
  intros Hm Hc Hfd Hix Hfree fd d. rewrite lookup_insert, (lookup_insert cs).
  pose proof (Hm fd d) as Hd. pose proof (Hm (Channel.fd_ ch) d) as Hd'.
  repeat case_decide; subst; naive_solver congruence.
Qed.

Lemma reg_ok_insert cs reg c ch ch' :
  reg_ok cs reg -> cs !! c = Some ch -> Channel.fd_ ch' = Channel.fd_ ch ->
  Channel.index_ ch' = kAdded ->
  reg !! Channel.fd_ ch = None \/ (exists e, reg !! Channel.fd_ ch = Some (e, c)) ->
  reg_ok (<[c := ch']> cs) (<[Channel.fd_ ch := (Channel.events_ ch', c)]> reg).
Proof.
  intros Hr Hc Hfd Hix Hfree fd e d. rewrite lookup_insert, (lookup_insert cs).
  pose proof (Hr fd e d) as Hd. pose proof (Hr (Channel.fd_ ch) e d) as Hd'.
  repeat case_decide; subst; naive_solver congruence.
Qed.

Lemma reg_ok_delete cs reg c ch ch' :
  reg_ok cs reg -> cs !! c = Some ch -> Channel.fd_ ch' = Channel.fd_ ch ->
  Channel.index_ ch' <> kAdded ->
  reg !! Channel.fd_ ch = None \/ (exists e, reg !! Channel.fd_ ch = Some (e, c)) ->
  reg_ok (<[c := ch']> cs) (delete (Channel.fd_ ch) reg).
Proof.
  intros Hr Hc Hfd Hix Hfree fd e d. rewrite lookup_delete, (lookup_insert cs).
  pose proof (Hr fd e d) as Hd. pose proof (Hr (Channel.fd_ ch) e d) as Hd'.
  repeat case_decide; subst; naive_solver congruence.
Qed.

Lemma index_ok_insert cs c ch' :
  index_ok cs ->
  Channel.index_ ch' = kNew \/ Channel.index_ ch' = kAdded \/
    (Channel.index_ ch' = kDeleted /\ Channel.events_ ch' = Channel.kNoneEvent) ->
  index_ok (<[c := ch']> cs).
Proof.
  intros Hi Hix d chd. rewrite lookup_insert. case_decide; [naive_solver|apply Hi].
Qed.

(** What the kernel holds for a channel, from the channel's index alone. *)
Lemma reg_added cs p c ch : inv cs p -> cs !! c = Some ch ->
  Channel.index_ ch = kAdded ->
  registered (kernel p) !! Channel.fd_ ch = Some (Channel.events_ ch, c).
Proof. intros (_ & Hr & _) Hc Hix. apply Hr. by exists ch. Qed.

Lemma reg_not_added cs p c ch : inv cs p -> cs !! c = Some ch -> attachable p c ch ->
  Channel.index_ ch <> kAdded -> registered (kernel p) !! Channel.fd_ ch = None.
Proof.
  intros (Hm & Hr & _) Hc Ha Hix.
  destruct (registered (kernel p) !! Channel.fd_ ch) as [[e d]|] eqn:E; [|done].
  exfalso. apply Hr in E as (chd & Hd & Hfd & Hixd & _).
  assert (channel_maps_ p !! Channel.fd_ ch = Some d) by (apply Hm; eauto).
  destruct Ha as [[_ ?]|(_ & ? & _)]; naive_solver congruence.
Qed.

Lemma reg_free cs p c ch : inv cs p -> cs !! c = Some ch -> attachable p c ch ->
  registered (kernel p) !! Channel.fd_ ch = None \/
  exists e, registered (kernel p) !! Channel.fd_ ch = Some (e, c).
Proof.
  intros Hi Hc Ha. destruct (decide (Channel.index_ ch = kAdded)).
  - right. eexists. by eapply reg_added.
  - left. by eapply reg_not_added.
Qed.

Lemma ctl_watchable' k op fd e c k' b fd' :
  epoll_ctl op fd e c k = (b, k') -> watchable k fd' -> watchable k' fd'.
Proof. intros Hop. pose proof (ctl_watchable k op fd e c fd') as Hw. by rewrite Hop in Hw. Qed.

(** The index of an attachable channel decides which branch [UpdateChannel]
    takes. *)
Lemma attachable_index cs p c ch : inv cs p -> cs !! c = Some ch -> attachable p c ch ->
  (Channel.index_ ch = kNew /\ channel_maps_ p !! Channel.fd_ ch = None) \/
  (Channel.index_ ch = kDeleted /\ channel_maps_ p !! Channel.fd_ ch = Some c) \/
  (Channel.index_ ch = kAdded /\ channel_maps_ p !! Channel.fd_ ch = Some c).
Proof.
  intros (Hm & Hr & Hi) Hc [[_ Hf]|(_ & ? & ?)]; [|by left].
  apply Hm in Hf as Hf'. naive_solver.
Qed.

Lemma inv_intro cs p c ch ch' p' :
  inv cs p -> cs !! c = Some ch -> attachable p c ch ->
  Channel.fd_ ch' = Channel.fd_ ch ->
  channel_maps_ p' = <[Channel.fd_ ch := c]> (channel_maps_ p) ->
  (Channel.index_ ch' = kAdded /\
     registered (kernel p') = <[Channel.fd_ ch := (Channel.events_ ch', c)]> (registered (kernel p))
   \/ Channel.index_ ch' = kDeleted /\ Channel.events_ ch' = Channel.kNoneEvent /\
     registered (kernel p') = delete (Channel.fd_ ch) (registered (kernel p))) ->
  inv (<[c := ch']> cs) p'.
Proof.
  intros Hi Hc Ha Hfd Hm Hr. pose proof (reg_free cs p c ch Hi Hc Ha) as Hfree.
  pose proof (attachable_index cs p c ch Hi Hc Ha) as Hix.
  destruct Hi as (Hi1 & Hi2 & Hi3). unfold inv. rewrite Hm. split_and!.
  - eapply maps_ok_insert; naive_solver.
  - destruct Hr as [[? ->]|(Hd & ? & ->)]; [by eapply reg_ok_insert|].
    eapply reg_ok_delete; try done. by rewrite Hd.
  - apply index_ok_insert; naive_solver.
Qed.

(** ** The two operations *)

(** What a call left behind for channel [ch] at [c]: the index [ch'] and the
    kernel's entry agree with the new mask. *)
Definition updated p c ch ch' p' : Prop :=
  channel_maps_ p' = <[Channel.fd_ ch := c]> (channel_maps_ p) /\
  (forall fd, watchable (kernel p) fd -> watchable (kernel p') fd) /\
  (Channel.index_ ch' = kAdded /\
     registered (kernel p') =
       <[Channel.fd_ ch := (Channel.events_ ch', c)]> (registered (kernel p))
   \/ Channel.index_ ch' = kDeleted /\ Channel.events_ ch' = Channel.kNoneEvent /\
     registered (kernel p') = delete (Channel.fd_ ch) (registered (kernel p))).

Ltac solve_update Hix Hk :=
  unfold UpdateChannel; rewrite lookup_insert_eq; cbn; rewrite Hix; cbn;
  unfold Update, Channel.IsNoneEvent; cbn; rewrite ?Hk; cbn; by rewrite insert_insert_eq.

(** A channel the kernel does not watch is added. *)
Lemma UpdateChannel_add cs p c ch e :
  inv cs p -> cs !! c = Some ch -> attachable p c ch -> Channel.index_ ch <> kAdded ->
  exists p', UpdateChannel c (<[c := Channel.with_events e ch]> cs) p =
      Ok (<[c := Channel.Set_Index kAdded (Channel.with_events e ch)]> cs, p') /\
    updated p c ch (Channel.Set_Index kAdded (Channel.with_events e ch)) p'.
Proof.
  intros Hi Hc Ha Hna.
  assert (watchable (kernel p) (Channel.fd_ ch)) as Hw by (destruct Ha as [[]|[]]; done).
  destruct (ctl_add (kernel p) (Channel.fd_ ch) e c) as (k' & Hk & Hr);
    [done|by eapply reg_not_added|].
  assert (forall fd, watchable (kernel p) fd -> watchable k' fd) by (by eauto using ctl_watchable').
  destruct (attachable_index cs p c ch Hi Hc Ha) as [[Hix Hf]|[[Hix Hf]|[Hix Hf]]]; [..|done].
  - exists (mk (<[Channel.fd_ ch := c]> (channel_maps_ p)) (events_size p) k').
    split; [solve_update Hix Hk|]. split_and!; [done..|by left].
  - exists (mk (channel_maps_ p) (events_size p) k').
    split; [solve_update Hix Hk|]. split_and!; [cbn; by rewrite insert_id|done|by left].
Qed.

(** A watched channel is modified, or deleted from the kernel's list when it
    wants no event. *)
Lemma UpdateChannel_mod cs p c ch e :
  inv cs p -> cs !! c = Some ch -> attachable p c ch -> Channel.index_ ch = kAdded ->
  exists ch' p', UpdateChannel c (<[c := Channel.with_events e ch]> cs) p =
      Ok (<[c := ch']> cs, p') /\
    ChannelFacts.same_but_index (Channel.with_events e ch) ch' /\ updated p c ch ch' p'.
Proof.
  intros Hi Hc Ha Hix. pose proof (reg_added cs p c ch Hi Hc Hix) as Hreg.
  assert (watchable (kernel p) (Channel.fd_ ch)) as Hw by (destruct Ha as [[]|[]]; done).
  assert (channel_maps_ p !! Channel.fd_ ch = Some c).
  { destruct (attachable_index cs p c ch Hi Hc Ha) as [[E ?]|[[E ?]|[E ?]]]; rewrite ?Hix in E; done. }
  destruct (Z.eqb_spec e 0) as [->|He].
  - destruct (ctl_del (kernel p) (Channel.fd_ ch) 0 c _ Hreg) as (k' & Hk & Hr).
    eexists (Channel.Set_Index kDeleted (Channel.with_events 0 ch)),
      (mk (channel_maps_ p) (events_size p) k').
    split; [solve_update Hix Hk|]. split; [done|].
    split_and!; [cbn; by rewrite insert_id|by eauto using ctl_watchable'|by right].
  - destruct (ctl_mod (kernel p) (Channel.fd_ ch) e c _ Hreg) as (k' & Hk & Hr).
    exists (Channel.with_events e ch), (mk (channel_maps_ p) (events_size p) k').
    split.
    { unfold UpdateChannel. rewrite lookup_insert_eq. cbn. rewrite Hix. cbn.
      unfold Channel.IsNoneEvent. cbn. destruct (Z.eqb_spec e Channel.kNoneEvent); [done|].
      unfold Update. cbn. by rewrite Hk. }
    split; [done|].
    split_and!; [cbn; by rewrite insert_id|by eauto using ctl_watchable'|by left].
Qed.

Lemma epoll_UpdateChannel_law cs p c ch e :
  inv cs p -> cs !! c = Some ch -> attachable p c ch ->
  exists cs' p' ch',
    UpdateChannel c (<[c := Channel.with_events e ch]> cs) p = Ok (cs', p') /\
    inv cs' p' /\ same_chans (<[c := Channel.with_events e ch]> cs) cs' /\
    cs' !! c = Some ch' /\ attached p' c ch' /\
    watched p' (Channel.fd_ ch) = e /\
    (forall fd, fd <> Channel.fd_ ch -> watched p' fd = watched p fd) /\
    (forall d chd chd', d <> c -> cs !! d = Some chd -> cs' !! d = Some chd' ->
       (attached p d chd -> attached p' d chd') /\
       (Channel.index_ chd = -1 -> Channel.index_ chd' = -1)).
Proof.
  intros Hi Hc Ha. set (ch1 := Channel.with_events e ch).
  assert (exists ch' p', UpdateChannel c (<[c := ch1]> cs) p = Ok (<[c := ch']> cs, p') /\
    ChannelFacts.same_but_index ch1 ch' /\ updated p c ch ch' p')
    as (ch' & p' & Hup & Hs & Hm & Hw & Hr).
  { destruct (decide (Channel.index_ ch = kAdded)).
    - by apply UpdateChannel_mod.
    - destruct (UpdateChannel_add cs p c ch e) as (p' & ? & ?); [done..|]. by eexists _, p'. }
  pose proof (ChannelFacts.events_proper _ _ Hs) as He.
  pose proof (ChannelFacts.fd_proper _ _ Hs) as Hfd. cbn in He, Hfd.
  exists (<[c := ch']> cs), p', ch'. split_and!; [done| | | | | | |].
  - by eapply inv_intro.
  - rewrite <- (insert_insert_eq cs c ch' ch1).
    eapply same_chans_insert; [done|apply lookup_insert_eq].
  - apply lookup_insert_eq.
  - unfold attached. rewrite <- Hfd, Hm, lookup_insert_eq. split; [|done]. apply Hw.
    by destruct Ha as [[]|[]].
  - unfold watched. destruct Hr as [[_ ->]|(_ & Hz & ->)].
    + by rewrite lookup_insert_eq.
    + rewrite lookup_delete_eq. by rewrite He, Hz.
  - intros fd ?. unfold watched. destruct Hr as [[_ ->]|(_ & _ & ->)].
    + by rewrite lookup_insert_ne by done.
    + by rewrite lookup_delete_ne by done.
  - intros d chd chd' Hne Hd. rewrite lookup_insert_ne, Hd by done. intros [= <-]. split; [|done].
    intros [Hwd Hfd']. split; [by apply Hw|]. rewrite Hm, lookup_insert_ne; [done|].
    intros Heq. rewrite <- Heq in Hfd'. destruct Ha as [[_ ?]|(_ & ? & _)]; congruence.
Qed.

Lemma delete_insert_lookup cs c ch d x :
  delete c (<[c := ch]> cs) !! d = Some x <-> d <> c /\ cs !! d = Some x.
Proof.
  rewrite lookup_delete. case_decide; [naive_solver|].
  rewrite lookup_insert_ne by done. naive_solver.
Qed.

Lemma epoll_RemoveChannel_law cs p c ch :
  inv cs p -> cs !! c = Some ch -> attached p c ch ->
  exists cs' p',
    RemoveChannel c cs p = Ok (cs', p') /\ same_chans cs cs' /\
    inv (delete c cs') p' /\ watched p' (Channel.fd_ ch) = 0 /\
    (forall fd, fd <> Channel.fd_ ch -> watched p' fd = watched p fd) /\
    (forall d chd chd', d <> c -> cs !! d = Some chd -> cs' !! d = Some chd' ->
       (attached p d chd -> attached p' d chd') /\
       (Channel.index_ chd = -1 -> Channel.index_ chd' = -1)).
Proof.
  intros Hi Hc Ha. pose proof (reg_free cs p c ch Hi Hc (or_introl Ha)) as Hfree.
  assert (exists p', RemoveChannel c cs p = Ok (<[c := Channel.Set_Index kNew ch]> cs, p') /\
    channel_maps_ p' = delete (Channel.fd_ ch) (channel_maps_ p) /\
    registered (kernel p') = delete (Channel.fd_ ch) (registered (kernel p)) /\
    (forall fd, watchable (kernel p) fd -> watchable (kernel p') fd))
    as (p' & Hrm & Hm & Hr & Hws).
  { unfold RemoveChannel. rewrite Hc. destruct (Z.eqb_spec (Channel.index_ ch) kAdded) as [Hix|Hix].
    - pose proof (reg_added cs p c ch Hi Hc Hix) as Hreg.
      destruct (ctl_del (kernel p) (Channel.fd_ ch) (Channel.events_ ch) c _ Hreg)
        as (k' & Hk & Hr).
      unfold Update. cbn. rewrite Hk. cbn. eexists. split_and!; try done. cbn. by eauto using ctl_watchable'.
    - cbn. eexists. split_and!; [done|done| |done]. cbn.
      rewrite delete_id; [done|]. eapply reg_not_added; try done. by left. }
  destruct Hi as (Hi1 & Hi2 & Hi3). destruct Ha as [Hw Hf].
  eexists _, p'. split_and!; [done|by apply (same_chans_insert cs c ch)| | | |].
  - unfold inv. rewrite Hm, Hr. split_and!.
    + intros fd d. rewrite lookup_delete. pose proof (Hi1 fd d).
      setoid_rewrite delete_insert_lookup. case_decide; subst; naive_solver congruence.
    + intros fd e d. rewrite lookup_delete. pose proof (Hi2 fd e d).
      setoid_rewrite delete_insert_lookup. 
      pose proof (Hi1 (Channel.fd_ ch) d). case_decide; subst; naive_solver congruence.
    + intros d chd [? Hd]%delete_insert_lookup. by eapply Hi3.
  - unfold watched. by rewrite Hr, lookup_delete_eq.
  - intros fd ?. unfold watched. by rewrite Hr, lookup_delete_ne by done.
  - intros d chd chd' Hne Hd. rewrite lookup_insert_ne, Hd by done. intros [= <-]. split; [|done].
    intros [Hwd Hfd']. split; [by apply Hws|]. rewrite Hm, lookup_delete_ne; [done|]. congruence.
Qed.

(** A new channel with a descriptor of its own is in neither table. *)
Lemma epoll_usable_new cs p c ch : inv cs p -> cs !! c = Some ch -> Channel.index_ ch = -1 ->
  (forall d chd, d <> c -> cs !! d = Some chd -> Channel.fd_ chd <> Channel.fd_ ch) ->
  watchable (kernel p) (Channel.fd_ ch) -> attachable p c ch.
Proof.
  intros (Hm & _ & _) Hc Hix Hne Hw. right. split_and!; [done| |done].
  destruct (channel_maps_ p !! Channel.fd_ ch) as [d|] eqn:E; [|done].
  apply Hm in E as (chd & Hd & Hfd & Hxd). destruct (decide (d = c)) as [->|Hdc].
  - simplify_eq. rewrite Hix in Hxd. by destruct Hxd.
  - by destruct (Hne d chd Hdc Hd).
Qed.

Lemma epoll_unwatched cs p fd : inv cs p ->
  (forall c ch, cs !! c = Some ch -> Channel.fd_ ch = fd -> Channel.index_ ch = -1) ->
  watched p fd = 0.
Proof.
  intros (_ & Hr & _) Hn. unfold watched.
  destruct (registered (kernel p) !! fd) as [[e d]|] eqn:E; [|done].
  apply Hr in E as (ch & Hc & Hfd & Hix & _). by rewrite (Hn d ch Hc Hfd) in Hix.
Qed.

#[export] Instance epoll_poller : Poller (EpollPoller.t K) := {
  Poller.UpdateChannel := UpdateChannel (CB := CB) (OBJ := OBJ);
  Poller.RemoveChannel := RemoveChannel;
  Poller.channel_maps_of := channel_maps_;
}.

(** The epoll poller keeps every promise of the interface. *)
(** The invariant looks at three fields of a channel. *)
Lemma epoll_inv_touch cs p c ch ch' :
  inv cs p -> cs !! c = Some ch -> Channel.fd_ ch = Channel.fd_ ch' ->
  Channel.index_ ch = Channel.index_ ch' -> Channel.events_ ch = Channel.events_ ch' ->
  inv (<[c := ch']> cs) p.
Proof.
  intros (Hm & Hr & Hx) Hc Hf Hi He. split_and!.
  - intros fd d. rewrite (Hm fd d). destruct (decide (c = d)) as [<-|].
    + rewrite lookup_insert_eq, Hc. split; intros (ch0 & [= <-] & H1 & H2);
        eexists; (split; [done|]); by rewrite ?Hf, ?Hi in *.
    + by rewrite lookup_insert_ne.
  - intros fd e d. rewrite (Hr fd e d). destruct (decide (c = d)) as [<-|].
    + rewrite lookup_insert_eq, Hc. split; intros (ch0 & [= <-] & H1 & H2);
        eexists; (split; [done|]); by rewrite ?Hf, ?Hi, ?He in *.
    + by rewrite lookup_insert_ne.
  - intros d ch1. destruct (decide (c = d)) as [<-|].
    + rewrite lookup_insert_eq. intros [= <-]. rewrite <- Hi, <- He. eauto.
    + rewrite lookup_insert_ne by done. eauto.
Qed.

Lemma epoll_inv_new cs p c fd : inv cs p -> cs !! c = None -> inv (<[c := Channel.create fd]> cs) p.
Proof.
  intros (Hm & Hr & Hx) Hc. split_and!.
  - intros fd' d. rewrite (Hm fd' d). destruct (decide (c = d)) as [<-|].
    + rewrite lookup_insert_eq, Hc. split; [naive_solver|].
      intros (ch & [= <-] & _ & [?|?]); discriminate.
    + by rewrite lookup_insert_ne.
  - intros fd' e d. rewrite (Hr fd' e d). destruct (decide (c = d)) as [<-|].
    + rewrite lookup_insert_eq, Hc. split; [naive_solver|].
      intros (ch & [= <-] & _ & ? & _); discriminate.
    + by rewrite lookup_insert_ne.
  - intros d ch1. destruct (decide (c = d)) as [<-|].
    + rewrite lookup_insert_eq. intros [= <-]. by left.
    + rewrite lookup_insert_ne by done. eauto.
Qed.

Lemma attached_ext p c ch ch' :
  Channel.fd_ ch = Channel.fd_ ch' -> Channel.index_ ch = Channel.index_ ch' ->
  attached p c ch -> attached p c ch'.
Proof. unfold attached. by intros -> _. Qed.

Lemma epoll_attachable_ext p c ch ch' :
  Channel.fd_ ch = Channel.fd_ ch' -> Channel.index_ ch = Channel.index_ ch' ->
  attachable p c ch -> attachable p c ch'.
Proof. unfold attachable, attached. by intros -> ->. Qed.

#[export] Instance epoll_poller_laws : PollerLaws (EpollPoller.t K) := {
  poller_inv := inv (CB := CB) (OBJ := OBJ);
  interest := watched;
  usable := attachable;
  managed := attached;
  can_watch := fun p fd => watchable (kernel p) fd;
  usable_new := epoll_usable_new;
  unwatched_law := epoll_unwatched;
  managed_usable := fun p c ch H => or_introl H;
  usable_ext := epoll_attachable_ext;
  managed_ext := attached_ext;
  touch_law := epoll_inv_touch;
  new_law := epoll_inv_new;
  update_law := fun cs p c ch e Hi Hc Hu _ => epoll_UpdateChannel_law cs p c ch e Hi Hc Hu;
  remove_law := epoll_RemoveChannel_law;
}.

End Facts.
End EpollFacts.

(** * A concrete kernel: what epoll(7) documents, with a given ready list *)
Module SimpleEpoll.

Record t := mk {
  reg : gmap Z (Z * ptr);
  ready : list (Z * ptr);
}.

Definition ctl (op : ctl_op) (fd e : Z) (c : ptr) (k : t) : bool * t :=
  match op, reg k !! fd with
  | EPOLL_CTL_ADD, None | EPOLL_CTL_MOD, Some _ => (true, mk (<[fd := (e, c)]> (reg k)) (ready k))
  | EPOLL_CTL_DEL, Some _ => (true, mk (delete fd (reg k)) (ready k))
  | _, _ => (false, k)
  end.

Definition known (k : t) (x : Z * ptr) : bool :=
  existsb (fun y : Z * (Z * ptr) => bool_decide (y.2.2 = x.2)) (map_to_list (reg k)).

Definition wait (n : Z) (timeout : Z) (k : t) : (list (Z * ptr) + Z) * t :=
  if n <=? 0 then (inr 22, k)
  else (inl (ztake n (List.filter (known k) (ready k))), k).

#[export] Instance epoll : Epoll t := {
  epoll_ctl := ctl; epoll_wait := wait; registered := reg; watchable := fun _ _ => True;
}.

Lemma known_reg k ev c : known k (ev, c) = true -> exists fd e, reg k !! fd = Some (e, c).
Proof.
  unfold known. rewrite existsb_exists. intros ([fd [e d]] & Hin & Hd).
  apply bool_decide_eq_true in Hd. cbn in Hd. subst d. exists fd, e.
  by apply elem_of_map_to_list, list_elem_of_In.
Qed.

#[export] Instance epoll_laws : EpollLaws t.
Proof.
  split; cbn; unfold ctl.
  - intros k fd e p _ ->. by eexists.
  - intros k fd e p x ->. done.
  - intros k fd e p x ->. by eexists.
  - intros k fd e p ->. done.
  - intros k fd e p x ->. by eexists.
  - done.
  - intros k n t. unfold wait. by destruct (n <=? 0).
  - intros k n t evs. unfold wait. destruct (Z.leb_spec n 0); [done|].
    intros [= <-]. split.
    + unfold zlen, ztake. rewrite length_take. lia.
    + intros ev p Hin. apply (known_reg k ev).
      unfold ztake in Hin. apply elem_of_take in Hin as (i & Hin & _).
      apply list_elem_of_lookup_2, list_elem_of_In, filter_In in Hin. by destruct Hin.
Qed.

End SimpleEpoll.
#[export] Existing Instances SimpleEpoll.epoll SimpleEpoll.epoll_laws.

(** * Properties *)
Module EpollProps.
Import EpollPoller EpollFacts.

Section Props.
Context {CB OBJ K : Type} `{EL : EpollLaws K}.
Implicit Types (cs : gmap ptr (Channel.t CB OBJ)) (ch : Channel.t CB OBJ) (p : EpollPoller.t K).

(** C19: Updating a channel after any change of its mask keeps the agreement
    between indices, channel map and kernel, never aborts, and leaves the kernel
    watching that descriptor for exactly the new mask and every other descriptor
    as before. *)
Theorem epoll_update_correct cs p c ch e :
  inv cs p -> cs !! c = Some ch -> attachable p c ch ->
  exists cs' p', UpdateChannel c (<[c := Channel.with_events e ch]> cs) p = Ok (cs', p') /\
    inv cs' p' /\ watched p' (Channel.fd_ ch) = e /\
    (forall fd, fd <> Channel.fd_ ch -> watched p' fd = watched p fd).
Proof.
  intros Hi Hc Ha. destruct (epoll_UpdateChannel_law cs p c ch e) as (cs' & p' & ch' & ?);
    naive_solver.
Qed.

(** A second channel object on a descriptor the kernel already watches cannot
    be added: the update ends the process. *)
Theorem epoll_update_taken_fd cs p c ch x :
  cs !! c = Some ch -> Channel.index_ ch = kNew ->
  registered (kernel p) !! Channel.fd_ ch = Some x ->
  UpdateChannel c cs p = Err Aborted.
Proof.
  intros Hc Hix Hr. unfold UpdateChannel. rewrite Hc, Hix. cbn.
  unfold Update. cbn.
  pose proof (ctl_add_dup (kernel p) (Channel.fd_ ch) (Channel.events_ ch) c x Hr) as Hd.
  destruct (epoll_ctl _ _ _ _ _) as [ok k]. cbn in Hd. by rewrite Hd.
Qed.

Lemma FillActiveChannels_spec evs cs :
  (forall ev c, (ev, c) ∈ evs -> is_Some (cs !! c)) ->
  FillActiveChannels evs cs =
    Ok (foldl (fun cs x => alter (Channel.Set_Revents x.1) x.2 cs) cs evs, evs.*2).
Proof.
  revert cs. induction evs as [|[ev c] evs IH]; intros cs Hin; [done|]. cbn.
  destruct (Hin ev c) as [ch Hc]; [set_solver|]. rewrite Hc.
  assert (<[c := Channel.Set_Revents ev ch]> cs = alter (Channel.Set_Revents ev) c cs) as ->.
  { apply map_eq. intros d. rewrite lookup_insert, lookup_alter. case_decide; [|done].
    subst. by rewrite Hc. }
  rewrite IH; [done|]. intros ev' d Hd. rewrite lookup_alter.
  destruct (Hin ev' d) as [? Hd']; [set_solver|].
  case_decide; subst; rewrite ?Hc, ?Hd'; by eexists.
Qed.

(** Storing what a channel received changes neither the map nor the kernel. *)
Lemma inv_alter_revents cs p c r :
  inv cs p -> inv (alter (Channel.Set_Revents r) c cs) p.
Proof.
  assert (forall d x, alter (Channel.Set_Revents r) c cs !! d = Some x <->
    exists y, cs !! d = Some y /\ x = (if decide (d = c) then Channel.Set_Revents r y else y)) as Hl.
  { intros d x. rewrite lookup_alter. 
    destruct (cs !! d) eqn:E; repeat case_decide; subst; rewrite ?E; cbn; naive_solver. }
  intros (Hm & Hr & Hix). split_and!.
  - intros fd d. rewrite (Hm fd d). setoid_rewrite Hl.
    split; [intros (y & ? & ?); eexists; split; [by eexists|]|intros (? & (y & ? & ->) & ?); exists y];
      case_decide; done.
  - intros fd e d. rewrite (Hr fd e d). setoid_rewrite Hl.
    split; [intros (y & ? & ?); eexists; split; [by eexists|]|intros (? & (y & ? & ->) & ?); exists y];
      case_decide; done.
  - intros d x (y & Hy & ->)%Hl. specialize (Hix d y Hy). by case_decide.
Qed.

(** Polling touches no channel the poller does not manage: it answers the
    kernel's ready channels in the kernel's order with their reported masks
    stored, an empty list when the wait failed or timed out, keeps the invariant,
    and doubles the event array exactly when the kernel filled it. *)
Theorem epoll_polling_correct cs p timeout :
  inv cs p -> 0 < events_size p ->
  let '(r, k) := epoll_wait (events_size p) timeout (kernel p) in
  let evs := match r with inl evs => evs | inr _ => [] end in
  exists cs' p', Polling timeout cs p = Ok (cs', evs.*2, p') /\
    cs' = foldl (fun cs x => alter (Channel.Set_Revents x.1) x.2 cs) cs evs /\
    inv cs' p' /\
    events_size p' = (if zlen evs =? events_size p then 2 * events_size p else events_size p).
Proof.
  intros Hi Hpos.
  pose proof (wait_registered (kernel p) (events_size p) timeout) as Hreg.
  pose proof (wait_ready (kernel p) (events_size p) timeout) as Hready.
  unfold Polling. destruct (epoll_wait _ _ _) as [r k]. cbn in Hreg, Hready.
  assert (forall n, inv cs (mk (channel_maps_ p) n k)) as Hik.
  { intros n. destruct Hi as (? & ? & ?). split_and!; cbn; [done|by rewrite Hreg|done]. }
  assert (forall n evs cs, inv cs (mk (channel_maps_ p) n k) ->
    inv (foldl (fun cs x => alter (Channel.Set_Revents x.1) x.2 cs) cs evs)
      (mk (channel_maps_ p) n k)) as Hfold.
  { intros n evs. induction evs as [|x evs IH]; cbn; intros cs0 ?; [done|].
    by apply IH, inv_alter_revents. }
  destruct r as [[|x evs]|e].
  - eexists _, _. split; [done|]. cbn. change (zlen []) with 0.
    destruct (Z.eqb_spec 0 (events_size p)); [lia|]. by split_and!.
  - destruct (Hready (x :: evs)) as [_ Hin]; [done|].
    rewrite FillActiveChannels_spec.
    2:{ intros ev c (fd & e & Hk)%Hin. rewrite <- Hreg in Hk.
        destruct (Hik 0) as (_ & Hr & _). apply Hr in Hk. naive_solver. }
    cbn [mbind result_bind]. eexists _, _. split; [done|]. split; [done|].
    split; [by apply Hfold|]. cbn. destruct (_ =? _); lia.
  - eexists _, _. split; [done|]. cbn. change (zlen []) with 0.
    destruct (Z.eqb_spec 0 (events_size p)); [lia|]. by split_and!.
Qed.

End Props.

(** One connection channel on descriptor 7, watched for reading. *)
Definition ch7 : Channel.t unit unit :=
  Channel.Set_Index kAdded (Channel.with_events 3 (Channel.create 7)).
Definition cs7 : gmap ptr (Channel.t unit unit) := {[1%positive := ch7]}.
Definition p7 : EpollPoller.t SimpleEpoll.t :=
  mk {[7 := 1%positive]} 16 (SimpleEpoll.mk {[7 := (3, 1%positive)]} [(1, 1%positive)]).

Lemma inv_p7 : inv cs7 p7.
Proof.
  unfold inv, maps_ok, reg_ok, index_ok, cs7, p7; cbn. split_and!.
  - intros fd c. rewrite lookup_singleton_Some. setoid_rewrite lookup_singleton_Some.
    unfold ch7. naive_solver.
  - intros fd e c. rewrite lookup_singleton_Some. setoid_rewrite lookup_singleton_Some.
    unfold ch7. naive_solver.
  - intros c ch. rewrite lookup_singleton_Some. unfold ch7. naive_solver.
Qed.

Lemma epoll_update_correct_witness :
  exists cs' p', UpdateChannel 1%positive (<[1%positive := Channel.with_events 7 ch7]> cs7) p7
      = Ok (cs', p') /\ inv cs' p' /\ watched p' 7 = 7 /\
    (forall fd, fd <> 7 -> watched p' fd = watched p7 fd).
Proof.
  apply (epoll_update_correct cs7 p7 1%positive ch7 7); [apply inv_p7|done|].
  left. split; [exact I|reflexivity].
Defined.

Lemma epoll_update_taken_fd_witness :
  UpdateChannel 2%positive (<[2%positive := Channel.create 7]> cs7) p7 = Err Aborted.
Proof.
  apply (epoll_update_taken_fd _ p7 2%positive (Channel.create 7) (3, 1%positive)); reflexivity.
Defined.

Lemma epoll_polling_correct_witness :
  exists cs' p', Polling 100 cs7 p7 = Ok (cs', [1%positive], p') /\
    cs' = alter (Channel.Set_Revents 1) 1%positive cs7 /\ inv cs' p' /\ events_size p' = 16.
Proof.
  exact (epoll_polling_correct cs7 p7 100 inv_p7 eq_refl).
Defined.

End EpollProps.
