(* ===== verification/PollPoller.v ===== *)
(** The poll(2) multiplexer (include/poll_poller.h, src/poll_poller.cc): a vector of
    pollfd entries, a channel's index being its position in it, removal by swapping
    with the last entry. It is proved to implement the same poller interface as the
    epoll one. *)
From Stdlib Require Import ZArith Lia.
From stdpp Require Import base gmap list option.
From S2P Require Import Prelude Channel Poller.

Local Open Scope Z_scope.

Module PollPoller.

(** [struct pollfd] *)
Record pollfd := mk_pollfd {
  pfd : Z;
  pevents : Z;
  prevents : Z;
}.

Record t := mk {
  channel_maps_ : gmap Z ptr;
  poll_list_ : list pollfd;
}.

Definition create : t := mk ∅ [].

Definition EINTR : Z := 4.

Section PollPoller.
Context {CB OBJ : Type}.
Implicit Types (cs : gmap ptr (Channel.t CB OBJ)) (ch : Channel.t CB OBJ) (p : t).

(** [PollPoller::UpdateChannel]: a channel with a negative index gets a new entry
    at the back, any other overwrites the entry at its index. *)
Definition UpdateChannel (c : ptr) cs p : result (gmap ptr (Channel.t CB OBJ) * t) :=
  match cs !! c with
  | None => Err (UB UseAfterFree)
  | Some ch =>
      let entry := mk_pollfd (Channel.fd_ ch) (Channel.events_ ch) 0 in
      if Channel.index_ ch <? 0 then
        let l := poll_list_ p ++ [entry] in
        let ch' := Channel.Set_Index (i32 (zlen l - 1)) ch in
        Ok (<[c := ch']> cs, mk (<[Channel.fd_ ch := c]> (channel_maps_ p)) l)
      else
        let idx := Z.to_nat (Channel.index_ ch) in
        match poll_list_ p !! idx with
        | None => Err (UB OutOfBounds)
        | Some _ => Ok (cs, mk (channel_maps_ p) (<[idx := entry]> (poll_list_ p)))
        end
  end.

(** [v.pop_back()] on the empty vector is undefined. *)
Definition pop_back (l : list pollfd) : result (list pollfd) :=
  match l with
  | [] => Err (UB OutOfBounds)
  | _ => Ok (removelast l)
  end.

(** [PollPoller::RemoveChannel]: the comparison of the [int] index with the
    [size_t] size is unsigned. Neither the channel map nor the removed channel's
    index is touched. *)
Definition RemoveChannel (c : ptr) cs p : result (gmap ptr (Channel.t CB OBJ) * t) :=
  match cs !! c with
  | None => Err (UB UseAfterFree)
  | Some ch =>
      let l := poll_list_ p in
      let idx := Channel.index_ ch in
      if u64 idx =? u64 (zlen l - 1) then
        l ← pop_back l;
        Ok (cs, mk (channel_maps_ p) l)
      else
        match l !! Nat.pred (length l), l !! Z.to_nat idx with
        | Some back, Some e =>
            if idx <? 0 then Err (UB InvalidIterators)
            else
              let l := <[Z.to_nat idx := back]> (<[Nat.pred (length l) := e]> l) in
              match channel_maps_ p !! pfd back with
              | None => Err (UB NullDeref)
              | Some d =>
                  match cs !! d with
                  | None => Err (UB UseAfterFree)
                  | Some chd =>
                      l ← pop_back l;
                      Ok (<[d := Channel.Set_Index idx chd]> cs, mk (channel_maps_ p) l)
                  end
              end
        | None, _ => Err (UB OutOfBounds)
        | _, None => Err (UB InvalidIterators)
        end
  end.

(** [PollPoller::FillActiveChannnels]: the loop over the entries stops once
    [nready] of them have been found. *)
Fixpoint FillActiveChannnels (l : list pollfd) (nready : Z) cs p
    : result (gmap ptr (Channel.t CB OBJ) * list ptr) :=
  match l with
  | [] => Ok (cs, [])
  | e :: l =>
      if 0 <? nready then
        if 0 <? prevents e then
          match channel_maps_ p !! pfd e with
          | Some c =>
              match cs !! c with
              | None => Err (UB UseAfterFree)
              | Some ch =>
                  '(cs, active) ← FillActiveChannnels l (nready - 1)
                    (<[c := Channel.Set_Revents (prevents e) ch]> cs) p;
                  Ok (cs, c :: active)
              end
          | None => FillActiveChannnels l nready cs p
          end
        else FillActiveChannnels l nready cs p
      else Ok (cs, [])
  end.

(** [PollPoller::Polling]; [poll] stores a [revents] in each entry and answers the
    number of ready ones, or -1 with errno. The line after the [EINTR] test is not
    in an [else]. *)
Definition Polling (poll : list pollfd -> Z -> list pollfd * Z * Z) (timeout_ms : Z) cs p
    : result (gmap ptr (Channel.t CB OBJ) * list ptr * t) :=
  let '(l, nready, saved_errno) := poll (poll_list_ p) timeout_ms in
  let p := mk (channel_maps_ p) l in
  if 0 <? nready then
    '(cs, active) ← FillActiveChannnels l nready cs p;
    Ok (cs, active, p)
  else if nready =? 0 then Ok (cs, [], p)
  else Err Aborted.

(** ** The invariant: entries and channels point at each other. *)

Definition entry_ok cs p (i : nat) (e : pollfd) : Prop :=
  exists c ch, channel_maps_ p !! pfd e = Some c /\ cs !! c = Some ch /\
    Channel.fd_ ch = pfd e /\ Channel.index_ ch = Z.of_nat i /\
    Channel.events_ ch = pevents e.

Definition listed p (c : ptr) ch : Prop :=
  0 <= Channel.index_ ch /\ channel_maps_ p !! Channel.fd_ ch = Some c /\
  exists e, poll_list_ p !! Z.to_nat (Channel.index_ ch) = Some e /\ pfd e = Channel.fd_ ch.

Definition inv cs p : Prop :=
  zlen (poll_list_ p) < 2 ^ 31 - 1 /\
  (forall i e, poll_list_ p !! i = Some e -> entry_ok cs p i e) /\
  (forall c ch, cs !! c = Some ch -> Channel.index_ ch = -1 \/ listed p c ch).

Definition pairs (l : list pollfd) : list (Z * Z) := (fun e => (pfd e, pevents e)) <$> l.

(** The mask poll is asked to watch a descriptor for. *)
Definition watched p (fd : Z) : Z :=
  default 0 ((list_to_map (pairs (poll_list_ p)) : gmap Z Z) !! fd).

(** The channel may be handed to [UpdateChannel]: it is listed, or new with its
    descriptor in no entry and the vector still far from [INT_MAX] entries. *)
Definition attachable p (c : ptr) ch : Prop :=
  listed p c ch \/
  (Channel.index_ ch = -1 /\ (Channel.fd_ ch ∉ (pfd <$> poll_list_ p)) /\
   zlen (poll_list_ p) < 2 ^ 31 - 2).

End PollPoller.
End PollPoller.

(** * Lemmas *)
Module PollFacts.
Import PollPoller.

Section Facts.
Context {CB OBJ : Type}.
Implicit Types (cs : gmap ptr (Channel.t CB OBJ)) (ch : Channel.t CB OBJ) (p : t).

(** Descriptors are unique in the vector: two entries of one descriptor would be
    one channel at two indices. *)
Lemma inv_NoDup cs p : inv cs p -> NoDup (pairs (poll_list_ p)).*1.
Proof.
  intros (_ & He & _). apply NoDup_alt. intros i j fd.
  unfold pairs. rewrite <- list_fmap_compose, !list_lookup_fmap.
  intros (e1 & H1 & ->)%fmap_Some (e2 & H2 & Heq)%fmap_Some.
  apply He in H1 as (c1 & ch1 & Hm1 & Hc1 & _ & Hi1 & _).
  apply He in H2 as (c2 & ch2 & Hm2 & Hc2 & _ & Hi2 & _). cbn in Heq.
  rewrite Heq in Hm1. simplify_eq. lia.
Qed.

Lemma watched_cons p e k fd :
  NoDup (pairs (poll_list_ p)).*1 -> poll_list_ p ≡ₚ e :: k ->
  watched p fd = if decide (pfd e = fd) then pevents e else watched (mk ∅ k) fd.
Proof.
  intros Hnd Hp. unfold watched.
  rewrite (list_to_map_proper (pairs (poll_list_ p)) (pairs (e :: k)));
    [|done|unfold pairs; by rewrite Hp].
  cbn. rewrite lookup_insert. by case_decide.
Qed.

Lemma watched_absent p fd : fd ∉ (pfd <$> poll_list_ p) -> watched p fd = 0.
Proof.
  intros Hn. unfold watched. rewrite not_elem_of_list_to_map_1; [done|].
  unfold pairs. by rewrite <- list_fmap_compose.
Qed.

(** Two listed channels at one index are one channel. *)
Lemma listed_inj p x y (chx chy : Channel.t CB OBJ) :
  listed p x chx -> listed p y chy -> Channel.index_ chx = Channel.index_ chy -> x = y.
Proof.
  intros (_ & Hx & ex & Hlx & Hfx) (_ & Hy & ey & Hly & Hfy) Hi.
  rewrite Hi, Hly in Hlx. injection Hlx as <-. rewrite <- Hfx in Hx. rewrite <- Hfy in Hy.
  congruence.
Qed.

(** An entry's channel is listed at the entry's position. *)
Lemma entry_listed cs p i e : inv cs p -> poll_list_ p !! i = Some e ->
  exists c ch, cs !! c = Some ch /\ listed p c ch /\ Channel.index_ ch = Z.of_nat i /\
    channel_maps_ p !! pfd e = Some c.
Proof.
  intros (_ & He & _) Hl. destruct (He i e Hl) as (c & ch & Hm & Hc & Hf & Hi & _).
  exists c, ch. split_and!; try done. split_and!; [lia|by rewrite Hf|].
  exists e. by rewrite Hi, Nat2Z.id.
Qed.

Lemma listed_lt p c ch : listed p c ch -> Channel.index_ ch < zlen (poll_list_ p).
Proof. intros (? & _ & e & He%lookup_lt_Some & _). unfold zlen. lia. Qed.

(** ** Updating *)

Section UpdateListed.
Context cs p c ch (e : Z) (Hi : inv cs p) (Hc : cs !! c = Some ch) (Hl : listed p c ch).
Let ch1 := Channel.with_events e ch.
Let l := <[Z.to_nat (Channel.index_ ch) := mk_pollfd (Channel.fd_ ch) e 0]> (poll_list_ p).
Let p1 := mk (channel_maps_ p) l.

Lemma update_listed_eq : UpdateChannel c (<[c := ch1]> cs) p = Ok (<[c := ch1]> cs, p1).
Proof.
  destruct Hl as (Hix & Hm & x & Hx & Hfx).
  unfold UpdateChannel. rewrite lookup_insert_eq. cbn.
  destruct (Z.ltb_spec (Channel.index_ ch) 0); [lia|]. by rewrite Hx.
Qed.

Lemma update_listed_listed : listed p1 c ch1.
Proof.
  destruct Hl as (Hix & Hm & x & Hx & Hfx).
  split_and!; [done|done|]. exists (mk_pollfd (Channel.fd_ ch) e 0). split; [|done].
  apply list_lookup_insert_eq. by eapply lookup_lt_Some.
Qed.

Lemma update_listed_inv : inv (<[c := ch1]> cs) p1.
Proof.
  pose proof Hl as (Hix & Hm & x & Hx & Hfx). split_and!.
  - destruct Hi as [? _]. cbn. unfold zlen, l in *. by rewrite length_insert.
  - intros i y. cbn. unfold l. rewrite list_lookup_insert.
    case_decide as Hd.
    + destruct Hd as [<- _]. intros [= <-]. exists c, ch1. cbn. rewrite lookup_insert_eq.
      split_and!; done || lia.
    + intros Hy. destruct Hi as (_ & He & _).
      destruct (He i y Hy) as (d' & chd' & ? & ? & ? & Hii & ?).
      exists d', chd'. rewrite lookup_insert_ne; [done|]. intros <-. simplify_eq.
      apply Hd. rewrite Hii, Nat2Z.id. split; [done|]. by eapply lookup_lt_Some.
  - intros d chd. rewrite lookup_insert. case_decide.
    { subst d. intros [= <-]. right. apply update_listed_listed. }
    intros Hd. destruct Hi as (_ & _ & Hch). destruct (Hch d chd Hd) as [?|(? & ? & y & Hy & ?)];
      [by left|right]. split_and!; [done|done|]. cbn. unfold l.
    rewrite list_lookup_insert. case_decide as Hdd; [|by eexists].
    eexists; split; [done|]. cbn. destruct Hdd as [Heq _]. rewrite Heq in Hx. congruence.
Qed.

Lemma update_listed_watched fd :
  watched p1 fd = if decide (Channel.fd_ ch = fd) then e else watched p fd.
Proof.
  pose proof Hl as (_ & _ & x & Hx & Hfx).
  destruct (insert_perm _ _ x (mk_pollfd (Channel.fd_ ch) e 0) Hx) as (k & Hk1 & Hk2).
  rewrite (watched_cons p x k) by (done || by eapply inv_NoDup).
  rewrite (watched_cons p1 _ k) by (exact Hk2 || exact (inv_NoDup _ _ update_listed_inv)).
  cbn. repeat case_decide; congruence.
Qed.
End UpdateListed.

Section UpdateNew.
Context cs p c ch (e : Z) (Hi : inv cs p) (Hc : cs !! c = Some ch)
  (Hix : Channel.index_ ch = -1) (Hfd : Channel.fd_ ch ∉ (pfd <$> poll_list_ p))
  (Hroom : zlen (poll_list_ p) < 2 ^ 31 - 2).
Let ch1 := Channel.Set_Index (zlen (poll_list_ p)) (Channel.with_events e ch).
Let entry := mk_pollfd (Channel.fd_ ch) e 0.
Let p1 := mk (<[Channel.fd_ ch := c]> (channel_maps_ p)) (poll_list_ p ++ [entry]).

Lemma update_new_eq :
  UpdateChannel c (<[c := Channel.with_events e ch]> cs) p = Ok (<[c := ch1]> cs, p1).
Proof.
  unfold UpdateChannel. rewrite lookup_insert_eq. cbn. rewrite Hix. cbn.
  rewrite insert_insert_eq. pose proof (zlen_nonneg (poll_list_ p)).
  rewrite zlen_app, zlen_cons, i32_small by (change (zlen (@nil pollfd)) with 0; lia).
  change (zlen (@nil pollfd)) with 0.
  replace (zlen (poll_list_ p) + (1 + 0) - 1) with (zlen (poll_list_ p)) by lia. done.
Qed.

Lemma update_new_listed : listed p1 c ch1.
Proof.
  pose proof (zlen_nonneg (poll_list_ p)).
  split_and!; [done|cbn; by rewrite lookup_insert_eq|].
  exists entry. split; [|done]. cbn. unfold zlen. rewrite Nat2Z.id.
  rewrite lookup_app_r by lia. by rewrite Nat.sub_diag.
Qed.

Lemma update_new_inv : inv (<[c := ch1]> cs) p1.
Proof.
  split_and!.
  - cbn. rewrite zlen_app, zlen_cons. change (zlen (@nil pollfd)) with 0. lia.
  - intros i y. cbn. rewrite lookup_app_Some. intros [Hy|[Hge Hy]].
    + destruct Hi as (_ & He & _). destruct (He i y Hy) as (d & chd & ? & ? & ? & ? & ?).
      exists d, chd. cbn. rewrite !lookup_insert_ne; [done| |].
      * intros <-. simplify_eq. lia.
      * intros Heq. apply Hfd. rewrite Heq. apply list_elem_of_fmap_2.
        by eapply list_elem_of_lookup_2.
    + apply list_lookup_singleton_Some in Hy as [Hy <-].
      exists c, ch1. cbn. rewrite !lookup_insert_eq. split_and!; try done.
      unfold zlen. lia.
  - intros d chd. rewrite lookup_insert. case_decide.
    { subst d. intros [= <-]. right. apply update_new_listed. }
    intros Hd. destruct Hi as (_ & _ & Hch). destruct (Hch d chd Hd) as [?|(? & ? & y & Hy & Hfy)];
      [by left|right]. split_and!; [done| |].
    + cbn. rewrite lookup_insert_ne; [done|]. intros Heq. apply Hfd. rewrite Heq, <- Hfy.
      apply list_elem_of_fmap_2. by eapply list_elem_of_lookup_2.
    + exists y. cbn. by rewrite lookup_app_l by (by eapply lookup_lt_Some).
Qed.

Lemma update_new_watched fd :
  watched p1 fd = if decide (Channel.fd_ ch = fd) then e else watched p fd.
Proof.
  rewrite (watched_cons p1 entry (poll_list_ p)); [done| |].
  - exact (inv_NoDup _ _ update_new_inv).
  - symmetry. apply Permutation_cons_append.
Qed.
End UpdateNew.

(** A channel that keeps a place in the vector stays listed. *)
Lemma kept_listed cs p p' d (chd chd' : Channel.t CB OBJ) :
  inv cs p' -> listed p d chd -> cs !! d = Some chd' ->
  (Channel.index_ chd' = -1 -> Channel.index_ chd = -1) -> listed p' d chd'.
Proof.
  intros (_ & _ & Hch) (H0 & _) Hd Hix. destruct (Hch d chd' Hd) as [E|?]; [|done].
  apply Hix in E. lia.
Qed.

Lemma kept_insert cs p p' c ch1 d chd chd' :
  inv (<[c := ch1]> cs) p' -> d <> c -> cs !! d = Some chd -> <[c := ch1]> cs !! d = Some chd' ->
  (listed p d chd -> listed p' d chd') /\ (Channel.index_ chd = -1 -> Channel.index_ chd' = -1).
Proof.
  intros Hi Hne Hd Hd'. pose proof Hd' as E. rewrite lookup_insert_ne, Hd in E by done.
  injection E as <-. split; [|done]. intros Hl. by eapply kept_listed.
Qed.

Lemma poll_UpdateChannel_law cs p c ch e :
  inv cs p -> cs !! c = Some ch -> attachable p c ch ->
  exists cs' p' ch',
    UpdateChannel c (<[c := Channel.with_events e ch]> cs) p = Ok (cs', p') /\
    inv cs' p' /\ same_chans (<[c := Channel.with_events e ch]> cs) cs' /\
    cs' !! c = Some ch' /\ listed p' c ch' /\
    watched p' (Channel.fd_ ch) = e /\
    (forall fd, fd <> Channel.fd_ ch -> watched p' fd = watched p fd) /\
    (forall d chd chd', d <> c -> cs !! d = Some chd -> cs' !! d = Some chd' ->
       (listed p d chd -> listed p' d chd') /\
       (Channel.index_ chd = -1 -> Channel.index_ chd' = -1)).
Proof.
  intros Hi Hc [Hl|(Hix & Hfd & Hroom)].
  - eexists _, _, _. split_and!; [by apply update_listed_eq|by apply update_listed_inv|
      apply same_chans_refl|apply lookup_insert_eq|by apply update_listed_listed| | |].
    + rewrite (update_listed_watched cs p c ch e) by done. by case_decide.
    + intros. rewrite (update_listed_watched cs p c ch e) by done. by case_decide.
    + intros d chd chd'. apply kept_insert. by apply update_listed_inv.
  - eexists _, _, _. split_and!; [by apply update_new_eq|by apply update_new_inv|
      |apply lookup_insert_eq|by apply update_new_listed| | |].
    + set (ch1 := Channel.Set_Index _ _).
      rewrite <- (insert_insert_eq cs c ch1 (Channel.with_events e ch)).
      eapply same_chans_insert; [|apply lookup_insert_eq]. done.
    + rewrite (update_new_watched cs p c ch e) by done. by case_decide.
    + intros. rewrite (update_new_watched cs p c ch e) by done. by case_decide.
    + intros d chd chd'. apply kept_insert. by apply update_new_inv.
Qed.

(** ** Removing *)

Lemma removelast_snoc {A} (l : list A) x : removelast (l ++ [x]) = l.
Proof. rewrite List.removelast_app by done. cbn. apply app_nil_r. Qed.

Lemma u64_eqb a b : 0 <= a < 2 ^ 64 -> 0 <= b < 2 ^ 64 -> (u64 a =? u64 b) = (a =? b).
Proof. intros. by rewrite !u64_small. Qed.

Section Remove.
Context cs p c ch (Hi : inv cs p) (Hc : cs !! c = Some ch) (Hl : listed p c ch).
Context (l0 : list pollfd) (back : pollfd) (Hsplit : poll_list_ p = l0 ++ [back]).

Lemma lookup_front i e : l0 !! i = Some e -> poll_list_ p !! i = Some e.
Proof. intros Hl0. rewrite Hsplit. by apply lookup_app_l_Some. Qed.

Lemma index_bound : 0 <= Channel.index_ ch <= zlen l0.
Proof.
  pose proof Hl as (? & _). pose proof (listed_lt _ _ _ Hl) as Hlt.
  rewrite Hsplit, zlen_app, zlen_cons in Hlt. change (zlen (@nil pollfd)) with 0 in Hlt. lia.
Qed.

(** Another channel's entry is not the removed one. *)
Lemma other_index d chd : cs !! d = Some chd -> d <> c -> listed p d chd ->
  Channel.index_ chd <> Channel.index_ ch.
Proof. intros Hd Hne Hld Heq. apply Hne. by eapply listed_inj. Qed.

Section Last.
Context (Hlast : Channel.index_ ch = zlen l0).

Lemma remove_last_eq : RemoveChannel c cs p = Ok (cs, mk (channel_maps_ p) l0).
Proof.
  unfold RemoveChannel. rewrite Hc, Hsplit, zlen_app, zlen_cons, Hlast.
  change (zlen (@nil pollfd)) with 0. replace (zlen l0 + (1 + 0) - 1) with (zlen l0) by lia.
  rewrite Z.eqb_refl. unfold pop_back. rewrite removelast_snoc. by destruct l0.
Qed.

Lemma remove_last_inv : inv (delete c cs) (mk (channel_maps_ p) l0).
Proof.
  destruct Hi as (Hsz & He & Hch). split_and!; cbn.
  - rewrite Hsplit, zlen_app in Hsz. pose proof (zlen_nonneg [back]). lia.
  - intros i e Hie. destruct (He i e (lookup_front i e Hie)) as (d & chd & ? & ? & ? & Hix & ?).
    exists d, chd. rewrite lookup_delete_ne; [done|]. intros <-. simplify_eq.
    apply lookup_lt_Some in Hie. unfold zlen in *. lia.
  - intros d chd [Hne Hd]%lookup_delete_Some.
    destruct (Hch d chd Hd) as [?|Hld]; [by left|right].
    pose proof (other_index d chd Hd (not_eq_sym Hne) Hld).
    destruct Hld as (? & ? & y & Hy & ?). split_and!; [done|done|]. exists y. cbn. split; [|done].
    rewrite Hsplit in Hy. rewrite lookup_app_l in Hy; [done|].
    apply lookup_lt_Some in Hy. rewrite length_app in Hy. cbn in Hy. unfold zlen in *. lia.
Qed.
End Last.

Section Swap.
Context (Hlast : Channel.index_ ch <> zlen l0).
Context (d : ptr) (chd : Channel.t CB OBJ) (Hd : cs !! d = Some chd)
  (Hdm : channel_maps_ p !! pfd back = Some d) (Hdi : Channel.index_ chd = zlen l0).
Let l1 := <[Z.to_nat (Channel.index_ ch) := back]> l0.
Let cs1 := <[d := Channel.Set_Index (Channel.index_ ch) chd]> cs.
Let p1 := mk (channel_maps_ p) l1.

Lemma remove_swap_eq : RemoveChannel c cs p = Ok (cs1, p1).
Proof.
  pose proof index_bound. destruct Hi as (Hsz & _). pose proof Hl as (_ & _ & e & He & _).
  unfold RemoveChannel. rewrite Hc, He, Hsplit, zlen_app, zlen_cons in *.
  change (zlen (@nil pollfd)) with 0 in *.
  replace (zlen l0 + (1 + 0) - 1) with (zlen l0) by lia.
  rewrite u64_eqb by (unfold zlen in *; lia).
  destruct (Z.eqb_spec (Channel.index_ ch) (zlen l0)); [done|].
  rewrite length_app. cbn [length]. rewrite Nat.add_1_r. cbn [Nat.pred].
  rewrite lookup_app_r, Nat.sub_diag by lia. cbn [lookup list_lookup].
  destruct (Z.ltb_spec (Channel.index_ ch) 0); [lia|].
  rewrite Hdm, Hd. rewrite (insert_app_r_alt l0), Nat.sub_diag by lia.
  cbn [insert list_insert]. rewrite insert_app_l by (unfold zlen in *; lia).
  unfold pop_back. fold l1. rewrite removelast_snoc. by destruct l1.
Qed.

Lemma swap_ne : d <> c.
Proof. intros ->. simplify_eq. Qed.

Lemma remove_swap_inv : inv (delete c cs1) p1.
Proof.
  pose proof index_bound. pose proof swap_ne as Hne.
  destruct Hi as (Hsz & He & Hch). split_and!; cbn.
  - rewrite Hsplit, zlen_app in Hsz. pose proof (zlen_nonneg [back]).
    unfold zlen, l1 in *. rewrite length_insert. lia.
  - intros i e. unfold l1, cs1. rewrite list_lookup_insert. case_decide as Hdec.
    + destruct Hdec as [<- _]. intros [= <-].
      destruct (He (length l0) back) as (d' & chd' & ? & ? & ? & ? & ?).
      { rewrite Hsplit, lookup_app_r, Nat.sub_diag by lia. done. }
      simplify_eq. exists d, (Channel.Set_Index (Channel.index_ ch) chd). cbn.
      rewrite lookup_delete_ne, lookup_insert_eq by done. split_and!; done || lia.
    + intros Hie. pose proof (lookup_lt_Some _ _ _ Hie).
      destruct (He i e (lookup_front i e Hie)) as (x & chx & ? & ? & ? & Hix & ?).
      exists x, chx. rewrite lookup_delete_ne, lookup_insert_ne; [done| |].
      * intros ->. simplify_eq. unfold zlen in *. lia.
      * intros ->. simplify_eq. apply Hdec. rewrite Hix, Nat2Z.id. done.
  - intros x chx [Hnx Hx]%lookup_delete_Some. unfold cs1 in Hx.
    rewrite lookup_insert in Hx. case_decide as Hxd.
    { subst x. injection Hx as <-. right. split_and!; [cbn; lia| |].
      - cbn. destruct (Hch d chd Hd) as [?|(_ & ? & _)]; [|done]. 
        pose proof (zlen_nonneg l0). lia.
      - exists back. cbn. unfold l1. rewrite list_lookup_insert_eq by (unfold zlen in *; lia).
        split; [done|]. destruct (He (length l0) back) as (d' & chd' & ? & ? & ? & ? & ?).
        { rewrite Hsplit, lookup_app_r, Nat.sub_diag by lia. done. }
        by simplify_eq. }
    destruct (Hch x chx Hx) as [?|Hlx]; [by left|right].
    pose proof (other_index x chx Hx (not_eq_sym Hnx) Hlx) as Hi1.
    assert (Channel.index_ chx <> zlen l0) as Hi2.
    { intros Heq. apply Hxd. eapply (listed_inj p d x chd chx); [|done|congruence].
      destruct (Hch d chd Hd) as [?|?]; [|done]. pose proof (zlen_nonneg l0). lia. }
    destruct Hlx as (? & ? & y & Hy & ?). split_and!; [done|done|].
    exists y. split; [|done]. cbn. unfold l1. rewrite list_lookup_insert_ne by lia.
    rewrite Hsplit in Hy. rewrite lookup_app_l in Hy; [done|].
    apply lookup_lt_Some in Hy. rewrite length_app in Hy. cbn in Hy. unfold zlen in *. lia.
Qed.
End Swap.
End Remove.

(** Dropping one entry stops the watch on its descriptor and no other. *)
Lemma watched_drop p p1 e : NoDup (pairs (poll_list_ p)).*1 ->
  poll_list_ p ≡ₚ e :: poll_list_ p1 ->
  watched p1 (pfd e) = 0 /\ (forall fd, fd <> pfd e -> watched p1 fd = watched p fd).
Proof.
  intros Hnd Hp. split.
  - apply watched_absent. unfold pairs in Hnd. rewrite <- list_fmap_compose, Hp in Hnd.
    by apply list.NoDup_cons in Hnd as [? _].
  - intros fd Hfd. rewrite (watched_cons p e (poll_list_ p1)) by done.
    by case_decide.
Qed.

(** Both ways of removing take out exactly the channel's entry. *)
Lemma RemoveChannel_result cs p c ch :
  inv cs p -> cs !! c = Some ch -> listed p c ch ->
  exists cs' p' e, RemoveChannel c cs p = Ok (cs', p') /\ same_chans cs cs' /\
    inv (delete c cs') p' /\ pfd e = Channel.fd_ ch /\ poll_list_ p ≡ₚ e :: poll_list_ p' /\
    (forall d chd chd', cs !! d = Some chd -> cs' !! d = Some chd' ->
       (Channel.index_ chd = -1 <-> Channel.index_ chd' = -1)).
Proof.
  intros Hi Hc Hl. pose proof Hl as (_ & _ & e & He & Hfe).
  destruct (poll_list_ p) as [|back l0 _] eqn:Hsplit using rev_ind; [done|].
  destruct (decide (Channel.index_ ch = zlen l0)) as [Hlast|Hlast].
  - exists cs, (mk (channel_maps_ p) l0), e. split_and!.
    + eapply remove_last_eq; eauto.
    + apply same_chans_refl.
    + eapply remove_last_inv; eauto.
    + done.
    + unfold zlen in Hlast. rewrite Hlast, Nat2Z.id in He.
      rewrite lookup_app_r, Nat.sub_diag in He by lia. injection He as ->.
      cbn. symmetry. apply Permutation_cons_append.
    + intros x chx chx' Hx. rewrite Hx. by intros [= <-].
  - destruct (entry_listed cs p (length l0) back Hi) as (d & chd & Hd & Hld & Hdi & Hdm).
    { by rewrite Hsplit, lookup_app_r, Nat.sub_diag by lia. }
    eexists _, _, e. split_and!.
    + eapply remove_swap_eq; eauto.
    + by apply (same_chans_insert cs d chd).
    + eapply remove_swap_inv; eauto.
    + done.
    + pose proof (index_bound p c ch Hl l0 back Hsplit).
      rewrite lookup_app_l in He by (unfold zlen in *; lia).
      destruct (insert_perm l0 _ e back He) as (k & Hk1 & Hk2). cbn. rewrite Hk2, Hk1.
      rewrite <- Permutation_cons_append. apply perm_swap.
    + pose proof (index_bound p c ch Hl l0 back Hsplit).
      intros x chx chx' Hx. rewrite lookup_insert. case_decide; [|rewrite Hx; by intros [= <-]].
      subst x. intros [= <-]. simplify_eq. cbn. lia.
Qed.

Lemma poll_RemoveChannel_law cs p c ch :
  inv cs p -> cs !! c = Some ch -> listed p c ch ->
  exists cs' p',
    RemoveChannel c cs p = Ok (cs', p') /\ same_chans cs cs' /\
    inv (delete c cs') p' /\ watched p' (Channel.fd_ ch) = 0 /\
    (forall fd, fd <> Channel.fd_ ch -> watched p' fd = watched p fd) /\
    (forall d chd chd', d <> c -> cs !! d = Some chd -> cs' !! d = Some chd' ->
       (listed p d chd -> listed p' d chd') /\
       (Channel.index_ chd = -1 -> Channel.index_ chd' = -1)).
Proof.
  intros Hi Hc Hl.
  destruct (RemoveChannel_result cs p c ch) as (cs' & p' & e & ? & ? & ? & <- & Hp & Hk); [done..|].
  exists cs', p'. destruct (watched_drop p p' e) as [? ?]; [by eapply inv_NoDup|done|].
  split_and!; try done. intros d chd chd' Hne Hd Hd'. split; [|by apply (Hk d chd chd' Hd Hd')].
  intros Hld. apply (kept_listed (delete c cs') p p' d chd chd'); try done.
  - by rewrite lookup_delete_ne.
  - by apply (Hk d chd chd' Hd Hd').
Qed.

(** A new channel with a descriptor of its own has no entry. *)
Lemma poll_no_entry cs p fd : inv cs p ->
  (forall c ch, cs !! c = Some ch -> Channel.fd_ ch = fd -> Channel.index_ ch = -1) ->
  fd ∉ (pfd <$> poll_list_ p).
Proof.
  intros (_ & He & _) Hn (y & -> & (i & Hi)%list_elem_of_lookup)%list_elem_of_fmap.
  destruct (He i y Hi) as (c & ch & _ & Hc & Hf & Hix & _). specialize (Hn c ch Hc Hf). lia.
Qed.

Lemma poll_usable_new cs p c ch : inv cs p -> cs !! c = Some ch -> Channel.index_ ch = -1 ->
  (forall d chd, d <> c -> cs !! d = Some chd -> Channel.fd_ chd <> Channel.fd_ ch) ->
  zlen (poll_list_ p) < 2 ^ 31 - 2 -> attachable p c ch.
Proof.
  intros Hi Hc Hix Hne Hr. right. split_and!; try done. eapply poll_no_entry; [done|].
  intros d chd Hd Hfd. destruct (decide (d = c)) as [->|Hdc]; [congruence|].
  by destruct (Hne d chd Hdc Hd).
Qed.

Lemma poll_unwatched cs p fd : inv cs p ->
  (forall c ch, cs !! c = Some ch -> Channel.fd_ ch = fd -> Channel.index_ ch = -1) ->
  watched p fd = 0.
Proof. intros Hi Hn. by eapply watched_absent, poll_no_entry. Qed.

#[export] Instance poll_poller : Poller PollPoller.t := {
  Poller.UpdateChannel := UpdateChannel (CB := CB) (OBJ := OBJ);
  Poller.RemoveChannel := RemoveChannel;
  Poller.channel_maps_of := channel_maps_;
}.

(** The poll poller keeps every promise of the interface. *)
(** The invariant looks at three fields of a channel. *)
Lemma listed_ext p c ch ch' :
  Channel.fd_ ch = Channel.fd_ ch' -> Channel.index_ ch = Channel.index_ ch' ->
  listed p c ch -> listed p c ch'.
Proof. unfold listed. by intros -> ->. Qed.

Lemma poll_attachable_ext p c ch ch' :
  Channel.fd_ ch = Channel.fd_ ch' -> Channel.index_ ch = Channel.index_ ch' ->
  attachable p c ch -> attachable p c ch'.
Proof. unfold attachable, listed. by intros -> ->. Qed.

Lemma poll_inv_touch cs p c ch ch' :
  inv cs p -> cs !! c = Some ch -> Channel.fd_ ch = Channel.fd_ ch' ->
  Channel.index_ ch = Channel.index_ ch' -> Channel.events_ ch = Channel.events_ ch' ->
  inv (<[c := ch']> cs) p.
Proof.
  intros (Hl & He & Hx) Hc Hf Hi Hev. split_and!; [done| |].
  - intros i e Hie. destruct (He i e Hie) as (d & ch1 & Hm & Hd & Hrest). exists d.
    destruct (decide (c = d)) as [<-|].
    + exists ch'. rewrite lookup_insert_eq. rewrite Hc in Hd. injection Hd as <-.
      rewrite <- Hf, <- Hi, <- Hev. done.
    + exists ch1. by rewrite lookup_insert_ne.
  - intros d ch1. destruct (decide (c = d)) as [<-|].
    + rewrite lookup_insert_eq. intros [= <-]. destruct (Hx c ch Hc) as [?|?].
      * left. congruence.
      * right. by eapply listed_ext.
    + rewrite lookup_insert_ne by done. eauto.
Qed.

Lemma poll_inv_new cs p c fd : inv cs p -> cs !! c = None -> inv (<[c := Channel.create fd]> cs) p.
Proof.
  intros (Hl & He & Hx) Hc. split_and!; [done| |].
  - intros i e Hie. destruct (He i e Hie) as (d & ch1 & Hm & Hd & Hrest). exists d, ch1.
    by rewrite lookup_insert_ne by congruence.
  - intros d ch1. destruct (decide (c = d)) as [<-|].
    + rewrite lookup_insert_eq. intros [= <-]. by left.
    + rewrite lookup_insert_ne by done. eauto.
Qed.

#[export] Instance poll_poller_laws : PollerLaws PollPoller.t := {
  poller_inv := inv (CB := CB) (OBJ := OBJ);
  interest := watched;
  usable := attachable;
  managed := listed;
  can_watch := fun p _ => zlen (poll_list_ p) < 2 ^ 31 - 2;
  usable_new := poll_usable_new;
  unwatched_law := poll_unwatched;
  managed_usable := fun p c ch H => or_introl H;
  usable_ext := poll_attachable_ext;
  managed_ext := listed_ext;
  touch_law := poll_inv_touch;
  new_law := poll_inv_new;
  update_law := fun cs p c ch e Hi Hc Hu _ => poll_UpdateChannel_law cs p c ch e Hi Hc Hu;
  remove_law := poll_RemoveChannel_law;
}.

End Facts.
End PollFacts.

(** * Properties *)
Module PollProps.
Import PollPoller PollFacts.

Section Props.
Context {CB OBJ : Type}.
Implicit Types (cs : gmap ptr (Channel.t CB OBJ)) (ch : Channel.t CB OBJ) (p : t).

(** Removing a listed channel, by popping the last entry or swapping it in,
    keeps every remaining channel's index equal to the position of its own entry,
    and stops the watch on the removed descriptor only. *)
Theorem poll_remove_correct cs p c ch :
  inv cs p -> cs !! c = Some ch -> listed p c ch ->
  exists cs' p', RemoveChannel c cs p = Ok (cs', p') /\
    inv (delete c cs') p' /\ watched p' (Channel.fd_ ch) = 0 /\
    (forall fd, fd <> Channel.fd_ ch -> watched p' fd = watched p fd).
Proof.
  intros Hi Hc Hl. destruct (poll_RemoveChannel_law cs p c ch) as (cs' & p' & ?); naive_solver.
Qed.

(** A wait that fails ends the process, also when a signal interrupted it. *)
Theorem poll_interrupted_aborts poll timeout cs p l :
  poll (poll_list_ p) timeout = (l, -1, EINTR) ->
  Polling poll timeout cs p = Err Aborted.
Proof. intros Hp. unfold Polling. by rewrite Hp. Qed.

(** After a removal the channel object keeps its old index and its entry in
    the channel map: HasChannel still answers true, and updating the channel again
    overwrites the entry of whichever channel was swapped into its place. *)
Theorem poll_remove_leaves_stale_index cs p c ch cs' p' i e :
  inv cs p -> cs !! c = Some ch -> listed p c ch ->
  RemoveChannel c cs p = Ok (cs', p') ->
  poll_list_ p' !! i = Some e -> Channel.index_ ch = Z.of_nat i ->
  exists ch', cs' !! c = Some ch' /\ HasChannel c cs' p' = true /\
    UpdateChannel c cs' p' =
      Ok (cs', mk (channel_maps_ p')
                 (<[i := mk_pollfd (Channel.fd_ ch) (Channel.events_ ch) 0]> (poll_list_ p'))).
Proof.
  intros Hi Hc Hl Hrm He Hix. pose proof Hl as (_ & Hm & _).
  assert (cs' !! c = Some ch /\ channel_maps_ p' = channel_maps_ p) as [Hc' Hm'].
  { revert Hrm. unfold RemoveChannel. rewrite Hc.
    destruct (u64 _ =? _); [unfold pop_back; destruct (poll_list_ p); intros ?; by res_simpl|].
    destruct (poll_list_ p !! Nat.pred _) as [back|] eqn:Hb; [|done].
    destruct (poll_list_ p !! Z.to_nat (Channel.index_ ch)) as [x|]; [|done].
    destruct (Channel.index_ ch <? 0); [done|].
    destruct (channel_maps_ p !! pfd back) as [d|] eqn:Hd; [|done].
    destruct (cs !! d) as [chd|] eqn:Hcd; [|done].
    intros ?; res_simpl. split; [|done]. rewrite lookup_insert. case_decide; [|done].
    subst d. rewrite Hc in Hcd. injection Hcd as <-. by destruct ch. }
  exists ch. split; [done|]. split.
  - unfold HasChannel. rewrite Hc'. cbn. apply bool_decide_eq_true. by rewrite Hm'.
  - unfold UpdateChannel. rewrite Hc', Hix. destruct (Z.ltb_spec (Z.of_nat i) 0); [lia|].
    by rewrite Nat2Z.id, He.
Qed.

End Props.

(** Two channels: descriptors 5 and 6 at positions 0 and 1. *)
Definition chan_at (fd i : Z) : Channel.t unit unit :=
  Channel.Set_Index i (Channel.with_events 3 (Channel.create fd)).
Definition cs56 : gmap ptr (Channel.t unit unit) :=
  <[1%positive := chan_at 5 0]> {[2%positive := chan_at 6 1]}.
Definition p56 : t := mk (<[5 := 1%positive]> {[6 := 2%positive]}) [mk_pollfd 5 3 0; mk_pollfd 6 3 0].

Lemma inv_p56 : inv cs56 p56.
Proof.
  split_and!; [done| |].
  - intros [|[|]] e; [intros [= <-]..|done]; eexists _, _; by split_and!.
  - unfold cs56. intros c ch [[<- <-]|[? [<- <-]%lookup_singleton_Some]]%lookup_insert_Some;
      right; (split_and!; [done|done|eexists; by split]).
Qed.

Lemma listed_p56 : listed p56 1%positive (chan_at 5 0).
Proof. split_and!; [done|done|eexists; by split]. Qed.

Lemma poll_remove_correct_witness :
  exists cs' p', RemoveChannel 1%positive cs56 p56 = Ok (cs', p') /\
    inv (delete 1%positive cs') p' /\ watched p' 5 = 0 /\
    (forall fd, fd <> 5 -> watched p' fd = watched p56 fd).
Proof.
  apply (poll_remove_correct cs56 p56 1%positive (chan_at 5 0));
    [apply inv_p56|done|apply listed_p56].
Defined.

Lemma poll_interrupted_aborts_witness :
  Polling (fun l _ => (l, -1, EINTR)) 10000 cs56 p56 = Err Aborted.
Proof. by apply (poll_interrupted_aborts _ 10000 cs56 p56 (poll_list_ p56)). Defined.

(** Removing descriptor 5 moves 6's entry to position 0; updating the removed
    channel then overwrites it, so 6 is no longer polled. *)
Lemma poll_remove_leaves_stale_index_witness :
  exists cs' p' ch', RemoveChannel 1%positive cs56 p56 = Ok (cs', p') /\
    cs' !! 1%positive = Some ch' /\ HasChannel 1%positive cs' p' = true /\
    UpdateChannel 1%positive cs' p' = Ok (cs', mk (channel_maps_ p') [mk_pollfd 5 3 0]).
Proof.
  eexists _, _.
  destruct (poll_remove_leaves_stale_index cs56 p56 1%positive (chan_at 5 0)
    (<[2%positive := chan_at 6 0]> cs56) (mk (channel_maps_ p56) [mk_pollfd 6 3 0])
    0%nat (mk_pollfd 6 3 0)) as (ch' & H1 & H2 & H3);
    [apply inv_p56|done|apply listed_p56|reflexivity..|].
  exists ch'. split; [reflexivity|]. split; [exact H1|]. split; [exact H2|exact H3].
Defined.

End PollProps.
