(* ===== verification/Pollers.v ===== *)
(** The two pollers against one specification: a table of descriptors and masks, which every
    implementation of the interface of Poller.v, EpollPoller and PollPoller among them,
    keeps through updates and removals of channels that are destroyed once they were
    removed. Whichever NewDefaultPoller (src/default_poller.cc) chooses, the channels and
    the interest are then the same, and a wait that succeeds reports the same. *)
From Stdlib Require Import ZArith Lia.
From stdpp Require Import base gmap list option.
From S2P Require Import Prelude Channel Poller EpollPoller PollPoller.

Local Open Scope Z_scope.

(** * The calls and the table *)
Module PollerSpec.

(** A channel object is made for a descriptor, its mask is changed and updated, it is
    removed and destroyed. *)
Inductive op := Open (c : ptr) (fd : Z) | Watch (c : ptr) (e : Z) | Close (c : ptr).

(** For each channel object its descriptor and, once it was updated, its mask. *)
Abbreviation table := (gmap ptr (Z * option Z)).

Definition legal (S : table) (o : op) : Prop :=
  match o with
  | Open c fd => S !! c = None /\ forall d x, S !! d = Some x -> x.1 <> fd
  | Watch c e => is_Some (S !! c) /\ 0 <= e
  | Close c => exists fd m, S !! c = Some (fd, Some m)
  end.
Definition after (S : table) (o : op) : table :=
  match o with
  | Open c fd => <[c := (fd, None)]> S
  | Watch c e => alter (fun x => (x.1, Some e)) c S
  | Close c => delete c S
  end.
Fixpoint legal_run (S : table) (os : list op) : Prop :=
  match os with [] => True | o :: os => legal S o /\ legal_run (after S o) os end.
Definition finally (S : table) (os : list op) : table := foldl after S os.

(** The mask a table has for a descriptor. *)
Definition mask_of (S : table) (fd : Z) (e : Z) : Prop :=
  (exists c, S !! c = Some (fd, Some e)) \/ (e = 0 /\ forall c m, S !! c <> Some (fd, Some m)).

Section Run.
Context {CB OBJ P : Type} `{PL : PollerLaws (CB := CB) (OBJ := OBJ) P}.
Abbreviation chans := (gmap ptr (Channel.t CB OBJ)).

(** The same calls on channel objects and a poller. *)
Definition step (o : op) (cs : chans) (p : P) : result (chans * P) :=
  match o with
  | Open c fd => Ok (<[c := Channel.create fd]> cs, p)
  | Watch c e =>
      match cs !! c with
      | Some ch => UpdateChannel c (<[c := Channel.with_events e ch]> cs) p
      | None => Err (UB UseAfterFree)
      end
  | Close c => '(cs, p) ← RemoveChannel c cs p; Ok (delete c cs, p)
  end.
Fixpoint run (os : list op) (cs : chans) (p : P) : result (chans * P) :=
  match os with
  | [] => Ok (cs, p)
  | o :: os => '(cs, p) ← step o cs p; run os cs p
  end.

(** The kernel accepts the descriptors that are watched. *)
Definition accepted (o : op) (cs : chans) (p : P) : Prop :=
  match o with
  | Watch c _ => forall ch, cs !! c = Some ch -> can_watch (CB := CB) (OBJ := OBJ) p (Channel.fd_ ch)
  | _ => True
  end.
Fixpoint accepted_run (os : list op) (cs : chans) (p : P) : Prop :=
  match os with
  | [] => True
  | o :: os => accepted o cs p /\ match step o cs p with Ok (cs, p) => accepted_run os cs p | Err _ => True end
  end.

(** The channel objects and the poller represent the table. *)
Definition entry_ok (p : P) (c : ptr) (x : Z * option Z) (ch : Channel.t CB OBJ) : Prop :=
  ChannelFacts.same_but_index ch (Channel.with_events (default 0 x.2) (Channel.create x.1)) /\
  match x.2 with
  | Some m => managed p c ch /\ interest (CB := CB) (OBJ := OBJ) p x.1 = m
  | None => Channel.index_ ch = -1
  end.
Definition refines (S : table) (cs : chans) (p : P) : Prop :=
  poller_inv cs p /\
  (forall c, option_relation (entry_ok p c) (const False) (const False) (S !! c) (cs !! c)) /\
  (forall c d x y, S !! c = Some x -> S !! d = Some y -> x.1 = y.1 -> c = d) /\
  (forall fd, (forall c m, S !! c <> Some (fd, Some m)) -> interest (CB := CB) (OBJ := OBJ) p fd = 0).

End Run.
End PollerSpec.

(** * Waiting *)
Module Waiting.

(** What the kernel has to report about a descriptor that is watched for a mask; 0 is
    nothing. *)
Abbreviation reports := (Z -> Z -> Z).

(** epoll_wait(2) succeeds, and there was room for all the descriptors that are ready. *)
Definition told {K} `{Epoll K} (f : reports) (k : K) : list (Z * ptr) :=
  omap (fun x : Z * (Z * ptr) => if 0 <? f x.1 x.2.1 then Some (f x.1 x.2.1, x.2.2) else None) (map_to_list (registered k)).
Definition waits {K} `{Epoll K} (f : reports) (n timeout : Z) (k : K) : Prop :=
  exists evs, (epoll_wait n timeout k).1 = inl evs /\ evs ≡ₚ told f k.

(** poll(2) stores what there is to report in the entries, and counts those it is not 0 in. *)
Definition mark (f : reports) (e : PollPoller.pollfd) : PollPoller.pollfd :=
  PollPoller.mk_pollfd (PollPoller.pfd e) (PollPoller.pevents e) (f (PollPoller.pfd e) (PollPoller.pevents e)).
Definition ready (l : list PollPoller.pollfd) : Z :=
  zlen (filter (fun e => 0 < PollPoller.prevents e) l).
Definition poll (f : reports) (l : list PollPoller.pollfd) (timeout : Z) : list PollPoller.pollfd * Z * Z :=
  (mark f <$> l, ready (mark f <$> l), 0).

End Waiting.

(** * NewDefaultPoller *)
Module DefaultPoller.

(** Which of the two a loop gets is fixed when the program is compiled. *)
Definition NewDefaultPoller {K} (USE_POLL : bool) (k : K) : EpollPoller.t K + PollPoller.t :=
  if USE_POLL then inr PollPoller.create else inl (EpollPoller.create k).

End DefaultPoller.

(** * Lemmas *)
Module PollerSpecFacts.
Import PollerSpec.

Section Facts.
Context {CB OBJ P : Type} `{PL : PollerLaws (CB := CB) (OBJ := OBJ) P}.
Abbreviation chans := (gmap ptr (Channel.t CB OBJ)).

Lemma entry_fd (p : P) c x ch : entry_ok p c x ch -> Channel.fd_ ch = x.1.
Proof. intros [Hs _]. by rewrite (ChannelFacts.fd_proper _ _ Hs). Qed.

Lemma refines_lookup S (cs : chans) (p : P) c x : refines S cs p -> S !! c = Some x ->
  exists ch, cs !! c = Some ch /\ entry_ok p c x ch.
Proof.
  intros (_ & He & _) E. specialize (He c). rewrite E in He. destruct (cs !! c) as [ch|]; [|done]. by exists ch.
Qed.

Lemma refines_channel S (cs : chans) (p : P) c ch : refines S cs p -> cs !! c = Some ch ->
  exists x, S !! c = Some x /\ entry_ok p c x ch.
Proof.
  intros (_ & He & _) E. specialize (He c). rewrite E in He. destruct (S !! c) as [x|]; [|done]. by exists x.
Qed.

Lemma refines_start (p : P) : poller_inv (∅ : chans) p -> refines ∅ (∅ : chans) p.
Proof.
  intros Hi. split_and!; [done|done|by intros c d x y [=]|].
  intros fd _. apply (unwatched_law ∅ p fd Hi). by intros c ch [=].
Qed.

Lemma open_refines S (cs : chans) (p : P) c fd : refines S cs p -> legal S (Open c fd) ->
  refines (after S (Open c fd)) (<[c := Channel.create fd]> cs) p.
Proof.
  intros Hr [Hc Hf]. pose proof Hr as (Hi & He & Hu & Hn). split_and!; cbn [after].
  - apply new_law; [done|]. specialize (He c). rewrite Hc in He. by destruct (cs !! c).
  - intros d. destruct (decide (c = d)) as [<-|]; [by rewrite !lookup_insert_eq|by rewrite !lookup_insert_ne].
  - intros d1 d2 x y H1 H2 E. apply lookup_insert_Some in H1 as [[<- <-]|[_ H1]], H2 as [[<- <-]|[_ H2]]; [done|..].
    + by destruct (Hf _ _ H2).
    + by destruct (Hf _ _ H1).
    + by eapply Hu.
  - intros fd' Hno. apply Hn. intros d m Hd. destruct (decide (c = d)) as [<-|Hne]; [congruence|].
    apply (Hno d m). by rewrite lookup_insert_ne.
Qed.

(** A call about another channel leaves an entry as it is. *)
Lemma entry_kept S (cs : chans) (p : P) cs' p' c fd d x ch :
  refines S cs p -> others (CB := CB) (OBJ := OBJ) c fd cs p cs' p' -> d <> c -> S !! d = Some x -> x.1 <> fd ->
  cs !! d = Some ch -> exists ch', cs' !! d = Some ch' /\ entry_ok p' d x ch'.
Proof.
  intros Hr (Hs & Hk & Hi) Hd HS Hx Hc. destruct (refines_lookup S cs p d x Hr HS) as (ch0 & Hc0 & Hok).
  rewrite Hc in Hc0. injection Hc0 as <-. specialize (Hs d Hd). rewrite Hc in Hs.
  destruct (cs' !! d) as [ch'|] eqn:Hc'; [|done]. cbn in Hs. exists ch'. split; [done|].
  destruct (Hk d ch ch' Hd Hc Hc') as [Hm Hix]. destruct Hok as [Hfd Hok].
  split; [by etrans; [symmetry|]|]. destruct x.2 as [m|].
  - destruct Hok as [H1 H2]. split; [by apply Hm|by rewrite Hi].
  - by apply Hix.
Qed.

(** So all the entries but [c]'s still fit; [y] is what becomes of that one. *)
Lemma others_refine S (cs : chans) (p : P) cs' p' c fd o y :
  refines S cs p -> (exists om, S !! c = Some (fd, om)) -> others (CB := CB) (OBJ := OBJ) c fd cs p cs' p' ->
  poller_inv cs' p' -> (forall d, d <> c -> after S o !! d = S !! d) -> after S o !! c = y ->
  option_relation (entry_ok p' c) (const False) (const False) y (cs' !! c) ->
  match y with Some (fd', Some m) => fd' = fd | Some _ => False | None => interest (CB := CB) (OBJ := OBJ) p' fd = 0 end ->
  refines (after S o) cs' p'.
Proof.
  intros Hr [om Hc] Ho Hi Hd Hy Hec Hfd. pose proof Hr as (_ & He & Hu & Hn).
  assert (forall d x, d <> c -> S !! d = Some x -> x.1 <> fd) as Hne.
  { intros d x Hdc HS Ex. by apply Hdc, (Hu d c x (fd, om) HS Hc). }
  split_and!; [done|..].
  - intros d. destruct (decide (d = c)) as [->|Hdc]; [by rewrite Hy|]. rewrite (Hd d Hdc).
    destruct (S !! d) as [x|] eqn:HS.
    + destruct (refines_lookup S cs p d x Hr HS) as (ch & Hch & _).
      destruct (entry_kept S cs p cs' p' c fd d x ch Hr Ho Hdc HS (Hne d x Hdc HS) Hch) as (ch' & -> & ?). done.
    + destruct Ho as (Hs & _). specialize (Hs d Hdc). specialize (He d). rewrite HS in He.
      destruct (cs !! d); [done|]. by destruct (cs' !! d).
  - intros d1 d2 x1 x2 H1 H2 E. destruct (decide (d1 = c)) as [->|N1], (decide (d2 = c)) as [->|N2]; [done|..].
    + rewrite (Hd d2 N2) in H2. rewrite Hy in H1. rewrite H1 in Hfd. destruct x1 as [f1 [m|]]; [|done]. cbn in *.
      by destruct (Hne d2 x2 N2 H2); subst.
    + rewrite (Hd d1 N1) in H1. rewrite Hy in H2. rewrite H2 in Hfd. destruct x2 as [f2 [m|]]; [|done]. cbn in *.
      by destruct (Hne d1 x1 N1 H1); subst.
    + rewrite (Hd d1 N1) in H1. rewrite (Hd d2 N2) in H2. by eapply Hu.
  - intros fd' Hno. destruct Ho as (_ & _ & Hio). destruct (decide (fd' = fd)) as [->|Hf].
    + destruct y as [[f [m|]]|]; [|done..]. subst f. by destruct (Hno c m).
    + rewrite Hio by done. apply Hn. intros d m HS. destruct (decide (d = c)) as [->|Hdc].
      * rewrite Hc in HS. by injection HS as ->.
      * apply (Hno d m). by rewrite Hd.
Qed.

Lemma watch_refines S (cs : chans) (p : P) c e : refines S cs p -> legal S (Watch c e) -> accepted (Watch c e) cs p ->
  exists cs' p', step (Watch c e) cs p = Ok (cs', p') /\ refines (after S (Watch c e)) cs' p'.
Proof.
  intros Hr [[[fd om] Hc] He0] Ha. destruct (refines_lookup S cs p c _ Hr Hc) as (ch & Hch & Hok).
  pose proof (entry_fd _ _ _ _ Hok) as Hfd. destruct Hok as [Hsame Hok]. cbn in Hfd, Hok, Hsame.
  pose proof Hr as (Hi & _ & Hu & _).
  assert (usable p c ch) as Hus.
  { destruct om as [m|]; [by apply managed_usable, Hok|].
    apply (usable_new cs); [done|done|done| |by apply Ha].
    intros d chd Hd Hcd E. destruct (refines_channel S cs p d chd Hr Hcd) as (x & HS & Hx%entry_fd).
    apply Hd, (Hu d c x (fd, None) HS Hc). cbn. congruence. }
  destruct (update_law cs p c ch e Hi Hch Hus He0) as (cs' & p' & ch' & E & Hi' & Hs & Hc' & Hm & Hint & Hoth & Hk).
  exists cs', p'. cbn [step]. rewrite Hch. split; [done|].
  pose proof Hs as Hsc. specialize (Hs c). rewrite lookup_insert_eq, Hc' in Hs. cbn in Hs.
  eapply (others_refine S cs p cs' p' c fd (Watch c e) (Some (fd, Some e))); [done|by eexists| |done|..].
  - rewrite <- Hfd. eapply others_update; [exact Hsc|done..].
  - intros d Hd. cbn. by rewrite lookup_alter_ne.
  - cbn. by rewrite lookup_alter_eq, Hc.
  - rewrite Hc'. cbn. split; [|by split; [|rewrite <- Hfd]]. etrans; [symmetry; exact Hs|].
    apply (ChannelFacts.with_events_proper e) in Hsame. exact Hsame.
  - done.
Qed.

Lemma close_refines S (cs : chans) (p : P) c : refines S cs p -> legal S (Close c) ->
  exists cs' p', step (Close c) cs p = Ok (cs', p') /\ refines (after S (Close c)) cs' p'.
Proof.
  intros Hr (fd & m & Hc). destruct (refines_lookup S cs p c _ Hr Hc) as (ch & Hch & Hok).
  pose proof (entry_fd _ _ _ _ Hok) as Hfd. destruct Hok as (_ & Hm & _). cbn in Hfd, Hm.
  pose proof Hr as (Hi & _). destruct (remove_law cs p c ch Hi Hch Hm) as (cs' & p' & E & Hs & Hi' & Hint & Hoth & Hk).
  exists (delete c cs'), p'. cbn [step]. rewrite E. split; [done|].
  eapply (others_refine S cs p _ p' c fd (Close c) None); [done|by eexists| |done|..].
  - apply others_delete. rewrite <- Hfd. by eapply others_remove.
  - intros d Hd. cbn. by rewrite lookup_delete_ne.
  - apply lookup_delete_eq.
  - by rewrite lookup_delete_eq.
  - by rewrite <- Hfd.
Qed.

Lemma run_refines S (cs : chans) (p : P) os : refines S cs p -> legal_run S os -> accepted_run os cs p ->
  exists cs' p', run os cs p = Ok (cs', p') /\ refines (finally S os) cs' p'.
Proof.
  revert S cs p. induction os as [|o os IH]; intros S cs p Hr Hl Ha; [by exists cs, p|].
  destruct Hl as [Ho Hl], Ha as [Hao Ha].
  assert (exists cs1 p1, step o cs p = Ok (cs1, p1) /\ refines (after S o) cs1 p1) as (cs1 & p1 & E & Hr1).
  { destruct o; [by eexists _, _; split; [|apply open_refines]|by apply watch_refines|by apply close_refines]. }
  rewrite E in Ha. destruct (IH _ _ _ Hr1 Hl Ha) as (cs2 & p2 & E2 & Hr2). exists cs2, p2. cbn [run]. by rewrite E.
Qed.

(** The kernel watches what the table says. *)
Lemma refines_interest S (cs : chans) (p : P) fd : refines S cs p ->
  mask_of S fd (interest (CB := CB) (OBJ := OBJ) p fd).
Proof.
  intros Hr. pose proof Hr as (_ & _ & _ & Hn).
  destruct (decide (map_Forall (fun _ x => ~ (x.1 = fd /\ is_Some x.2)) S)) as [Hf|Hf].
  - assert (forall c m, S !! c <> Some (fd, Some m)) as Hno by (intros c m Hc; by destruct (Hf c _ Hc)).
    right. split; [by apply Hn|done].
  - apply map_not_Forall in Hf as (c & [fd' om] & Hc & Hx); [|apply _]. apply dec_stable in Hx as [Hfd [m Hm]].
    cbn in Hfd, Hm. subst. destruct (refines_lookup S cs p c _ Hr Hc) as (ch & _ & _ & _ & Hm). cbn in Hm.
    left. exists c. by rewrite Hm.
Qed.

Lemma mask_unique S fd e1 e2 : (forall c d x y, S !! c = Some x -> S !! d = Some y -> x.1 = y.1 -> c = d) ->
  mask_of S fd e1 -> mask_of S fd e2 -> e1 = e2.
Proof.
  intros Hu [[c Hc]|[-> H1]] [[d Hd]|[-> H2]]; [|by destruct (H2 c e1)|by destruct (H1 d e2)|done].
  pose proof (Hu c d _ _ Hc Hd eq_refl) as <-. congruence.
Qed.

End Facts.

(** Two pollers that represent the same table. *)
Lemma same_table {CB OBJ P1 P2} `{L1 : PollerLaws (CB := CB) (OBJ := OBJ) P1} `{L2 : PollerLaws (CB := CB) (OBJ := OBJ) P2}
    S cs1 cs2 (p1 : P1) (p2 : P2) :
  refines S cs1 p1 -> refines S cs2 p2 ->
  same_chans cs1 cs2 /\
  forall fd, interest (CB := CB) (OBJ := OBJ) p1 fd = interest (CB := CB) (OBJ := OBJ) p2 fd.
Proof.
  intros H1 H2. split.
  - intros c. pose proof H1 as (_ & He1 & _). pose proof H2 as (_ & He2 & _). specialize (He1 c). specialize (He2 c).
    destruct (S !! c) as [x|], (cs1 !! c) as [ch1|], (cs2 !! c) as [ch2|]; try done. cbn in *.
    destruct He1 as [E1 _], He2 as [E2 _]. by etrans; [|symmetry].
  - intros fd. apply (mask_unique S fd); [apply H1|by eapply refines_interest|by eapply refines_interest].
Qed.

(** Both start without channels. *)
Lemma epoll_start {CB OBJ K} `{EL : EpollLaws K} (k : K) : (forall fd, registered k !! fd = None) ->
  EpollPoller.inv (∅ : gmap ptr (Channel.t CB OBJ)) (EpollPoller.create k).
Proof.
  intros Hk. split_and!.
  - intros fd c. cbn. split; [done|]. by intros (ch & [=] & _).
  - intros fd e c. cbn. rewrite Hk. split; [done|]. by intros (ch & [=] & _).
  - by intros c ch [=].
Qed.

Lemma poll_start {CB OBJ} : PollPoller.inv (∅ : gmap ptr (Channel.t CB OBJ)) PollPoller.create.
Proof. split_and!; [done|by intros i e [=]|by intros c ch [=]]. Qed.

End PollerSpecFacts.

(** * Lemmas about waiting *)
Module WaitingFacts.
Import EpollFacts PollFacts PollerSpec PollerSpecFacts.

(** HasChannel knows the channels that were updated. *)
Lemma epoll_has {CB OBJ K} `{EL : EpollLaws K} S (cs : gmap ptr (Channel.t CB OBJ)) (p : EpollPoller.t K) c fd m :
  refines S cs p -> S !! c = Some (fd, Some m) -> HasChannel c cs p = true.
Proof.
  intros Hr Hc. destruct (refines_lookup S cs p c _ Hr Hc) as (ch & Hch & _ & [_ Hm] & _).
  unfold HasChannel. rewrite Hch. by apply bool_decide_eq_true.
Qed.
Lemma poll_has {CB OBJ} S (cs : gmap ptr (Channel.t CB OBJ)) (p : PollPoller.t) c fd m :
  refines S cs p -> S !! c = Some (fd, Some m) -> HasChannel c cs p = true.
Proof.
  intros Hr Hc. destruct (refines_lookup S cs p c _ Hr Hc) as (ch & Hch & _ & (_ & Hm & _) & _).
  unfold HasChannel. rewrite Hch. by apply bool_decide_eq_true.
Qed.

(** What there is to report about the channels of a table. *)
Definition reported (S : table) (f : Waiting.reports) (r : Z) (c : ptr) : Prop :=
  exists fd m, S !! c = Some (fd, Some m) /\ r = f fd m /\ 0 < r.

Lemma NoDup_omap_snd {A B C} (f : A -> option (B * C)) l :
  (forall i j x y b b' c, l !! i = Some x -> l !! j = Some y -> f x = Some (b, c) -> f y = Some (b', c) -> i = j) ->
  NoDup (omap f l).*2.
Proof.
  induction l as [|x l IH]; intros H; [constructor|]. cbn.
  assert (NoDup (omap f l).*2) as Hl.
  { apply IH. intros i j y z b b' c Hi Hj Ey Ez. specialize (H (Datatypes.S i) (Datatypes.S j) y z b b' c Hi Hj Ey Ez). lia. }
  destruct (f x) as [[b c]|] eqn:E; [|done]. cbn. constructor; [|done].
  intros ([b' c'] & Ec & (y & Hy & Ey)%list_elem_of_omap)%list_elem_of_fmap. cbn in Ec. subst c'.
  apply list_elem_of_lookup_1 in Hy as [i Hi]. by specialize (H 0%nat (Datatypes.S i) x y b b' c eq_refl Hi E Ey).
Qed.

Lemma foldl_revents {CB OBJ} (cs : gmap ptr (Channel.t CB OBJ)) evs c : NoDup evs.*2 ->
  let cs' := foldl (fun cs x => alter (Channel.Set_Revents x.1) x.2 cs) cs evs in
  (forall r, (r, c) ∈ evs -> cs' !! c = Channel.Set_Revents r <$> cs !! c) /\
  (c ∉ evs.*2 -> cs' !! c = cs !! c).
Proof.
  revert cs. induction evs as [|[r d] evs IH]; intros cs Hn; [by split; [intros r ?%not_elem_of_nil|]|].
  cbn in Hn. apply list.NoDup_cons in Hn as [Hd Hn]. destruct (IH (alter (Channel.Set_Revents r) d cs) Hn) as [H1 H2].
  cbn [foldl fst snd]. split.
  - intros r' [[= -> ->]|Hin]%elem_of_cons.
    + rewrite H2 by done. by rewrite lookup_alter_eq.
    + rewrite (H1 r' Hin), lookup_alter_ne; [done|]. intros ->. apply Hd. by apply (list_elem_of_fmap_2 snd _ (r', c)).
  - cbn. intros [Hne Hc]%not_elem_of_cons. rewrite H2 by done. by rewrite lookup_alter_ne.
Qed.

Lemma epoll_reported {CB OBJ K} `{EL : EpollLaws K} S (cs : gmap ptr (Channel.t CB OBJ)) (p : EpollPoller.t K) f :
  refines S cs p -> (forall fd, f fd 0 = 0) ->
  NoDup (Waiting.told f (EpollPoller.kernel p)).*2 /\
  forall r c, (r, c) ∈ Waiting.told f (EpollPoller.kernel p) <-> reported S f r c.
Proof.
  intros Hr H0. pose proof Hr as ((Hm & Hreg & Hix) & _). split.
  - apply NoDup_omap_snd. intros i j [fd1 [e1 c1]] [fd2 [e2 c2]] b b' c Hi Hj. cbn.
    destruct (0 <? f fd1 e1); [|done]. destruct (0 <? f fd2 e2); [|done]. intros [= _ ->] [= _ ->].
    assert (forall n fd e, map_to_list (registered (EpollPoller.kernel p)) !! n = Some (fd, (e, c)) ->
      registered (EpollPoller.kernel p) !! fd = Some (e, c)) as Hl.
    { intros n fd e Hn%list_elem_of_lookup_2. by apply elem_of_map_to_list in Hn. }
    pose proof (Hl i fd1 e1 Hi) as Ha. pose proof (Hl j fd2 e2 Hj) as Hb.
    apply Hreg in Ha as (ch & Hc & <- & _ & <-). apply Hreg in Hb as (ch' & Hc' & <- & _ & <-).
    rewrite Hc in Hc'. injection Hc' as <-. eapply NoDup_lookup; [|exact Hi|exact Hj]. apply NoDup_map_to_list.
  - intros r c. unfold Waiting.told. rewrite list_elem_of_omap. split.
    + intros ([fd [e d]] & Hin & E). apply elem_of_map_to_list in Hin. cbn in E.
      destruct (Z.ltb_spec 0 (f fd e)) as [Hpos|]; [|done]. injection E as <- <-.
      apply Hreg in Hin as (ch & Hc & <- & Hi & <-). destruct (refines_channel S cs p d ch Hr Hc) as ([fd m] & HS & Hs & Hx).
      pose proof (ChannelFacts.events_proper _ _ Hs) as He. pose proof (ChannelFacts.fd_proper _ _ Hs) as Hf. cbn in He, Hf, Hx.
      destruct m as [m|]; [|by rewrite Hx in Hi]. exists fd, m. cbn in He. rewrite He, Hf in *. done.
    + intros (fd & m & HS & -> & Hpos). destruct (refines_lookup S cs p c _ Hr HS) as (ch & Hc & Hs & [_ Hmap] & _).
      pose proof (ChannelFacts.events_proper _ _ Hs) as He. pose proof (ChannelFacts.fd_proper _ _ Hs) as Hf. cbn in He, Hf.
      exists (fd, (m, c)). cbn. destruct (Z.ltb_spec 0 (f fd m)); [|lia]. split; [|done].
      apply elem_of_map_to_list, Hreg. exists ch. split_and!; try done.
      apply Hm in Hmap as (ch' & Hc' & _ & [Hi|Hi]); rewrite Hc in Hc'; injection Hc' as <-; [done|].
      destruct (Hix c ch Hc) as [E|[E|[_ E]]]; [by rewrite E in Hi..|]. rewrite E in He. subst m.
      change Channel.kNoneEvent with 0 in Hpos. rewrite H0 in Hpos. lia.
Qed.

(** The entries in which the loop finds something, with their channels. *)
Definition found (f : Waiting.reports) (maps : gmap Z ptr) (l : list PollPoller.pollfd) : list (Z * ptr) :=
  omap (fun e => if 0 <? f (PollPoller.pfd e) (PollPoller.pevents e)
                 then pair (f (PollPoller.pfd e) (PollPoller.pevents e)) <$> maps !! PollPoller.pfd e else None) l.

Lemma poll_reported {CB OBJ} S (cs : gmap ptr (Channel.t CB OBJ)) (p : PollPoller.t) f : refines S cs p ->
  NoDup (found f (PollPoller.channel_maps_ p) (PollPoller.poll_list_ p)).*2 /\
  forall r c, (r, c) ∈ found f (PollPoller.channel_maps_ p) (PollPoller.poll_list_ p) <-> reported S f r c.
Proof.
  intros Hr. pose proof Hr as ((_ & He & Hl) & _). split.
  - apply NoDup_omap_snd. intros i j e1 e2 b b' c Hi Hj.
    destruct (He i e1 Hi) as (c1 & ch1 & Hm1 & Hc1 & _ & Hi1 & _), (He j e2 Hj) as (c2 & ch2 & Hm2 & Hc2 & _ & Hi2 & _).
    rewrite Hm1, Hm2. cbn. destruct (0 <? _); [|done]. destruct (0 <? _); [|done]. intros [= _ ->] [= _ ->].
    rewrite Hc1 in Hc2. injection Hc2 as <-. lia.
  - intros r c. unfold found. rewrite list_elem_of_omap. split.
    + intros (e & [i Hi]%list_elem_of_lookup_1 & E). destruct (He i e Hi) as (d & ch & Hm & Hc & Hf & Hix & Hev).
      rewrite Hm in E. cbn in E. destruct (Z.ltb_spec 0 (f (PollPoller.pfd e) (PollPoller.pevents e))) as [Hpos|]; [|done].
      injection E as <- <-. destruct (refines_channel S cs p d ch Hr Hc) as ([fd m] & HS & Hs & Hx).
      pose proof (ChannelFacts.events_proper _ _ Hs) as He'. pose proof (ChannelFacts.fd_proper _ _ Hs) as Hf'. cbn in He', Hf', Hx.
      destruct m as [m|]; [|lia]. exists fd, m. cbn in He'. rewrite <- Hf, <- Hev, He', Hf' in *. done.
    + intros (fd & m & HS & -> & Hpos). destruct (refines_lookup S cs p c _ Hr HS) as (ch & Hc & Hs & Hlst & _).
      pose proof (ChannelFacts.events_proper _ _ Hs) as He'. pose proof (ChannelFacts.fd_proper _ _ Hs) as Hf'. cbn in He', Hf'.
      pose proof Hlst as (Hix & Hm & e & Hi & Hfe).
      destruct (He _ e Hi) as (d & ch' & Hm' & Hc' & Hfd & _ & Hev). rewrite Hfe, Hm in Hm'. injection Hm' as <-.
      rewrite Hc in Hc'. injection Hc' as <-. exists e. split; [by eapply list_elem_of_lookup_2|].
      rewrite Hfe, Hm, <- Hev, He', Hf'. destruct (Z.ltb_spec 0 (f fd m)); [done|lia].
Qed.

(** The loop of the poll poller over its array is that of the epoll poller over what was
    found. *)
Lemma ready_cons f e l : Waiting.ready (Waiting.mark f <$> e :: l) =
  (if 0 <? f (PollPoller.pfd e) (PollPoller.pevents e) then 1 else 0) + Waiting.ready (Waiting.mark f <$> l).
Proof.
  unfold Waiting.ready. rewrite fmap_cons, filter_cons. cbn [PollPoller.prevents Waiting.mark]. destruct (Z.ltb_spec 0 (f (PollPoller.pfd e) (PollPoller.pevents e))).
  - rewrite decide_True by done. by rewrite zlen_cons.
  - by rewrite decide_False by lia.
Qed.

Lemma fill_none {CB OBJ} l n (cs : gmap ptr (Channel.t CB OBJ)) p : n <= 0 ->
  PollPoller.FillActiveChannnels l n cs p = Ok (cs, []).
Proof. intros Hn. destruct l as [|e l]; [done|]. cbn. by destruct (Z.ltb_spec 0 n); [lia|]. Qed.

Lemma poll_fill {CB OBJ} f l (cs : gmap ptr (Channel.t CB OBJ)) p :
  (forall e, e ∈ l -> is_Some (PollPoller.channel_maps_ p !! PollPoller.pfd e)) ->
  PollPoller.FillActiveChannnels (Waiting.mark f <$> l) (Waiting.ready (Waiting.mark f <$> l)) cs p =
  EpollPoller.FillActiveChannels (found f (PollPoller.channel_maps_ p) l) cs.
Proof.
  revert cs. induction l as [|e l IH]; intros cs Hm; [done|].
  assert (0 <= Waiting.ready (Waiting.mark f <$> l)) as Hn by apply zlen_nonneg.
  destruct (Hm e) as [c Hc]; [left|]. specialize (fun cs => IH cs (fun x Hx => Hm x (list_elem_of_further _ _ _ Hx))).
  rewrite ready_cons. cbn -[Waiting.ready]. rewrite Hc. destruct (Z.ltb_spec 0 (f (PollPoller.pfd e) (PollPoller.pevents e))).
  - destruct (Z.ltb_spec 0 (1 + Waiting.ready (Waiting.mark f <$> l))); [|lia]. cbn [fmap option_fmap option_map].
    cbn -[Waiting.ready]. destruct (cs !! c); [|done].
    replace (1 + Waiting.ready (Waiting.mark f <$> l) - 1) with (Waiting.ready (Waiting.mark f <$> l)) by lia. by rewrite IH.
  - rewrite Z.add_0_l. destruct (Z.ltb_spec 0 (Waiting.ready (Waiting.mark f <$> l))) as [|Hz]; [by rewrite IH|].
    by rewrite <- IH, fill_none.
Qed.

(** The same reports make the same channels active, with the same events. *)
Lemma same_active {CB OBJ} (cs1 cs2 : gmap ptr (Channel.t CB OBJ)) evs1 evs2 :
  same_chans cs1 cs2 -> NoDup evs1.*2 -> evs1 ≡ₚ evs2 ->
  same_chans (foldl (fun cs x => alter (Channel.Set_Revents x.1) x.2 cs) cs1 evs1)
             (foldl (fun cs x => alter (Channel.Set_Revents x.1) x.2 cs) cs2 evs2).
Proof.
  intros Hs Hn Hp c. assert (NoDup evs2.*2) as Hn2 by (by rewrite <- Hp).
  destruct (foldl_revents cs1 evs1 c Hn) as [A1 A2], (foldl_revents cs2 evs2 c Hn2) as [B1 B2]. specialize (Hs c).
  destruct (decide (c ∈ evs1.*2)) as [Hin|Hin].
  - apply list_elem_of_fmap in Hin as ([r c'] & -> & Hin). cbn in *. rewrite (A1 r Hin), (B1 r) by (by rewrite <- Hp).
    destruct (cs1 !! c'), (cs2 !! c'); try done. cbn in *. by apply ChannelFacts.Set_Revents_proper.
  - rewrite A2, B2 by (done || by rewrite <- Hp). done.
Qed.


Lemma epoll_polling {CB OBJ K} `{EL : EpollLaws K} (cs : gmap ptr (Channel.t CB OBJ)) (p : EpollPoller.t K) t evs :
  (epoll_wait (EpollPoller.events_size p) t (EpollPoller.kernel p)).1 = inl evs ->
  (forall r c, (r, c) ∈ evs -> is_Some (cs !! c)) ->
  EpollPoller.Polling t cs p = Ok (foldl (fun cs x => alter (Channel.Set_Revents x.1) x.2 cs) cs evs, evs.*2,
    EpollPoller.mk (EpollPoller.channel_maps_ p)
      (if zlen evs =? EpollPoller.events_size p then if bool_decide (evs = []) then EpollPoller.events_size p
       else EpollPoller.events_size p * 2 else EpollPoller.events_size p)
      (epoll_wait (EpollPoller.events_size p) t (EpollPoller.kernel p)).2).
Proof.
  intros E Hin. unfold EpollPoller.Polling. destruct (epoll_wait _ _ _) as [r k]. cbn in E |- *. subst r.
  destruct evs as [|x evs]; [by destruct (_ =? _)|]. rewrite EpollProps.FillActiveChannels_spec by done. done.
Qed.

Lemma poll_polling {CB OBJ} S (cs : gmap ptr (Channel.t CB OBJ)) p f t : refines S cs p ->
  PollPoller.Polling (Waiting.poll f) t cs p =
  '(cs, a) ← EpollPoller.FillActiveChannels (found f (PollPoller.channel_maps_ p) (PollPoller.poll_list_ p)) cs;
  Ok (cs, a, PollPoller.mk (PollPoller.channel_maps_ p) (Waiting.mark f <$> PollPoller.poll_list_ p)).
Proof.
  intros ((_ & He & _) & _). unfold PollPoller.Polling, Waiting.poll.
  set (p' := PollPoller.mk (PollPoller.channel_maps_ p) (Waiting.mark f <$> PollPoller.poll_list_ p)).
  pose proof (poll_fill f (PollPoller.poll_list_ p) cs p') as Hf. cbn [p' PollPoller.channel_maps_] in Hf.
  rewrite <- Hf. 2:{ intros e [i Hi]%list_elem_of_lookup_1. by destruct (He i e Hi) as (c & _ & -> & _). }
  set (n := Waiting.ready (Waiting.mark f <$> PollPoller.poll_list_ p)).
  assert (0 <= n) by apply zlen_nonneg. destruct (Z.ltb_spec 0 n) as [|Hn]; [done|].
  destruct (Z.eqb_spec n 0) as [E|]; [|lia]. rewrite E. by rewrite fill_none.
Qed.

(** After one wait each, with the same to report. *)
Lemma same_wait {CB OBJ K} `{EL : EpollLaws K} S (cs1 cs2 : gmap ptr (Channel.t CB OBJ)) (p1 : EpollPoller.t K) p2 f t :
  refines S cs1 p1 -> refines S cs2 p2 -> (forall fd, f fd 0 = 0) ->
  Waiting.waits f (EpollPoller.events_size p1) t (EpollPoller.kernel p1) ->
  exists cs1' a1 p1' cs2' a2 p2',
    EpollPoller.Polling t cs1 p1 = Ok (cs1', a1, p1') /\
    PollPoller.Polling (Waiting.poll f) t cs2 p2 = Ok (cs2', a2, p2') /\
    same_chans cs1' cs2' /\ a1 ≡ₚ a2 /\ NoDup a1 /\ forall c, c ∈ a1 <-> exists r, reported S f r c.
Proof.
  intros R1 R2 H0 (evs & Ew & Hevs). destruct (same_table S cs1 cs2 p1 p2 R1 R2) as [Hs _].
  destruct (epoll_reported S cs1 p1 f R1 H0) as [Hn1 Hm1], (poll_reported S cs2 p2 f R2) as [Hn2 Hm2].
  rewrite <- Hevs in Hn1. setoid_rewrite <- Hevs in Hm1.
  set (evs2 := found f (PollPoller.channel_maps_ p2) (PollPoller.poll_list_ p2)) in *.
  assert (evs ≡ₚ evs2) as Hp.
  { apply NoDup_Permutation; [by eapply NoDup_fmap_1..|]. intros [r c]. by rewrite Hm1, Hm2. }
  assert (forall r c, reported S f r c -> is_Some (cs1 !! c) /\ is_Some (cs2 !! c)) as Hin.
  { intros r c (fd & m & HS & _). destruct (refines_lookup S cs1 p1 c _ R1 HS) as (? & -> & _).
    by destruct (refines_lookup S cs2 p2 c _ R2 HS) as (? & -> & _). }
  eexists _, evs.*2, _, _, evs2.*2, _. split; [|split; [|split; [|split; [|split]]]].
  - apply epoll_polling; [done|]. intros r c Hc%Hm1. by apply (Hin r c).
  - rewrite (poll_polling S) by done. unfold evs2. rewrite EpollProps.FillActiveChannels_spec; [done|].
    intros r c Hc%Hm2. by apply (Hin r c).
  - by apply same_active.
  - by rewrite Hp.
  - done.
  - intros c. rewrite list_elem_of_fmap. split.
    + intros ([r c'] & -> & Hc%Hm1). by exists r.
    + intros [r Hc%Hm1]. by exists (r, c).
Qed.

End WaitingFacts.

(** * Properties *)
Module PollersProps.
Import EpollFacts PollFacts PollerSpec PollerSpecFacts WaitingFacts.

Section Props.
Context {CB OBJ : Type}.
Abbreviation chans := (gmap ptr (Channel.t CB OBJ)).


End Props.

Definition sample_calls : list op :=
  [Open 1 7; Watch 1 3; Open 2 8; Watch 2 1; Watch 1 0; Close 1]%positive.

(** In the end descriptor 8 is watched, and ready. *)
Definition one_ready : Waiting.reports := fun _ e => if e =? 0 then 0 else 1.
Definition ready_kernel : SimpleEpoll.t := SimpleEpoll.mk ∅ [(1, 2%positive)].


End PollersProps.
