(* ===== verification/Heap.v ===== *)
(** Std::priority_queue over std::vector, as the timer container uses it: the
    push_heap and pop_heap algorithms on a vector, with the loops of the library's
    implementation, and the laws of the queue. Removing the top never reads the
    top's own key, which is what the timer container relies on. *)
From Stdlib Require Import Arith Lia.
From stdpp Require Import base list.
From S2P Require Import Prelude.

Module Heap.

Section Heap.
Context {A : Type}.
(** [less a b]: the comparator object, true when [a] comes after [b]. *)
Context (less : A -> A -> bool).

Definition parent (i : nat) : nat := Nat.div2 (i - 1).

(** [__push_heap]: the hole at [h] moves up while its parent is less than the
    value; [h] bounds the number of moves. *)
Fixpoint sift_up (fuel : nat) (h : nat) (value : A) (v : list A) : list A :=
  match fuel with
  | O => <[h := value]> v
  | S fuel =>
      if decide (h = 0) then <[h := value]> v
      else
        match v !! parent h with
        | Some x =>
            if less x value then sift_up fuel (parent h) value (<[h := x]> v)
            else <[h := value]> v
        | None => <[h := value]> v
        end
  end.

(** The larger child of [h] among [2h + 1] and [2h + 2]. *)
Definition larger_child (h : nat) (v : list A) : nat :=
  match v !! (2 * h + 2), v !! (2 * h + 1) with
  | Some r, Some l => if less r l then 2 * h + 1 else 2 * h + 2
  | _, _ => 2 * h + 2
  end.

(** [__adjust_heap]: the hole moves down to a leaf, always to the larger child;
    a last lone left child is handled after the loop. Answers the vector and the
    hole. *)
Fixpoint sift_down (fuel : nat) (h : nat) (v : list A) : list A * nat :=
  match fuel with
  | O => (v, h)
  | S fuel =>
      if decide (h < Nat.div2 (length v - 1)) then
        let c := larger_child h v in
        match v !! c with
        | Some x => sift_down fuel c (<[h := x]> v)
        | None => (v, h)
        end
      else if decide (Nat.even (length v) = true /\ h = Nat.div2 (length v - 2) /\ 0 < length v) then
        match v !! (2 * h + 1) with
        | Some x => (<[h := x]> v, 2 * h + 1)
        | None => (v, h)
        end
      else (v, h)
  end.

(** [q.push(x)] *)
Definition push (x : A) (v : list A) : list A :=
  sift_up (length v) (length v) x (v ++ [x]).

(** [q.top()] *)
Definition top (v : list A) : option A := head v.

(** [q.pop()]: undefined on an empty queue; the last element is the value that is
    sifted from the root of the vector without it. *)
Definition pop (v : list A) : option (list A) :=
  match v with
  | [] => None
  | [_] => Some []
  | _ :: _ =>
      match v !! (length v - 1) with
      | None => None
      | Some value =>
          let '(v, h) := sift_down (length v) 0 (removelast v) in
          Some (sift_up h h value v)
      end
  end.

(** [ge v i j]: the element at [i] is not less than the one at [j]. *)
Definition ge (v : list A) (i j : nat) : Prop :=
  forall x y, v !! i = Some x -> v !! j = Some y -> less x y = false.

Definition heap (v : list A) : Prop := forall i, 0 < i -> ge v (parent i) i.

(** A heap but for what involves the root: what is left when the key of the top
    element has changed. *)
Definition heap_below (v : list A) : Prop :=
  forall i, 0 < i -> 0 < parent i -> ge v (parent i) i.

End Heap.

(** The requirement the C++ standard puts on a comparator. *)
Class WeakOrder {A} (less : A -> A -> bool) : Prop := {
  less_asym x y : less x y = true -> less y x = false;
  less_negtrans x y z : less x y = false -> less y z = false -> less x z = false;
}.

End Heap.

Module HeapFacts.
Import Heap.

Lemma parent_lt i : 0 < i -> parent i < i.
Proof. unfold parent. intros. pose proof (Nat.div2_decr (i - 1) (i - 1)). lia. Qed.

Lemma parent_eq i h : 0 < i -> parent i = h <-> i = 2 * h + 1 \/ i = 2 * h + 2.
Proof.
  intros. unfold parent. rewrite Nat.div2_div.
  pose proof (Nat.div_mod_eq (i - 1) 2). pose proof (Nat.mod_upper_bound (i - 1) 2). lia.
Qed.

Section Facts.
Context {A : Type} (less : A -> A -> bool) `{!WeakOrder less}.
Implicit Types (v u : list A).

Lemma less_irrefl x : less x x = false.
Proof. destruct (less x x) eqn:E; [|done]. pose proof (less_asym x x E). congruence. Qed.

Lemma less_trans_ge x y z : less x y = true -> less x z = false -> less y z = false.
Proof. intros Hxy Hxz. apply (less_negtrans y x z); [by apply less_asym|done]. Qed.

Lemma ge_trans v i j k : is_Some (v !! j) -> ge less v i j -> ge less v j k -> ge less v i k.
Proof. intros [y Hy] Hij Hjk x z Hx Hz. apply (less_negtrans x y z); eauto. Qed.

(** Stated on the vector with the value already written into the hole. *)
Definition up_inv (h : nat) (value : A) v : Prop :=
  let u := <[h := value]> v in
  (forall i, 0 < i -> i <> h -> ge less u (parent i) i) /\
  (0 < h -> forall i, 0 < i -> parent i = h -> ge less u (parent h) i).

Lemma ge_insert_other v h x i j :
  i <> h -> j <> h -> ge less (<[h := x]> v) i j <-> ge less v i j.
Proof. intros. unfold ge. by rewrite !list_lookup_insert_ne by done. Qed.

Lemma up_step v h value x :
  up_inv h value v -> h < length v -> 0 < h -> v !! parent h = Some x ->
  less x value = true -> up_inv (parent h) value (<[h := x]> v).
Proof.
  intros [Ha Hb] Hlen Hh Hx Hlt. pose proof (parent_lt h Hh) as Hp.
  set (p := parent h) in *.
  assert (forall k, <[p := value]> (<[h := x]> v) !! k =
    if decide (k = p) then Some value else if decide (k = h) then Some x
    else <[h := value]> v !! k) as Hu1.
  { intros k. repeat case_decide; subst.
    - apply list_lookup_insert_eq. rewrite length_insert. lia.
    - by rewrite list_lookup_insert_ne, list_lookup_insert_eq by lia.
    - by rewrite !list_lookup_insert_ne by done. }
  assert (forall k, <[h := value]> v !! k = if decide (k = h) then Some value else v !! k) as Hu.
  { intros k. case_decide; subst; [by apply list_lookup_insert_eq|by rewrite list_lookup_insert_ne]. }
  split.
  - intros i Hi Hip a b. rewrite !Hu1. specialize (Ha i Hi). specialize (Hb Hh i Hi).
    unfold ge in Ha, Hb. rewrite !Hu in Ha. rewrite !Hu in Hb.
    destruct (decide (i = p)) as [?|_]; [done|].
    destruct (decide (i = h)) as [->|Hih].
    + fold p. destruct (decide (p = p)); [|done]. intros [= <-] [= <-]. by apply less_asym.
    + specialize (Ha Hih). rewrite !Hu. destruct (decide (i = h)); [done|].
      destruct (decide (parent i = p)) as [Hpi|Hpi].
      * intros [= <-] Hb'. apply (less_trans_ge x); [done|].
        rewrite Hpi in Ha. destruct (decide (p = h)); [lia|]. by eapply Ha.
      * destruct (decide (parent i = h)) as [Hph|Hph].
        -- intros [= <-] Hb'. apply (Hb Hph); destruct (decide _); try lia; done.
        -- intros Ha' Hb'. by apply Ha.
  - intros Hp0 i Hi Hpi a b. rewrite !Hu1. pose proof (parent_lt p Hp0).
    destruct (decide (parent p = p)); [lia|]. destruct (decide (parent p = h)); [lia|].
    destruct (decide (i = p)); [subst; pose proof (parent_lt p Hp0); lia|].
    intros Ha'. assert (less a x = false) as Hax.
    { apply (Ha p Hp0); [lia|done|]. rewrite Hu. by case_decide; [lia|]. }
    destruct (decide (i = h)); [by intros [= <-]|]. intros Hb'.
    apply (less_negtrans a x b); [done|].
    apply (Ha i Hi ltac:(done)); [|done]. rewrite Hpi, Hu. by case_decide; [lia|].
Qed.

Lemma up_done v h value :
  up_inv h value v ->
  (h = 0 \/ forall x, v !! parent h = Some x -> less x value = false) ->
  h < length v -> heap less (<[h := value]> v).
Proof.
  intros [Ha _] Hd Hlen i Hi. destruct (decide (i = h)) as [->|]; [|by apply Ha].
  destruct Hd as [?|Hd]; [lia|]. pose proof (parent_lt h Hi).
  intros x y. rewrite list_lookup_insert_ne, list_lookup_insert_eq by lia.
  intros Hx [= <-]. by apply Hd.
Qed.

Lemma sift_up_heap fuel h value v :
  h <= fuel -> h < length v -> up_inv h value v ->
  heap less (sift_up less fuel h value v).
Proof.
  revert h v. induction fuel as [|fuel IH]; intros h v Hf Hlen Hu; cbn.
  - apply up_done; [done|left; lia|done].
  - case_decide; [apply up_done; auto|]. pose proof (parent_lt h ltac:(lia)).
    destruct (lookup_lt_is_Some_2 v (parent h)) as [x Hx]; [lia|]. rewrite Hx.
    destruct (less x value) eqn:El.
    + apply IH; [lia|rewrite length_insert; lia|]. apply up_step; auto; lia.
    + apply up_done; [done|right; intros; simplify_eq; done|done].
Qed.

Lemma sift_up_perm fuel h value v :
  h < length v -> sift_up less fuel h value v ≡ₚ <[h := value]> v.
Proof.
  revert h v. induction fuel as [|fuel IH]; intros h v Hlen; cbn; [done|].
  case_decide; [done|]. pose proof (parent_lt h ltac:(lia)).
  destruct (v !! parent h) as [x|] eqn:Hx; [|done]. destruct (less x value); [|done].
  rewrite IH by (rewrite length_insert; lia).
  rewrite <- (list_insert_insert_eq v h x value) at 1.
  apply swap_perm; [lia| |].
  - by rewrite list_lookup_insert_ne by lia.
  - by apply list_lookup_insert_eq.
Qed.

(** ** The hole moving down *)

Definition down_inv (h : nat) v : Prop :=
  (forall i, 0 < i -> i <> h -> parent i <> h -> ge less v (parent i) i) /\
  (0 < h -> forall i, 0 < i -> parent i = h -> ge less v (parent h) i).

Lemma down_step v h c x :
  down_inv h v -> 0 < c -> parent c = h -> v !! c = Some x ->
  (forall i, 0 < i -> parent i = h -> i <> c -> ge less v c i) ->
  down_inv c (<[h := x]> v).
Proof.
  intros [Ha Hb] Hc Hpc Hx Hsib. pose proof (parent_lt c Hc).
  assert (h < length v) as Hlen by (apply lookup_lt_Some in Hx; lia).
  split.
  - intros i Hi Hic Hpi. pose proof (parent_lt i Hi).
    destruct (decide (i = h)) as [->|Hih].
    + intros a b. rewrite list_lookup_insert_ne, list_lookup_insert_eq by lia.
      intros Hpa [= <-]. by eapply (Hb Hi c).
    + destruct (decide (parent i = h)) as [Hph|Hph].
      * intros a b. rewrite Hph, list_lookup_insert_eq, list_lookup_insert_ne by done.
        intros [= <-] Hib. by eapply (Hsib i).
      * apply ge_insert_other; [done..|]. by apply Ha.
  - intros _ i Hi Hpi. pose proof (parent_lt i Hi). rewrite Hpc.
    intros a b. rewrite list_lookup_insert_eq, list_lookup_insert_ne by lia.
    intros [= <-] Hib. apply (Ha i); try lia; by rewrite ?Hpi.
Qed.

Lemma larger_child_spec h v : 2 * h + 2 < length v ->
  let c := larger_child less h v in
  parent c = h /\ 0 < c /\ h < c < length v /\
  forall i, 0 < i -> parent i = h -> i <> c -> ge less v c i.
Proof.
  intros Hlen. unfold larger_child.
  destruct (lookup_lt_is_Some_2 v (2 * h + 2)) as [r Hr]; [lia|].
  destruct (lookup_lt_is_Some_2 v (2 * h + 1)) as [l Hl]; [lia|].
  rewrite Hr, Hl. destruct (less r l) eqn:E.
  - split_and!; try lia; [apply parent_eq; lia|].
    intros i Hi Hpi Hne a b. apply (parent_eq i h Hi) in Hpi as [?| ->]; [lia|].
    rewrite Hl, Hr. intros [= <-] [= <-]. by apply less_asym.
  - split_and!; try lia; [apply parent_eq; lia|].
    intros i Hi Hpi Hne a b. apply (parent_eq i h Hi) in Hpi as [->|?]; [|lia].
    rewrite Hl, Hr. by intros [= <-] [= <-].
Qed.

(** Moving an element into the hole and reopening the hole where it was. *)
Lemma hole_move_perm v h c x value :
  h <> c -> h < length v -> v !! c = Some x ->
  <[c := value]> (<[h := x]> v) ≡ₚ <[h := value]> v.
Proof.
  intros Hne Hlen Hx. rewrite <- (list_insert_insert_eq v h x value).
  apply swap_perm; [lia| |].
  - by rewrite list_lookup_insert_ne.
  - by apply list_lookup_insert_eq.
Qed.

Lemma sift_down_spec fuel h v v' h' :
  length v <= fuel + h -> h < length v -> down_inv h v ->
  sift_down less fuel h v = (v', h') ->
  length v' = length v /\ h' < length v /\ length v <= 2 * h' + 1 /\
  down_inv h' v' /\ forall value, <[h' := value]> v' ≡ₚ <[h := value]> v.
Proof.
  revert h v. induction fuel as [|fuel IH]; intros h v Hf Hlen Hd; cbn; [lia|].
  rewrite !Nat.div2_div.
  pose proof (Nat.div_mod_eq (length v - 1) 2). pose proof (Nat.mod_upper_bound (length v - 1) 2).
  case_decide as Hlt.
  - destruct (larger_child_spec h v) as (Hpc & Hc & Hcl & Hsib); [lia|].
    set (c := larger_child less h v) in *.
    destruct (lookup_lt_is_Some_2 v c) as [x Hx]; [lia|]. rewrite Hx. intros Hs.
    apply IH in Hs as (Hl & Hh & Hleaf & Hd' & Hp);
      [|rewrite length_insert; lia..|by apply down_step].
    rewrite length_insert in *. split_and!; try done.
    intros value. rewrite Hp. apply hole_move_perm; [lia|done|done].
  - case_decide as Hev.
    + destruct Hev as ([k Hk]%Nat.even_spec & Hh & Hpos).
      pose proof (Nat.div_mod_eq (length v - 2) 2). pose proof (Nat.mod_upper_bound (length v - 2) 2).
      destruct (lookup_lt_is_Some_2 v (2 * h + 1)) as [x Hx]; [lia|]. cbn in Hx. rewrite Hx.
      intros [= <- <-]. rewrite length_insert. split_and!; try lia.
      * apply down_step; [done|lia|apply parent_eq; lia|done|].
        intros i Hi Hpi Hne a b _ Hb. apply (parent_eq i h Hi) in Hpi as [?| ->]; [lia|].
        apply lookup_lt_Some in Hb. lia.
      * intros value. apply hole_move_perm; [lia|done|done].
    + intros [= <- <-]. split_and!; try done.
      destruct (decide (length v <= 2 * h + 1)) as [|Hn]; [done|]. exfalso. apply Hev.
      assert (length v = 2 * (h + 1)) as Hl by lia. split_and!; [|rewrite Hl|lia].
      * apply Nat.even_spec. by exists (h + 1).
      * replace (2 * (h + 1) - 2) with (h * 2) by lia. by rewrite Nat.div_mul.
Qed.

(** ** The laws of the queue *)

(** The top is not less than any element. *)
Lemma top_max v t y :
  heap less v -> top v = Some t -> y ∈ v -> less t y = false.
Proof.
  intros Hh Ht [i Hi]%list_elem_of_lookup.
  assert (v !! 0 = Some t) as H0 by (destruct v; done).
  revert y Hi. induction i as [i IH] using lt_wf_ind. intros y Hi.
  destruct (decide (i = 0)) as [->|]; [simplify_eq; by apply less_irrefl|].
  pose proof (parent_lt i ltac:(lia)).
  destruct (lookup_lt_is_Some_2 v (parent i)) as [x Hx].
  { apply lookup_lt_Some in Hi. lia. }
  apply (less_negtrans t x y); [by eapply IH|]. eapply (Hh i); eauto. lia.
Qed.

Lemma push_perm x v : push less x v ≡ₚ x :: v.
Proof.
  unfold push. rewrite sift_up_perm by (rewrite length_app; cbn; lia).
  rewrite insert_app_r_alt, Nat.sub_diag by lia. cbn.
  by rewrite <- Permutation_cons_append.
Qed.

Lemma push_heap x v : heap less v -> heap less (push less x v).
Proof.
  intros Hh. apply sift_up_heap; [lia|rewrite length_app; cbn; lia|].
  unfold up_inv. rewrite insert_app_r_alt, Nat.sub_diag by lia. cbn. split.
  - intros i Hi Hne a b. pose proof (parent_lt i Hi).
    intros Ha Hb. pose proof (lookup_lt_Some _ _ _ Hb) as Hl. rewrite length_app in Hl. cbn in Hl.
    rewrite lookup_app_l in Ha by lia. rewrite lookup_app_l in Hb by lia.
    by eapply Hh.
  - intros Hl i Hi Hpi a b _ Hb. pose proof (parent_lt i Hi).
    apply lookup_lt_Some in Hb. rewrite length_app in Hb. cbn in Hb. lia.
Qed.

Lemma heap_heap_below v : heap less v -> heap_below less v.
Proof. intros Hh i ? _. by apply Hh. Qed.

(** Popping needs the order below the root only: the key of the element on top
    may have changed since it got there. *)
Lemma pop_spec t v : heap_below less (t :: v) ->
  exists v', pop less (t :: v) = Some v' /\ heap less v' /\ v' ≡ₚ v.
Proof.
  intros Hh. destruct v as [|y v _] using rev_ind.
  { exists []. split_and!; [done| |done]. intros i Hi x y Hx. done. }
  set (v0 := t :: v).
  assert (removelast (t :: v ++ [y]) = v0) as Hrl.
  { rewrite app_comm_cons. rewrite List.removelast_app by done. apply app_nil_r. }
  assert (pop less (t :: v ++ [y]) =
    let '(v1, h) := sift_down less (length (t :: v ++ [y])) 0 v0 in
    Some (sift_up less h h y v1)) as Hpop.
  { rewrite <- Hrl. unfold pop.
    assert ((t :: v ++ [y]) !! (length (t :: v ++ [y]) - 1) = Some y) as Hlast.
    { rewrite app_comm_cons, lookup_app_r; rewrite length_app; cbn; [|lia].
      by replace (length v + 1 - 0 - S (length v)) with 0 by lia. }
    rewrite Hlast. by destruct v. }
  rewrite Hpop. destruct (sift_down _ _ _ _) as [v1 h] eqn:Hs.
  apply sift_down_spec in Hs as (Hl & Hh' & Hleaf & Hd & Hp);
    [|unfold v0; cbn; rewrite length_app; lia|unfold v0; cbn; lia|].
  2:{ split; [|lia]. intros i Hi _ Hpi a b Ha Hb.
      eapply (Hh i); [lia|lia|by apply (lookup_app_l_Some v0 [y])|].
      by apply (lookup_app_l_Some v0 [y]). }
  eexists; split; [done|]. split.
  - apply sift_up_heap; [done|lia|]. split.
    + intros i Hi Hne. destruct (decide (parent i = h)) as [Hph|].
      * intros a b _ Hb. apply lookup_lt_Some in Hb. rewrite length_insert in Hb.
        apply (parent_eq i h Hi) in Hph. lia.
      * apply ge_insert_other; [done..|]. by apply Hd.
    + intros _ i Hi Hph a b _ Hb. apply lookup_lt_Some in Hb. rewrite length_insert in Hb.
      apply (parent_eq i h Hi) in Hph. lia.
  - rewrite sift_up_perm by lia. rewrite Hp. unfold v0. cbn.
    apply Permutation_cons_append.
Qed.

End Facts.
End HeapFacts.

Arguments Heap.pop : simpl never.
Arguments Heap.push : simpl never.
