(* ===== verification/Timer.v ===== *)
(** Timers (include/timer.h, src/timer.cc) and their container
    (include/timer_manager.h, src/timer_manager.cc): the heap-allocated timer
    objects, the priority queue of pointers to them, and the four operations of
    the container, with the callbacks a timer runs allowed to use the container
    themselves. *)
From Stdlib Require Import ZArith Lia Sorted.
From stdpp Require Import base gmap list option.
From S2P Require Import Prelude Poller Heap.

Local Open Scope Z_scope.

(** * The timer object and its identifier *)
Module Timer.

Section Timer.
Context {CB : Type}.

Record t := mk {
  id_ : Z;
  expired_time_ : Z;
  repeated_times_ : Z;
  interval_ : Z;
  callback_ : CB;
}.

Definition SetExpiredTime (e : Z) (x : t) : t :=
  mk (id_ x) e (repeated_times_ x) (interval_ x) (callback_ x).

(** [repeated_times_--] on an [int32_t]. *)
Definition DecRepeatTimes (x : t) : result t :=
  _ ← require (- 2 ^ 31 <? repeated_times_ x) (UB SignedOverflow);
  Ok (mk (id_ x) (expired_time_ x) (repeated_times_ x - 1) (interval_ x) (callback_ x)).
End Timer.
Arguments t : clear implicits.

(** [GenerateId]: one thread increments [initial_id_] under the mutex and reads it
    after releasing it. The two steps of a thread, and the counter they share: a
    thread is [Ready] before the increment, [Incremented] between the two, [Got id]
    once it has returned. *)
Inductive gen_pc := Ready | Incremented | Got (id : Z).

Record gen_state := mk_gen {
  initial_id_ : Z;
  threads : list gen_pc;
}.

(** [initial_id_++] on an [int64_t]. *)
Definition increment (initial_id : Z) : result Z :=
  _ ← require (initial_id <? 2 ^ 63 - 1) (UB SignedOverflow);
  Ok (initial_id + 1).

(** Thread [i] takes its next step. *)
Definition gen_step (i : nat) (s : gen_state) : result gen_state :=
  match threads s !! i with
  | Some Ready =>
      id ← increment (initial_id_ s);
      Ok (mk_gen id (<[i := Incremented]> (threads s)))
  | Some Incremented => Ok (mk_gen (initial_id_ s) (<[i := Got (initial_id_ s)]> (threads s)))
  | _ => Ok s
  end.

Definition gen_run (sched : list nat) (s : gen_state) : result gen_state := run_steps gen_step sched s.

(** [GenerateId] without interference: the identifier, and the counter after it. *)
Definition GenerateId (initial_id : Z) : result (Z * Z) :=
  id ← increment initial_id; Ok (id, id).

(** The constructor, and the shared counter after it. *)
Definition construct {CB} (expired_time_ms repeated_times interval : Z) (callback : CB) (initial_id : Z) :
    result (t CB * Z) :=
  '(id, initial_id) ← GenerateId initial_id;
  Ok (mk id expired_time_ms repeated_times interval callback, initial_id).

End Timer.

(** * The container *)
Module TimerManager.

(** [GetCurrentMillisecs], from the two fields of the kernel's answer. *)
Definition GetCurrentMillisecs (tv_sec tv_nsec : Z) : Z := u64 (tv_sec * 1000 + tv_nsec ÷ (1000 * 1000)).

Section TimerManager.
Context {CB : Type}.

(** The live timer objects by address, the queue of pointers, the shared
    identifier counter, and the next address the allocator hands out. *)
Record t := mk {
  objects : gmap ptr (Timer.t CB);
  timers_que_ : list ptr;
  next_id : Z;
  next_ptr : ptr;
}.

Definition create : t := mk ∅ [] 0 1%positive.

(** The comparator [cmp]: true when the first timer comes after the second. *)
Definition cmp (t1 t2 : Timer.t CB) : bool :=
  if Timer.expired_time_ t1 =? Timer.expired_time_ t2
  then Timer.repeated_times_ t2 <? Timer.repeated_times_ t1
  else Timer.expired_time_ t2 <? Timer.expired_time_ t1.

(** The comparator on pointers reads the objects. *)
Definition cmp_ptr (os : gmap ptr (Timer.t CB)) (p1 p2 : ptr) : bool :=
  match os !! p1, os !! p2 with
  | Some t1, Some t2 => cmp t1 t2
  | Some _, None => true
  | None, _ => false
  end.

(** [TimerManager::AddTimer] at clock reading [now]; [None] is the null pointer. *)
Definition AddTimer (now repeated_times interval : Z) (callback : CB) (m : t) : result (option ptr * t) :=
  if interval <=? 0 then Ok (None, m)
  else
    '(x, next_id) ← Timer.construct (u64 (now + interval)) repeated_times interval callback (next_id m);
    let p := next_ptr m in
    let os := <[p := x]> (objects m) in
    Ok (Some p, mk os (Heap.push (cmp_ptr os) p (timers_que_ m)) next_id (Pos.succ p)).

(** The loop of [RemoveTimer]: pops every pointer and pushes all but [timer] to a
    new queue, deleting the object when it meets it. *)
Fixpoint remove_loop (fuel : nat) (timer : ptr) (os : gmap ptr (Timer.t CB))
    (que newqueue : list ptr) : result (gmap ptr (Timer.t CB) * list ptr) :=
  match fuel, Heap.top que with
  | _, None => Ok (os, newqueue)
  | O, Some _ => Ok (os, newqueue)
  | S fuel, Some top =>
      match Heap.pop (cmp_ptr os) que with
      | None => Err (UB OutOfBounds)
      | Some que =>
          if decide (top = timer)
          then remove_loop fuel timer (delete timer os) que newqueue
          else remove_loop fuel timer os que (Heap.push (cmp_ptr os) top newqueue)
      end
  end.

(** [TimerManager::RemoveTimer] *)
Definition RemoveTimer (timer : ptr) (m : t) : result t :=
  '(os, que) ← remove_loop (length (timers_que_ m)) timer (objects m) (timers_que_ m) [];
  Ok (mk os que (next_id m) (next_ptr m)).

(** What a callback does to the container it is called from. *)
Context (run : CB -> t -> result t).

(** One iteration of [CheckAndHandle]: [None] when the loop is left. The timer is
    dereferenced again after its callback ran, and it is the queue's top that is
    popped, whatever the callback did. *)
Definition check_step (now : Z) (m : t) : result (option (ptr * t)) :=
  match Heap.top (timers_que_ m) with
  | None => Ok None
  | Some p =>
      match objects m !! p with
      | None => Err (UB UseAfterFree)
      | Some x =>
          if Timer.expired_time_ x <=? now then
            m ← run (Timer.callback_ x) m;
            match objects m !! p with
            | None => Err (UB UseAfterFree)
            | Some x =>
                if Timer.repeated_times_ x =? 0 then
                  match Heap.pop (cmp_ptr (objects m)) (timers_que_ m) with
                  | None => Err (UB OutOfBounds)
                  | Some que => Ok (Some (p, mk (delete p (objects m)) que (next_id m) (next_ptr m)))
                  end
                else
                  let x := Timer.SetExpiredTime (u64 (now + Timer.interval_ x)) x in
                  x ← Timer.DecRepeatTimes x;
                  let os := <[p := x]> (objects m) in
                  match Heap.pop (cmp_ptr os) (timers_que_ m) with
                  | None => Err (UB OutOfBounds)
                  | Some que => Ok (Some (p, mk os (Heap.push (cmp_ptr os) p que) (next_id m) (next_ptr m)))
                  end
            end
          else Ok None
      end
  end.

(** [TimerManager::CheckAndHandle] with at most [fuel] iterations: the timers that
    ran, in order, and the final state; [None] when the fuel ran out. *)
Fixpoint CheckAndHandle (fuel : nat) (now : Z) (m : t) : result (option (list ptr * t)) :=
  match fuel with
  | O => Ok None
  | S fuel =>
      r ← check_step now m;
      match r with
      | None => Ok (Some ([], m))
      | Some (p, m) =>
          r ← CheckAndHandle fuel now m;
          Ok (match r with Some (ps, m) => Some (p :: ps, m) | None => None end)
      end
  end.

(** [TimerManager::GetRecentTimeout]: [timeout] is unsigned, so its initial -1 is
    2^64 - 1 and the comparison with zero is never true. *)
Definition GetRecentTimeout (now : Z) (m : t) : result Z :=
  match Heap.top (timers_que_ m) with
  | None => Ok (u64 (-1))
  | Some p =>
      match objects m !! p with
      | None => Err (UB UseAfterFree)
      | Some x =>
          let timeout := u64 (Timer.expired_time_ x - now) in
          Ok (if timeout <? 0 then 0 else timeout)
      end
  end.

(** The container's invariant: the queue is a heap of distinct pointers to live
    objects, every live object is queued, and the allocator is ahead of them. *)
Definition inv (m : t) : Prop :=
  Heap.heap (cmp_ptr (objects m)) (timers_que_ m) /\ NoDup (timers_que_ m) /\
  (forall p, p ∈ timers_que_ m <-> is_Some (objects m !! p)) /\
  (forall p, is_Some (objects m !! p) -> (p < next_ptr m)%positive).

(** The timers that are due at [now]. *)
Definition due (now : Z) (m : t) (p : ptr) : Prop :=
  exists x, objects m !! p = Some x /\ Timer.expired_time_ x <= now.

End TimerManager.
Arguments t : clear implicits.
End TimerManager.

(** * Lemmas *)
Module TimerFacts.
Import TimerManager.

Section Facts.
Context {CB : Type}.
Abbreviation objs := (gmap ptr (Timer.t CB)).
Implicit Types (m : TimerManager.t CB) (os : objs) (x y : Timer.t CB).

#[export] Instance cmp_ptr_weak os : Heap.WeakOrder (cmp_ptr os).
Proof.
  split.
  - intros p q. unfold cmp_ptr, cmp. destruct (os !! p), (os !! q); try done.
    repeat zcase; intros; zb; try (apply Z.ltb_ge); lia.
  - intros p q r. unfold cmp_ptr, cmp. destruct (os !! p), (os !! q), (os !! r); try done.
    repeat zcase; intros; zb; try (apply Z.ltb_ge); lia.
Qed.

#[export] Instance due_dec now m p : Decision (due now m p).
Proof.
  unfold due. destruct (objects m !! p) as [x|].
  - destruct (decide (Timer.expired_time_ x <= now)).
    + left. eauto.
    + right. intros (y & [= <-] & ?). done.
  - right. by intros (? & ? & _).
Defined.

(** Two comparators that agree on the elements of a heap. *)
Lemma heap_ext (f g : ptr -> ptr -> bool) (v : list ptr) :
  (forall p q, p ∈ v -> q ∈ v -> f p q = g p q) -> Heap.heap f v -> Heap.heap g v.
Proof.
  intros He Hh i Hi x y Hx Hy. rewrite <- He by (by eapply list_elem_of_lookup_2). by eapply Hh.
Qed.

Lemma heap_below_ext (f g : ptr -> ptr -> bool) p (v : list ptr) :
  (forall q r, q ∈ v -> r ∈ v -> f q r = g q r) -> Heap.heap f (p :: v) -> Heap.heap_below g (p :: v).
Proof.
  intros He Hh i Hi Hp x y Hx Hy. pose proof (HeapFacts.parent_lt i Hi).
  assert (forall j z, (0 < j)%nat -> (p :: v) !! j = Some z -> z ∈ v) as Hin.
  { intros [|j] z Hj Hz; [lia|]. cbn in Hz. by eapply list_elem_of_lookup_2. }
  rewrite <- He by eauto. by eapply (Hh i Hi).
Qed.

Lemma cmp_ptr_agree os os' p q :
  os !! p = os' !! p -> os !! q = os' !! q -> cmp_ptr os p q = cmp_ptr os' p q.
Proof. unfold cmp_ptr. by intros -> ->. Qed.

Lemma inv_fresh m : inv m -> objects m !! next_ptr m = None.
Proof.
  intros (_ & _ & _ & Hn). destruct (objects m !! next_ptr m) eqn:E; [|done].
  specialize (Hn (next_ptr m)). rewrite E in Hn. specialize (Hn ltac:(done)). lia.
Qed.

Lemma create_inv : inv (CB := CB) create.
Proof.
  split_and!; [intros i _ x y Hx; done|constructor| |].
  - intros p. cbn. rewrite lookup_empty, elem_of_nil. split; [done|by intros [? ?]].
  - intros p. cbn. rewrite lookup_empty. by intros [? ?].
Qed.

(** Adding a timer: nothing without a positive interval, else a new object at a fresh
    address, its pointer pushed on the queue, as long as there is an identifier left. *)
Lemma AddTimer_cases now r i cb m o m1 : AddTimer now r i cb m = Ok (o, m1) ->
  m1 = m \/
  0 < i /\ next_id m < 2 ^ 63 - 1 /\
    let os := <[next_ptr m := Timer.mk (next_id m + 1) (u64 (now + i)) r i cb]> (objects m) in
    m1 = mk os (Heap.push (cmp_ptr os) (next_ptr m) (timers_que_ m)) (next_id m + 1) (Pos.succ (next_ptr m)).
Proof.
  unfold AddTimer, Timer.construct, Timer.GenerateId, Timer.increment, require.
  destruct (Z.leb_spec i 0); [intros [= _ <-]; by left|].
  destruct (Z.ltb_spec (next_id m) (2 ^ 63 - 1)); cbn; [|done]. intros [= _ <-]. by right.
Qed.

Lemma AddTimer_ok now r i (cb : CB) m : next_id m < 2 ^ 63 - 1 -> exists o m1,
  AddTimer now r i cb m = Ok (o, m1) /\ next_id m <= next_id m1 <= next_id m + 1.
Proof.
  intros Hid. unfold AddTimer, Timer.construct, Timer.GenerateId, Timer.increment, require.
  destruct (i <=? 0); [eexists _, _; split; [done|lia]|].
  destruct (Z.ltb_spec (next_id m) (2 ^ 63 - 1)); [|lia]. cbn. eexists _, _. split; [done|cbn; lia].
Qed.

Lemma AddTimer_inv now r i cb m o m1 : AddTimer now r i cb m = Ok (o, m1) -> inv m -> inv m1.
Proof.
  intros [->|(_ & _ & ->)]%AddTimer_cases Hi; [done|]. pose proof (inv_fresh m Hi) as Hf.
  destruct Hi as (Hh & Hnd & Hq & Hn). set (x := Timer.mk _ _ _ _ _). set (os := <[next_ptr m := x]> (objects m)).
  assert (next_ptr m ∉ timers_que_ m) as Hnin by (rewrite Hq, Hf; by intros [? ?]).
  split_and!; cbn.
  - apply HeapFacts.push_heap; [apply _|].
    eapply heap_ext; [|exact Hh]. intros p q Hp Hq'. apply cmp_ptr_agree; unfold os.
    + rewrite lookup_insert_ne by congruence. done.
    + rewrite lookup_insert_ne by congruence. done.
  - rewrite HeapFacts.push_perm. by constructor.
  - intros p. rewrite HeapFacts.push_perm, elem_of_cons, Hq. unfold os.
    destruct (decide (p = next_ptr m)) as [->|].
    + rewrite lookup_insert_eq. naive_solver.
    + rewrite lookup_insert_ne by congruence. naive_solver.
  - intros p. unfold os. destruct (decide (p = next_ptr m)) as [->|]; [lia|].
    rewrite lookup_insert_ne by congruence. intros Hp. specialize (Hn p Hp). lia.
Qed.

Lemma AddTimer_lookup now r i cb m o m1 p x : AddTimer now r i cb m = Ok (o, m1) ->
  inv m -> objects m !! p = Some x -> objects m1 !! p = Some x.
Proof.
  intros [->|(_ & _ & ->)]%AddTimer_cases Hi Hp; [done|]. pose proof (inv_fresh m Hi).
  cbn. rewrite lookup_insert_ne; congruence.
Qed.

Lemma AddTimer_new now r i cb m o m1 p x : AddTimer now r i cb m = Ok (o, m1) ->
  objects m !! p = None -> objects m1 !! p = Some x ->
  0 < i /\ next_id m < 2 ^ 63 - 1 /\ x = Timer.mk (next_id m + 1) (u64 (now + i)) r i cb.
Proof.
  intros [->|(Hi & Hid & ->)]%AddTimer_cases Hp; [congruence|]. cbn.
  destruct (decide (p = next_ptr m)) as [->|].
  - rewrite lookup_insert_eq. by intros [= <-].
  - rewrite lookup_insert_ne by congruence. congruence.
Qed.

(** No count of repetitions is negative. *)
Definition counted m : Prop := forall p x, objects m !! p = Some x -> 0 <= Timer.repeated_times_ x.

(** What the container has grown by since [m]: each new timer took an identifier, and
    none made a count negative. *)
Definition grown m m1 : Prop :=
  next_id m <= next_id m1 /\ zlen (timers_que_ m1) - zlen (timers_que_ m) <= next_id m1 - next_id m /\
  (counted m -> counted m1).

#[export] Instance grown_preorder : PreOrder grown.
Proof.
  split; [split; [lia|split; [lia|done]]|]. intros m1 m2 m3 (? & ? & ?) (? & ? & ?).
  split; [lia|]. split; [lia|auto].
Qed.

Lemma AddTimer_grown now r i (cb : CB) m o m1 : 0 <= r -> AddTimer now r i cb m = Ok (o, m1) -> grown m m1.
Proof.
  intros Hr [->|(_ & _ & ->)]%AddTimer_cases; [done|]. split; cbn; [lia|]. unfold zlen.
  rewrite (Permutation_length (HeapFacts.push_perm _ _ _)). cbn. split; [lia|].
  intros Hc p x. cbn. rewrite lookup_insert. case_decide; [by intros [= <-]|]. by apply Hc.
Qed.

(** The queue's head is a timer that none precedes. *)
Lemma top_least m p q :
  inv m -> Heap.top (timers_que_ m) = Some p -> is_Some (objects m !! q) ->
  cmp_ptr (objects m) p q = false.
Proof.
  intros (Hh & _ & Hq & _) Ht Hs. eapply HeapFacts.top_max; eauto; [apply _|]. by apply Hq.
Qed.

Lemma top_live m p : inv m -> Heap.top (timers_que_ m) = Some p -> is_Some (objects m !! p).
Proof. intros (_ & _ & Hq & _) Ht. apply Hq. destruct (timers_que_ m); [done|]. cbn in Ht. simplify_eq. by left. Qed.

Lemma cmp_expired x y : cmp x y = false -> Timer.expired_time_ x <= Timer.expired_time_ y.
Proof. unfold cmp. zcase; intros; zb; lia. Qed.

(** A queue whose head keeps its place when a later timer is pushed. *)
Lemma push_top (less : ptr -> ptr -> bool) p q v :
  less p q = false -> Heap.WeakOrder less ->
  Heap.heap less (p :: v) -> Heap.top (Heap.push less q (p :: v)) = Some p.
Proof.
  intros Hl Hw Hh. unfold Heap.push.
  assert (forall fuel h u, Heap.top u = Some p -> (0 < h)%nat ->
    Heap.top (Heap.sift_up less fuel h q u) = Some p) as Hs.
  { intros fuel. induction fuel as [|fuel IH]; intros h u Hu Hh0.
    - cbn. destruct u, h; [done|done|lia|done].
    - cbn. case_decide; [lia|].
      assert (forall z, Heap.top (<[h := z]> u) = Some p) as Hins.
      { intros z. destruct u, h; [done|done|lia|done]. }
      destruct (u !! Heap.parent h) as [z|] eqn:Hz; [|apply Hins].
      destruct (less z q) eqn:Ez; [|apply Hins].
      apply IH; [apply Hins|]. destruct (decide (Heap.parent h = 0%nat)) as [E|]; [|lia].
      rewrite E in Hz. destruct u; [done|]. cbn in Hz, Hu. congruence. }
  apply Hs; [done|cbn; lia].
Qed.

(** Every field within its machine type. *)
Definition typed x : Prop :=
  - 2 ^ 63 <= Timer.id_ x < 2 ^ 63 /\ 0 <= Timer.expired_time_ x < 2 ^ 64 /\
  - 2 ^ 31 <= Timer.repeated_times_ x < 2 ^ 31 /\ Timer.interval_ x < 2 ^ 63.

(** Every interval is positive and [now] plus it does not wrap, and what is due can
    still be counted down. *)
Definition fits (now : Z) m : Prop :=
  0 <= next_id m < 2 ^ 63 /\
  forall p x, objects m !! p = Some x ->
    0 < Timer.interval_ x /\ 0 <= now + Timer.interval_ x < 2 ^ 64 /\ typed x /\
    (Timer.expired_time_ x <= now -> - 2 ^ 31 < Timer.repeated_times_ x).

(** What code outside the container can do to it from a callback: the event loop
    exposes [RunAfter] alone, so any number of [AddTimer] calls, at clock readings
    not before [now], with a number of repetitions. *)
Inductive adds (now : Z) : TimerManager.t CB -> TimerManager.t CB -> Prop :=
  | adds_nil m : adds now m m
  | adds_cons m o m1 m' now' r i cb :
      now <= now' -> 0 <= now -> now' + i < 2 ^ 64 -> i < 2 ^ 63 -> 0 <= r < 2 ^ 31 ->
      AddTimer now' r i cb m = Ok (o, m1) -> adds now m1 m' -> adds now m m'.

Lemma new_typed m now r i (cb : CB) : 0 <= next_id m < 2 ^ 63 - 1 -> i < 2 ^ 63 -> 0 <= r < 2 ^ 31 ->
  typed (Timer.mk (next_id m + 1) (u64 (now + i)) r i cb).
Proof. intros Hid Hi Hr. pose proof (u64_range (now + i)). unfold typed. cbn. lia. Qed.

(** No address is handed out twice. *)
Definition fresh_only m m' : Prop :=
  (next_ptr m <= next_ptr m')%positive /\
  forall p, (p < next_ptr m)%positive -> objects m !! p = None -> objects m' !! p = None.

#[export] Instance fresh_only_preorder : PreOrder fresh_only.
Proof.
  split; [by intros m; split|]. intros m1 m2 m3 [H1 H1'] [H2 H2']. split; [lia|].
  intros p Hp Hn. apply H2'; [lia|by apply H1'].
Qed.

Lemma AddTimer_fresh now r i cb m o m1 : AddTimer now r i cb m = Ok (o, m1) -> fresh_only m m1.
Proof.
  intros [->|(_ & _ & ->)]%AddTimer_cases; [done|]. split; cbn; [lia|].
  intros p Hp Hn. by rewrite lookup_insert_ne by lia.
Qed.

Lemma adds_spec now m m' : adds now m m' -> inv m -> fits now m ->
  inv m' /\ fits now m' /\ fresh_only m m' /\ grown m m' /\
  (forall p x, objects m !! p = Some x -> objects m' !! p = Some x) /\
  (forall p, objects m !! p = None -> ~ due now m' p) /\
  (forall p, Heap.top (timers_que_ m) = Some p -> due now m p ->
     Heap.top (timers_que_ m') = Some p).
Proof.
  induction 1 as [m|m o m1 m' now' r i cb Hle Hpos Hfit Hi63 Hr E Ha IH]; intros Hi [Hid Hf].
  { split_and!; try done. intros p Hp (x & Hx & _). congruence. }
  pose proof (AddTimer_inv _ _ _ _ _ _ _ E Hi) as Hi1. pose proof (AddTimer_cases _ _ _ _ _ _ _ E) as Hm1.
  assert (fits now m1) as Hf1.
  { split; [destruct Hm1 as [->|(_ & ? & ->)]; cbn; lia|].
    intros p x Hx. destruct (objects m !! p) as [y|] eqn:Ey.
    - rewrite (AddTimer_lookup _ _ _ _ _ _ _ _ _ E Hi Ey) in Hx. simplify_eq. eauto.
    - destruct (AddTimer_new _ _ _ _ _ _ _ p x E Ey Hx) as (? & ? & ->).
      cbn. split_and!; [lia..| |lia]. apply new_typed; lia. }
  destruct (IH Hi1 Hf1) as (Hi' & Hf' & Hfo & Hg & Hl & Hn & Ht). clear IH. split_and!; try done.
  - etrans; [by eapply AddTimer_fresh|done].
  - etrans; [eapply AddTimer_grown; [|exact E]; lia|done].
  - intros p x Hx. apply Hl. by eapply AddTimer_lookup.
  - intros p Hp. destruct (objects m1 !! p) as [x|] eqn:Ex; [|by apply Hn].
    intros (x' & Hx' & Hd). rewrite (Hl _ _ Ex) in Hx'. simplify_eq.
    destruct (AddTimer_new _ _ _ _ _ _ _ p x' E Hp Ex) as (? & ? & ->). cbn in Hd.
    rewrite u64_small in Hd; lia.
  - intros p Hp Hd. apply Ht.
    2:{ destruct Hd as (x & Hx & ?). exists x. split; [by eapply AddTimer_lookup|done]. }
    pose proof (inv_fresh m Hi) as Hfr. destruct Hi as (Hh & Hnd & Hq & _).
    destruct Hm1 as [->|(Hint & _ & ->)]; [done|]. cbn.
    destruct (timers_que_ m) as [|p' v] eqn:Eq; [done|]. cbn in Hp. simplify_eq.
    assert (next_ptr m ∉ p :: v) as Hnin by (rewrite Hq, Hfr; by intros [? ?]).
    apply push_top; [|apply _|].
    + destruct Hd as (x & Hx & Hd). unfold cmp_ptr.
      rewrite lookup_insert_eq, lookup_insert_ne, Hx by congruence.
      unfold cmp. cbn. rewrite u64_small by lia. repeat zcase; (apply Z.ltb_ge || idtac); lia.
    + eapply heap_ext; [|exact Hh]. intros q q' Hq1 Hq2.
      apply cmp_ptr_agree; rewrite lookup_insert_ne by congruence; done.
Qed.

(** ** One iteration of the check loop *)

(** What a due timer becomes: deleted when no repetition is left, else due again
    one interval after the check. *)
Definition rearm (now : Z) x : option (Timer.t CB) :=
  if Timer.repeated_times_ x =? 0 then None
  else Some (Timer.mk (Timer.id_ x) (u64 (now + Timer.interval_ x)) (Timer.repeated_times_ x - 1)
         (Timer.interval_ x) (Timer.callback_ x)).

Lemma rearm_typed now x y : typed x -> - 2 ^ 31 < Timer.repeated_times_ x -> rearm now x = Some y -> typed y.
Proof.
  intros (H1 & _ & H3 & H4) Hr. unfold rearm. destruct (_ =? 0); [done|]. intros [= <-].
  pose proof (u64_range (now + Timer.interval_ x)). unfold typed. cbn. lia.
Qed.

Lemma rearm_counted now x y : 0 <= Timer.repeated_times_ x -> rearm now x = Some y -> 0 <= Timer.repeated_times_ y.
Proof.
  intros Hr. unfold rearm. destruct (Z.eqb_spec (Timer.repeated_times_ x) 0); [done|]. intros [= <-]. cbn. lia.
Qed.

(** The two calls [CheckAndHandle] makes on a timer with a repetition left. *)
Lemma rearm_calls now x : - 2 ^ 31 < Timer.repeated_times_ x -> Timer.repeated_times_ x <> 0 ->
  exists y, rearm now x = Some y /\
    Timer.DecRepeatTimes (Timer.SetExpiredTime (u64 (now + Timer.interval_ x)) x) = Ok y.
Proof.
  intros Hr Hn. unfold rearm, Timer.DecRepeatTimes, require. cbn.
  destruct (Z.eqb_spec (Timer.repeated_times_ x) 0); [done|].
  destruct (Z.ltb_spec (- 2 ^ 31) (Timer.repeated_times_ x)); [|lia]. by eexists.
Qed.

Lemma rearm_later now x y : 0 < Timer.interval_ x -> 0 <= now + Timer.interval_ x < 2 ^ 64 ->
  rearm now x = Some y -> now < Timer.expired_time_ y /\ Timer.interval_ y = Timer.interval_ x.
Proof.
  intros Hi Hf. unfold rearm. destruct (_ =? 0); [done|]. intros [= <-]. cbn.
  rewrite u64_small; lia.
Qed.

Lemma pop_inv os os' p v np : inv (mk os (p :: v) 0 np) ->
  (forall q, q <> p -> os' !! q = os !! q) ->
  exists v', Heap.pop (cmp_ptr os') (p :: v) = Some v' /\ v' ≡ₚ v /\ (p ∉ v') /\ NoDup v' /\
    Heap.heap (cmp_ptr os') v'.
Proof.
  intros (Hh & Hnd & _) He. cbn in *. apply list.NoDup_cons in Hnd as [Hp Hnd].
  destruct (HeapFacts.pop_spec (cmp_ptr os') p v) as (v' & Hpop & Hh' & Hperm).
  { eapply heap_below_ext; [|exact Hh]. intros q r Hq Hr.
    apply cmp_ptr_agree; symmetry; apply He; congruence. }
  exists v'. split_and!; [done..|by rewrite Hperm|by rewrite Hperm|done].
Qed.

(** Taking the head off the queue and deleting the object. *)
Lemma pop_delete m p v : inv m -> timers_que_ m = p :: v ->
  exists v', Heap.pop (cmp_ptr (objects m)) (p :: v) = Some v' /\ v' ≡ₚ v /\
    inv (mk (delete p (objects m)) v' (next_id m) (next_ptr m)).
Proof.
  intros Hi Hv. destruct m as [os que nid np]. cbn in Hv. subst que.
  destruct (pop_inv os os p v np) as (v' & Hpop & Hperm & Hp & Hnd & Hh); [done..|].
  exists v'. split_and!; [done..|]. destruct Hi as (_ & Hnd0 & Hq & Hn). cbn in *.
  split_and!; cbn; [|done| |].
  - eapply heap_ext; [|exact Hh]. intros q r Hq' Hr.
    apply cmp_ptr_agree; rewrite lookup_delete_ne by congruence; done.
  - intros q. destruct (decide (q = p)) as [->|].
    + rewrite lookup_delete_eq. split; [done|by intros [? ?]].
    + rewrite lookup_delete_ne, <- Hq, Hperm, elem_of_cons by congruence. naive_solver.
  - intros q [y Hy]. apply lookup_delete_Some in Hy as [_ Hy]. eauto.
Qed.

(** Taking the head off the queue and putting it back with another key. *)
Lemma pop_push m p v x : inv m -> timers_que_ m = p :: v ->
  let os := <[p := x]> (objects m) in
  exists v', Heap.pop (cmp_ptr os) (p :: v) = Some v' /\ v' ≡ₚ v /\
    inv (mk os (Heap.push (cmp_ptr os) p v') (next_id m) (next_ptr m)).
Proof.
  intros Hi Hv os. destruct m as [os0 que nid np]. cbn in Hv. subst que. cbn in os.
  destruct (pop_inv os0 os p v np) as (v' & Hpop & Hperm & Hp & Hnd & Hh); [done| |].
  { intros q Hq. unfold os. by rewrite lookup_insert_ne by congruence. }
  exists v'. split; [done|]. split; [done|]. destruct Hi as (_ & Hnd0 & Hq & Hn). cbn in *.
  split_and!; cbn.
  - apply HeapFacts.push_heap; [apply _|done].
  - rewrite HeapFacts.push_perm. by constructor.
  - intros q. rewrite HeapFacts.push_perm, Hperm, Hq. unfold os.
    destruct (decide (q = p)) as [->|]; [|by rewrite lookup_insert_ne by congruence].
    rewrite lookup_insert_eq. rewrite <- Hq. split; [eauto|by left].
  - intros q. unfold os. destruct (decide (q = p)) as [->|].
    + intros _. apply Hn. apply Hq. by left.
    + rewrite lookup_insert_ne by congruence. eauto.
Qed.

Section Check.
Context (run : CB -> TimerManager.t CB -> result (TimerManager.t CB)).

(** Callbacks that return, having only added timers, at most [K] of them, which they do
    while there are that many identifiers left. *)
Definition only_adds (K now : Z) : Prop :=
  0 <= K /\ forall cb m, inv m -> fits now m -> next_id m + K < 2 ^ 63 ->
    exists m', run cb m = Ok m' /\ adds now m m' /\ next_id m' <= next_id m + K.

(** The iteration that leaves the loop. *)
Lemma check_step_idle now m : inv m -> (forall p, ~ due now m p) -> check_step run now m = Ok None.
Proof.
  intros Hi Hd. unfold check_step. destruct (Heap.top (timers_que_ m)) as [p|] eqn:Et; [|done].
  destruct (top_live m p Hi Et) as [x Hx]. rewrite Hx.
  zcase; [|done]. destruct (Hd p). exists x. done.
Qed.

(** The end of an iteration whose timer ran: it is taken off, or put back later. *)
Lemma check_step_end now m m1 p x v : Heap.top (timers_que_ m) = Some p -> objects m !! p = Some x ->
  Timer.expired_time_ x <= now -> - 2 ^ 31 < Timer.repeated_times_ x ->
  0 < Timer.interval_ x -> 0 <= now + Timer.interval_ x < 2 ^ 64 -> typed x ->
  run (Timer.callback_ x) m = Ok m1 -> inv m1 -> fits now m1 -> objects m1 !! p = Some x ->
  timers_que_ m1 = p :: v ->
  exists m', check_step run now m = Ok (Some (p, m')) /\ inv m' /\ fits now m' /\ grown m1 m' /\
    next_id m' = next_id m1 /\ next_ptr m' = next_ptr m1 /\
    objects m' !! p = rearm now x /\ (forall r, r <> p -> objects m' !! r = objects m1 !! r).
Proof.
  intros Et Hx Hdx Hr Hint Hfit Hty Hrun Hi1 [Hid Hf1] Hx1 Ev.
  unfold check_step. rewrite Et, Hx. destruct (Z.leb_spec (Timer.expired_time_ x) now); [|lia].
  rewrite Hrun. cbn [mbind result_bind]. rewrite Hx1, Ev.
  destruct (Z.eqb_spec (Timer.repeated_times_ x) 0) as [E0|E0].
  - destruct (pop_delete m1 p v Hi1 Ev) as (v' & -> & Hperm & Hinv). eexists. split; [done|].
    split; [exact Hinv|]. split; [|split; [|split; [done|split; [done|split]]]].
    + split; [done|]. intros r z Hz. cbn in Hz. apply lookup_delete_Some in Hz as [_ Hz]. by eapply Hf1.
    + split; cbn; [lia|]. rewrite Ev. unfold zlen. rewrite (Permutation_length Hperm). cbn. split; [lia|].
      intros Hc r z Hz. cbn in Hz. apply lookup_delete_Some in Hz as [_ Hz]. by eapply Hc.
    + cbn. rewrite lookup_delete_eq. unfold rearm. by rewrite (proj2 (Z.eqb_eq _ _) E0).
    + intros r Hr'. cbn. by rewrite lookup_delete_ne by congruence.
  - destruct (rearm_calls now x Hr E0) as (y & Ey & Ed). cbv zeta. rewrite Ed. cbn [mbind result_bind].
    destruct (pop_push m1 p v y Hi1 Ev) as (v' & Hp & Hperm & Hinv). cbv zeta in *. rewrite Hp. eexists. split; [done|].
    destruct (rearm_later now x y Hint Hfit Ey) as [Hlater Hsame].
    split; [exact Hinv|]. split; [|split; [|split; [done|split; [done|split]]]].
    + split; [done|]. intros r z. cbn. rewrite lookup_insert. case_decide; [|by apply Hf1].
      intros [= <-]. rewrite Hsame. split; [done|]. split; [done|]. split; [by eapply rearm_typed|lia].
    + split; cbn; [lia|]. rewrite Ev. unfold zlen. rewrite (Permutation_length (HeapFacts.push_perm _ _ _)).
      cbn. rewrite (Permutation_length Hperm). split; [lia|]. intros Hc r z. cbn. rewrite lookup_insert.
      case_decide; [|by apply Hc]. intros [= <-]. eapply rearm_counted; [exact (Hc p x Hx1)|exact Ey].
    + cbn. by rewrite lookup_insert_eq.
    + intros r Hr'. cbn. by rewrite lookup_insert_ne by congruence.
Qed.

(** The iteration that runs a timer. *)
Lemma check_step_due K now m q : inv m -> fits now m -> only_adds K now -> next_id m + K < 2 ^ 63 -> due now m q ->
  exists p x m', check_step run now m = Ok (Some (p, m')) /\
    objects m !! p = Some x /\ due now m p /\
    (forall r, is_Some (objects m !! r) -> cmp_ptr (objects m) p r = false) /\
    inv m' /\ fits now m' /\ fresh_only m m' /\ grown m m' /\ next_id m' <= next_id m + K /\
    objects m' !! p = rearm now x /\
    (forall r y, r <> p -> objects m !! r = Some y -> objects m' !! r = Some y) /\
    (forall r, objects m !! r = None -> ~ due now m' r).
Proof.
  intros Hi Hf [_ Hrun] HK (y & Hy & Hdy).
  destruct (Heap.top (timers_que_ m)) as [p|] eqn:Et.
  2:{ destruct Hi as (_ & _ & Hq & _). destruct (timers_que_ m); [|done].
      assert (q ∈ @nil ptr) as Hn by (by apply Hq). by apply elem_of_nil in Hn. }
  destruct (top_live m p Hi Et) as [x Hx].
  pose proof (top_least m p q Hi Et ltac:(done)) as Hpq.
  assert (Timer.expired_time_ x <= now) as Hdx.
  { unfold cmp_ptr in Hpq. rewrite Hx, Hy in Hpq. apply cmp_expired in Hpq. lia. }
  assert (due now m p) as Hdp by (exists x; done).
  destruct (Hrun (Timer.callback_ x) m Hi Hf HK) as (m1 & Hm1 & Ha & Hid).
  destruct (adds_spec now m m1 Ha Hi Hf) as (Hi1 & Hf1 & Hfo & Hg & Hl & Hn & Ht).
  specialize (Ht p Et Hdp). destruct (timers_que_ m1) as [|p' v] eqn:Ev; [done|].
  cbn in Ht. injection Ht as ->. pose proof Hf as [_ Hf0]. destruct (Hf0 p x Hx) as (Hint & Hfit & Hty & Hr).
  destruct (check_step_end now m m1 p x v Et Hx Hdx (Hr Hdx) Hint Hfit Hty Hm1 Hi1 Hf1 (Hl p x Hx) Ev) as
    (m' & Hstep & Hi' & Hf' & Hg' & Hid' & Hnp & Hp' & Hoth).
  exists p, x, m'. split; [exact Hstep|].
  split_and!; [done|done|by intros; apply top_least|done|done| | |lia|done| |].
  - destruct Hfo as [Hle Hfo]. split; [by rewrite Hnp|]. intros r Hlt Hnone.
    destruct (decide (r = p)) as [->|Hne]; [congruence|]. rewrite Hoth by done. by apply Hfo.
  - by etrans.
  - intros r z Hr' Hz. rewrite Hoth by done. by apply Hl.
  - intros r Hnone (z & Hz & Hdz). destruct (decide (r = p)) as [->|Hne]; [congruence|].
    rewrite Hoth in Hz by done. apply (Hn r Hnone). by exists z.
Qed.

(** What a whole check does, for a list of the timers that are due. *)
Lemma check_law K now D m : NoDup D -> (forall p, p ∈ D <-> due now m p) ->
  inv m -> fits now m -> only_adds K now -> next_id m + K * zlen D < 2 ^ 63 ->
  exists ps m', (forall fuel, (length D < fuel)%nat -> CheckAndHandle run fuel now m = Ok (Some (ps, m'))) /\
    ps ≡ₚ D /\ StronglySorted (fun p q => cmp_ptr (objects m) p q = false) ps /\
    inv m' /\ fits now m' /\ fresh_only m m' /\ grown m m' /\ next_id m' <= next_id m + K * zlen D /\
    (forall p, ~ due now m' p) /\
    (forall p x, objects m !! p = Some x ->
       objects m' !! p = if Timer.expired_time_ x <=? now then rearm now x else Some x).
Proof.
  remember (length D) as n eqn:Hn. revert D m Hn.
  induction n as [|n IH]; intros D m Hn Hnd HD Hi Hf Hrun HK.
  - destruct D; [|done]. assert (forall p, ~ due now m p) as Hno.
    { intros p Hp. apply HD in Hp. by apply elem_of_nil in Hp. }
    exists [], m. split_and!; try done.
    + intros [|fuel] ?; [lia|]. cbn. by rewrite check_step_idle.
    + constructor.
    + unfold zlen. cbn. lia.
    + intros p x Hx. zcase; [|done]. destruct (Hno p). by exists x.
  - destruct D as [|q D]; [done|].
    rewrite zlen_cons in HK. pose proof (zlen_nonneg D) as HD0. pose proof Hrun as [HK0 _].
    destruct (check_step_due K now m q Hi Hf Hrun ltac:(nia)) as
      (p & x & m1 & Hs & Hx & Hdp & Hmin & Hi1 & Hf1 & Hfo & Hg1 & Hid1 & Hp1 & Hl1 & Hnew1); [apply HD; by left|].
    assert (p ∈ q :: D) as Hin by (by apply HD).
    apply elem_of_Permutation in Hin as [D' HD'].
    assert (NoDup (p :: D')) as Hnd' by (by rewrite <- HD').
    apply list.NoDup_cons in Hnd' as [HpD' Hnd'].
    assert (~ due now m1 p) as Hnp.
    { intros (z & Hz & Hdz). rewrite Hp1 in Hz. destruct (proj2 Hf p x Hx) as (? & ? & _).
      destruct (rearm_later now x z); [done..|]. lia. }
    assert (forall r, r ∈ D' <-> due now m1 r) as HDm.
    { intros r. destruct (decide (r = p)) as [->|Hr]; [done|].
      transitivity (due now m r).
      { rewrite <- HD, HD', elem_of_cons. naive_solver. }
      unfold due. destruct (objects m !! r) as [y|] eqn:E.
      - rewrite (Hl1 r y Hr E). done.
      - split; [by intros (? & ? & _)|]. intros Hd. by destruct (Hnew1 r E). }
    assert (zlen D' = zlen D) as Hlen' by (unfold zlen; apply Permutation_length in HD'; cbn in HD'; lia).
    destruct (IH D' m1) as (ps & m' & Hc & Hps & Hsort & Hi' & Hf' & Hfo' & Hg' & Hid' & Hno & Hl'); try done.
    { apply Permutation_length in HD'. cbn in *. lia. }
    { rewrite Hlen'. nia. }
    exists (p :: ps), m'. split_and!; try done.
    + intros [|fuel] Hfuel; [lia|]. cbn. rewrite Hs. cbn. rewrite Hc by lia. done.
    + by rewrite HD', Hps.
    + constructor.
      * assert (forall r, r ∈ ps -> r <> p /\ is_Some (objects m !! r)) as Hm1.
        { intros r Hr. rewrite Hps in Hr. split; [congruence|].
          assert (due now m r) as (y & Hy & _); [|by rewrite Hy].
          apply HD. rewrite HD'. by right. }
        clear -Hsort Hm1 Hl1. induction Hsort as [|r ps Hs IHs Hall]; constructor.
        -- apply IHs. intros; apply Hm1; by right.
        -- rewrite list.Forall_forall in *. intros r' Hr'.
           destruct (Hm1 r) as [? [y Hy]]; [by left|]. destruct (Hm1 r') as [? [y' Hy']]; [by right|].
           rewrite <- (Hall r' Hr'). apply cmp_ptr_agree; [rewrite Hy, (Hl1 r y)|rewrite Hy', (Hl1 r' y')]; done.
      * rewrite list.Forall_forall. intros r Hr. apply Hmin. rewrite Hps in Hr.
        assert (due now m r) as (y & Hy & _); [|by rewrite Hy]. apply HD. rewrite HD'. by right.
    + by etrans.
    + by etrans.
    + rewrite zlen_cons. rewrite Hlen' in Hid'. nia.
    + intros r y Hy. destruct (decide (r = p)) as [->|Hr].
      * assert (y = x) as -> by congruence. destruct Hdp as (x' & Hx' & Hdx).
        assert (x' = x) as -> by congruence.
        destruct (Z.leb_spec (Timer.expired_time_ x) now); [|lia].
        destruct (rearm now x) as [z|] eqn:Er.
        -- rewrite (Hl' p z Hp1). destruct (proj2 Hf p x Hx) as (? & ? & _). destruct (rearm_later now x z); [done..|].
           zcase; [lia|done].
        -- apply Hfo'; [|done]. destruct Hi as (_ & _ & _ & Hn'), Hfo as [Hle _].
           specialize (Hn' p ltac:(by rewrite Hx)). lia.
      * by apply Hl', Hl1.
Qed.

End Check.

(** ** Removal *)

Lemma heap_delete os p v :
  p ∉ v -> Heap.heap (cmp_ptr os) v -> Heap.heap (cmp_ptr (delete p os)) v.
Proof.
  intros Hp. apply heap_ext. intros q r Hq Hr.
  apply cmp_ptr_agree; rewrite lookup_delete_ne by congruence; done.
Qed.

Lemma remove_loop_spec fuel timer os que nq :
  (length que <= fuel)%nat -> Heap.heap (cmp_ptr os) que -> Heap.heap (cmp_ptr os) nq ->
  NoDup (que ++ nq) -> timer ∉ nq ->
  let os' := if decide (timer ∈ que) then delete timer os else os in
  exists que', remove_loop fuel timer os que nq = Ok (os', que') /\
    Heap.heap (cmp_ptr os') que' /\ que' ≡ₚ filter (fun p => p <> timer) que ++ nq.
Proof.
  revert os que nq. induction fuel as [|fuel IH]; intros os que nq Hl Hh Hh' Hnd Ht.
  { destruct que; [|cbn in Hl; lia]. exists nq. done. }
  destruct que as [|p v]; [exists nq; done|].
  destruct (HeapFacts.pop_spec (cmp_ptr os) p v) as (v' & Hpop & Hv' & Hperm);
    [by apply HeapFacts.heap_heap_below|].
  cbn [app] in Hnd. apply list.NoDup_cons in Hnd as [Hp Hnd]. rewrite not_elem_of_app in Hp.
  destruct Hp as [Hp Hp']. pose proof (Permutation_length Hperm) as Hlen. cbn in Hl.
  assert (NoDup (v' ++ nq)) as Hnd' by (by rewrite Hperm).
  cbn [remove_loop]. change (Heap.top (p :: v)) with (Some p). cbv iota beta.
  rewrite Hpop, filter_cons.
  destruct (decide (p = timer)) as [->|Hne].
  - rewrite (decide_True (P := timer ∈ timer :: v)) by (by left).
    rewrite (decide_False (P := timer <> timer)) by naive_solver.
    destruct (IH (delete timer os) v' nq) as (que' & Hr & Hq & Hpm); try done.
    + lia.
    + apply heap_delete; [by rewrite Hperm|done].
    + by apply heap_delete.
    + rewrite decide_False in Hr, Hq by (by rewrite Hperm).
      exists que'. split_and!; [done..|]. by rewrite Hpm, Hperm.
  - rewrite (decide_True (P := p <> timer)) by done.
    destruct (IH os v' (Heap.push (cmp_ptr os) p nq)) as (que' & Hr & Hq & Hpm); try done.
    + lia.
    + by apply HeapFacts.push_heap; [apply _|].
    + rewrite HeapFacts.push_perm, <- Permutation_middle. constructor; [|done].
      rewrite Hperm, not_elem_of_app. done.
    + rewrite HeapFacts.push_perm, not_elem_of_cons. done.
    + assert (timer ∈ v' <-> timer ∈ p :: v) as Hiff.
      { rewrite Hperm, elem_of_cons. naive_solver. }
      exists que'. rewrite (decide_ext _ _ _ _ Hiff) in Hr, Hq. split_and!; [done..|].
      rewrite Hpm, HeapFacts.push_perm, Hperm. cbn. by rewrite <- Permutation_middle.
Qed.

Lemma remove_law m p : inv m ->
  exists m', RemoveTimer p m = Ok m' /\ inv m' /\ objects m' = delete p (objects m) /\
    next_ptr m' = next_ptr m /\ next_id m' = next_id m /\ zlen (timers_que_ m') <= zlen (timers_que_ m).
Proof.
  intros (Hh & Hnd & Hq & Hn).
  destruct (remove_loop_spec (length (timers_que_ m)) p (objects m) (timers_que_ m) [])
    as (que' & Hr & Hh' & Hperm); [done|done| |by rewrite app_nil_r|by apply not_elem_of_nil|].
  { intros i _ x y Hx. done. }
  assert ((if decide (p ∈ timers_que_ m) then delete p (objects m) else objects m)
    = delete p (objects m)) as Eos.
  { destruct (decide _) as [|Hp]; [done|]. rewrite delete_id; [done|].
    rewrite Hq in Hp. by apply eq_None_not_Some. }
  rewrite Eos in *. rewrite app_nil_r in Hperm.
  unfold RemoveTimer. rewrite Hr. eexists. split; [done|]. split.
  2:{ split_and!; cbn; [done..|]. unfold zlen. rewrite (Permutation_length Hperm).
      pose proof (length_filter (fun q => q <> p) (timers_que_ m)). lia. }
  split_and!; cbn; [done|rewrite Hperm; by apply list.NoDup_filter| |].
  - intros q. rewrite Hperm, list_elem_of_filter, Hq.
    destruct (decide (q = p)) as [->|].
    + rewrite lookup_delete_eq. split; [naive_solver|by intros [? ?]].
    + rewrite lookup_delete_ne by congruence. naive_solver.
  - intros q [y Hy]. apply lookup_delete_Some in Hy as [_ Hy]. eauto.
Qed.

(** ** The earliest expiry *)

(** The answer at any clock reading, for a timer none expires before. *)
Lemma recent_value now m p x : inv m -> objects m !! p = Some x ->
  (forall q y, objects m !! q = Some y -> Timer.expired_time_ x <= Timer.expired_time_ y) ->
  GetRecentTimeout now m = Ok (u64 (Timer.expired_time_ x - now)).
Proof.
  intros Hi Hx Hmin. unfold GetRecentTimeout.
  destruct (Heap.top (timers_que_ m)) as [q|] eqn:Et.
  2:{ destruct Hi as (_ & _ & Hq & _). destruct (timers_que_ m); [|done].
      assert (p ∈ @nil ptr) as Hn by (by apply Hq). by apply elem_of_nil in Hn. }
  destruct (top_live m q Hi Et) as [y Hy]. rewrite Hy.
  assert (Timer.expired_time_ x = Timer.expired_time_ y) as ->.
  { apply Z.le_antisymm; [by eapply Hmin|]. apply cmp_expired.
    pose proof (top_least m q p Hi Et ltac:(done)) as Hc. unfold cmp_ptr in Hc. by rewrite Hx, Hy in Hc. }
  pose proof (u64_range (Timer.expired_time_ y - now)). zcase; [lia|done].
Qed.

(** The distance to the earliest expiry when that lies ahead, 2^64 - 1 without
    timers, and a wrapped value rather than 0 for a timer that is already late. *)
Lemma recent_law now m :
  inv m -> 0 <= now < 2 ^ 64 ->
  (forall p x, objects m !! p = Some x -> 0 <= Timer.expired_time_ x < 2 ^ 64) ->
  (timers_que_ m = [] /\ GetRecentTimeout now m = Ok (2 ^ 64 - 1)) \/
  exists p x, objects m !! p = Some x /\
    (forall q y, objects m !! q = Some y -> Timer.expired_time_ x <= Timer.expired_time_ y) /\
    GetRecentTimeout now m =
      Ok (if now <=? Timer.expired_time_ x then Timer.expired_time_ x - now
          else 2 ^ 64 - (now - Timer.expired_time_ x)).
Proof.
  intros Hi Hnow He. destruct (Heap.top (timers_que_ m)) as [p|] eqn:Et.
  2:{ left. unfold GetRecentTimeout. rewrite Et. split; [by destruct (timers_que_ m)|done]. }
  right. destruct (top_live m p Hi Et) as [x Hx]. exists p, x.
  assert (forall q y, objects m !! q = Some y -> Timer.expired_time_ x <= Timer.expired_time_ y) as Hmin.
  { intros q y Hy. apply cmp_expired. pose proof (top_least m p q Hi Et ltac:(done)) as Hc.
    unfold cmp_ptr in Hc. by rewrite Hx, Hy in Hc. }
  split_and!; [done..|]. rewrite (recent_value now m p x) by done. f_equal.
  specialize (He p x Hx). zcase; [apply u64_small; lia|].
  unfold u64. rewrite <- (Z.mod_add _ 1) by lia. rewrite Z.mod_small; lia.
Qed.

End Facts.
End TimerFacts.

(** * Properties *)
Module TimerProps.
Import TimerManager TimerFacts.

Section Props.
Context {CB : Type}.
Implicit Types (m : TimerManager.t CB) (x : Timer.t CB).

Lemma check_runs_due run K now m :
  inv m -> fits now m -> only_adds run K now -> next_id m + K * zlen (timers_que_ m) < 2 ^ 63 ->
  exists ps m',
    (forall fuel, (length (timers_que_ m) < fuel)%nat ->
       CheckAndHandle run fuel now m = Ok (Some (ps, m'))) /\
    NoDup ps /\ (forall p, p ∈ ps <-> due now m p) /\
    StronglySorted (fun p q => cmp_ptr (objects m) p q = false) ps /\
    inv m' /\ (forall p, ~ due now m' p) /\
    (forall p x, objects m !! p = Some x ->
       objects m' !! p = if Timer.expired_time_ x <=? now then rearm now x else Some x) /\
    fits now m' /\ fresh_only m m' /\ grown m m' /\ next_id m' <= next_id m + K * zlen (timers_que_ m).
Proof.
  intros Hi Hf Hr HK. set (D := filter (due now m) (timers_que_ m)).
  pose proof Hi as (_ & Hnd & Hq & _). pose proof Hr as [HK0 _].
  assert (forall p, p ∈ D <-> due now m p) as HD.
  { intros p. unfold D. rewrite list_elem_of_filter, Hq. split; [naive_solver|].
    intros Hd. split; [done|]. destruct Hd as (x & -> & _). done. }
  pose proof (length_filter (due now m) (timers_que_ m)) as Hlen. fold D in Hlen.
  assert (K * zlen D <= K * zlen (timers_que_ m)) by (unfold zlen; nia).
  destruct (check_law run K now D m) as (ps & m' & Hc & Hp & Hs & Hi' & Hf' & Hfo & Hg & Hid & Hno & Hl); try done; [|lia|].
  { by apply list.NoDup_filter. }
  exists ps, m'. split; [intros fuel Hfuel; apply Hc; lia|].
  split; [rewrite Hp; by apply list.NoDup_filter|]. split; [intros p; by rewrite Hp|].
  split_and!; try done. lia.
Qed.

(** C16: A check terminates within one iteration per due timer and one more, runs
    exactly the timers that are due when it starts, each once, earliest first and
    among equals the one with fewer repetitions first, deletes those with no
    repetition left, sets the others one interval ahead, and leaves every other
    timer as it was, whatever timers the callbacks add meanwhile. No due timer may
    have counted down to the least [int32_t], where the decrement overflows, and the
    identifiers the callbacks can use up have to be left. *)
Theorem CheckAndHandle_runs_due run K now m :
  inv m -> fits now m -> only_adds run K now -> next_id m + K * zlen (timers_que_ m) < 2 ^ 63 ->
  exists ps m',
    (forall fuel, (length (timers_que_ m) < fuel)%nat ->
       CheckAndHandle run fuel now m = Ok (Some (ps, m'))) /\
    NoDup ps /\ (forall p, p ∈ ps <-> due now m p) /\
    StronglySorted (fun p q => cmp_ptr (objects m) p q = false) ps /\
    inv m' /\ (forall p, ~ due now m' p) /\
    (forall p x, objects m !! p = Some x ->
       objects m' !! p = if Timer.expired_time_ x <=? now then rearm now x else Some x).
Proof.
  intros Hi Hf Hr HK.
  destruct (check_runs_due run K now m Hi Hf Hr HK) as (ps & m' & Hc & Hnd & HD & Hs & Hi' & Hno & Hl & _).
  exists ps, m'. by split_and!.
Qed.

(** Removing a timer deletes that object and no other, keeps the queue a heap
    of exactly the live timers, and does nothing for a pointer that is not (or no
    longer) queued. *)
Theorem RemoveTimer_correct m p :
  inv m ->
  exists m', RemoveTimer p m = Ok m' /\ inv m' /\ objects m' = delete p (objects m) /\
    (p ∉ timers_que_ m -> objects m' = objects m).
Proof.
  intros Hi. destruct (remove_law m p Hi) as (m' & Hr & Hi' & Ho & _).
  exists m'. split_and!; [done..|]. intros Hp. rewrite Ho. apply delete_id, eq_None_not_Some.
  destruct Hi as (_ & _ & Hq & _). by rewrite <- Hq.
Qed.

End Props.

Lemma increment_ok c : 0 <= c < 2 ^ 63 - 1 -> Timer.increment c = Ok (c + 1).
Proof. intros Hc. unfold Timer.increment, require. by rewrite (proj2 (Z.ltb_lt c _)) by lia. Qed.

Lemma gen_step_pair k c pre suf : length pre = k -> 0 <= c < 2 ^ 63 - 1 ->
  Timer.gen_run [k; k] (Timer.mk_gen c (pre ++ Timer.Ready :: suf)) =
    Ok (Timer.mk_gen (c + 1) ((pre ++ [Timer.Got (c + 1)]) ++ suf)).
Proof.
  intros <- Hc. assert (Timer.gen_step (length pre) (Timer.mk_gen c (pre ++ Timer.Ready :: suf)) =
    Ok (Timer.mk_gen (c + 1) (pre ++ Timer.Incremented :: suf))) as E1.
  { unfold Timer.gen_step. cbn [Timer.threads Timer.initial_id_].
    rewrite list_lookup_middle, increment_ok by done.
    cbn [mbind result_bind]. by rewrite insert_app_r_alt, Nat.sub_diag by lia. }
  unfold Timer.gen_run. cbn [run_steps]. rewrite E1. cbn [mbind result_bind].
  unfold Timer.gen_step. cbn [Timer.threads Timer.initial_id_]. rewrite list_lookup_middle by done.
  cbn [mbind result_bind]. by rewrite insert_app_r_alt, Nat.sub_diag, <- app_assoc by lia.
Qed.

Lemma gen_serial n k c pre : length pre = k -> 0 <= c -> c + Z.of_nat n < 2 ^ 63 ->
  Timer.gen_run (flat_map (fun i => [i; i]) (seq k n))
     (Timer.mk_gen c (pre ++ replicate n Timer.Ready)) =
   Ok (Timer.mk_gen (c + Z.of_nat n) (pre ++ ((fun i => Timer.Got (c + 1 + Z.of_nat i)) <$> seq 0 n))).
Proof.
  revert k c pre. induction n as [|n IH]; intros k c pre Hk Hc0 Hc.
  { cbn. by rewrite Z.add_0_r. }
  change (flat_map (fun i => [i; i]) (seq k (S n)))
    with ([k; k] ++ flat_map (fun i => [i; i]) (seq (S k) n)).
  pose proof (gen_step_pair k c pre (replicate n Timer.Ready) Hk ltac:(lia)) as Hp.
  unfold Timer.gen_run in *. cbn [replicate]. rewrite (run_steps_app _ [k; k] _ _ _ Hp).
  fold (Timer.gen_run (flat_map (fun i => [i; i]) (seq (S k) n))).
  rewrite IH; [|rewrite length_app; cbn; lia|lia|lia]. f_equal. f_equal; [lia|].
  rewrite <- app_assoc. f_equal. cbn [app seq fmap list_fmap]. f_equal; [f_equal; lia|].
  rewrite <- list.fmap_S_seq, <- list_fmap_compose. apply list_fmap_ext. intros i j _.
  cbn [compose]. f_equal. lia.
Qed.

(** When every call runs to its end before the next starts, the identifiers
    are consecutive; two calls whose increments come before either's read answer
    the same identifier, the counter being read after the lock is released; and there
    is no identifier after the greatest [int64_t]. *)
Theorem GenerateId_serial_and_race :
  (forall n c, 0 <= c -> c + Z.of_nat n < 2 ^ 63 ->
     Timer.gen_run (flat_map (fun i => [i; i]) (seq 0 n)) (Timer.mk_gen c (replicate n Timer.Ready)) =
     Ok (Timer.mk_gen (c + Z.of_nat n) ((fun i => Timer.Got (c + 1 + Z.of_nat i)) <$> seq 0 n))) /\
  Timer.gen_run [0; 1; 0; 1]%nat (Timer.mk_gen 0 [Timer.Ready; Timer.Ready]) =
    Ok (Timer.mk_gen 2 [Timer.Got 2; Timer.Got 2]) /\
  Timer.gen_run [0%nat] (Timer.mk_gen (2 ^ 63 - 1) [Timer.Ready]) = Err (UB SignedOverflow).
Proof.
  split; [|split; reflexivity]. intros n c Hc0 Hc. by apply (gen_serial n 0 c []).
Qed.

(** ** A concrete container: callbacks are lists of timers to add *)

(** Adding a timer and forgetting the pointer to it. *)
Definition add {CB} (now r i : Z) (cb : CB) (m : TimerManager.t CB) : result (TimerManager.t CB) :=
  '(_, m) ← AddTimer now r i cb m; Ok m.

(** A callback that adds one-shot timers of the given intervals, at most two, at clock
    reading [now]. *)
Definition run_adds (now : Z) (cb : list Z) (m : TimerManager.t (list Z)) :
    result (TimerManager.t (list Z)) :=
  run_steps (fun i => add now 0 (Z.min i 1000) []) (take 2 cb) m.

Definition sample : TimerManager.t (list Z) :=
  match m ← add 0 1 10 [7; 3] create; m ← add 0 0 10 [] m; add 0 5 30 [] m with
  | Ok m => m
  | Err _ => create
  end.

Lemma run_adds_list now now' l (m : TimerManager.t (list Z)) : 0 <= now <= now' -> now' < 2 ^ 63 ->
  next_id m + zlen l < 2 ^ 63 -> exists m',
    run_steps (fun i => add now' 0 (Z.min i 1000) []) l m = Ok m' /\ adds now m m' /\
    next_id m' <= next_id m + zlen l.
Proof.
  intros Hn Hn'. revert m. induction l as [|i l IH]; intros m Hid.
  { exists m. split; [done|]. split; [apply adds_nil|unfold zlen; cbn; lia]. }
  rewrite zlen_cons in Hid. pose proof (zlen_nonneg l).
  destruct (AddTimer_ok now' 0 (Z.min i 1000) [] m ltac:(lia)) as (o & m1 & E & Hle).
  destruct (IH m1 ltac:(lia)) as (m' & Hr & Ha & Hid'). exists m'. split_and!.
  - assert (add now' 0 (Z.min i 1000) [] m = Ok m1) as Ea by (unfold add; by rewrite E).
    cbn [run_steps]. by rewrite Ea.
  - apply (adds_cons now m o m1 m' now' 0 (Z.min i 1000) []); try done; lia.
  - rewrite zlen_cons. lia.
Qed.

Lemma run_adds_only now now' : 0 <= now <= now' -> now' < 2 ^ 63 -> only_adds (run_adds now') 2 now.
Proof.
  intros Hn Hn'. split; [lia|]. intros cb m _ _ Hid. unfold run_adds.
  assert (zlen (take 2 cb) <= 2) by (unfold zlen; rewrite length_take; lia).
  destruct (run_adds_list now now' (take 2 cb) m) as (m' & Hr & Ha & Hid'); [lia..|].
  exists m'. split_and!; [done|done|lia].
Qed.

Lemma add_inv {CB} now r i (cb : CB) m m' : add now r i cb m = Ok m' -> inv m -> inv m'.
Proof.
  unfold add. destruct (AddTimer _ _ _ _ m) as [[o m1]|] eqn:E; cbn; [|done].
  intros [= <-]. by eapply AddTimer_inv.
Qed.

Lemma sample_inv : inv sample.
Proof.
  unfold sample. destruct (add 0 1 10 [7; 3] create) as [m1|] eqn:E1; [|apply create_inv].
  cbn [mbind result_bind]. destruct (add 0 0 10 [] m1) as [m2|] eqn:E2; [|apply create_inv].
  cbn [mbind result_bind]. destruct (add 0 5 30 [] m2) as [m3|] eqn:E3; [|apply create_inv].
  eauto using add_inv, create_inv.
Qed.

(** Case analysis on the timers of a concrete container. *)
Ltac each_timer Hx :=
  apply elem_of_map_to_list in Hx;
  match type of Hx with _ ∈ map_to_list ?os =>
    let l := eval vm_compute in (map_to_list os) in
    let E := fresh in assert (map_to_list os = l) as E by reflexivity;
    rewrite E in Hx; clear E
  end;
  repeat (apply elem_of_cons in Hx; destruct Hx as [[= -> ->]|Hx]; [unfold typed; cbn; lia|]);
  by apply elem_of_nil in Hx.

Lemma sample_fits now : 0 <= now < 2 ^ 63 -> fits now sample.
Proof. intros Hn. split; [vm_compute; done|]. intros p x Hx. each_timer Hx. Qed.

Lemma CheckAndHandle_runs_due_witness :
  exists m', (forall fuel, (3 < fuel)%nat ->
    CheckAndHandle (run_adds 12) fuel 12 sample = Ok (Some ([2; 1]%positive, m'))) /\
    Timer.expired_time_ <$> objects m' !! 1%positive = Some 22 /\ inv m'.
Proof.
  destruct (CheckAndHandle_runs_due (run_adds 12) 2 12 sample) as
    (ps & m' & Hc & _ & _ & _ & Hi & _ & Hl);
    [apply sample_inv|apply sample_fits; lia|apply run_adds_only; lia|vm_compute; reflexivity|].
  exists m'. split_and!; [|by rewrite (Hl 1%positive _ eq_refl)|done].
  intros fuel Hf. rewrite (Hc fuel) by done. specialize (Hc 4%nat ltac:(vm_compute; lia)).
  vm_compute in Hc. injection Hc as <- _. done.
Defined.

Lemma RemoveTimer_correct_witness :
  exists m', RemoveTimer 2%positive sample = Ok m' /\
    objects m' = delete 2%positive (objects sample).
Proof.
  destruct (RemoveTimer_correct sample 2%positive sample_inv) as (m' & Hr & _ & Ho & _). eauto.
Defined.

(** A timer with a negative count is never deleted: the count goes down with every run,
    and the run after the one that reaches the least [int32_t] is undefined. *)
Example negative_count :
  (m ← add 0 (- 2 ^ 31) 50 [] create; CheckAndHandle (run_adds 0) 2 60 m) = Err (UB SignedOverflow).
Proof. vm_compute. reflexivity. Qed.

(** A late timer: the answer wraps around instead of being 0. *)
Example recent_late : GetRecentTimeout 25 sample = Ok (2 ^ 64 - 15).
Proof. reflexivity. Qed.

End TimerProps.
