(* ===== verification/TimerHistory.v ===== *)
(** Whole histories of the timer container of Timer.v: any sequence of AddTimer,
    RemoveTimer and CheckAndHandle calls, with callbacks that add timers, compared with
    what becomes of each timer on its own. *)
From Stdlib Require Import ZArith Lia.
From stdpp Require Import base gmap list option.
From S2P Require Import Prelude Poller Heap Timer.

Local Open Scope Z_scope.

Module TimerHistory.
Import TimerManager TimerFacts.

Section History.
Context {CB : Type}.

(** What a callback does to the container at a clock reading. *)
Context (run : Z -> CB -> TimerManager.t CB -> result (TimerManager.t CB)).

(** One call on the container, with the reading of the clock it makes. *)
Inductive op :=
  | Add (now repeated_times interval : Z) (callback : CB)
  | Remove (timer : ptr)
  | Check (now : Z).

(** The call, and the timers it runs; a check is given one iteration for every timer
    that is queued when it starts and one more. *)
Definition exec (o : op) (m : TimerManager.t CB) : result (option (list ptr * TimerManager.t CB)) :=
  match o with
  | Add now r i cb => '(_, m) ← AddTimer now r i cb m; Ok (Some ([], m))
  | Remove p => m ← RemoveTimer p m; Ok (Some ([], m))
  | Check now => CheckAndHandle (run now) (S (length (timers_que_ m))) now m
  end.

Fixpoint exec_all (os : list op) (m : TimerManager.t CB) :
    result (option (list (list ptr) * TimerManager.t CB)) :=
  match os with
  | [] => Ok (Some ([], m))
  | o :: os =>
      r ← exec o m;
      match r with
      | None => Ok None
      | Some (ps, m) =>
          r ← exec_all os m;
          Ok (match r with Some (pss, m) => Some (ps :: pss, m) | None => None end)
      end
  end.

(** ** A timer on its own *)

(** What becomes of timer [p] in one call. *)
Definition live (p : ptr) (o : op) (x : Timer.t CB) : option (Timer.t CB) :=
  match o with
  | Add _ _ _ _ => Some x
  | Remove q => if decide (q = p) then None else Some x
  | Check now => if Timer.expired_time_ x <=? now then rearm now x else Some x
  end.

Definition life (p : ptr) (os : list op) (mx : option (Timer.t CB)) : option (Timer.t CB) :=
  foldl (fun mx o => mx ≫= live p o) mx os.

(** Whether a call runs it. *)
Definition fires (o : op) (x : Timer.t CB) : bool :=
  match o with Check now => Timer.expired_time_ x <=? now | _ => false end.

(** The calls that run it. *)
Fixpoint firings (p : ptr) (os : list op) (mx : option (Timer.t CB)) : list bool :=
  match os with
  | [] => []
  | o :: os => from_option (fires o) false mx :: firings p os (mx ≫= live p o)
  end.

(** ** Types *)

(** The arguments within their machine types, a repeat count that is not negative, and a
    clock that reads less than 2^63 milliseconds. *)
Definition op_typed (o : op) : Prop :=
  match o with
  | Add now r i _ => 0 <= now < 2 ^ 63 /\ 0 <= r < 2 ^ 31 /\ i < 2 ^ 63
  | Remove _ => True
  | Check now => 0 <= now < 2 ^ 63
  end.

(** The queue is a heap of exactly the live timers, and every timer has a positive
    interval and fields within their types. *)
Definition wf (m : TimerManager.t CB) : Prop :=
  inv m /\ 0 <= next_id m < 2 ^ 63 /\
  forall p x, objects m !! p = Some x -> 0 < Timer.interval_ x /\ typed x /\ 0 <= Timer.repeated_times_ x.

(** How many identifiers the calls can use up, when a callback adds at most [K] timers
    and [n] are queued: a check runs each queued timer once at most. *)
Fixpoint need (K : Z) (os : list op) (n : Z) : Z :=
  match os with
  | [] => 0
  | Add _ _ _ _ :: os => 1 + need K os (n + 1)
  | Remove _ :: os => need K os n
  | Check _ :: os => K * n + need K os (n + K * n)
  end.

Lemma need_mono K os n n' : 0 <= K -> 0 <= n <= n' -> 0 <= need K os n <= need K os n'.
Proof.
  intros HK. revert n n'. induction os as [|[now r i cb|q|now] os IH]; intros n n' Hn; cbn [need]; [lia|..].
  - specialize (IH (n + 1) (n' + 1)). lia.
  - by apply IH.
  - specialize (IH (n + K * n) (n' + K * n') ltac:(nia)). nia.
Qed.

Lemma wf_create : wf create.
Proof. split; [apply create_inv|]. split; [done|]. intros p x. cbn. by rewrite lookup_empty. Qed.

Lemma wf_fits now m : 0 <= now < 2 ^ 63 -> wf m -> fits now m.
Proof.
  intros Hn (_ & Hid & Hx). split; [done|]. intros p x Hp. destruct (Hx p x Hp) as (? & Ht & ?).
  pose proof Ht as (_ & _ & _ & ?). split; [done|]. split; [lia|]. split; [done|lia].
Qed.

Lemma fits_wf now m : inv m -> fits now m -> counted m -> wf m.
Proof.
  intros Hi [Hid Hf] Hc. split; [done|]. split; [done|]. intros p x Hp.
  destruct (Hf p x Hp) as (? & _ & ? & _). split; [done|]. split; [done|by eapply Hc].
Qed.

Lemma wf_counted m : wf m -> counted m.
Proof. intros (_ & _ & Hx) p x Hp. by destruct (Hx p x Hp) as (_ & _ & ?). Qed.

(** A call keeps the types, uses up the identifiers counted above, and does to every
    timer what it does to it on its own. *)
Lemma exec_law K o os m : (forall now, 0 <= now < 2 ^ 63 -> only_adds (run now) K now) -> 0 <= K ->
  wf m -> op_typed o -> next_id m + need K (o :: os) (zlen (timers_que_ m)) < 2 ^ 63 ->
  exists ps m', exec o m = Ok (Some (ps, m')) /\ wf m' /\
    next_id m' + need K os (zlen (timers_que_ m')) < 2 ^ 63 /\ (next_ptr m <= next_ptr m')%positive /\
    forall p, (p < next_ptr m)%positive ->
      objects m' !! p = objects m !! p ≫= live p o /\
      bool_decide (p ∈ ps) = from_option (fires o) false (objects m !! p).
Proof.
  intros Hrun HK Hwf Ho Hneed. pose proof Hwf as (Hi & Hid & Hty). pose proof (zlen_nonneg (timers_que_ m)) as Hl0.
  destruct o as [now r i cb|q|now]; cbn [exec need] in *.
  - pose proof (need_mono K os (zlen (timers_que_ m) + 1) (zlen (timers_que_ m) + 1) HK ltac:(lia)).
    destruct (AddTimer_ok now r i cb m ltac:(lia)) as (o & m1 & E & Hid1). destruct Ho as (Hnow & Hr & Hi63).
    pose proof (AddTimer_grown now r i cb m o m1 ltac:(lia) E) as (_ & Hq & Hcnt).
    rewrite E. cbn. eexists _, _. split; [done|]. split; [|split; [|split]].
    + split; [by eapply AddTimer_inv|]. split; [lia|]. intros p x Hp.
      destruct (objects m !! p) as [y|] eqn:Ey.
      * pose proof (AddTimer_lookup now r i cb m o m1 p y E Hi Ey). assert (y = x) as -> by congruence. by eapply Hty.
      * destruct (AddTimer_new now r i cb m o m1 p x E Ey Hp) as (? & ? & ->).
        split; [done|]. split; [apply new_typed; lia|cbn; lia].
    + pose proof (need_mono K os (zlen (timers_que_ m1)) (zlen (timers_que_ m) + 1) HK ltac:(pose proof (zlen_nonneg (timers_que_ m1)); lia)).
      destruct (AddTimer_cases _ _ _ _ _ _ _ E) as [->|(_ & _ & ->)]; [lia|]. cbn [next_id] in *. lia.
    + by destruct (AddTimer_fresh now r i cb m o m1 E).
    + intros p Hp. rewrite bool_decide_eq_false_2 by apply not_elem_of_nil. destruct (objects m !! p) as [y|] eqn:Ey; cbn.
      * split; [by eapply AddTimer_lookup|done].
      * split; [by apply (AddTimer_fresh now r i cb m o m1 E)|done].
  - destruct (remove_law m q Hi) as (m' & E & Hi' & Hob & Hn & Hid' & Hq'). rewrite E. cbn. eexists _, m'. split; [done|].
    split; [|split; [|split; [by rewrite Hn|]]].
    + split; [done|]. split; [by rewrite Hid'|]. intros p x. rewrite Hob. intros [_ Hp]%lookup_delete_Some. by eapply Hty.
    + pose proof (need_mono K os (zlen (timers_que_ m')) (zlen (timers_que_ m)) HK
        ltac:(pose proof (zlen_nonneg (timers_que_ m')); lia)). lia.
    + intros p _. rewrite Hob, bool_decide_eq_false_2 by apply not_elem_of_nil. split; [|by destruct (objects m !! p)].
      destruct (decide (q = p)) as [->|Hne].
      * rewrite lookup_delete_eq. destruct (objects m !! p); cbn; [by rewrite decide_True|done].
      * rewrite lookup_delete_ne by done. destruct (objects m !! p); cbn; [by rewrite decide_False|done].
  - pose proof (need_mono K os (zlen (timers_que_ m) + K * zlen (timers_que_ m))
      (zlen (timers_que_ m) + K * zlen (timers_que_ m)) HK ltac:(nia)).
    destruct (TimerProps.check_runs_due (run now) K now m Hi (wf_fits now m Ho Hwf) (Hrun now Ho) ltac:(lia)) as
      (ps & m' & Hc & _ & HD & _ & Hi' & _ & Hl & Hf' & Hfr & Hg & Hid').
    eexists ps, m'. split; [apply Hc; lia|]. split; [|split; [|split; [by destruct Hfr|]]].
    + eapply fits_wf; [done|done|]. apply Hg. by apply wf_counted.
    + destruct Hg as (Hid1 & Hq & _). pose proof (zlen_nonneg (timers_que_ m')).
      pose proof (need_mono K os (zlen (timers_que_ m')) (zlen (timers_que_ m) + K * zlen (timers_que_ m)) HK ltac:(lia)). lia.
    + intros p Hp. destruct (objects m !! p) as [x|] eqn:E; cbn.
      * rewrite (Hl p x E). split; [done|]. apply Bool.eq_true_iff_eq. rewrite bool_decide_eq_true, HD, Z.leb_le.
        unfold due. rewrite E. naive_solver.
      * split; [by apply Hfr|]. rewrite bool_decide_eq_false_2; [done|]. rewrite HD. unfold due. rewrite E. naive_solver.
Qed.

Lemma exec_all_law K os m : (forall now, 0 <= now < 2 ^ 63 -> only_adds (run now) K now) -> 0 <= K ->
  wf m -> Forall op_typed os -> next_id m + need K os (zlen (timers_que_ m)) < 2 ^ 63 ->
  exists pss m', exec_all os m = Ok (Some (pss, m')) /\ wf m' /\ (next_ptr m <= next_ptr m')%positive /\
    forall p, (p < next_ptr m)%positive ->
      objects m' !! p = life p os (objects m !! p) /\
      ((fun ps => bool_decide (p ∈ ps)) <$> pss) = firings p os (objects m !! p).
Proof.
  intros Hrun HK. revert m. induction os as [|o os IH]; intros m Hwf Hos Hneed.
  { exists [], m. by split_and!. }
  apply list.Forall_cons in Hos as [Ho Hos].
  destruct (exec_law K o os m Hrun HK Hwf Ho Hneed) as (ps & m1 & E & Hwf1 & Hneed1 & Hn1 & Hl1).
  destruct (IH m1 Hwf1 Hos Hneed1) as (pss & m' & E' & Hwf' & Hn' & Hl'). exists (ps :: pss), m'.
  cbn [exec_all]. rewrite E. cbn. rewrite E'. split; [done|]. split; [done|]. split; [lia|].
  intros p Hp. destruct (Hl1 p Hp) as [H1 H2]. destruct (Hl' p ltac:(lia)) as [H3 H4].
  rewrite H1 in H3, H4. split; [exact H3|]. cbn [fmap list_fmap firings]. by rewrite H2, H4.
Qed.

(** ** Repetitions *)

(** Each reading comes an interval [i] after the one before, the first at [e]. *)
Fixpoint spaced (e i : Z) (ticks : list Z) : Prop :=
  match ticks with
  | [] => True
  | now :: ticks => e <= now < 2 ^ 63 /\ spaced (now + i) i ticks
  end.

(** A timer with repeat count [n] runs in each of the next [n + 1] checks that are an
    interval apart, and is then deleted. *)
Lemma repeat_plus_one p ticks x :
  0 < Timer.interval_ x < 2 ^ 63 -> 0 <= Timer.expired_time_ x -> 0 <= Timer.repeated_times_ x < 2 ^ 31 ->
  spaced (Timer.expired_time_ x) (Timer.interval_ x) ticks -> zlen ticks = Timer.repeated_times_ x + 1 ->
  life p (Check <$> ticks) (Some x) = None /\
  firings p (Check <$> ticks) (Some x) = replicate (length ticks) true.
Proof.
  revert x. induction ticks as [|now ticks IH]; intros x Hi He Hn Hsp Hlen.
  { change (zlen (@nil Z)) with 0 in Hlen. lia. }
  destruct Hsp as [Hdue Hsp]. rewrite zlen_cons in Hlen.
  cbn [fmap list_fmap life foldl firings replicate length mbind option_bind live fires from_option].
  destruct (Z.leb_spec (Timer.expired_time_ x) now); [|lia]. unfold rearm.
  destruct (Z.eqb_spec (Timer.repeated_times_ x) 0) as [E0|E0].
  - assert (zlen ticks = 0) as ->%zlen_nil_inv by lia. done.
  - destruct (IH (Timer.mk (Timer.id_ x) (u64 (now + Timer.interval_ x)) (Timer.repeated_times_ x - 1) (Timer.interval_ x)
      (Timer.callback_ x))) as [H1 H2]; [done|cbn; rewrite u64_small; lia|cbn; lia|cbn; by rewrite u64_small by lia|cbn; lia|].
    split; [exact H1|]. f_equal. exact H2.
Qed.

End History.
Arguments op : clear implicits.
End TimerHistory.

(** * Properties *)
Module TimerHistoryProps.
Import TimerManager TimerFacts TimerHistory.

Section Props.
Context {CB : Type} (run : Z -> CB -> TimerManager.t CB -> result (TimerManager.t CB)).

(** C18: Whatever sequence of additions, removals and checks is made, with repeat counts
    that are not negative and callbacks that add at most [K] timers of their own, and as
    long as there are identifiers for all the timers these can add, every call succeeds,
    every check ends, the queue stays a heap of exactly the live timers, every field stays
    within its machine type and every count non-negative, and each timer there is (or was)
    at the start runs in exactly the checks, and ends in exactly the state, that follow
    from its own fields and the readings of the clock, whatever other timers there are. *)
Theorem timers_stay_typed K os m :
  (forall now, 0 <= now < 2 ^ 63 -> only_adds (run now) K now) -> wf m -> Forall op_typed os ->
  next_id m + need K os (zlen (timers_que_ m)) < 2 ^ 63 ->
  exists pss m', exec_all run os m = Ok (Some (pss, m')) /\ wf m' /\
    forall p, (p < next_ptr m)%positive ->
      objects m' !! p = life p os (objects m !! p) /\
      ((fun ps => bool_decide (p ∈ ps)) <$> pss) = firings p os (objects m !! p).
Proof.
  intros Hrun Hwf Hos Hneed. destruct (Hrun 0 ltac:(done)) as [HK _].
  destruct (exec_all_law run K os m Hrun HK Hwf Hos Hneed) as (pss & m' & E & Hwf' & _ & Hl). eauto.
Qed.

End Props.

(** ** A container at work *)

Lemma sample_wf : wf TimerProps.sample.
Proof.
  eapply fits_wf; [apply TimerProps.sample_inv|apply (TimerProps.sample_fits 0); lia|].
  intros p x Hx. TimerProps.each_timer Hx.
Qed.

Definition sample_ops : list (op (list Z)) := [Check 12; Add 13 0 5 []; Remove 3%positive; Check 40].

(** Timer 1 has one repetition: it runs in both checks and is gone; its callback adds
    two timers in each. *)
Lemma timers_stay_typed_witness :
  exists pss m', exec_all TimerProps.run_adds sample_ops TimerProps.sample = Ok (Some (pss, m')) /\ wf m' /\
    objects m' !! 1%positive = None /\ objects m' !! 3%positive = None /\
    ((fun ps => bool_decide (1%positive ∈ ps)) <$> pss) = [true; false; false; true].
Proof.
  destruct (timers_stay_typed TimerProps.run_adds 2 sample_ops TimerProps.sample) as (pss & m' & E & Hwf & Hl).
  - intros now Hn. apply TimerProps.run_adds_only; lia.
  - apply sample_wf.
  - repeat constructor; cbn; lia.
  - vm_compute. reflexivity.
  - exists pss, m'. split; [exact E|]. split; [exact Hwf|].
    destruct (Hl 1%positive ltac:(done)) as [H1 H2]. destruct (Hl 3%positive ltac:(done)) as [H3 _].
    split; [rewrite H1; by vm_compute|]. split; [rewrite H3; by vm_compute|]. rewrite H2. by vm_compute.
Defined.

End TimerHistoryProps.
