(* ===== verification/EventLoop.v ===== *)
(** The event loop (include/event_loop.h, src/event_loop.cc, with the channel
    operations of src/channel.cc that go through it, include/utils.h and
    src/current_thread.cc). Module [LoopChannel] has the calls a channel's owner
    makes, written against the interface of a poller; module [EventLoop] has the
    loop's own operations; module [Threads] runs the loop's thread against
    arbitrary other threads, one atomic action at a time. *)
From Stdlib Require Import ZArith Lia.
From stdpp Require Import base gmap list option relations.
From S2P Require Import Prelude Channel Poller PollPoller Timer.

Local Open Scope Z_scope.

(** * Channel operations that reach the poller *)
Module LoopChannel.

Section Ops.
Context {CB OBJ P : Type} `{Poller CB OBJ P}.
Abbreviation chans := (gmap ptr (Channel.t CB OBJ)).

(** [events_ = f(events_); Update()], with [Channel::Update] going through
    [EventLoop::UpdateChannel] to the poller. *)
Definition change_events (f : Z -> Z) (c : ptr) (cs : chans) (p : P) : result (chans * P) :=
  match cs !! c with
  | None => Err (UB UseAfterFree)
  | Some ch => UpdateChannel c (<[c := Channel.with_events (f (Channel.events_ ch)) ch]> cs) p
  end.

Definition EnableRead := change_events Channel.enable_read.
Definition DisableRead := change_events Channel.disable_read.
Definition EnableWrite := change_events Channel.enable_write.
Definition DisableWrite := change_events Channel.disable_write.
Definition DisableAll := change_events Channel.disable_all.

(** [Channel::Remove] through [EventLoop::RemoveChannel]. *)
Definition Remove (c : ptr) (cs : chans) (p : P) : result (chans * P) :=
  match cs !! c with
  | None => Err (UB UseAfterFree)
  | Some _ => RemoveChannel c cs p
  end.

End Ops.
End LoopChannel.

(** * The loop's operations *)
Module EventLoop.

Definition kPollTimeMs : Z := 10000.

(** The flags the loop shares with other threads, its queue of functors, and the
    counter the kernel keeps for [wake_fd_]. *)
Record t (F : Type) := mk {
  looping_ : bool;
  quit_ : bool;
  calling_pending_functors_ : bool;
  pending_functors_ : list F;
  wake_count : Z;
}.
Arguments mk {F}.
Arguments looping_ {F}.
Arguments quit_ {F}.
Arguments calling_pending_functors_ {F}.
Arguments pending_functors_ {F}.
Arguments wake_count {F}.

Section Ops.
Context {F : Type}.
Implicit Types (l : t F).

(** [utils::CreateEventfd] makes the counter 0. *)
Definition create : t F := mk false false false [] 0.

Definition set_quit (b : bool) l : t F :=
  mk (looping_ l) b (calling_pending_functors_ l) (pending_functors_ l) (wake_count l).
Definition set_looping (b : bool) l : t F :=
  mk b (quit_ l) (calling_pending_functors_ l) (pending_functors_ l) (wake_count l).
Definition set_calling (b : bool) l : t F :=
  mk (looping_ l) (quit_ l) b (pending_functors_ l) (wake_count l).
Definition set_pending (fs : list F) l : t F :=
  mk (looping_ l) (quit_ l) (calling_pending_functors_ l) fs (wake_count l).

(** [Wakeup]: adds one to the counter; a write that would reach 2^64 - 1 fails,
    the descriptor being non-blocking, and is only logged. *)
Definition Wakeup l : t F :=
  mk (looping_ l) (quit_ l) (calling_pending_functors_ l) (pending_functors_ l)
    (if wake_count l + 1 <? 2 ^ 64 - 1 then wake_count l + 1 else wake_count l).

(** [HandleRead]: the read takes the whole counter; on 0 it fails and is logged. *)
Definition HandleRead l : t F :=
  mk (looping_ l) (quit_ l) (calling_pending_functors_ l) (pending_functors_ l) 0.

(** The two halves of [QueueInLoop]: the push under the mutex, and whether the
    caller goes on to [Wakeup]. *)
Definition queue_push (f : F) l : t F := set_pending (pending_functors_ l ++ [f]) l.
Definition queue_wakes (in_loop : bool) l : bool := negb in_loop || calling_pending_functors_ l.

Definition QueueInLoop (in_loop : bool) (f : F) l : t F :=
  let l := queue_push f l in
  if queue_wakes in_loop l then Wakeup l else l.

(** [Quit] *)
Definition Quit (in_loop : bool) l : t F :=
  let l := set_quit true l in
  if in_loop then l else Wakeup l.

(** [RunInLoop]: [run] executes a functor in place. *)
Definition RunInLoop (run : F -> t F -> t F) (in_loop : bool) (f : F) l : t F :=
  if in_loop then run f l else QueueInLoop false f l.

(** The timeout handed to the poller: [GetRecentTimeout] is called twice, at two
    clock readings; its unsigned answer is compared with -1 and narrowed to int. *)
Definition poll_timeout {CB} (now1 now2 : Z) (tm : TimerManager.t CB) : result Z :=
  t1 ← TimerManager.GetRecentTimeout now1 tm;
  if t1 =? u64 (-1) then Ok kPollTimeMs
  else t2 ← TimerManager.GetRecentTimeout now2 tm; Ok (i32 t2).

(** [RunAfter] *)
Definition RunAfter {CB} (now repeated_times interval : Z) (callback : CB)
    (tm : TimerManager.t CB) : result (option ptr * TimerManager.t CB) :=
  TimerManager.AddTimer now repeated_times interval callback tm.

End Ops.

Section Lifecycle.
Context {CB OBJ P : Type} `{Poller CB OBJ P}.
Abbreviation chans := (gmap ptr (Channel.t CB OBJ)).

(** The constructor: [here] is [t_loopInThisThread]; a second loop in the thread
    is fatal. The wakeup channel at [c] gets its read callback and is enabled. *)
Definition construct (here : option ptr) (self c : ptr) (wake_fd : Z) (handle_read : CB)
    (cs : chans) (p : P) : result (option ptr * chans * P) :=
  match here with
  | Some _ => Err Aborted
  | None =>
      let ch := Channel.SetCallbacks (Some handle_read) None None None (Channel.create wake_fd) in
      '(cs, p) ← LoopChannel.EnableRead c (<[c := ch]> cs) p;
      Ok (Some self, cs, p)
  end.

(** The destructor, up to closing the descriptor: the channel object goes with the
    [unique_ptr] that holds it. *)
Definition destruct_ (c : ptr) (cs : chans) (p : P) : result (option ptr * chans * P) :=
  '(cs, p) ← LoopChannel.DisableAll c cs p;
  '(cs, p) ← LoopChannel.Remove c cs p;
  Ok (None, delete c cs, p).

End Lifecycle.

(** The dispatch half of [PollAndHandleIoEvent]: every active channel handles its
    events in the order the poller answered. *)
Section Dispatch.
Context {CB OBJ W ADDR : Type}.
Context (find : ADDR -> W -> option (Channel.t CB OBJ)) (invoke : CB -> W -> result W).
Context (alive : OBJ -> W -> bool).

Fixpoint HandleActive (active : list ADDR) (w : W) : result W :=
  match active with
  | [] => Ok w
  | c :: active => w ← Channel.HandleEvent find invoke alive c w; HandleActive active w
  end.
End Dispatch.

End EventLoop.

(** * The loop's thread among others *)
Module Threads.
Import EventLoop.

Section Threads.
Context {F : Type}.

(** What a callback does to the loop from the loop's own thread: a call of
    [RunInLoop] there is the functor's own acts in place. *)
Inductive act := AQueue (f : F) | AQuit.

Definition do_act (a : act) (l : EventLoop.t F) : EventLoop.t F :=
  match a with
  | AQueue f => QueueInLoop true f l
  | AQuit => Quit true l
  end.

(** What the poller can report: the wakeup channel, or a channel whose callbacks
    act on the loop. *)
Inductive event := EWake | EChannel (acts : list act).

(** Where the loop's thread is. *)
Inductive pc :=
  | PBefore (acts : list act)                 (* has not called Loop() yet *)
  | PTest                                     (* while (!quit_) *)
  | PTimer (acts : list act)                  (* CheckAndHandleTimerEvent *)
  | PPoll                                     (* inside poller_->Polling *)
  | PIo (acts : list act) (evs : list event)  (* handling active channels *)
  | PFlag                                     (* before calling_pending_functors_ = true *)
  | PSwap                                     (* before the swap *)
  | PRun (acts : list act) (fs : list F)      (* running the swapped functors *)
  | PUnflag                                   (* before calling_pending_functors_ = false *)
  | PDone.                                    (* Loop() returned *)

(** The loop, its thread's position, how many other threads are between their push
    (or their [quit_ = true]) and their [Wakeup], and the history: functors in the
    order they were queued, and those that were started. *)
Record sys := mk_sys {
  loop : EventLoop.t F;
  at_ : pc;
  wakes : nat;
  posted : list F;
  started : list F;
}.

(** The functors an act adds to the history. *)
Definition posts (a : act) : list F := match a with AQueue f => [f] | AQuit => [] end.

Context (body : F -> list act).

(** The acts the code before [Loop()] and the timers due in a check may perform. *)
Context (may_before may_timer : list act -> Prop).

(** One step of the loop's thread. *)
Inductive loop_step : sys -> sys -> Prop :=
  | step_before l a acts w ps ss :
      loop_step (mk_sys l (PBefore (a :: acts)) w ps ss)
        (mk_sys (do_act a l) (PBefore acts) w (ps ++ posts a) ss)
  | step_enter l w ps ss :
      loop_step (mk_sys l (PBefore []) w ps ss)
        (mk_sys (set_quit false (set_looping true l)) PTest w ps ss)
  | step_test_go l acts w ps ss :
      quit_ l = false -> may_timer acts ->
      loop_step (mk_sys l PTest w ps ss) (mk_sys l (PTimer acts) w ps ss)
  | step_test_stop l w ps ss :
      quit_ l = true ->
      loop_step (mk_sys l PTest w ps ss) (mk_sys (set_looping false l) PDone w ps ss)
  | step_timer l a acts w ps ss :
      loop_step (mk_sys l (PTimer (a :: acts)) w ps ss)
        (mk_sys (do_act a l) (PTimer acts) w (ps ++ posts a) ss)
  | step_poll l w ps ss :
      loop_step (mk_sys l (PTimer []) w ps ss) (mk_sys l PPoll w ps ss)
  | step_polled l evs w ps ss :
      (EWake ∈ evs -> 0 < wake_count l) ->
      loop_step (mk_sys l PPoll w ps ss) (mk_sys l (PIo [] evs) w ps ss)
  | step_io_wake l evs w ps ss :
      loop_step (mk_sys l (PIo [] (EWake :: evs)) w ps ss) (mk_sys (HandleRead l) (PIo [] evs) w ps ss)
  | step_io_channel l acts evs w ps ss :
      loop_step (mk_sys l (PIo [] (EChannel acts :: evs)) w ps ss) (mk_sys l (PIo acts evs) w ps ss)
  | step_io_act l a acts evs w ps ss :
      loop_step (mk_sys l (PIo (a :: acts) evs) w ps ss)
        (mk_sys (do_act a l) (PIo acts evs) w (ps ++ posts a) ss)
  | step_io_end l w ps ss :
      loop_step (mk_sys l (PIo [] []) w ps ss) (mk_sys l PFlag w ps ss)
  | step_flag l w ps ss :
      loop_step (mk_sys l PFlag w ps ss) (mk_sys (set_calling true l) PSwap w ps ss)
  | step_swap l w ps ss :
      loop_step (mk_sys l PSwap w ps ss)
        (mk_sys (set_pending [] l) (PRun [] (pending_functors_ l)) w ps ss)
  | step_run_next l f fs w ps ss :
      loop_step (mk_sys l (PRun [] (f :: fs)) w ps ss)
        (mk_sys l (PRun (body f) fs) w ps (ss ++ [f]))
  | step_run_act l a acts fs w ps ss :
      loop_step (mk_sys l (PRun (a :: acts) fs) w ps ss)
        (mk_sys (do_act a l) (PRun acts fs) w (ps ++ posts a) ss)
  | step_run_end l w ps ss :
      loop_step (mk_sys l (PRun [] []) w ps ss) (mk_sys l PUnflag w ps ss)
  | step_unflag l w ps ss :
      loop_step (mk_sys l PUnflag w ps ss) (mk_sys (set_calling false l) PTest w ps ss).

(** One step of another thread: it queues a functor or quits the loop, each in two
    steps with the write to [wake_fd_] last. *)
Inductive env_step : sys -> sys -> Prop :=
  | env_queue l c f w ps ss :
      env_step (mk_sys l c w ps ss)
        (mk_sys (queue_push f l) c (if queue_wakes false l then S w else w) (ps ++ [f]) ss)
  | env_quit l c w ps ss :
      env_step (mk_sys l c w ps ss) (mk_sys (set_quit true l) c (S w) ps ss)
  | env_wake l c w ps ss :
      env_step (mk_sys l c (S w) ps ss) (mk_sys (Wakeup l) c w ps ss).

Definition step (s s' : sys) : Prop := loop_step s s' \/ env_step s s'.

Inductive init : sys -> Prop :=
  | init_intro acts : may_before acts -> init (mk_sys create (PBefore acts) 0 [] []).

Definition reachable (s : sys) : Prop := exists s0, init s0 /\ rtc step s0 s.

(** The functors swapped out and not yet started. *)
Definition in_hand (c : pc) : list F := match c with PRun _ fs => fs | _ => [] end.

End Threads.
Arguments act : clear implicits.
Arguments event : clear implicits.
Arguments pc : clear implicits.
Arguments sys : clear implicits.

End Threads.

(** * Channel operations against any poller *)
Module LoopChannelFacts.

Section Facts.
Context {CB OBJ P : Type} `{!Poller P, !PollerLaws (CB := CB) (OBJ := OBJ) P}.
Implicit Types (cs : gmap ptr (Channel.t CB OBJ)) (p : P).

(** Changing the mask of a usable channel installs the new mask in the kernel. *)
Lemma change_events_law f cs p c ch :
  poller_inv cs p -> cs !! c = Some ch -> usable p c ch -> 0 <= f (Channel.events_ ch) ->
  exists cs' p' ch',
    LoopChannel.change_events f c cs p = Ok (cs', p') /\
    poller_inv cs' p' /\
    same_chans (<[c := Channel.with_events (f (Channel.events_ ch)) ch]> cs) cs' /\
    cs' !! c = Some ch' /\
    ChannelFacts.same_but_index (Channel.with_events (f (Channel.events_ ch)) ch) ch' /\
    managed p' c ch' /\
    interest p' (Channel.fd_ ch) = f (Channel.events_ ch) /\
    others c (Channel.fd_ ch) cs p cs' p'.
Proof.
  intros Hi Hc Hu He. unfold LoopChannel.change_events. rewrite Hc.
  destruct (update_law cs p c ch (f (Channel.events_ ch)) Hi Hc Hu He) as
    (cs' & p' & ch' & -> & Hi' & Hs & Hc' & Hm & Hint & Hoth & Hk).
  exists cs', p', ch'. split_and!; try done; [|by eapply others_update].
  specialize (Hs c). rewrite lookup_insert_eq, Hc' in Hs. done.
Qed.

(** Disabling and removing a managed channel, as owners do before they delete it. *)
Lemma disable_remove_law cs p c ch :
  poller_inv cs p -> cs !! c = Some ch -> managed p c ch ->
  exists cs1 p1 cs2 p2,
    LoopChannel.DisableAll c cs p = Ok (cs1, p1) /\
    LoopChannel.Remove c cs1 p1 = Ok (cs2, p2) /\
    poller_inv (delete c cs2) p2 /\
    same_chans (delete c cs) (delete c cs2) /\
    interest p2 (Channel.fd_ ch) = 0 /\
    (forall fd, fd <> Channel.fd_ ch -> interest p2 fd = interest p fd).
Proof.
  intros Hi Hc Hm.
  destruct (change_events_law Channel.disable_all cs p c ch) as
    (cs1 & p1 & ch1 & E1 & Hi1 & Hs1 & Hc1 & Hb1 & Hm1 & Hint1 & Hoth1);
    [done|done|by apply managed_usable|done|].
  destruct (remove_law cs1 p1 c ch1 Hi1 Hc1 Hm1) as (cs2 & p2 & E2 & Hs2 & Hi2 & Hint2 & Hoth2 & _).
  assert (Channel.fd_ ch1 = Channel.fd_ ch) as Hfd by (by rewrite <- (ChannelFacts.fd_proper _ _ Hb1)).
  exists cs1, p1, cs2, p2. unfold LoopChannel.Remove. rewrite Hc1. split_and!; try done.
  - intros d. specialize (Hs1 d). specialize (Hs2 d).
    destruct (decide (d = c)) as [->|]; [by rewrite !lookup_delete_eq|].
    rewrite lookup_insert_ne in Hs1 by done. rewrite !lookup_delete_ne by done.
    destruct (cs !! d), (cs1 !! d), (cs2 !! d); cbn in *; try done. by etrans.
  - by rewrite <- Hfd.
  - destruct Hoth1 as (_ & _ & Hoth1). intros fd Hne. rewrite Hoth2, Hoth1; congruence.
Qed.

End Facts.
End LoopChannelFacts.

(** * Lemmas *)
Module ThreadsFacts.
Import EventLoop Threads.

Section Facts.
Context {F : Type} (body : F -> list (act F)).
Context (may_before may_timer : list (act F) -> Prop).
Abbreviation sys := (sys F).
Abbreviation step := (step body may_timer).
Abbreviation loop_step := (loop_step body may_timer).
Abbreviation reachable := (reachable body may_before may_timer).

(** Invariants by induction over the steps. *)
Lemma reachable_ind_inv (I : sys -> Prop) :
  (forall s, init may_before s -> I s) ->
  (forall s s', I s -> loop_step s s' -> I s') ->
  (forall s s', I s -> env_step s s' -> I s') ->
  forall s, reachable s -> I s.
Proof.
  intros H0 Hl He s (s0 & Hs0 & Hr). apply H0 in Hs0. clear H0.
  induction Hr as [s|s s1 s' [Hs|Hs] _ IH]; eauto.
Qed.

(** ** Functors run once, in order *)

(** Everything queued is started, in hand or still pending, in queueing order. *)
Definition fifo (s : sys) : Prop :=
  posted s = started s ++ in_hand (at_ s) ++ pending_functors_ (loop s).

Lemma do_act_pending a (l : EventLoop.t F) :
  pending_functors_ (do_act a l) = pending_functors_ l ++ posts a.
Proof.
  destruct a as [f|]; cbn; [|by rewrite app_nil_r].
  unfold QueueInLoop. by destruct (queue_wakes _ _).
Qed.

Lemma reachable_fifo s : reachable s -> fifo s.
Proof.
  apply reachable_ind_inv; unfold fifo.
  - by intros _ [acts _].
  - intros s1 s2 H. destruct 1; cbn in *;
      rewrite ?do_act_pending, ?app_nil_r in *; subst; by rewrite <- ?app_assoc.
  - intros s1 s2 H. destruct 1; cbn in *; subst; by rewrite <- ?app_assoc.
Qed.

(** ** No wakeup is lost *)

Definition calling_at (c : pc F) : bool :=
  match c with PSwap | PRun _ _ | PUnflag => true | _ => false end.

(** The thread will swap the queue before it blocks again, or never looks again. *)
Definition before_swap (c : pc F) : bool :=
  match c with PIo _ _ | PFlag | PSwap | PDone => true | _ => false end.

(** The thread tests [quit_] before it blocks again, or resets it. *)
Definition before_test (c : pc F) : bool :=
  match c with PTimer _ | PPoll => false | _ => true end.

(** The code that runs where the loop would block next leaves the loop alone. *)
Definition quiet_at (c : pc F) : Prop :=
  match c with PBefore acts | PTimer acts => acts = [] | _ => True end.

Definition notified (s : sys) : Prop := 0 < wake_count (loop s) \/ (0 < wakes s)%nat.

Definition wake_inv (s : sys) : Prop :=
  calling_pending_functors_ (loop s) = calling_at (at_ s) /\
  0 <= wake_count (loop s) /\ quiet_at (at_ s) /\
  (pending_functors_ (loop s) <> [] -> before_swap (at_ s) = false -> notified s) /\
  (quit_ (loop s) = true -> before_test (at_ s) = false -> notified s).

Lemma Wakeup_pos (l : EventLoop.t F) : 0 <= wake_count l -> 0 < wake_count (Wakeup l).
Proof. intros. cbn. zcase; lia. Qed.

(** An act of the loop's own thread, outside the places where it must be quiet. *)
Lemma do_act_facts a (l : EventLoop.t F) :
  calling_pending_functors_ (do_act a l) = calling_pending_functors_ l /\
  wake_count l <= wake_count (do_act a l) /\
  (calling_pending_functors_ l = true -> 0 <= wake_count l ->
   pending_functors_ (do_act a l) = pending_functors_ l \/ 0 < wake_count (do_act a l)).
Proof.
  destruct a as [f|]; cbn; [|split_and!; auto; lia].
  unfold QueueInLoop, queue_wakes. cbn. destruct (calling_pending_functors_ l) eqn:E; cbn;
    rewrite ?E; split_and!; auto; try done; zcase; auto; lia.
Qed.

Context (Hbefore : forall acts, may_before acts -> acts = []).
Context (Htimer : forall acts, may_timer acts -> acts = []).

Lemma wake_inv_loop s s' : wake_inv s -> loop_step s s' -> wake_inv s'.
Proof.
  intros (Hc & H0 & Hq & Hp & Hqt) Hs. unfold wake_inv, notified in *.
  destruct Hs as [l a acts w ps ss|l w ps ss|l acts w ps ss Hql Ht|l w ps ss Hql|l a acts w ps ss
    |l w ps ss|l evs w ps ss He|l evs w ps ss|l acts evs w ps ss|l a acts evs w ps ss|l w ps ss
    |l w ps ss|l w ps ss|l f fs w ps ss|l a acts fs w ps ss|l w ps ss|l w ps ss]; cbn in *; try done.
  - split_and!; auto; try done. intros Hq'. congruence.
  - pose proof (do_act_facts a l) as (E1 & E2 & _). split_and!; try done; [congruence|lia].
  - pose proof (do_act_facts a l) as (E1 & E2 & E3). split_and!; try done; [congruence|lia|].
    intros Hne _. destruct (E3 Hc H0) as [E|?]; [|auto].
    rewrite E in Hne. destruct (Hp Hne eq_refl); [left; lia|auto].
Qed.

Lemma wake_inv_env s s' : wake_inv s -> env_step s s' -> wake_inv s'.
Proof.
  intros (Hc & H0 & Hq & Hp & Hqt) Hs. unfold wake_inv, notified in *.
  destruct Hs as [l c f w ps ss|l c w ps ss|l c w ps ss]; cbn in *.
  - split_and!; auto; intros; right; lia.
  - split_and!; auto; intros; right; lia.
  - pose proof (Wakeup_pos l H0) as Hpos. cbn in Hpos. split_and!; auto. lia.
Qed.

Lemma reachable_wake_inv s : reachable s -> wake_inv s.
Proof.
  apply reachable_ind_inv; [|apply wake_inv_loop|apply wake_inv_env].
  intros _ [acts Ha]. apply Hbefore in Ha as ->. by split_and!.
Qed.

End Facts.

(** ** Quitting *)
Section Quit.
Context {F : Type} (body : F -> list (act F)) (may_timer : list (act F) -> Prop).
Abbreviation loop_step := (loop_step body may_timer).

(** One step of the loop's thread after any steps of the others. *)
Definition turn (s' s : sys F) : Prop := exists s1, rtc env_step s s1 /\ loop_step s1 s'.

Definition quitting (s : sys F) : Prop :=
  quit_ (loop s) = true /\ match at_ s with PBefore _ => False | _ => True end.

Lemma env_same (s s' : sys F) : rtc env_step s s' ->
  at_ s' = at_ s /\ (quit_ (loop s) = true -> quit_ (loop s') = true).
Proof.
  induction 1 as [|s s1 s' Hs _ [IH1 IH2]]; [done|].
  rewrite IH1. destruct Hs; cbn in *; split; try done; auto.
Qed.

Lemma do_act_quit a (l : EventLoop.t F) : quit_ l = true -> quit_ (do_act a l) = true.
Proof. destruct a; cbn; [|done]. unfold QueueInLoop. by destruct (queue_wakes _ _). Qed.

(** The turns a quitting loop can take from a position are well founded when
    those from every position it can move to are. *)
Lemma turn_acc c :
  (forall l w ps ss s', quit_ l = true -> loop_step (mk_sys l c w ps ss) s' -> Acc turn s') ->
  forall s, quit_ (loop s) = true -> at_ s = c -> Acc turn s.
Proof.
  intros H s Hq Hc. constructor. intros s' (s1 & He & Hs).
  apply env_same in He as [E1 E2]. destruct s1 as [l c1 w ps ss]. cbn in *. subst c1.
  rewrite Hc in Hs. eapply H; [|exact Hs]. auto.
Qed.

(** Opens one turn from a known position. *)
Ltac turn :=
  match goal with |- forall _, _ -> _ -> Acc _ _ => idtac end;
  eapply turn_acc; intros ????? ? Hstep; inversion Hstep; clear Hstep; subst; try congruence.

Lemma acc_done : forall s : sys F, quit_ (loop s) = true -> at_ s = PDone -> Acc turn s.
Proof. turn. Qed.

Lemma acc_test : forall s : sys F, quit_ (loop s) = true -> at_ s = PTest -> Acc turn s.
Proof. turn. by apply acc_done. Qed.

Lemma acc_unflag : forall s : sys F, quit_ (loop s) = true -> at_ s = PUnflag -> Acc turn s.
Proof. turn. by apply acc_test. Qed.

Lemma acc_run fs acts : forall s : sys F, quit_ (loop s) = true -> at_ s = PRun acts fs -> Acc turn s.
Proof.
  revert acts. induction fs as [|f fs IHf]; induction acts as [|a acts IHa]; turn.
  - by apply acc_unflag.
  - apply IHa; [by apply do_act_quit|done].
  - by eapply IHf.
  - apply IHa; [by apply do_act_quit|done].
Qed.

Lemma acc_swap : forall s : sys F, quit_ (loop s) = true -> at_ s = PSwap -> Acc turn s.
Proof. turn. by eapply acc_run. Qed.

Lemma acc_flag : forall s : sys F, quit_ (loop s) = true -> at_ s = PFlag -> Acc turn s.
Proof. turn. by apply acc_swap. Qed.

Lemma acc_io evs acts : forall s : sys F, quit_ (loop s) = true -> at_ s = PIo acts evs -> Acc turn s.
Proof.
  revert acts. induction evs as [|e evs IHe]; induction acts as [|a acts IHa]; turn.
  - by apply acc_flag.
  - apply IHa; [by apply do_act_quit|done].
  - by eapply IHe.
  - by eapply IHe.
  - apply IHa; [by apply do_act_quit|done].
Qed.

Lemma acc_poll : forall s : sys F, quit_ (loop s) = true -> at_ s = PPoll -> Acc turn s.
Proof. turn. by eapply acc_io. Qed.

Lemma acc_timer acts : forall s : sys F, quit_ (loop s) = true -> at_ s = PTimer acts -> Acc turn s.
Proof.
  induction acts as [|a acts IHa]; turn.
  - by apply acc_poll.
  - apply IHa; [by apply do_act_quit|done].
Qed.

Lemma quitting_acc s : quitting s -> Acc turn s.
Proof.
  intros [Hq Hc]. destruct (at_ s) eqn:E; [done|..];
    eauto using acc_test, acc_timer, acc_poll, acc_io, acc_flag, acc_swap, acc_run, acc_unflag, acc_done.
Qed.

(** A loop that has not returned can always take a step: only the poll waits. *)
Lemma loop_can_step (s : sys F) : (exists acts, may_timer acts) -> at_ s <> PDone ->
  exists s', loop_step s s'.
Proof.
  intros [acts Ht] Hd. destruct s as [l c w ps ss]. cbn in *.
  destruct c as [[|a acts']| |[|a acts']| |[|a acts'] [|[|es] evs]| | |[|a acts'] [|f fs]| |];
    try (eexists; econstructor; done).
  - destruct (quit_ l) eqn:E; eexists; [by apply step_test_stop|by eapply step_test_go].
  - exists (mk_sys l (PIo [] []) w ps ss). constructor. by intros ?%elem_of_nil.
  - done.
Qed.

End Quit.
End ThreadsFacts.

(** * Properties *)
Module EventLoopProps.
Import EventLoop Threads ThreadsFacts.

Section Threads.
Context {F : Type} (body : F -> list (act F)).
Context (may_before may_timer : list (act F) -> Prop).
Implicit Types (s : sys F).

(** C15: In every interleaving of the loop's thread with any other threads, the
    functors queued so far are those already started, those swapped out and those
    still pending, in the order they were queued: each is run at most once, in
    order, and none is lost while the loop turns. *)
Theorem functors_run_once_in_order s :
  reachable body may_before may_timer s ->
  posted s = started s ++ in_hand (at_ s) ++ pending_functors_ (loop s).
Proof. apply reachable_fifo. Qed.

(** C14: The loop's thread never waits in the poller with work nobody will announce:
    when it is there, the wakeup descriptor is not readable and no thread is
    between its push and its write, nothing is queued and nobody has quit it.
    This needs the code before [Loop()] and the timer callbacks to neither queue
    functors nor quit. *)
Theorem no_lost_wakeup s :
  (forall acts, may_before acts -> acts = []) ->
  (forall acts, may_timer acts -> acts = []) ->
  reachable body may_before may_timer s ->
  at_ s = PPoll -> wake_count (loop s) = 0 -> wakes s = 0%nat ->
  pending_functors_ (loop s) = [] /\ quit_ (loop s) = false.
Proof.
  intros Hb Ht Hr Hc H0 Hw.
  destruct (reachable_wake_inv body may_before may_timer Hb Ht s Hr) as (_ & _ & _ & Hp & Hq).
  unfold notified in *. rewrite Hc, H0, Hw in *. split.
  - destruct (pending_functors_ (loop s)); [done|].
    destruct (Hp ltac:(done) eq_refl); lia.
  - destruct (quit_ (loop s)); [|done]. destruct (Hq eq_refl eq_refl); lia.
Qed.

(** C33: Once [quit_] is set on a loop that has entered [Loop()], every sequence of
    turns of its thread is finite, whatever the other threads do and however many
    functors, events and timers are outstanding, and it can only stop by
    returning from [Loop()]. *)
Theorem quit_ends_loop s :
  quitting s -> (exists acts, may_timer acts) ->
  Acc (turn body may_timer) s /\
  forall s', rtc (flip (turn body may_timer)) s s' -> at_ s' <> PDone ->
    exists s'', turn body may_timer s'' s'.
Proof.
  intros Hq Ht. split; [by apply quitting_acc|]. intros s' _ Hd.
  destruct (loop_can_step body may_timer s' Ht Hd) as [s'' Hs]. exists s'', s'. done.
Qed.

End Threads.

(** One step of a concrete run by the constructor given; and the end of the run. *)
Tactic Notation "run" uconstr(c) := eapply rtc_l; [left; by eapply c|].
Tactic Notation "run_other" uconstr(c) := eapply rtc_l; [right; by eapply c|].
Ltac run_end := apply rtc_refl.

(** A functor queued by a timer callback, or by the loop's own thread before it
    enters [Loop()], is not announced: the calling flag is down and the caller is
    the loop's thread, so the loop goes on to wait in the poller with the functor
    pending and the wakeup descriptor silent. A [Quit] from a timer is held up the
    same way. *)
Theorem timer_work_not_announced {F} (body : F -> list (act F)) (f : F) :
  (exists s, reachable body (fun acts => acts = []) (fun _ => True) s /\ at_ s = PPoll /\
     wake_count (loop s) = 0 /\ wakes s = 0%nat /\ pending_functors_ (loop s) = [f]) /\
  (exists s, reachable body (fun acts => acts = []) (fun _ => True) s /\ at_ s = PPoll /\
     wake_count (loop s) = 0 /\ wakes s = 0%nat /\ quit_ (loop s) = true) /\
  (exists s, reachable body (fun _ => True) (fun acts => acts = []) s /\ at_ s = PPoll /\
     wake_count (loop s) = 0 /\ wakes s = 0%nat /\ pending_functors_ (loop s) = [f]).
Proof.
  split_and!; eexists; (split; [eexists; split|]).
  - by apply (init_intro _ []).
  - run step_enter. run (step_test_go body (fun _ => True) _ [AQueue f]). run step_timer.
    run step_poll. run_end.
  - done.
  - by apply (init_intro _ []).
  - run step_enter. run (step_test_go body (fun _ => True) _ [AQuit]). run step_timer.
    run step_poll. run_end.
  - done.
  - by apply (init_intro _ [AQueue f]).
  - run step_before. run step_enter. run step_test_go. run step_poll. run_end.
  - done.
Qed.

(** A [Quit] that another thread issues before the loop's thread has entered
    [Loop()] is overwritten there: the loop ends up waiting in the poller with
    [quit_] down and nothing left to wake it. *)
Theorem quit_before_loop_is_lost {F} (body : F -> list (act F)) :
  exists s1 s2 : sys F,
    init (fun acts => acts = []) s1 /\ at_ s1 = PBefore [] /\
    (exists s1', env_step s1 s1' /\ quit_ (loop s1') = true /\
       rtc (step body (fun acts => acts = [])) s1' s2) /\
    at_ s2 = PPoll /\ quit_ (loop s2) = false /\ wakes s2 = 0%nat /\ wake_count (loop s2) = 0.
Proof.
  eexists _, _. split; [by apply (init_intro _ [])|]. split; [done|]. split.
  { eexists. split; [apply env_quit|]. split; [done|].
    run_other env_wake. run step_enter. run step_test_go. run step_poll.
    run (step_polled body (fun acts => acts = []) _ [EWake]). run step_io_wake.
    run step_io_end. run step_flag. run step_swap. run step_run_end. run step_unflag.
    run step_test_go. run step_poll. run_end. }
  done.
Qed.

(** A functor that another thread queued before it called [Quit] need not run any more:
    a loop whose thread has swapped its queue for the last time returns from [Loop()] with
    the functor pending. *)
Lemma functor_before_quit_unrun {F} (body : F -> list (act F)) (f : F) :
  exists s, reachable body (fun acts => acts = []) (fun acts => acts = []) s /\ at_ s = PDone /\
    posted s = [f] /\ started s = [] /\ pending_functors_ (loop s) = [f].
Proof.
  eexists. split; [eexists; split|].
  - by apply (init_intro _ []).
  - run step_enter. run_other (env_queue _ _ f). run_other env_wake. run_other env_quit. run_other env_wake.
    run step_test_stop. run_end.
  - done.
Qed.

(** The timeout handed to the poller is 10 s without timers and the time to the
    earliest expiry when that is ahead; a timer that expired between the check and
    the computation gives a negative timeout, on which poll and epoll_wait wait
    without limit, or the 10 s of an empty queue when it is exactly 1 ms late. *)
Theorem poll_timeout_spec {CB} now1 now2 (tm : TimerManager.t CB) :
  TimerManager.inv tm -> 0 <= now1 <= now2 -> now2 < 2 ^ 63 ->
  (forall p x, TimerManager.objects tm !! p = Some x -> 0 <= Timer.expired_time_ x < 2 ^ 63) ->
  (TimerManager.timers_que_ tm = [] /\ poll_timeout now1 now2 tm = Ok kPollTimeMs) \/
  exists p x, TimerManager.objects tm !! p = Some x /\
    (forall q y, TimerManager.objects tm !! q = Some y ->
       Timer.expired_time_ x <= Timer.expired_time_ y) /\
    let d := Timer.expired_time_ x in
    poll_timeout now1 now2 tm = Ok (if d =? now1 - 1 then kPollTimeMs else i32 (d - now2)) /\
    (now2 <= d < now2 + 2 ^ 31 -> poll_timeout now1 now2 tm = Ok (d - now2)) /\
    (now2 - 2 ^ 31 <= d < now2 -> d <> now1 - 1 ->
       exists ms, poll_timeout now1 now2 tm = Ok ms /\ ms < 0).
Proof.
  intros Hi Hn1 Hn2 He.
  assert (forall p x, TimerManager.objects tm !! p = Some x -> 0 <= Timer.expired_time_ x < 2 ^ 64)
    as He' by (intros p x Hx; specialize (He p x Hx); lia).
  destruct (TimerFacts.recent_law now1 tm Hi ltac:(lia) He') as [[E H1]|(p & x & Hx & Hmin & H1)].
  { left. split; [done|]. unfold poll_timeout. by rewrite H1. }
  right. exists p, x. split_and!; [done|done|]. cbv zeta.
  specialize (He p x Hx). set (d := Timer.expired_time_ x) in *.
  assert (poll_timeout now1 now2 tm =
    Ok (if d =? now1 - 1 then kPollTimeMs else i32 (d - now2))) as Heq.
  { unfold poll_timeout. rewrite H1. cbn -[Z.pow].
    rewrite (TimerFacts.recent_value now2 tm p x) by (done || lia). fold d.
    change (u64 (-1)) with (2 ^ 64 - 1).
    destruct (Z.eqb_spec d (now1 - 1)) as [Ed|Ed].
    - rewrite (proj2 (Z.leb_gt now1 d)) by lia. by replace (now1 - d) with 1 by lia.
    - destruct (Z.eqb_spec (if now1 <=? d then d - now1 else 2 ^ 64 - (now1 - d)) (2 ^ 64 - 1))
        as [E|_]; [|by cbn; rewrite i32_u64].
      destruct (Z.leb_spec now1 d); lia. }
  split_and!; [done|..]; rewrite Heq; intros Hd.
  - destruct (Z.eqb_spec d (now1 - 1)); [lia|]. rewrite i32_small; [done|lia].
  - intros Hne. destruct (Z.eqb_spec d (now1 - 1)); [done|].
    eexists. split; [done|]. rewrite i32_small; lia.
Qed.

Section Lifecycle.
Context {CB OBJ P : Type} `{!Poller P, !PollerLaws (CB := CB) (OBJ := OBJ) P}.
Implicit Types (cs : gmap ptr (Channel.t CB OBJ)) (p : P).

(** With any poller, constructing a loop makes the kernel watch its wakeup
    descriptor for reading and nothing else, a second loop in the same thread
    aborts, and destroying the loop ends the watch and leaves no channel behind. *)
Theorem loop_lifecycle cs p self c fd (handle_read : CB) :
  poller_inv cs p -> cs !! c = None -> usable p c (Channel.create fd) ->
  (forall other, construct (Some other) self c fd handle_read cs p = Err Aborted) /\
  exists cs1 p1 cs2 p2,
    construct None self c fd handle_read cs p = Ok (Some self, cs1, p1) /\
    poller_inv cs1 p1 /\ interest p1 fd = Channel.kReadEvent /\
    (forall fd', fd' <> fd -> interest p1 fd' = interest p fd') /\
    destruct_ c cs1 p1 = Ok (None, cs2, p2) /\
    poller_inv cs2 p2 /\ cs2 !! c = None /\ interest p2 fd = 0 /\
    (forall fd', fd' <> fd -> interest p2 fd' = interest p fd').
Proof.
  intros Hi Hc Hu. split; [done|].
  set (ch := Channel.SetCallbacks (Some handle_read) None None None (Channel.create fd)
    : Channel.t CB OBJ).
  assert (poller_inv (<[c := ch]> cs) p) as Hi0.
  { rewrite <- (insert_insert_eq cs c _ (Channel.create fd)).
    eapply touch_law; [by apply new_law|apply lookup_insert_eq|done..]. }
  destruct (LoopChannelFacts.change_events_law Channel.enable_read (<[c := ch]> cs) p c ch) as
    (cs1 & p1 & ch1 & E1 & Hi1 & Hs1 & Hc1 & Hb1 & Hm1 & Hint1 & Hoth1);
    [done|apply lookup_insert_eq|by eapply usable_ext; [..|exact Hu]|done|].
  destruct (LoopChannelFacts.disable_remove_law cs1 p1 c ch1 Hi1 Hc1 Hm1) as
    (cs1' & p1' & cs2 & p2 & E2 & E3 & Hi2 & _ & Hint2 & Hoth2).
  rewrite <- (ChannelFacts.fd_proper _ _ Hb1) in Hint2, Hoth2.
  exists cs1, p1, (delete c cs2), p2. unfold construct, destruct_, LoopChannel.EnableRead.
  fold ch.
  destruct Hoth1 as (_ & _ & Hoth1).
  rewrite E1, E2. cbn. rewrite E3. split_and!; try done.
  - apply lookup_delete_eq.
  - intros fd' Hfd. by rewrite Hoth2, (Hoth1 fd' Hfd).
Qed.
End Lifecycle.

(** ** Witnesses *)

(** One functor queued by another thread, run by the loop. *)
Lemma functors_run_once_in_order_witness :
  exists s : sys nat, posted s = [7%nat] /\ started s = [7%nat] /\
    posted s = started s ++ in_hand (at_ s) ++ pending_functors_ (loop s).
Proof.
  assert (exists s, reachable (fun _ : nat => []) (fun acts => acts = []) (fun acts => acts = []) s /\
    posted s = [7%nat] /\ started s = [7%nat]) as (s & Hr & Hp & Hs).
  { eexists. split; [eexists; split; [by apply (init_intro _ [])|]|].
    - run step_enter. run step_test_go. run step_poll.
      run_other (env_queue _ _ 7%nat). run_other env_wake.
      run (step_polled _ _ _ [EWake]). run step_io_wake. run step_io_end. run step_flag.
      run step_swap. run step_run_next. run_end.
    - done. }
  exists s. split_and!; [done..|].
  by apply (functors_run_once_in_order (fun _ => []) (fun acts => acts = []) (fun acts => acts = [])).
Defined.

Lemma no_lost_wakeup_witness :
  exists s : sys nat, at_ s = PPoll /\ pending_functors_ (loop s) = [] /\ quit_ (loop s) = false.
Proof.
  assert (exists s, reachable (fun _ : nat => []) (fun acts => acts = []) (fun acts => acts = []) s /\
    at_ s = PPoll /\ wake_count (loop s) = 0 /\ wakes s = 0%nat) as (s & Hr & Hc & H0 & Hw).
  { eexists. split; [eexists; split; [by apply (init_intro _ [])|]|].
    - run step_enter. run step_test_go. run step_poll.
      run_other (env_queue _ _ 7%nat). run_other env_wake.
      run (step_polled _ _ _ [EWake]). run step_io_wake. run step_io_end. run step_flag.
      run step_swap. run step_run_next. run step_run_end. run step_unflag. run step_test_go.
      run step_poll. run_end.
    - done. }
  exists s. split; [done|].
  apply (no_lost_wakeup (fun _ => []) (fun acts => acts = []) (fun acts => acts = [])); done.
Defined.

Lemma quit_ends_loop_witness :
  Acc (turn (fun f : nat => [AQueue f]) (fun _ => True))
    (mk_sys (set_quit true create) PPoll 1 [] []).
Proof.
  apply (quit_ends_loop (fun f : nat => [AQueue f]) (fun _ => True)); [done|by exists []].
Defined.

(** A timer due at 10 and the timeouts computed at 4, and at 8 and 12. *)
Lemma poll_timeout_spec_witness :
  let tm := match TimerProps.add 0 0 10 tt TimerManager.create with Ok tm => tm | Err _ => TimerManager.create end in
  poll_timeout 4 4 tm = Ok 6 /\ exists ms, poll_timeout 8 12 tm = Ok ms /\ ms < 0.
Proof.
  intros tm. assert (TimerManager.inv tm) as Hi.
  { unfold tm. destruct (TimerProps.add _ _ _ _ _) as [m|] eqn:E; [|apply TimerFacts.create_inv].
    eapply TimerProps.add_inv; [exact E|apply TimerFacts.create_inv]. }
  assert (forall p x, TimerManager.objects tm !! p = Some x -> Timer.expired_time_ x = 10) as He.
  { intros p x Hx. unfold tm in Hx. TimerProps.each_timer Hx. }
  assert (forall p x, TimerManager.objects tm !! p = Some x -> 0 <= Timer.expired_time_ x < 2 ^ 63)
    as He' by (intros p x Hx; rewrite (He p x Hx); lia).
  split.
  - destruct (poll_timeout_spec 4 4 tm) as [[? _]|(p & x & Hx & _ & H)]; [done|lia|lia|done|done|].
    cbv zeta in H. destruct H as (_ & H & _). rewrite (He p x Hx) in H. apply H. lia.
  - destruct (poll_timeout_spec 8 12 tm) as [[? _]|(p & x & Hx & _ & H)]; [done|lia|lia|done|done|].
    cbv zeta in H. destruct H as (_ & _ & H). rewrite (He p x Hx) in H. apply H; lia.
Defined.

(** The lifecycle over the poll(2) poller. *)
Import PollFacts.

Lemma loop_lifecycle_witness :
  exists cs p, construct (CB := unit) (OBJ := unit) (P := PollPoller.t) None 1%positive 2%positive 9 tt
      ∅ PollPoller.create = Ok (Some 1%positive, cs, p) /\
    interest (CB := unit) (OBJ := unit) p 9 = Channel.kReadEvent.
Proof.
  destruct (loop_lifecycle (CB := unit) (OBJ := unit) ∅ PollPoller.create
    1%positive 2%positive 9 tt) as [_ (cs & p & _ & _ & Hc & _ & Hi & _)];
    [|apply lookup_empty| |eauto].
  - split_and!; [done|by intros i e|]. intros c ch. by rewrite lookup_empty.
  - right. split_and!; [done|by apply not_elem_of_nil|done].
Defined.

End EventLoopProps.
