(* ===== verification/TcpConnection.v ===== *)
(** One TCP connection (include/tcp_connection.h, src/tcp_connection.cc) in its
    loop's thread: the state machine, the two buffers, the channel it keeps in the
    loop's poller, the socket it writes to, and the functors it leaves in the
    loop's queue. The poller is any implementation of the interface of Poller.v;
    the kernel's answers and the user's callbacks are parameters. *)
From Stdlib Require Import ZArith Lia Ascii.
From stdpp Require Import base gmap list option strings.
From S2P Require Import Prelude Buffer Channel Poller PollPoller EventLoop.

Local Open Scope Z_scope.

Module TcpConnection.

(** What the connection's channel is told to run. *)
Inductive handler := HRead | HWrite | HClose | HError.

Inductive state := kConnecting | kConnected | kDisconnecting | kDisconnected.

#[export] Instance state_eq_dec : EqDecision state.
Proof. solve_decision. Defined.

Definition EWOULDBLOCK : Z := 11.
Definition EPIPE : Z := 32.
Definition ECONNRESET : Z := 104.

Section TcpConnection.
(** The user's callbacks, by name. *)
Context {UCB : Type}.

(** The object; of its [socket_] there is here the value last given to the TCP_NODELAY
    option, which is off at first (Descriptors.v has the descriptor). *)
Record t := mk {
  state_ : state;
  name_ : bytes;
  channel_ : ptr;
  input_buffer_ : Buffer.t;
  output_buffer_ : Buffer.t;
  connection_callback_ : option UCB;
  message_callback_ : option UCB;
  write_complete_callback_ : option UCB;
  close_callback_ : option UCB;
  no_delay_ : bool;
}.

Definition SetState (s : state) (c : t) : t :=
  mk s (name_ c) (channel_ c) (input_buffer_ c) (output_buffer_ c) (connection_callback_ c)
    (message_callback_ c) (write_complete_callback_ c) (close_callback_ c) (no_delay_ c).
Definition set_input (b : Buffer.t) (c : t) : t :=
  mk (state_ c) (name_ c) (channel_ c) b (output_buffer_ c) (connection_callback_ c)
    (message_callback_ c) (write_complete_callback_ c) (close_callback_ c) (no_delay_ c).
Definition set_output (b : Buffer.t) (c : t) : t :=
  mk (state_ c) (name_ c) (channel_ c) (input_buffer_ c) b (connection_callback_ c)
    (message_callback_ c) (write_complete_callback_ c) (close_callback_ c) (no_delay_ c).

(** The callbacks are given after the construction; a [std::function] may be empty. *)
Definition SetConnectionCallback (cb : option UCB) (c : t) : t :=
  mk (state_ c) (name_ c) (channel_ c) (input_buffer_ c) (output_buffer_ c) cb
    (message_callback_ c) (write_complete_callback_ c) (close_callback_ c) (no_delay_ c).
Definition SetMessageCallback (cb : option UCB) (c : t) : t :=
  mk (state_ c) (name_ c) (channel_ c) (input_buffer_ c) (output_buffer_ c) (connection_callback_ c)
    cb (write_complete_callback_ c) (close_callback_ c) (no_delay_ c).
Definition SetWriteCompleteCallback (cb : option UCB) (c : t) : t :=
  mk (state_ c) (name_ c) (channel_ c) (input_buffer_ c) (output_buffer_ c) (connection_callback_ c)
    (message_callback_ c) cb (close_callback_ c) (no_delay_ c).
Definition SetCloseCallback (cb : option UCB) (c : t) : t :=
  mk (state_ c) (name_ c) (channel_ c) (input_buffer_ c) (output_buffer_ c) (connection_callback_ c)
    (message_callback_ c) (write_complete_callback_ c) cb (no_delay_ c).

(** [socket_->SetTcpNoDelay(on)]. *)
Definition set_no_delay (on : bool) (c : t) : t :=
  mk (state_ c) (name_ c) (channel_ c) (input_buffer_ c) (output_buffer_ c) (connection_callback_ c)
    (message_callback_ c) (write_complete_callback_ c) (close_callback_ c) on.

Definition Connected (c : t) : bool := bool_decide (state_ c = kConnected).

(** The functors a connection hands to [RunInLoop] and [QueueInLoop]. A [SendInLoop]
    is bound to the caller's pointer and length, not to the bytes. *)
Inductive task :=
  | TSendInLoop (data : ptr) (len : Z)
  | TShutdownInLoop
  | TWriteComplete (f : UCB).

Context {P : Type}.

(** What the connection's code reads and changes: itself, the channels and poller
    of its loop, its socket (the bytes the kernel took from it, and whether its
    write side is shut down), the loop's queue, the memory its callers' data lives in,
    and the callbacks by which it handed work to other loops. *)
Record W := mkW {
  conn : t;
  chans : gmap ptr (Channel.t handler unit);
  poller : P;
  sent : bytes;
  wr_shut : bool;
  queued : list task;
  mem : gmap ptr bytes;
  posted : list UCB;
}.

Definition with_conn (f : t -> t) (w : W) : W :=
  mkW (f (conn w)) (chans w) (poller w) (sent w) (wr_shut w) (queued w) (mem w) (posted w).
Definition set_poll (cs : gmap ptr (Channel.t handler unit)) (p : P) (w : W) : W :=
  mkW (conn w) cs p (sent w) (wr_shut w) (queued w) (mem w) (posted w).
Definition add_sent (d : bytes) (w : W) : W :=
  mkW (conn w) (chans w) (poller w) (sent w ++ d) (wr_shut w) (queued w) (mem w) (posted w).
Definition set_shut (w : W) : W :=
  mkW (conn w) (chans w) (poller w) (sent w) true (queued w) (mem w) (posted w).
Definition enqueue (k : task) (w : W) : W :=
  mkW (conn w) (chans w) (poller w) (sent w) (wr_shut w) (queued w ++ [k]) (mem w) (posted w).
Definition set_mem (m : gmap ptr bytes) (w : W) : W :=
  mkW (conn w) (chans w) (poller w) (sent w) (wr_shut w) (queued w) m (posted w).

Definition post (f : UCB) (w : W) : W :=
  mkW (conn w) (chans w) (poller w) (sent w) (wr_shut w) (queued w) (mem w) (posted w ++ [f]).

(** [SetTcpNoDelay] *)
Definition SetTcpNoDelay (on : bool) (w : W) : W := with_conn (set_no_delay on) w.

(** The channel, which lives as long as the connection. *)
Definition channel (w : W) : result (Channel.t handler unit) :=
  match chans w !! channel_ (conn w) with
  | Some ch => Ok ch
  | None => Err (UB UseAfterFree)
  end.

Context `{!Poller (CB := handler) (OBJ := unit) P}.

(** A channel operation on the connection's channel. *)
Definition on_channel
    (op : ptr -> gmap ptr (Channel.t handler unit) -> P ->
          result (gmap ptr (Channel.t handler unit) * P)) (w : W) : result W :=
  '(cs, p) ← op (channel_ (conn w)) (chans w) (poller w);
  Ok (set_poll cs p w).

(** The constructor, on the address [c] of the new channel. *)
Definition construct (c : ptr) (fd : Z) (name : bytes) (w_cs : gmap ptr (Channel.t handler unit)) (p : P) :
    result W :=
  inb ← Buffer.create Buffer.kInitialSize;
  outb ← Buffer.create Buffer.kInitialSize;
  let ch := Channel.SetCallbacks (Some HRead) (Some HWrite) (Some HClose) (Some HError)
    (Channel.create fd) in
  Ok (mkW (mk kConnecting name c inb outb None None None None false)
    (<[c := ch]> w_cs) p [] false [] ∅ []).

(** What a user callback does. *)
Context (user : UCB -> W -> result W).

(** Calling a [std::function]: an empty one throws. *)
Definition call (f : option UCB) (w : W) : result W :=
  match f with
  | Some f => user f w
  | None => Err BadFunctionCall
  end.

(** The errors after which the data is given up. *)
Definition fault_error (errno : Z) : bool :=
  negb (errno =? EWOULDBLOCK) && ((errno =? EPIPE) || (errno =? ECONNRESET)).

(** The last block of [SendInLoop]: what was not written is buffered, and the
    channel asked to report writability. *)
Definition append_rest (rest : bytes) (w : W) : result W :=
  if 0 <? zlen rest then
    b ← Buffer.Append rest (output_buffer_ (conn w));
    let w := with_conn (set_output b) w in
    ch ← channel w;
    if negb (Channel.IsWriting ch) then on_channel LoopChannel.EnableWrite w else Ok w
  else Ok w.

(** [SendInLoop]; [wr] is the kernel's [write] on the socket. *)
Definition SendInLoop (wr : bytes -> Buffer.write_result) (data : bytes) (w : W) : result W :=
  if bool_decide (state_ (conn w) = kDisconnected) then Ok w
  else
    ch ← channel w;
    if negb (Channel.IsWriting ch) && (Buffer.ReadableBytes (output_buffer_ (conn w)) =? 0) then
      match wr data with
      | Buffer.Wrote nwrote =>
          let w := add_sent (ztake nwrote data) w in
          if zlen data - nwrote =? 0 then
            match write_complete_callback_ (conn w) with
            | Some f => user f w
            | None => Ok w
            end
          else append_rest (zdrop nwrote data) w
      | Buffer.WriteErr errno => if fault_error errno then Ok w else append_rest data w
      end
    else append_rest data w.

(** [SendInLoop(const void* data, size_t len)] on a pointer into the caller's
    memory, which is read unless the connection is down or there is nothing to read. *)
Definition send_from (wr : bytes -> Buffer.write_result) (data : ptr) (len : Z) (w : W) : result W :=
  if bool_decide (state_ (conn w) = kDisconnected) || (u64 len =? 0) then SendInLoop wr [] w
  else
    match mem w !! data with
    | None => Err (UB UseAfterFree)
    | Some d => if zlen d <? u64 len then Err (UB OutOfBounds) else SendInLoop wr (ztake (u64 len) d) w
    end.

(** [Send(const std::string&)] and [Send(const char*, int)]: from another thread the
    pointer is queued. *)
Definition Send (in_loop : bool) (wr : bytes -> Buffer.write_result) (data : ptr) (len : Z) (w : W) :
    result W :=
  if bool_decide (state_ (conn w) = kConnected) then
    if in_loop then send_from wr data len w
    else Ok (enqueue (TSendInLoop data len) w)
  else Ok w.

(** [Send(Buffer* buffer)], the buffer being read and written through [get] and
    [put] because it may be the connection's own input buffer. From another thread
    the bytes go to a temporary string at the fresh address [tmp], which is
    destroyed when the call returns. *)
Definition SendBuffer (in_loop : bool) (wr : bytes -> Buffer.write_result)
    (get : W -> Buffer.t) (put : Buffer.t -> W -> W) (tmp : ptr) (w : W) : result W :=
  if bool_decide (state_ (conn w) = kConnected) then
    if in_loop then
      w ← SendInLoop wr (Buffer.content (get w)) w;
      Ok (put (Buffer.RetriveAll (get w)) w)
    else
      let len := Buffer.ReadableBytes (get w) in
      '(s, b) ← Buffer.RetriveAllAsString (get w);
      let w := put b w in
      let w := set_mem (<[tmp := s]> (mem w)) w in
      let w := enqueue (TSendInLoop tmp len) w in
      Ok (set_mem (delete tmp (mem w)) w)
  else Ok w.

Definition ShutdownInLoop (w : W) : result W :=
  ch ← channel w;
  if negb (Channel.IsWriting ch) then Ok (set_shut w) else Ok w.

Definition ShutDown (in_loop : bool) (w : W) : result W :=
  if bool_decide (state_ (conn w) = kConnected) then
    let w := with_conn (SetState kDisconnecting) w in
    if in_loop then ShutdownInLoop w else Ok (enqueue TShutdownInLoop w)
  else Ok w.

Definition ConnectionEstablished (w : W) : result W :=
  let w := with_conn (SetState kConnected) w in
  ch ← channel w;
  let w := set_poll (<[channel_ (conn w) := Channel.Tie tt ch]> (chans w)) (poller w) w in
  w ← on_channel LoopChannel.EnableRead w;
  call (connection_callback_ (conn w)) w.

Definition ConnectionDestroyed (w : W) : result W :=
  w ← (if bool_decide (state_ (conn w) = kConnected) then
         let w := with_conn (SetState kDisconnected) w in
         w ← on_channel LoopChannel.DisableAll w;
         call (connection_callback_ (conn w)) w
       else Ok w);
  on_channel LoopChannel.Remove w.

Definition HandleClose (w : W) : result W :=
  let w := with_conn (SetState kDisconnected) w in
  w ← on_channel LoopChannel.DisableAll w;
  w ← call (connection_callback_ (conn w)) w;
  call (close_callback_ (conn w)) w.

(** [HandleError] asks the socket for its error and logs it. *)
Definition HandleError (w : W) : result W := Ok w.

Definition HandleRead (readv : Z -> Buffer.read_result) (w : W) : result W :=
  '(n, _, b) ← Buffer.ReadFd readv (input_buffer_ (conn w));
  let w := with_conn (set_input b) w in
  if 0 <? n then call (message_callback_ (conn w)) w
  else if n =? 0 then HandleClose w
  else HandleError w.

Definition HandleWrite (wr : bytes -> Buffer.write_result) (w : W) : result W :=
  ch ← channel w;
  if Channel.IsWriting ch then
    let '(n, _) := Buffer.WriteFd wr (output_buffer_ (conn w)) in
    if 0 <? n then
      let w := add_sent (ztake n (Buffer.content (output_buffer_ (conn w)))) w in
      let w := with_conn (set_output (Buffer.Retrive n (output_buffer_ (conn w)))) w in
      if Buffer.ReadableBytes (output_buffer_ (conn w)) =? 0 then
        w ← on_channel LoopChannel.DisableWrite w;
        let w := match write_complete_callback_ (conn w) with
                 | Some f => enqueue (TWriteComplete f) w
                 | None => w
                 end in
        if bool_decide (state_ (conn w) = kDisconnecting) then ShutdownInLoop w else Ok w
      else Ok w
    else Ok w
  else Ok w.

(** A functor taken from the loop's queue. *)
Definition run_task (wr : bytes -> Buffer.write_result) (k : task) (w : W) : result W :=
  match k with
  | TSendInLoop data len => send_from wr data len w
  | TShutdownInLoop => ShutdownInLoop w
  | TWriteComplete f => user f w
  end.

End TcpConnection.
Arguments t : clear implicits.
Arguments task : clear implicits.
Arguments W : clear implicits.
End TcpConnection.

(** * Lemmas *)
Module TcpConnectionFacts.
Import TcpConnection.

Section Facts.
Context {UCB P : Type} `{!Poller P, !PollerLaws (CB := handler) (OBJ := unit) P}.
Context (user : UCB -> W UCB P -> result (W UCB P)).
Implicit Types (w : W UCB P) (ch : Channel.t handler unit).

(** What is to be sent and has not been taken by the kernel yet. *)
Definition unsent w : bytes := Buffer.content (output_buffer_ (conn w)).

(** Everything accepted for sending so far: the peer will read this sequence. *)
Definition stream w : bytes := sent w ++ unsent w.

(** The poller manages the connection's channel, and the kernel watches the
    descriptor for exactly the channel's mask. *)
Definition linked w ch : Prop :=
  poller_inv (chans w) (poller w) /\ chans w !! channel_ (conn w) = Some ch /\
  managed (poller w) (channel_ (conn w)) ch /\ 0 <= Channel.events_ ch /\
  interest (CB := handler) (OBJ := unit) (poller w) (Channel.fd_ ch) = Channel.events_ ch.

(** Writability is asked for exactly while there is something to send. *)
Definition writing_ok w ch : Prop :=
  Channel.IsWriting ch = bool_decide (state_ (conn w) <> kDisconnected /\ unsent w <> []).

Definition callbacks_set (c : t UCB) : Prop :=
  is_Some (connection_callback_ c) /\ is_Some (message_callback_ c) /\ is_Some (close_callback_ c).

Definition inv w : Prop :=
  Buffer.wf (input_buffer_ (conn w)) /\ Buffer.wf (output_buffer_ (conn w)) /\
  callbacks_set (conn w) /\
  (wr_shut w = true -> state_ (conn w) <> kDisconnected -> unsent w = []) /\
  exists ch, linked w ch /\ writing_ok w ch.

(** What write(2) promises: it takes a prefix, and fails with EPIPE once the write
    side is shut down. *)
Definition takes_prefix (wr : bytes -> Buffer.write_result) : Prop :=
  forall d n, wr d = Buffer.Wrote n -> 0 <= n <= zlen d.
Definition kernel_write w (wr : bytes -> Buffer.write_result) : Prop :=
  takes_prefix wr /\
  (wr_shut w = true -> forall d, d <> [] -> wr d = Buffer.WriteErr EPIPE).

(** The output buffer can take [n] more bytes without exceeding the vector's limit. *)
Definition room w (n : Z) : Prop :=
  Buffer.write_index_ (output_buffer_ (conn w)) + n <= Vec.max_size.

(** The connection's descriptor. *)
Definition fd_of w : Z := default (-1) (Channel.fd_ <$> chans w !! channel_ (conn w)).

Definition wiring_of w := ChannelFacts.wiring <$> chans w !! channel_ (conn w).

Lemma wiring_fd w w' : wiring_of w' = wiring_of w -> fd_of w' = fd_of w.
Proof.
  unfold wiring_of, fd_of. destruct (chans w !! _), (chans w' !! _); try done.
  by intros [= H _ _ _ _ _].
Qed.

(** What the connection's own operations leave alone: its channel's address and
    wiring, its callbacks, and everything else in its loop; all it queues there are
    write-complete callbacks. *)
Definition frame w w' : Prop :=
  channel_ (conn w') = channel_ (conn w) /\ wiring_of w' = wiring_of w /\
  connection_callback_ (conn w') = connection_callback_ (conn w) /\
  message_callback_ (conn w') = message_callback_ (conn w) /\
  write_complete_callback_ (conn w') = write_complete_callback_ (conn w) /\
  close_callback_ (conn w') = close_callback_ (conn w) /\
  (exists fs, queued w' = queued w ++ (TWriteComplete <$> fs) /\
     Forall (fun f => write_complete_callback_ (conn w) = Some f) fs) /\
  posted w' = posted w /\
  others (channel_ (conn w)) (fd_of w) (chans w) (poller w) (chans w') (poller w').

(** Steps that change neither the channels nor the poller. *)
Definition same_callbacks (c c' : t UCB) : Prop :=
  channel_ c' = channel_ c /\ connection_callback_ c' = connection_callback_ c /\
  message_callback_ c' = message_callback_ c /\
  write_complete_callback_ c' = write_complete_callback_ c /\ close_callback_ c' = close_callback_ c.

Lemma frame_local fs w w' : same_callbacks (conn w) (conn w') -> chans w' = chans w ->
  poller w' = poller w -> queued w' = queued w ++ (TWriteComplete <$> fs) ->
  Forall (fun f => write_complete_callback_ (conn w) = Some f) fs ->
  posted w' = posted w -> frame w w'.
Proof.
  intros (Hc & H1 & H2 & H3 & H4) Hcs Hp Hq Hfs Hpo. unfold frame, fd_of, wiring_of. rewrite Hc, Hcs, Hp.
  split_and!; try done; [by exists fs|]. apply others_refl.
Qed.

Lemma frame_with_conn f w : same_callbacks (conn w) (f (conn w)) -> frame w (with_conn f w).
Proof. intros. apply (frame_local []); try done. cbn. by rewrite app_nil_r. Qed.

Lemma frame_refl w : frame w w.
Proof. by apply (frame_with_conn id). Qed.

Lemma frame_trans w w1 w2 : frame w w1 -> frame w1 w2 -> frame w w2.
Proof.
  intros (Hc1 & Hf1 & A1 & A2 & A3 & A4 & (fs1 & Q1 & F1) & P1 & H1)
    (Hc2 & Hf2 & B1 & B2 & B3 & B4 & (fs2 & Q2 & F2) & P2 & H2).
  pose proof (wiring_fd _ _ Hf1) as Hfd. rewrite Hc1, Hfd in *.
  split_and!; try congruence; [|by eapply others_trans].
  exists (fs1 ++ fs2). rewrite Q2, Q1, fmap_app, app_assoc. split; [done|].
  apply Forall_app. split; [done|]. by rewrite A3 in F2.
Qed.

Lemma linked_fd w ch : linked w ch -> fd_of w = Channel.fd_ ch.
Proof. intros (_ & Hc & _). unfold fd_of. by rewrite Hc. Qed.

Lemma on_channel_law f w ch :
  linked w ch -> 0 <= f (Channel.events_ ch) ->
  exists cs p ch', on_channel (LoopChannel.change_events f) w = Ok (set_poll cs p w) /\
    linked (set_poll cs p w) ch' /\ Channel.events_ ch' = f (Channel.events_ ch) /\
    Channel.fd_ ch' = Channel.fd_ ch /\ frame w (set_poll cs p w).
Proof.
  intros (Hi & Hc & Hm & He & Hint) Hf.
  destruct (LoopChannelFacts.change_events_law f (chans w) (poller w) _ ch Hi Hc) as
    (cs & p & ch' & E & Hi' & _ & Hc' & Hb & Hm' & Hint' & Hoth); [by apply managed_usable|done|].
  exists cs, p, ch'. unfold on_channel. rewrite E. split; [done|].
  pose proof (ChannelFacts.events_proper _ _ Hb) as Hev.
  pose proof (ChannelFacts.fd_proper _ _ Hb) as Hfd. cbn in Hev, Hfd.
  assert (fd_of w = Channel.fd_ ch) as Hfw by (unfold fd_of; by rewrite Hc).
  split_and!; try done.
  - unfold linked. cbn. split_and!; try done; [by rewrite <- Hev|by rewrite <- Hfd, Hint'].
  - unfold frame. rewrite Hfw. split_and!; try done.
    + unfold wiring_of. cbn. rewrite Hc', Hc. cbn. f_equal.
      by rewrite <- (ChannelFacts.wiring_proper _ _ Hb).
    + exists []. cbn. by rewrite app_nil_r.
Qed.

Lemma linked_channel w ch : linked w ch -> channel w = Ok ch.
Proof. intros (_ & Hc & _). unfold channel. by rewrite Hc. Qed.

(** Changing the connection's own fields but its channel's address. *)
Lemma linked_conn f w ch :
  channel_ (f (conn w)) = channel_ (conn w) -> linked w ch -> linked (with_conn f w) ch.
Proof. intros E. unfold linked. cbn. by rewrite E. Qed.

Lemma enable_write_nonneg e : 0 <= e -> 0 <= Channel.enable_write e.
Proof. intros. apply Z.lor_nonneg. split; [done|]. discriminate. Qed.
Lemma disable_write_nonneg e : 0 <= e -> 0 <= Channel.disable_write e.
Proof. intros. apply Z.land_nonneg. by left. Qed.
Lemma enable_read_nonneg e : 0 <= e -> 0 <= Channel.enable_read e.
Proof. intros. apply Z.lor_nonneg. split; [done|]. discriminate. Qed.

Lemma append_rest_law rest w :
  inv w -> state_ (conn w) <> kDisconnected -> wr_shut w = false -> rest <> [] ->
  zlen rest <= Vec.max_size -> room w (zlen rest) ->
  exists cs p b, let w' := set_poll cs p (with_conn (set_output b) w) in
    append_rest rest w = Ok w' /\ inv w' /\ unsent w' = unsent w ++ rest /\ frame w w'.
Proof.
  intros (Hin & Hout & Hcb & Hsh & ch & Hl & Hw) Hst Hns Hne Hmax Hroom.
  destruct (BufferFacts.Append_ok rest (output_buffer_ (conn w))) as (b & Ha & Hwf & Hc & _);
    [done|done|by apply BufferProps.overflows_le|].
  pose proof (zlen_nonneg rest).
  assert (0 < zlen rest) as Hpos.
  { destruct (decide (zlen rest = 0)) as [?%zlen_nil_inv|]; [done|lia]. }
  assert (unsent (with_conn (set_output b) w) = unsent w ++ rest) as Hu by done.
  assert (unsent w ++ rest <> []) as Hu' by (intros [_ ?]%app_eq_nil; done).
  rewrite <- Hu in Hu'.
  apply (linked_conn (set_output b)) in Hl; [|done].
  assert (frame w (with_conn (set_output b) w)) as Hfr by (by apply frame_with_conn).
  unfold append_rest. destruct (Z.ltb_spec 0 (zlen rest)); [|lia]. rewrite Ha. cbn.
  rewrite (linked_channel _ _ Hl). cbn. destruct (Channel.IsWriting ch) eqn:Ew; cbn.
  - exists (chans w), (poller w), b. split; [done|]. split; [|done].
    split_and!; try done; [cbn; congruence|]. exists ch. split; [done|].
    unfold writing_ok. rewrite Ew. symmetry. apply bool_decide_eq_true. split; [done|exact Hu'].
  - destruct (on_channel_law Channel.enable_write _ ch Hl) as (cs & p & ch' & E & Hl' & Hev & _ & Hfr').
    { destruct Hl as (_ & _ & _ & ? & _). by apply enable_write_nonneg. }
    exists cs, p, b. split; [exact E|]. split; [|split; [done|exact (frame_trans _ _ _ Hfr Hfr')]].
    split_and!; try done; [cbn; congruence|]. exists ch'. split; [done|].
    unfold writing_ok, Channel.IsWriting. rewrite Hev. autorewrite with mask. symmetry.
    apply bool_decide_eq_true. split; [done|exact Hu'].
Qed.

(** ** Sending *)

(** Sending does not touch the input buffer either. *)
Definition sends w w' : Prop := frame w w' /\ input_buffer_ (conn w') = input_buffer_ (conn w).

Lemma sends_refl w : sends w w.
Proof. split; [apply frame_refl|done]. Qed.

(** What [SendInLoop] has done when it returns or calls the user. *)
Inductive send_outcome (wr : bytes -> Buffer.write_result) (data : bytes) w : Prop :=
  | send_taken w1 :
      SendInLoop user wr data w = Ok w1 -> inv w1 -> stream w1 = stream w ++ data ->
      state_ (conn w1) = state_ (conn w) -> sends w w1 -> send_outcome wr data w
  | send_complete f w1 :
      write_complete_callback_ (conn w) = Some f -> SendInLoop user wr data w = user f w1 ->
      inv w1 -> sent w1 = stream w ++ data -> unsent w1 = [] ->
      state_ (conn w1) = state_ (conn w) -> sends w w1 -> send_outcome wr data w
  | send_fault e :
      wr data = Buffer.WriteErr e -> fault_error e = true -> unsent w = [] ->
      SendInLoop user wr data w = Ok w -> send_outcome wr data w.

Lemma inv_add_sent d w : inv w -> inv (add_sent d w).
Proof. done. Qed.

Lemma append_rest_total rest w :
  inv w -> state_ (conn w) <> kDisconnected -> (rest = [] \/ wr_shut w = false) ->
  zlen rest <= Vec.max_size -> room w (zlen rest) ->
  exists w', append_rest rest w = Ok w' /\ inv w' /\ stream w' = stream w ++ rest /\
    state_ (conn w') = state_ (conn w) /\ sends w w'.
Proof.
  intros Hi Hst Hrest Hmax Hroom. unfold stream. destruct (decide (rest = [])) as [->|Hne].
  - exists w. unfold append_rest. change (zlen (@nil ascii)) with 0. cbn. rewrite app_nil_r.
    split_and!; try done. apply sends_refl.
  - destruct Hrest as [?|Hns]; [done|].
    destruct (append_rest_law rest w) as (cs & p & b & E & Hi' & Hu & Hf); try done.
    eexists. split; [exact E|]. split_and!; try done. rewrite Hu. apply app_assoc.
Qed.

Lemma SendInLoop_unfold wr data w ch :
  linked w ch -> state_ (conn w) <> kDisconnected -> Buffer.wf (output_buffer_ (conn w)) ->
  SendInLoop user wr data w =
    if negb (Channel.IsWriting ch) && (zlen (unsent w) =? 0)
    then match wr data with
      | Buffer.Wrote nwrote =>
          let w := add_sent (ztake nwrote data) w in
          if zlen data - nwrote =? 0 then
            match write_complete_callback_ (conn w) with Some f => user f w | None => Ok w end
          else append_rest (zdrop nwrote data) w
      | Buffer.WriteErr errno => if fault_error errno then Ok w else append_rest data w
      end
    else append_rest data w.
Proof.
  intros Hl Hst Hwf. unfold SendInLoop. rewrite bool_decide_eq_false_2 by done.
  rewrite (linked_channel _ _ Hl). unfold unsent. by rewrite <- BufferFacts.ReadableBytes_content.
Qed.

(** A connection whose write side is shut down is not waiting to write. *)
Lemma shut_not_writing w ch : inv w -> wr_shut w = true -> state_ (conn w) <> kDisconnected ->
  writing_ok w ch -> Channel.IsWriting ch = false /\ unsent w = [].
Proof.
  intros (_ & _ & _ & Hsh & _) Hs Hst Hw. specialize (Hsh Hs Hst). split; [|done].
  rewrite Hw. apply bool_decide_eq_false_2. by intros [_ ?].
Qed.

Lemma SendInLoop_law wr data w :
  inv w -> state_ (conn w) <> kDisconnected -> kernel_write w wr ->
  zlen data <= Vec.max_size -> room w (zlen data) ->
  send_outcome wr data w.
Proof.
  intros Hi Hst [Hk Hks] Hmax Hroom. pose proof (zlen_nonneg data).
  pose proof Hi as (Hin & Hout & Hcb & Hsh & ch & Hl & Hw).
  assert (forall d, frame w (add_sent d w)) as Hadd.
  { intros d. apply (frame_local []); try done. cbn. by rewrite app_nil_r. }
  pose proof (SendInLoop_unfold wr data w ch Hl Hst Hout) as Eq.
  destruct (negb (Channel.IsWriting ch) && (zlen (unsent w) =? 0)) eqn:Ec.
  - apply andb_true_iff in Ec as [_ Hu]. zb. apply zlen_nil_inv in Hu.
    destruct (wr data) as [n|e] eqn:Ewr.
    + specialize (Hk data n Ewr) as Hn. cbv zeta in Eq.
      destruct (Z.eqb_spec (zlen data - n) 0) as [E0|E0].
      * rewrite (ztake_all n data) in Eq by lia.
        assert (sent (add_sent data w) = stream w ++ data) as Hs.
        { unfold stream. cbn. by rewrite Hu, app_nil_r. }
        destruct (write_complete_callback_ (conn (add_sent data w))) as [f|] eqn:Ef.
        -- by eapply (send_complete _ _ _ f (add_sent data w)).
        -- eapply send_taken; [exact Eq|done| |done|split; [by apply Hadd|done]]. unfold stream at 1.
           change (unsent (add_sent data w)) with (unsent w). rewrite Hs, Hu. apply app_nil_r.
      * assert (wr_shut w = false) as Hns.
        { destruct (wr_shut w) eqn:E; [|done]. rewrite Hks in Ewr; [done|done|].
          intros ->. change (zlen (@nil ascii)) with 0 in *. lia. }
        destruct (append_rest_total (zdrop n data) (add_sent (ztake n data) w)) as
          (w' & Ea & Hi' & Hs' & Hst' & Hsd); try done; [by right|rewrite zlen_zdrop by lia..|].
        { lia. }
        { unfold room in *. cbn. lia. }
        rewrite Ea in Eq. eapply send_taken; [exact Eq|done| |done|].
        2:{ destruct Hsd. split; [|done]. eapply frame_trans; [by apply Hadd|done]. }
        rewrite Hs'. unfold stream. change (unsent (add_sent (ztake n data) w)) with (unsent w).
        cbn. by rewrite Hu, !app_nil_r, <- app_assoc, ztake_zdrop.
    + destruct (fault_error e) eqn:Ef; [by eapply send_fault|].
      destruct (append_rest_total data w) as (w' & Ea & Hi' & Hs' & Hst' & Hsd); try done.
      { destruct (wr_shut w) eqn:E; [|by right]. left.
        destruct (decide (data = [])) as [|Hd]; [done|].
        rewrite (Hks eq_refl data Hd) in Ewr. injection Ewr as <-. discriminate Ef. }
      rewrite Ea in Eq. by eapply send_taken.
  - destruct (append_rest_total data w) as (w' & Ea & Hi' & Hs' & Hst' & Hsd); try done.
    { right. destruct (wr_shut w) eqn:E; [|done].
      destruct (shut_not_writing w ch Hi E Hst Hw) as [E1 E2]. by rewrite E1, E2 in Ec. }
    rewrite Ea in Eq. by eapply send_taken.
Qed.

Lemma SendInLoop_down wr data w : state_ (conn w) = kDisconnected -> SendInLoop user wr data w = Ok w.
Proof. intros Hst. unfold SendInLoop. by rewrite bool_decide_eq_true_2. Qed.

(** ** Writability *)

Lemma WriteFd_content wr (b : Buffer.t) : Buffer.wf b ->
  Buffer.WriteFd wr b =
    match wr (Buffer.content b) with Buffer.Wrote n => (n, None) | Buffer.WriteErr e => (-1, Some e) end.
Proof.
  intros Hwf. unfold Buffer.WriteFd, Buffer.content. rewrite BufferFacts.ReadableBytes_wf by done.
  by replace (Buffer.read_index_ b + (Buffer.write_index_ b - Buffer.read_index_ b))
    with (Buffer.write_index_ b) by lia.
Qed.

(** The block of [HandleWrite] that runs once everything is written. *)
Lemma drained_law w ch :
  Buffer.wf (input_buffer_ (conn w)) -> Buffer.wf (output_buffer_ (conn w)) ->
  callbacks_set (conn w) -> linked w ch -> unsent w = [] ->
  exists w', (w ← on_channel LoopChannel.DisableWrite w;
        let w := match write_complete_callback_ (conn w) with
                 | Some f => enqueue (TWriteComplete f) w
                 | None => w
                 end in
        if bool_decide (state_ (conn w) = kDisconnecting) then ShutdownInLoop w else Ok w) = Ok w' /\
    inv w' /\ unsent w' = [] /\ sent w' = sent w /\ state_ (conn w') = state_ (conn w) /\
    mem w' = mem w /\ conn w' = conn w /\ frame w w' /\
    queued w' = queued w ++
      match write_complete_callback_ (conn w) with Some f => [TWriteComplete f] | None => [] end /\
    wr_shut w' = (wr_shut w || bool_decide (state_ (conn w) = kDisconnecting)).
Proof.
  intros Hin Hout Hcb Hl Hu.
  destruct (on_channel_law Channel.disable_write w ch Hl) as (cs & p & ch' & E & Hl' & Hev & _ & Hfr).
  { destruct Hl as (_ & _ & _ & ? & _). by apply disable_write_nonneg. }
  unfold LoopChannel.DisableWrite. rewrite E. cbn.
  assert (Channel.IsWriting ch' = false) as Ew.
  { unfold Channel.IsWriting. rewrite Hev. by autorewrite with mask. }
  assert (forall w1, conn w1 = conn w -> chans w1 = cs -> poller w1 = p -> inv w1) as Hinv.
  { intros w1 H1 H2 H3. unfold inv, unsent, writing_ok, linked, unsent in *. cbn in Hl'.
    rewrite H1, H2, H3. split_and!; try done. exists ch'. split; [done|]. rewrite Ew.
    symmetry. apply bool_decide_eq_false_2. naive_solver. }
  set (w1 := match write_complete_callback_ (conn w) with Some f => _ | None => _ end).
  assert (conn w1 = conn w /\ chans w1 = cs /\ poller w1 = p /\ sent w1 = sent w /\ mem w1 = mem w /\
    wr_shut w1 = wr_shut w /\ queued w1 = queued w ++
      match write_complete_callback_ (conn w) with Some f => [TWriteComplete f] | None => [] end)
    as (H1 & H2 & H3 & H4 & H5 & H6 & H7).
  { unfold w1. destruct (write_complete_callback_ (conn w)); cbn; by rewrite ?app_nil_r. }
  assert (forall w2, conn w2 = conn w1 -> chans w2 = chans w1 -> poller w2 = poller w1 ->
    queued w2 = queued w1 -> posted w2 = posted w1 -> frame w w2) as Hfr'.
  { intros w2 E1 E2 E3 E4 E5. eapply frame_trans; [exact Hfr|].
    apply (frame_local (match write_complete_callback_ (conn w) with Some f => [f] | None => [] end)).
    - rewrite E1, H1. done.
    - by rewrite E2, H2.
    - by rewrite E3, H3.
    - rewrite E4, H7. by destruct (write_complete_callback_ (conn w)).
    - cbn. destruct (write_complete_callback_ (conn w)); by repeat constructor.
    - rewrite E5. unfold w1. by destruct (write_complete_callback_ (conn w)). }
  assert (channel w1 = Ok ch') as Hch.
  { unfold channel. rewrite H1, H2. destruct Hl' as (_ & Hc & _). cbn in Hc. by rewrite Hc. }
  rewrite H1. destruct (bool_decide (state_ (conn w) = kDisconnecting)) eqn:Ed.
  - exists (set_shut w1). unfold ShutdownInLoop. rewrite Hch. cbn. rewrite Ew. cbn.
    split_and!; try done; unfold unsent; cbn; rewrite ?H1; try done; [by apply Hinv|by apply Hfr'|].
    by rewrite orb_true_r.
  - exists w1. split_and!; try done; unfold unsent; rewrite ?H1; try done; [by apply Hinv|by apply Hfr'|].
    by rewrite H6, orb_false_r.
Qed.

Lemma HandleWrite_law wr w :
  inv w -> takes_prefix wr ->
  exists w', HandleWrite wr w = Ok w' /\ inv w' /\ stream w' = stream w /\
    state_ (conn w') = state_ (conn w) /\ mem w' = mem w /\ sends w w' /\
    match wr (unsent w) with
    | Buffer.Wrote n =>
        if bool_decide (state_ (conn w) <> kDisconnected /\ unsent w <> []) && (0 <? n) then
          unsent w' = zdrop n (unsent w) /\
          if n =? zlen (unsent w) then
            queued w' = queued w ++
              match write_complete_callback_ (conn w) with Some f => [TWriteComplete f] | None => [] end /\
            wr_shut w' = (wr_shut w || bool_decide (state_ (conn w) = kDisconnecting))
          else queued w' = queued w /\ wr_shut w' = wr_shut w
        else w' = w
    | Buffer.WriteErr _ => w' = w
    end.
Proof.
  intros Hi Hk. pose proof Hi as (Hin & Hout & Hcb & Hsh & ch & Hl & Hw).
  unfold HandleWrite. rewrite (linked_channel _ _ Hl). cbn. rewrite <- Hw.
  destruct (Channel.IsWriting ch) eqn:Ew.
  2:{ exists w. split_and!; try done; [apply sends_refl|]. by destruct (wr (unsent w)). }
  unfold writing_ok in Hw. rewrite Ew in Hw. symmetry in Hw.
  apply bool_decide_eq_true in Hw as [Hst Hne].
  assert (wr_shut w = false) as Hns.
  { destruct (wr_shut w); [|done]. by destruct (Hne (Hsh eq_refl Hst)). }
  rewrite WriteFd_content by done. fold (unsent w).
  pose proof (sends_refl w) as Hrefl.
  destruct (wr (unsent w)) as [n|e] eqn:Ewr; [|by exists w].
  specialize (Hk _ _ Ewr). cbn. destruct (Z.ltb_spec 0 n) as [Hn|Hn]; [|by exists w].
  destruct (BufferFacts.Retrive_spec n (output_buffer_ (conn w))) as (Hwf' & Hc' & _); [done|lia|].
  set (w1 := with_conn _ _).
  assert (unsent w1 = zdrop n (unsent w)) as Hu1 by exact Hc'.
  assert (stream w1 = stream w) as Hs1.
  { unfold stream. rewrite Hu1. cbn. by rewrite <- app_assoc, ztake_zdrop. }
  apply (linked_conn (set_output (Buffer.Retrive n (output_buffer_ (conn w))))) in Hl; [|done].
  assert (sends w w1) as Hf1.
  { split; [|done]. apply (frame_local []); try done. cbn. by rewrite app_nil_r. }
  rewrite BufferFacts.ReadableBytes_content by exact Hwf'. rewrite Hc'. fold (unsent w).
  rewrite zlen_zdrop by lia.
  destruct (Z.eqb_spec n (zlen (unsent w))) as [->|Hnl].
  - rewrite Z.sub_diag. cbn. rewrite zdrop_all in Hu1 by lia.
    destruct (drained_law w1 ch) as (w' & E & Hi' & Hu' & Hs' & Hst' & Hm' & Hcn' & Hfr' & Hq' & Hsh'); try done.
    exists w'. split_and!; try done.
    + rewrite <- Hs1. unfold stream. by rewrite Hs', Hu', Hu1.
    + destruct Hf1 as [Hf1 Hin1]. split; [exact (frame_trans _ _ _ Hf1 Hfr')|by rewrite Hcn'].
    + by rewrite Hu', zdrop_all by lia.
  - destruct (Z.eqb_spec (zlen (unsent w) - n) 0); [lia|]. exists w1.
    split_and!; try done. split_and!; try done; [cbn; congruence|].
    exists ch. split; [done|]. unfold writing_ok. rewrite Ew, Hu1. symmetry.
    apply bool_decide_eq_true. split; [done|]. intros Hz. apply (f_equal zlen) in Hz.
    rewrite zlen_zdrop in Hz by lia. change (zlen (@nil ascii)) with 0 in Hz. lia.
Qed.

(** ** Shutting down and closing *)

Lemma ShutdownInLoop_law w : inv w ->
  exists w', ShutdownInLoop w = Ok w' /\ inv w' /\
    (state_ (conn w) <> kDisconnected ->
     w' = if bool_decide (unsent w = []) then set_shut w else w).
Proof.
  intros (Hin & Hout & Hcb & Hsh & ch & Hl & Hw). unfold ShutdownInLoop.
  rewrite (linked_channel _ _ Hl). cbn. destruct (Channel.IsWriting ch) eqn:Ew; cbn;
    unfold writing_ok in Hw; rewrite Ew in Hw; symmetry in Hw; eexists; (split; [done|]).
  - apply bool_decide_eq_true in Hw as [Hst Hne]. split.
    + split_and!; try done. exists ch. split; [done|]. unfold writing_ok. rewrite Ew. symmetry.
      by apply bool_decide_eq_true.
    + intros _. by rewrite bool_decide_eq_false_2.
  - apply bool_decide_eq_false in Hw.
    assert (state_ (conn w) <> kDisconnected -> unsent w = []) as Hu.
    { intros Hst. destruct (unsent w) eqn:E; [done|]. destruct Hw. done. }
    split.
    + split_and!; try done. exists ch. split; [done|]. unfold writing_ok. rewrite Ew. symmetry.
      by apply bool_decide_eq_false_2.
    + intros Hst. by rewrite bool_decide_eq_true_2 by auto.
Qed.

(** A new state that is not [kDisconnected] keeps the invariant. *)
Lemma inv_SetState s w : inv w -> state_ (conn w) <> kDisconnected -> s <> kDisconnected ->
  inv (with_conn (SetState s) w).
Proof.
  intros (Hin & Hout & Hcb & Hsh & ch & Hl & Hw) Hst Hs. split_and!; try done.
  - intros Hsh' _. by apply Hsh.
  - exists ch. split; [by apply linked_conn|]. unfold writing_ok in *. rewrite Hw.
    apply bool_decide_ext. cbn. unfold unsent. naive_solver.
Qed.

(** Entering [kDisconnected]: the kernel no longer watches the descriptor. *)
Lemma disconnect_law w : inv w ->
  exists cs p, let w1 := set_poll cs p (with_conn (SetState kDisconnected) w) in
    on_channel LoopChannel.DisableAll (with_conn (SetState kDisconnected) w) = Ok w1 /\ inv w1 /\
    frame w w1 /\
    exists ch, linked w1 ch /\
      interest (CB := handler) (OBJ := unit) (poller w1) (Channel.fd_ ch) = 0.
Proof.
  intros (Hin & Hout & Hcb & Hsh & ch & Hl & Hw).
  apply (linked_conn (SetState kDisconnected)) in Hl; [|done].
  destruct (on_channel_law Channel.disable_all _ ch Hl) as (cs & p & ch' & E & Hl' & Hev & _ & Hfr); [done|].
  exists cs, p. split; [exact E|]. split_and!.
  - split_and!; try done. exists ch'. split; [done|]. unfold writing_ok, Channel.IsWriting.
    rewrite Hev. symmetry. apply bool_decide_eq_false_2. by intros [? _].
  - eapply frame_trans; [|exact Hfr]. by apply frame_with_conn.
  - exists ch'. split; [done|]. destruct Hl' as (_ & _ & _ & _ & ->). by rewrite Hev.
Qed.

Lemma HandleClose_law w : inv w ->
  exists w1, HandleClose user w =
      (w2 ← call user (connection_callback_ (conn w1)) w1; call user (close_callback_ (conn w2)) w2) /\
    inv w1 /\ state_ (conn w1) = kDisconnected /\ stream w1 = stream w /\ sends w w1 /\
    exists ch, linked w1 ch /\
      interest (CB := handler) (OBJ := unit) (poller w1) (Channel.fd_ ch) = 0.
Proof.
  intros Hi. destruct (disconnect_law w Hi) as (cs & p & E & Hi1 & Hfr & Hint).
  eexists. unfold HandleClose. rewrite E. split_and!; done.
Qed.

(** ** Reading *)

(** What readv(2) promises, and that the input buffer has room for its answer. *)
Definition kernel_read w (readv : Z -> Buffer.read_result) : Prop :=
  (forall cap d, 0 <= cap -> readv cap = Buffer.ReadData d -> zlen d <= cap) /\
  let b := input_buffer_ (conn w) in
  Buffer.write_index_ b + 2 * Buffer.kExtraBuf + zlen (Buffer.buffer_ b) <= Vec.max_size.

Lemma inv_set_input b w : inv w -> Buffer.wf b -> inv (with_conn (set_input b) w).
Proof.
  intros (Hin & Hout & Hcb & Hsh & ch & Hl & Hw) Hb. split_and!; try done.
  exists ch. split; [by apply linked_conn|done].
Qed.

Lemma HandleRead_law readv w : inv w -> kernel_read w readv ->
  match readv (Buffer.read_capacity (input_buffer_ (conn w))) with
  | Buffer.ReadErr _ => HandleRead user readv w = Ok w
  | Buffer.ReadData d => exists b, let w1 := with_conn (set_input b) w in
      inv w1 /\ Buffer.content b = Buffer.content (input_buffer_ (conn w)) ++ d /\
      HandleRead user readv w =
        if bool_decide (d = []) then HandleClose user w1 else call user (message_callback_ (conn w1)) w1
  end.
Proof.
  intros Hi [Hk Hroom]. pose proof Hi as (Hin & _).
  pose proof (BufferProps.ReadFd_law readv (input_buffer_ (conn w)) Hin Hroom Hk) as Hr.
  unfold HandleRead. destruct (readv _) as [d|e].
  - destruct Hr as (b & E & Hwf & Hc). exists b. split_and!; [by apply inv_set_input|done|].
    rewrite E. cbn. destruct (decide (d = [])) as [->|Hd].
    + by rewrite bool_decide_eq_true_2.
    + rewrite bool_decide_eq_false_2 by done. destruct (Z.ltb_spec 0 (zlen d)); [done|].
      destruct Hd. apply zlen_nil_inv. pose proof (zlen_nonneg d). lia.
  - rewrite Hr. cbn. destruct w as [[]]; done.
Qed.

(** ** Setting up and taking down *)

(** A connection as its constructor leaves it. *)
Definition fresh w ch : Prop :=
  Buffer.wf (input_buffer_ (conn w)) /\ Buffer.wf (output_buffer_ (conn w)) /\
  callbacks_set (conn w) /\ state_ (conn w) = kConnecting /\ wr_shut w = false /\ unsent w = [] /\
  poller_inv (chans w) (poller w) /\ chans w !! channel_ (conn w) = Some ch /\
  usable (poller w) (channel_ (conn w)) ch /\ Channel.events_ ch = 0.

Lemma ConnectionEstablished_law w ch : fresh w ch ->
  exists w1 ch1, ConnectionEstablished user w = call user (connection_callback_ (conn w1)) w1 /\
    conn w1 = SetState kConnected (conn w) /\ inv w1 /\ linked w1 ch1 /\
    Channel.events_ ch1 = Channel.kReadEvent /\ Channel.fd_ ch1 = Channel.fd_ ch /\
    sent w1 = sent w /\ frame w w1 /\ queued w1 = queued w.
Proof.
  intros (Hin & Hout & Hcb & Hst & Hns & Hu & Hi & Hc & Hus & Hev).
  unfold ConnectionEstablished, channel. cbn. rewrite Hc. cbn. unfold on_channel. cbn.
  set (cs := <[channel_ (conn w) := Channel.Tie tt ch]> (chans w)).
  destruct (LoopChannelFacts.change_events_law Channel.enable_read cs (poller w)
    (channel_ (conn w)) (Channel.Tie tt ch)) as
    (cs1 & p1 & ch1 & E & Hi1 & _ & Hc1 & Hb1 & Hm1 & Hint1 & Hoth1).
  - by eapply touch_law.
  - apply lookup_insert_eq.
  - by eapply usable_ext; [..|exact Hus].
  - cbn. by rewrite Hev.
  - unfold LoopChannel.EnableRead. rewrite E. cbn.
    pose proof (ChannelFacts.events_proper _ _ Hb1) as Hev1.
    pose proof (ChannelFacts.fd_proper _ _ Hb1) as Hfd1. cbn in Hev1, Hfd1, Hint1.
    rewrite Hev in Hev1, Hint1.
    set (w1 := set_poll _ _ _).
    assert (linked w1 ch1) as Hl1.
    { unfold linked. cbn. split_and!; first [done | by rewrite <- Hev1 | by rewrite <- Hfd1, Hint1]. }
    assert (fd_of w = Channel.fd_ ch) as Hfw by (unfold fd_of; by rewrite Hc).
    exists w1, ch1. split_and!; try done.
    + unfold inv. split_and!; try done.
      exists ch1. split; [done|]. unfold writing_ok, Channel.IsWriting. rewrite <- Hev1. symmetry.
      apply bool_decide_eq_false_2. intros [_ Hne]. by destruct (Hne Hu).
    + unfold frame. rewrite Hfw. split_and!; try done.
      * unfold wiring_of. cbn. rewrite Hc1, Hc. cbn. f_equal.
        by rewrite <- (ChannelFacts.wiring_proper _ _ Hb1).
      * exists []. cbn. by rewrite app_nil_r.
      * eapply others_trans; [|exact Hoth1]. by eapply others_touch.
Qed.

(** Callbacks that return and keep the invariant. *)
Definition user_ok : Prop := forall f w, inv w -> exists w', user f w = Ok w' /\ inv w'.

Lemma call_ok f w : user_ok -> is_Some f -> inv w -> exists w', call user f w = Ok w' /\ inv w'.
Proof. intros Hu [g ->] Hi. by apply Hu. Qed.

Lemma inv_callbacks w : inv w -> callbacks_set (conn w).
Proof. by intros (_ & _ & ? & _). Qed.

Lemma HandleClose_ok w : user_ok -> inv w -> exists w', HandleClose user w = Ok w' /\ inv w'.
Proof.
  intros Hu Hi. destruct (HandleClose_law w Hi) as (w1 & -> & Hi1 & _).
  destruct (call_ok (connection_callback_ (conn w1)) w1 Hu) as (w2 & -> & Hi2);
    [apply (inv_callbacks w1 Hi1)|done|]. cbn.
  apply call_ok; [done| |done]. apply (inv_callbacks w2 Hi2).
Qed.

Lemma Remove_law w : inv w ->
  exists w' ch, on_channel LoopChannel.Remove w = Ok w' /\ conn w' = conn w /\ linked w ch /\
    poller_inv (delete (channel_ (conn w)) (chans w')) (poller w') /\
    interest (CB := handler) (OBJ := unit) (poller w') (Channel.fd_ ch) = 0 /\
    (exists cs p, w' = set_poll cs p w) /\
    others (channel_ (conn w)) (Channel.fd_ ch) (chans w) (poller w) (chans w') (poller w').
Proof.
  intros (_ & _ & _ & _ & ch & Hl & _). pose proof Hl as (Hi & Hc & Hm & _).
  destruct (remove_law (chans w) (poller w) _ ch Hi Hc Hm) as
    (cs & p & E & Hs & Hi' & Hint & Hoth & Hk).
  pose proof (others_remove _ _ _ _ _ _ Hs Hk Hoth) as Ho.
  exists (set_poll cs p w), ch. unfold on_channel, LoopChannel.Remove. rewrite Hc, E.
  do 5 (split; [done|]). split; [by eexists _, _|done].
Qed.

Lemma ConnectionDestroyed_law w : user_ok -> inv w ->
  exists w2 ch w', ConnectionDestroyed user w = Ok w' /\ inv w2 /\ linked w2 ch /\
    conn w' = conn w2 /\ (state_ (conn w) <> kConnected -> w2 = w) /\
    poller_inv (delete (channel_ (conn w2)) (chans w')) (poller w') /\
    interest (CB := handler) (OBJ := unit) (poller w') (Channel.fd_ ch) = 0.
Proof.
  intros Hu Hi. unfold ConnectionDestroyed.
  destruct (decide (state_ (conn w) = kConnected)) as [Hst|Hst].
  - rewrite bool_decide_eq_true_2 by done.
    destruct (disconnect_law w Hi) as (cs & p & E & Hi1 & _). cbv zeta in *.
    rewrite E. cbn [mbind result_bind]. set (w1 := set_poll _ _ _) in *.
    destruct (call_ok (connection_callback_ (conn w1)) w1 Hu) as (w2 & E2 & Hi2);
      [apply (inv_callbacks w1 Hi1)|done|].
    rewrite E2. cbn. destruct (Remove_law w2 Hi2) as (w' & ch & Er & Hcn & Hl & Hp & Hint & _).
    exists w2, ch, w'. by split_and!.
  - rewrite bool_decide_eq_false_2 by done. cbn.
    destruct (Remove_law w Hi) as (w' & ch & Er & Hcn & Hl & Hp & Hint & _).
    exists w, ch, w'. by split_and!.
Qed.

End Facts.
End TcpConnectionFacts.

(** * Properties *)
Module TcpConnectionProps.
Import TcpConnection TcpConnectionFacts.

Section Props.
Context {UCB P : Type} `{!Poller P, !PollerLaws (CB := handler) (OBJ := unit) P}.
Context (user : UCB -> W UCB P -> result (W UCB P)).
Implicit Types (w : W UCB P).

(** C12: On a connection that is down [SendInLoop] does nothing: the data is dropped. On
    any other, one that is shutting down included, it extends the outgoing byte sequence
    (what the kernel took, then the output buffer) by exactly the data, whether the
    kernel takes all of it, a part or nothing, and keeps the invariant; the
    write-complete callback runs only when all of the data is with the kernel. The
    data is given up only when the socket is broken and nothing was pending. *)
Theorem SendInLoop_preserves_stream wr data w :
  inv w -> kernel_write w wr -> zlen data <= Vec.max_size -> room w (zlen data) ->
  if bool_decide (state_ (conn w) = kDisconnected) then SendInLoop user wr data w = Ok w
  else
    (exists w1, inv w1 /\ stream w1 = stream w ++ data /\
       (SendInLoop user wr data w = Ok w1 \/
        exists f, write_complete_callback_ (conn w) = Some f /\ unsent w1 = [] /\
          SendInLoop user wr data w = user f w1)) \/
    (exists e, wr data = Buffer.WriteErr e /\ (e = EPIPE \/ e = ECONNRESET) /\ unsent w = [] /\
       SendInLoop user wr data w = Ok w).
Proof.
  intros Hi Hk Hm Hr. case_bool_decide as Hst; [by apply SendInLoop_down|].
  destruct (SendInLoop_law user wr data w Hi Hst Hk Hm Hr) as
    [w1 E Hi1 Hs _|f w1 Hf E Hi1 Hs Hu _|e E Hf Hu E'].
  - left. exists w1. auto.
  - left. exists w1. split_and!; [done| |by eauto 6]. unfold stream at 1. by rewrite Hu, app_nil_r.
  - right. exists e. split_and!; try done. unfold fault_error in Hf.
    apply andb_true_iff in Hf as [_ [?|?]%orb_true_iff]; zb; auto.
Qed.

(** A writable connection hands the kernel a prefix of what is unsent and keeps
    the rest in order; when nothing is left it stops asking for writability,
    queues the write-complete callback and, if a shutdown was requested, shuts
    the write side. A failed or empty write changes nothing. *)
Theorem HandleWrite_drains wr w :
  inv w -> takes_prefix wr ->
  exists w', HandleWrite wr w = Ok w' /\ inv w' /\ stream w' = stream w /\
    state_ (conn w') = state_ (conn w) /\
    match wr (unsent w) with
    | Buffer.Wrote n =>
        if bool_decide (state_ (conn w) <> kDisconnected /\ unsent w <> []) && (0 <? n) then
          unsent w' = zdrop n (unsent w) /\
          if n =? zlen (unsent w) then
            queued w' = queued w ++
              match write_complete_callback_ (conn w) with Some f => [TWriteComplete f] | None => [] end /\
            wr_shut w' = (wr_shut w || bool_decide (state_ (conn w) = kDisconnecting))
          else queued w' = queued w /\ wr_shut w' = wr_shut w
        else w' = w
    | Buffer.WriteErr _ => w' = w
    end.
Proof.
  intros Hi Hk. destruct (HandleWrite_law wr w Hi Hk) as (w' & E & Hi' & Hs & Hst & _ & _ & Hm).
  exists w'. by split_and!.
Qed.

(** Everything that can happen to an established connection: the three forms of [Send]
    and [ShutDown], from its loop's thread or from another; the events of its channel; and
    the functors it has left in its loop's queue. *)
Inductive op :=
  | OSend (in_loop : bool) (wr : bytes -> Buffer.write_result) (data : ptr) (len : Z)
  | OSendBuffer (in_loop : bool) (wr : bytes -> Buffer.write_result)
      (get : W UCB P -> Buffer.t) (put : Buffer.t -> W UCB P -> W UCB P) (tmp : ptr)
  | OShutDown (in_loop : bool)
  | ORead (readv : Z -> Buffer.read_result)
  | OWrite (wr : bytes -> Buffer.write_result)
  | OClose
  | OError
  | OTask (wr : bytes -> Buffer.write_result) (k : task UCB).

Definition exec (o : op) w : result (W UCB P) :=
  match o with
  | OSend in_loop wr data len => Send user in_loop wr data len w
  | OSendBuffer in_loop wr get put tmp => SendBuffer user in_loop wr get put tmp w
  | OShutDown in_loop => ShutDown in_loop w
  | ORead readv => HandleRead user readv w
  | OWrite wr => HandleWrite wr w
  | OClose => HandleClose user w
  | OError => HandleError w
  | OTask wr k => run_task user wr k w
  end.

(** The memory at an address, if there is some, is as long as the caller said, and the
    buffers can hold the data. *)
Definition sendable (data : ptr) (len : Z) w : Prop :=
  forall d, mem w !! data = Some d -> 0 <= len <= zlen d /\ len <= Vec.max_size /\ room w len.

(** A buffer one can read and write wherever it is: the connection's own input buffer, or
    one that has nothing to do with it. *)
Definition buffer_at (get : W UCB P -> Buffer.t) (put : Buffer.t -> W UCB P -> W UCB P) : Prop :=
  (forall w, inv w -> Buffer.wf (get w)) /\ (forall b w, Buffer.wf b -> inv w -> inv (put b w)).

Lemma own_input_buffer : buffer_at (fun w => input_buffer_ (conn w)) (fun b => with_conn (set_input b)).
Proof. split; [by intros w (? & _)|]. intros b w Hb Hi. by apply inv_set_input. Qed.

(** What a call relies on: that a caller passes memory that is there for the time of the
    call, and that the kernel answers as it does. *)
Definition pre (o : op) w : Prop :=
  match o with
  | OSend in_loop wr data len =>
      in_loop = true -> kernel_write w wr /\ sendable data len w /\ is_Some (mem w !! data)
  | OSendBuffer in_loop wr get put _ => buffer_at get put /\ (in_loop = true -> kernel_write w wr /\
      let n := zlen (Buffer.content (get w)) in n <= Vec.max_size /\ room w n)
  | ORead readv => kernel_read w readv
  | OWrite wr => takes_prefix wr
  | OTask wr (TSendInLoop data len) => kernel_write w wr /\ sendable data len w
  | _ => True
  end.

(** A queued [SendInLoop] that has to read memory which is gone. *)
Definition dangling (o : op) w : bool :=
  match o with
  | OTask wr (TSendInLoop data len) =>
      bool_decide (state_ (conn w) <> kDisconnected /\ u64 len <> 0 /\ mem w !! data = None)
  | _ => false
  end.

Lemma SendInLoop_ok wr data w :
  user_ok user -> inv w -> kernel_write w wr -> zlen data <= Vec.max_size -> room w (zlen data) ->
  exists w', SendInLoop user wr data w = Ok w' /\ inv w'.
Proof.
  intros Hu Hi Hk Hmax Hroom.
  destruct (decide (state_ (conn w) = kDisconnected)) as [Hst|Hst]; [exists w; by rewrite SendInLoop_down|].
  destruct (SendInLoop_law user wr data w Hi Hst Hk Hmax Hroom) as
    [w1 E Hi1 _ _|f w1 _ E Hi1 _ _ _|e _ _ _ E]; [by eauto| |by eauto].
  rewrite E. by apply Hu.
Qed.

Lemma room_nil w : inv w -> zlen (@nil ascii) <= Vec.max_size /\ room w (zlen (@nil ascii)).
Proof.
  intros (_ & (_ & ? & ?) & _). change (zlen (@nil ascii)) with 0. split; [done|]. unfold room. lia.
Qed.

Lemma send_from_ok wr data len w :
  user_ok user -> inv w -> kernel_write w wr -> sendable data len w ->
  if bool_decide (state_ (conn w) <> kDisconnected /\ u64 len <> 0 /\ mem w !! data = None)
  then send_from user wr data len w = Err (UB UseAfterFree)
  else exists w', send_from user wr data len w = Ok w' /\ inv w'.
Proof.
  intros Hu Hi Hk Hd. pose proof BufferFacts.max_size_u64. unfold send_from.
  case_bool_decide as Hb.
  - destruct Hb as (Hst & Hl & Hm). rewrite bool_decide_eq_false_2, Hm by done. by rewrite (proj2 (Z.eqb_neq _ _) Hl).
  - destruct (bool_decide _ || _) eqn:E; [apply SendInLoop_ok; try done; by apply room_nil|].
    apply orb_false_iff in E as [Hst%bool_decide_eq_false Hl]. zb.
    destruct (mem w !! data) as [d|] eqn:Ed; [|by destruct Hb].
    destruct (Hd d Ed) as (Hlen & Hmax & Hroom). rewrite u64_small in * by lia.
    destruct (Z.ltb_spec (zlen d) len); [lia|].
    apply SendInLoop_ok; try done; by rewrite zlen_ztake by lia.
Qed.

Lemma SendBuffer_ok in_loop wr get put tmp w :
  user_ok user -> inv w -> pre (OSendBuffer in_loop wr get put tmp) w ->
  exists w', SendBuffer user in_loop wr get put tmp w = Ok w' /\ inv w'.
Proof.
  intros Hu Hi [[Hget Hput] Hk]. unfold SendBuffer. destruct (bool_decide _); [|by eauto].
  pose proof (Hget w Hi) as Hwf. destruct in_loop.
  - destruct (Hk eq_refl) as (Hkw & Hmax & Hroom).
    destruct (SendInLoop_ok wr (Buffer.content (get w)) w) as (w1 & E & Hi1); [done..|].
    rewrite E. cbn. eexists. split; [done|]. apply Hput; [|done]. apply BufferFacts.RetriveAll_wf. by apply Hget.
  - rewrite BufferFacts.RetriveAllAsString_ok by done. cbn. eexists. split; [done|].
    exact (Hput (Buffer.RetriveAll (get w)) w (BufferFacts.RetriveAll_wf _ Hwf) Hi).
Qed.

(** C11: No public call on the connection, from its loop's thread or another, and no
    event on its channel fails or breaks the connection's invariant: the buffers are well
    formed, the kernel watches for writability exactly while there is something to send,
    and the write side is shut only with nothing pending. Nor does a functor it has queued,
    but for one: a [SendInLoop] that a [Send] of another thread has left, when the memory
    it is bound to is gone, there is something to read and the connection is not down,
    reads freed memory. *)
Theorem connection_invariant o w :
  user_ok user -> inv w -> pre o w ->
  if dangling o w then exec o w = Err (UB UseAfterFree) else exists w', exec o w = Ok w' /\ inv w'.
Proof.
  intros Hu Hi Hp.
  destruct o as [in_loop wr data len|in_loop wr get put tmp|in_loop|readv|wr| | |wr [data len| |f]];
    cbn [exec dangling run_task]; cbn in Hp.
  - unfold Send. destruct (bool_decide _) eqn:Est; [|eauto]. destruct in_loop; [|by eexists].
    destruct Hp as (Hk & Hs & [d Hd]); [done|]. pose proof (send_from_ok wr data len w Hu Hi Hk Hs) as Hf.
    rewrite bool_decide_eq_false_2 in Hf; [done|]. rewrite Hd. by intros (_ & _ & ?).
  - by apply SendBuffer_ok.
  - unfold ShutDown. destruct (decide (state_ (conn w) = kConnected)) as [Hst|Hst].
    + rewrite bool_decide_eq_true_2 by done.
      assert (inv (with_conn (SetState kDisconnecting) w)) as Hi1 by (apply inv_SetState; congruence).
      destruct in_loop; [|by eexists]. destruct (ShutdownInLoop_law _ Hi1) as (w' & ? & ? & _). eauto.
    + rewrite bool_decide_eq_false_2 by done. eauto.
  - pose proof (HandleRead_law user readv w Hi Hp) as H. destruct (readv _) as [d|e]; [|by eauto].
    destruct H as (b & Hi1 & _ & ->). destruct (bool_decide (d = [])); [by apply HandleClose_ok|].
    apply call_ok; [done|apply (inv_callbacks _ Hi1)|done].
  - destruct (HandleWrite_law wr w Hi Hp) as (w' & ? & ? & _). eauto.
  - by apply HandleClose_ok.
  - by eexists.
  - destruct Hp as [Hk Hs]. exact (send_from_ok wr data len w Hu Hi Hk Hs).
  - destruct (ShutdownInLoop_law w Hi) as (w' & ? & ? & _). eauto.
  - by apply Hu.
Qed.

(** The writable events that follow a shutdown request, one write each. *)
Fixpoint write_all (wrs : list (bytes -> Buffer.write_result)) w : result (W UCB P) :=
  match wrs with
  | [] => Ok w
  | wr :: wrs => w ← HandleWrite wr w; write_all wrs w
  end.

(** A kernel that takes at least one byte of what it is offered. *)
Definition makes_progress (wr : bytes -> Buffer.write_result) : Prop :=
  takes_prefix wr /\ forall d, d <> [] -> exists n, wr d = Buffer.Wrote n /\ 0 < n.

Lemma write_all_drains wrs w :
  inv w -> state_ (conn w) = kDisconnecting -> (unsent w = [] -> wr_shut w = true) ->
  Forall makes_progress wrs -> (length (unsent w) <= length wrs)%nat ->
  exists w', write_all wrs w = Ok w' /\ inv w' /\ wr_shut w' = true /\ sent w' = stream w.
Proof.
  revert w. induction wrs as [|wr wrs IH]; intros w Hi Hst Hsh Hwr Hlen.
  - exists w. destruct (unsent w) as [|x u] eqn:Eu; [|cbn in Hlen; lia].
    split_and!; auto. unfold stream. by rewrite Eu, app_nil_r.
  - inversion Hwr as [|? ? [Hpre Hpos] Hwr']; subst. clear Hwr. rename Hwr' into Hwr.
    destruct (HandleWrite_law wr w Hi Hpre) as (w1 & E & Hi1 & Hs1 & Hst1 & _ & _ & Hm).
    cbn. rewrite E. cbn. rewrite <- Hs1. cbn in Hlen.
    destruct (decide (unsent w = [])) as [Hu|Hu].
    + assert (w1 = w) as ->.
      { destruct (wr (unsent w)); [|done]. rewrite bool_decide_eq_false_2 in Hm by (by intros [_ ?]).
        done. }
      apply IH; try done. rewrite Hu. cbn. lia.
    + destruct (Hpos _ Hu) as (n & En & Hn). rewrite En in Hm.
      rewrite bool_decide_eq_true_2 in Hm by (split; [congruence|done]).
      destruct (Z.ltb_spec 0 n); [|lia]. cbn in Hm. destruct Hm as [Hu1 Hm].
      specialize (Hpre _ _ En). unfold zlen in Hpre.
      apply IH; try done; [congruence| |].
      * intros Hu1'. rewrite Hu1' in Hu1. symmetry in Hu1. apply (f_equal zlen) in Hu1.
        rewrite zlen_zdrop in Hu1 by (unfold zlen; lia). change (zlen (@nil ascii)) with 0 in Hu1.
        destruct (Z.eqb_spec n (zlen (unsent w))); [|lia]. destruct Hm as [_ ->].
        rewrite bool_decide_eq_true_2 by done. apply orb_true_r.
      * rewrite Hu1. unfold zdrop. rewrite length_drop. lia.
Qed.

(** C13: A shutdown requested while data is pending is carried out only after the
    last byte: as long as the kernel takes at least one byte per writable event,
    the write side ends up shut with everything accepted before the request
    delivered in order; with nothing pending it is shut at once. *)
Theorem graceful_shutdown wrs w :
  inv w -> state_ (conn w) = kConnected -> wr_shut w = false ->
  Forall makes_progress wrs -> (length (unsent w) <= length wrs)%nat ->
  exists w1 w2, ShutDown true w = Ok w1 /\ wr_shut w1 = bool_decide (unsent w = []) /\
    write_all wrs w1 = Ok w2 /\ inv w2 /\ wr_shut w2 = true /\ sent w2 = stream w.
Proof.
  intros Hi Hst Hns Hwr Hlen. unfold ShutDown. rewrite bool_decide_eq_true_2 by done.
  assert (inv (with_conn (SetState kDisconnecting) w)) as Hi1 by (apply inv_SetState; congruence).
  destruct (ShutdownInLoop_law _ Hi1) as (w1 & E & Hiw1 & Hw1). specialize (Hw1 ltac:(done)).
  change (unsent (with_conn _ w)) with (unsent w) in Hw1.
  assert (conn w1 = SetState kDisconnecting (conn w) /\ stream w1 = stream w /\ unsent w1 = unsent w /\
    wr_shut w1 = bool_decide (unsent w = [])) as (Hc & Hs & Hu & Hsh).
  { rewrite Hw1. destruct (bool_decide (unsent w = [])); done. }
  destruct (write_all_drains wrs w1) as (w2 & E2 & Hi2 & Hsh2 & Hs2); try done.
  - by rewrite Hc.
  - intros Hz. rewrite Hsh. apply bool_decide_eq_true_2. congruence.
  - by rewrite Hu.
  - exists w1, w2. split_and!; try done. congruence.
Qed.

(** A [Send] from another thread queues the caller's pointer: run while the
    caller's string is still there it is the same as a [Send] in the loop, run
    after the string is gone it reads freed memory unless the connection is down; and
    [Send(Buffer* )] from another thread, of a buffer that is not empty, always queues a
    pointer into a temporary that is destroyed before the call returns. *)
Theorem cross_thread_send_dangles wr data len w :
  state_ (conn w) = kConnected ->
  Send user false wr data len w = Ok (enqueue (TSendInLoop data len) w) /\
  (forall w', state_ (conn w') = kConnected ->
     run_task user wr (TSendInLoop data len) w' = Send user true wr data len w') /\
  (forall w', mem w' !! data = None -> state_ (conn w') <> kDisconnected -> u64 len <> 0 ->
     run_task user wr (TSendInLoop data len) w' = Err (UB UseAfterFree)) /\
  (forall get put tmp,
     (forall b w, mem (put b w) = mem w /\ queued (put b w) = queued w /\ state_ (conn (put b w)) = state_ (conn w)) ->
     Buffer.wf (get w) -> Buffer.content (get w) <> [] -> mem w !! tmp = None ->
     exists w' n, SendBuffer user false wr get put tmp w = Ok w' /\
       queued w' = queued w ++ [TSendInLoop tmp n] /\
       run_task user wr (TSendInLoop tmp n) w' = Err (UB UseAfterFree)).
Proof.
  intros Hst. assert (forall w' l, mem w' !! l = None -> state_ (conn w') <> kDisconnected -> forall n, u64 n <> 0 ->
    run_task user wr (TSendInLoop l n) w' = Err (UB UseAfterFree)) as Hgone.
  { intros w' l Hm Hd n Hn. cbn. unfold send_from. rewrite bool_decide_eq_false_2, Hm by done.
    by rewrite (proj2 (Z.eqb_neq _ _) Hn). }
  split_and!.
  - unfold Send. by rewrite bool_decide_eq_true_2.
  - intros w' Hst'. unfold Send. by rewrite bool_decide_eq_true_2.
  - intros w' Hm Hd Hn. by apply Hgone.
  - intros get put tmp Hput Hwf Hne Htmp. unfold SendBuffer. rewrite bool_decide_eq_true_2 by done.
    rewrite BufferFacts.RetriveAllAsString_ok by done. cbn. eexists _, _. split; [done|].
    destruct (Hput (Buffer.RetriveAll (get w)) w) as (_ & Hq & Hs). split; [cbn; by rewrite Hq|].
    apply Hgone; [cbn; by rewrite lookup_delete_eq|cbn; congruence|].
    rewrite BufferFacts.ReadableBytes_content by done. pose proof BufferFacts.max_size_u64.
    pose proof (zlen_nonneg (Buffer.content (get w))).
    rewrite u64_small; [by intros ?%zlen_nil_inv|]. pose proof (BufferFacts.ReadableBytes_content _ Hwf).
    rewrite BufferFacts.ReadableBytes_wf in * by done. destruct Hwf as ((? & ?) & ? & ?). unfold Buffer.kCheapPrepend in *. lia.
Qed.

(** A readable connection appends what the kernel delivered to the input buffer
    and calls the message callback; an empty read closes the connection and a
    failed one changes nothing. *)
Theorem HandleRead_branches readv w :
  inv w -> kernel_read w readv ->
  match readv (Buffer.read_capacity (input_buffer_ (conn w))) with
  | Buffer.ReadErr _ => HandleRead user readv w = Ok w
  | Buffer.ReadData d => exists b, let w1 := with_conn (set_input b) w in
      inv w1 /\ Buffer.content b = Buffer.content (input_buffer_ (conn w)) ++ d /\
      HandleRead user readv w =
        if bool_decide (d = []) then HandleClose user w1 else call user (message_callback_ (conn w1)) w1
  end.
Proof. apply HandleRead_law. Qed.

(** With any poller, establishing a connection makes the kernel watch its
    descriptor for reading only and then calls the user; closing it stops the
    watch, forbids further sends and calls the user and the owner in this order;
    destroying it leaves the poller without the channel. *)
Theorem connection_lifecycle w ch :
  user_ok user -> fresh w ch ->
  (exists w1, ConnectionEstablished user w = call user (connection_callback_ (conn w1)) w1 /\
     inv w1 /\ state_ (conn w1) = kConnected /\
     interest (CB := handler) (OBJ := unit) (poller w1) (Channel.fd_ ch) = Channel.kReadEvent) /\
  (forall w2, inv w2 ->
     exists w3, HandleClose user w2 =
         (w4 ← call user (connection_callback_ (conn w3)) w3; call user (close_callback_ (conn w4)) w4) /\
       inv w3 /\ stream w3 = stream w2 /\
       (forall wr data len, Send user true wr data len w3 = Ok w3) /\
       exists ch3, linked w3 ch3 /\
         interest (CB := handler) (OBJ := unit) (poller w3) (Channel.fd_ ch3) = 0) /\
  (forall w5, inv w5 ->
     exists w6 ch6 w7, ConnectionDestroyed user w5 = Ok w7 /\ inv w6 /\ linked w6 ch6 /\
       (state_ (conn w5) <> kConnected -> w6 = w5) /\
       poller_inv (delete (channel_ (conn w6)) (chans w7)) (poller w7) /\
       interest (CB := handler) (OBJ := unit) (poller w7) (Channel.fd_ ch6) = 0).
Proof.
  intros Hu Hf. split_and!.
  - destruct (ConnectionEstablished_law user w ch Hf) as (w1 & ch1 & E & Hc & Hi & Hl & Hev & Hfd & _).
    exists w1. split_and!; [done|done|by rewrite Hc|]. destruct Hl as (_ & _ & _ & _ & Hint).
    by rewrite <- Hfd, Hint.
  - intros w2 Hi. destruct (HandleClose_law user w2 Hi) as (w3 & E & Hi3 & Hst & Hs & _ & Hint).
    exists w3. split_and!; try done. intros. unfold Send. by rewrite bool_decide_eq_false_2 by congruence.
  - intros w5 Hi. destruct (ConnectionDestroyed_law user w5 Hu Hi) as
      (w6 & ch6 & w7 & ? & ? & ? & _ & ? & ? & ?). exists w6, ch6, w7. by split_and!.
Qed.

End Props.

(** ** A concrete connection over the poll(2) poller *)
Import PollFacts.

Definition idle_user (f : unit) (w : W unit PollPoller.t) : result (W unit PollPoller.t) := Ok w.

Definition sample_chan : Channel.t handler unit :=
  Channel.SetCallbacks (Some HRead) (Some HWrite) (Some HClose) (Some HError) (Channel.create 7).

Definition sample_fresh : W unit PollPoller.t :=
  mkW (mk kConnecting (str "c"%string) 2%positive
         (Buffer.mk (zreplicate 24 Ascii.zero) 8 8) (Buffer.mk (zreplicate 24 Ascii.zero) 8 8)
         (Some tt) (Some tt) (Some tt) (Some tt) false)
    {[2%positive := sample_chan]} PollPoller.create [] false [] ∅ [].

Definition get_ok (r : result (W unit PollPoller.t)) : W unit PollPoller.t :=
  match r with Ok w => w | Err _ => sample_fresh end.

Definition sample_up : W unit PollPoller.t := get_ok (ConnectionEstablished idle_user sample_fresh).

Lemma idle_user_ok : user_ok idle_user.
Proof. intros f w Hi. by exists w. Qed.

Lemma sample_fresh_ok : fresh sample_fresh sample_chan.
Proof.
  unfold fresh. split_and!; try done; try (by vm_compute; repeat split; (discriminate || eexists)).
  - split_and!; [done|by intros i e|].
    intros c ch Hc. cbn in Hc. apply lookup_singleton_Some in Hc as [_ <-]. by left.
  - right. split_and!; [done|by apply not_elem_of_nil|done].
Qed.

Lemma sample_up_inv : inv sample_up.
Proof.
  destruct (ConnectionEstablished_law idle_user sample_fresh _ sample_fresh_ok) as
    (w1 & ch1 & E & Hc & Hi & _). unfold sample_up. rewrite E, Hc. done.
Qed.

(** A kernel that takes at most [k] bytes of each write. *)
Definition take_upto (k : Z) (d : bytes) : Buffer.write_result := Buffer.Wrote (Z.min k (zlen d)).

Lemma take_upto_prefix k : 0 <= k -> takes_prefix (take_upto k).
Proof. intros Hk d n [= <-]. pose proof (zlen_nonneg d). lia. Qed.

Lemma take_upto_progress k : 0 < k -> makes_progress (take_upto k).
Proof.
  intros Hk. split; [apply take_upto_prefix; lia|]. intros d Hd. eexists. split; [done|].
  pose proof (zlen_nonneg d).
  destruct (decide (zlen d = 0)) as [?%zlen_nil_inv|]; [done|lia].
Qed.

(** "hello" sent to a kernel that takes two bytes. *)
Definition sample_pending : W unit PollPoller.t :=
  get_ok (SendInLoop idle_user (take_upto 2) (str "hello"%string) sample_up).

Lemma sample_up_kernel k : 0 <= k -> kernel_write sample_up (take_upto k).
Proof. intros Hk. split; [by apply take_upto_prefix|by vm_compute]. Qed.

Lemma sample_pending_inv : inv sample_pending.
Proof.
  destruct (SendInLoop_law idle_user (take_upto 2) (str "hello"%string) sample_up) as
    [w1 E Hi1 _ _|f w1 _ E Hi1 _ _ _|e E _ _ _];
    [apply sample_up_inv|by vm_compute|apply sample_up_kernel; lia|by vm_compute|by vm_compute| | |].
  - unfold sample_pending. by rewrite E.
  - unfold sample_pending. by rewrite E.
  - done.
Qed.

Lemma SendInLoop_preserves_stream_witness :
  exists w1 : W unit PollPoller.t, inv w1 /\ stream w1 = stream sample_up ++ str "hello"%string.
Proof.
  pose proof (SendInLoop_preserves_stream idle_user (take_upto 2) (str "hello"%string) sample_up sample_up_inv
    (sample_up_kernel 2 ltac:(lia)) ltac:(by vm_compute) ltac:(by vm_compute)) as H.
  rewrite bool_decide_eq_false_2 in H by (by vm_compute).
  destruct H as [(w1 & Hi & Hs & _)|(e & E & _)]; [by exists w1|discriminate E].
Defined.

Lemma HandleWrite_drains_witness :
  exists w', HandleWrite (take_upto 100) sample_pending = Ok w' /\ inv w' /\
    unsent w' = [] /\ queued w' = [TWriteComplete tt].
Proof.
  destruct (HandleWrite_drains (take_upto 100) sample_pending) as (w' & E & Hi & Hs & _ & H);
    [apply sample_pending_inv|apply take_upto_prefix; lia|].
  exists w'. split_and!; [done|done|..].
  - vm_compute in E. injection E as <-. by vm_compute.
  - vm_compute in E. injection E as <-. by vm_compute.
Defined.

(** The same connection with "ping" unread, and its input buffer sent from another thread. *)
Definition sample_read : W unit PollPoller.t :=
  get_ok (HandleRead idle_user (fun cap => Buffer.ReadData (ztake cap (str "ping"%string))) sample_up).

Lemma sample_read_inv : inv sample_read.
Proof.
  pose proof (HandleRead_law idle_user (fun cap => Buffer.ReadData (ztake cap (str "ping"%string))) sample_up
    sample_up_inv) as H.
  destruct H as (b & Hi & _ & E).
  - split; [|by vm_compute]. intros cap d Hcap [= <-]. unfold zlen, ztake. rewrite length_take. lia.
  - unfold sample_read. rewrite E. exact Hi.
Qed.

Definition sample_sent : W unit PollPoller.t :=
  get_ok (exec idle_user (OSendBuffer false (take_upto 9) (fun w => input_buffer_ (conn w))
    (fun b => with_conn (set_input b)) 5%positive) sample_read).

Lemma sample_sent_inv : inv sample_sent.
Proof.
  destruct (SendBuffer_ok idle_user false (take_upto 9) (fun w => input_buffer_ (conn w))
    (fun b => with_conn (set_input b)) 5%positive sample_read) as (w' & E & Hi);
    [apply idle_user_ok|apply sample_read_inv|by split; [apply own_input_buffer|]|].
  unfold sample_sent. cbn [exec]. by rewrite E.
Qed.

(** A writable event is handled, and the functor the other thread has left reads freed
    memory. *)
Lemma connection_invariant_witness :
  (exists w', exec idle_user (OWrite (take_upto 1)) sample_pending = Ok w' /\ inv w') /\
  exec idle_user (OTask (take_upto 9) (TSendInLoop 5%positive 4)) sample_sent = Err (UB UseAfterFree).
Proof.
  split.
  - apply (connection_invariant idle_user (OWrite (take_upto 1)) sample_pending);
      [apply idle_user_ok|apply sample_pending_inv|apply take_upto_prefix; lia].
  - assert (kernel_write sample_sent (take_upto 9)) as Hk by (split; [apply take_upto_prefix; lia|by vm_compute]).
    assert (sendable 5%positive 4 sample_sent) as Hs by (intros d Hd; vm_compute in Hd; discriminate Hd).
    pose proof (connection_invariant idle_user (OTask (take_upto 9) (TSendInLoop 5%positive 4)) sample_sent
      idle_user_ok sample_sent_inv (conj Hk Hs)) as H.
    replace (dangling _ _) with true in H by (by vm_compute). exact H.
Defined.

Lemma graceful_shutdown_witness :
  exists w1 w2, ShutDown true sample_pending = Ok w1 /\ wr_shut w1 = false /\
    write_all [take_upto 1; take_upto 1; take_upto 9] w1 = Ok w2 /\ wr_shut w2 = true /\
    sent w2 = str "hello"%string.
Proof.
  destruct (graceful_shutdown [take_upto 1; take_upto 1; take_upto 9] sample_pending) as
    (w1 & w2 & E1 & Hs1 & E2 & _ & Hs2 & Hsent);
    [apply sample_pending_inv|done|done|repeat apply Forall_cons_2; try done; apply take_upto_progress; lia
    |vm_compute; lia|].
  exists w1, w2. split_and!; done.
Defined.

Lemma cross_thread_send_dangles_witness :
  exists w' n, SendBuffer idle_user false (take_upto 9) (fun w => input_buffer_ (conn w))
      (fun b => with_conn (set_input b)) 5%positive sample_read = Ok w' /\
    queued w' = [TSendInLoop 5%positive n] /\
    run_task idle_user (take_upto 9) (TSendInLoop 5%positive n) w' = Err (UB UseAfterFree).
Proof.
  destruct (cross_thread_send_dangles idle_user (take_upto 9) 5%positive 0 sample_read) as (_ & _ & _ & H);
    [done|].
  apply (H (fun w => input_buffer_ (conn w)) (fun b => with_conn (set_input b)) 5%positive);
    [done|apply sample_read_inv|by vm_compute|done].
Defined.

Lemma HandleRead_branches_witness :
  exists b, Buffer.content b = str "ping"%string /\
    HandleRead idle_user (fun cap => Buffer.ReadData (ztake cap (str "ping"%string))) sample_up =
      call idle_user (Some tt) (with_conn (set_input b) sample_up).
Proof.
  destruct (HandleRead_branches idle_user (fun cap => Buffer.ReadData (ztake cap (str "ping"%string))) sample_up)
    as (b & _ & Hc & E); [apply sample_up_inv| |].
  - split; [|by vm_compute]. intros cap d Hcap [= <-]. unfold zlen, ztake. rewrite length_take. lia.
  - by exists b.
Defined.

Lemma connection_lifecycle_witness :
  exists w1, ConnectionEstablished idle_user sample_fresh = call idle_user (connection_callback_ (conn w1)) w1 /\
    inv w1 /\ interest (CB := handler) (OBJ := unit) (poller w1) 7 = Channel.kReadEvent.
Proof.
  destruct (connection_lifecycle idle_user sample_fresh sample_chan idle_user_ok sample_fresh_ok)
    as [(w1 & E & Hi & _ & Hint) _]. by exists w1.
Defined.

End TcpConnectionProps.
