(* ===== verification/Thread.v ===== *)
(** Threads (include/current_thread.h, src/current_thread.cc, include/thread.h,
    src/thread.cc): the thread-local copy of the kernel's thread id, and the wrapper
    around std::thread with its name, its counter and its end. *)
From Stdlib Require Import ZArith Lia Ascii.
From stdpp Require Import base list gmap option strings.
From S2P Require Import Prelude.

Local Open Scope Z_scope.

(** * CurrentThread *)
Module CurrentThread.

(** One thread's [t_cached_tid] and how often the thread has asked the kernel. *)
Record t := mk {
  t_cached_tid : Z;
  syscalls : nat;
}.

Definition create : t := mk 0 0.

(** [CacheTid]; [gettid] is the kernel's answer to this thread. *)
Definition CacheTid (gettid : Z) (s : t) : t :=
  if t_cached_tid s =? 0 then mk (i32 gettid) (S (syscalls s)) else s.

Definition Tid (gettid : Z) (s : t) : Z * t :=
  let s := if t_cached_tid s =? 0 then CacheTid gettid s else s in
  (t_cached_tid s, s).

Definition TidAsString (gettid : Z) (s : t) : bytes * t :=
  let '(tid, s) := Tid gettid s in (to_string tid, s).

(** All threads of the process: each has its own copy of the variable, which is 0 when
    the thread begins. *)
Definition process := nat -> t.
Definition call (gettid : nat -> Z) (th : nat) (s : process) : Z * process :=
  let '(tid, c) := Tid (gettid th) (s th) in
  (tid, fun u => if decide (u = th) then c else s u).

(** The answers to the calls of several threads, in the order they are made. *)
Fixpoint calls (gettid : nat -> Z) (ths : list nat) (s : process) : list Z * process :=
  match ths with
  | [] => ([], s)
  | th :: ths =>
      let '(tid, s) := call gettid th s in
      let '(tids, s) := calls gettid ths s in
      (tid :: tids, s)
  end.

End CurrentThread.

(** * Thread *)
Module Thread.

(** How far the new thread is: before it calls [func_], inside it, or at its end. *)
Inductive progress := Waiting | Running | Finished.

#[export] Instance progress_eq_dec : EqDecision progress.
Proof. solve_decision. Defined.

(** [thread_] is null or whether the std::thread is joinable; [alive] says that the
    object has not been destroyed. *)
Record t := mk {
  tid_ : Z;
  name_ : bytes;
  joined_ : bool;
  started_ : bool;
  thread_ : option bool;
  func : progress;
  alive : bool;
}.

(** [SetDefaultName] with [num_created_] at [num_created], which is incremented in
    one atomic step and wraps; the buffer of the name has 32 bytes. *)
Definition SetDefaultName (num_created : Z) (name : bytes) : bytes * Z :=
  let num := i32 (num_created + 1) in
  (if bool_decide (name = []) then ztake 31 (str "Thread " ++ to_string num) else name, num).

Definition construct (name : bytes) (num_created : Z) : t * Z :=
  let '(name, num) := SetDefaultName num_created name in
  (mk 0 name false false None Waiting true, num).

(** [Start] returns when the new thread has stored its id. The std::thread it puts in
    [thread_] replaces a former one, whose destructor terminates the process when it
    is joinable. *)
Definition Start (gettid : Z) (x : t) : result t :=
  let tid := (CurrentThread.Tid gettid CurrentThread.create).1 in
  match thread_ x with
  | Some true => Err Terminated
  | _ => Ok (mk tid (name_ x) (joined_ x) true (Some true) Waiting (alive x))
  end.

(** [Join]: [None] while it blocks. *)
Definition Join (x : t) : result (option t) :=
  match thread_ x with
  | None => Err (UB NullDeref)
  | Some false => Err SystemError
  | Some true =>
      if bool_decide (func x = Finished)
      then Ok (Some (mk (tid_ x) (name_ x) true (started_ x) (Some false) (func x) (alive x)))
      else Ok None
  end.

(** The destructor detaches a thread that was started and not joined; then the
    std::thread goes. *)
Definition destruct_ (x : t) : result t :=
  th ← (if started_ x && negb (joined_ x)
        then match thread_ x with
             | None => Err (UB NullDeref)
             | Some false => Err SystemError
             | Some true => Ok (Some false)
             end
        else Ok (thread_ x));
  match th with
  | Some true => Err Terminated
  | _ => Ok (mk (tid_ x) (name_ x) (joined_ x) (started_ x) th (func x) false)
  end.

(** A step of the new thread: it reads [func_] through [this] when it calls it. *)
Definition thread_step (x : t) : result t :=
  match func x with
  | Waiting =>
      _ ← require (alive x) (UB UseAfterFree);
      Ok (mk (tid_ x) (name_ x) (joined_ x) (started_ x) (thread_ x) Running (alive x))
  | Running => Ok (mk (tid_ x) (name_ x) (joined_ x) (started_ x) (thread_ x) Finished (alive x))
  | Finished => Ok x
  end.

(** The objects constructed with [names], in the order they increment the counter. *)
Fixpoint construct_all (names : list bytes) (num_created : Z) : list t * Z :=
  match names with
  | [] => ([], num_created)
  | name :: names =>
      let '(x, num) := construct name num_created in
      let '(xs, num) := construct_all names num in
      (x :: xs, num)
  end.

(** What the owner of the object and the new thread do. *)
Inductive action := AStart | AJoin | AStep.
Definition act (gettid : Z) (a : action) (x : t) : result t :=
  match a with
  | AStart => Start gettid x
  | AJoin => r ← Join x; Ok (default x r)
  | AStep => thread_step x
  end.
Fixpoint acts (gettid : Z) (l : list action) (x : t) : result t :=
  match l with [] => Ok x | a :: l => x ← act gettid a x; acts gettid l x end.

End Thread.

(** * Lemmas *)
Module ThreadFacts.
Import Thread.

Lemma construct_all_default names n : 0 <= n -> n + zlen names < 2 ^ 31 ->
  (construct_all names n).2 = n + zlen names /\
  forall i x, (construct_all names n).1 !! i = Some x ->
    exists name, names !! i = Some name /\
      name_ x = (if bool_decide (name = []) then str "Thread " ++ to_string (n + 1 + Z.of_nat i) else name).
Proof.
  revert n. induction names as [|name names IH]; intros n Hn Hl.
  { change (zlen (@nil bytes)) with 0. cbn. split; [lia|done]. }
  rewrite zlen_cons in Hl. pose proof (zlen_nonneg names).
  cbn [construct_all construct SetDefaultName]. rewrite i32_small by lia.
  destruct (IH (n + 1)) as [IH1 IH2]; [lia..|].
  destruct (construct_all names (n + 1)) as [xs num]. cbn [fst snd] in *. split; [rewrite zlen_cons; lia|].
  intros [|i] x Hx; cbn in Hx.
  - injection Hx as <-. exists name. split; [done|]. cbn [name_]. case_bool_decide; [|done].
    replace (n + 1 + Z.of_nat 0) with (n + 1) by lia. apply ztake_all.
    pose proof (to_string_length 10 (n + 1) ltac:(cbn; lia) ltac:(lia)).
    rewrite zlen_app. change (zlen (str "Thread ")) with 7. lia.
  - apply IH2 in Hx as (name' & Hn' & ->). exists name'. split; [done|]. case_bool_decide; [|done].
    do 2 f_equal. lia.
Qed.

Lemma steps_running g n x : func x = Running -> alive x = true ->
  exists y, acts g (replicate n AStep) x = Ok y /\ func y = (if decide (n = 0%nat) then Running else Finished) /\
    alive y = true /\ tid_ y = tid_ x /\ joined_ y = joined_ x /\ started_ y = started_ x /\ thread_ y = thread_ x.
Proof.
  assert (forall m y, func y = Finished -> acts g (replicate m AStep) y = Ok y) as Hf.
  { intros m y Hy. induction m as [|m IH]; [done|]. cbn. unfold thread_step. by rewrite Hy. }
  intros Hx Ha. destruct n as [|n]; [by exists x|].
  exists (mk (tid_ x) (name_ x) (joined_ x) (started_ x) (thread_ x) Finished (alive x)).
  cbn. unfold thread_step. rewrite Hx. cbn. by rewrite Hf.
Qed.

Lemma acts_app g l1 l2 x : acts g (l1 ++ l2) x = y ← acts g l1 x; acts g l2 y.
Proof.
  revert x. induction l1 as [|a l1 IH]; intros x; [done|]. cbn. destruct (act g a x); [|done]. apply IH.
Qed.

(** A started thread after [n] steps of its own. *)
Lemma started_steps g name num n : 0 < g < 2 ^ 31 ->
  exists x, acts g (AStart :: replicate n AStep) (construct name num).1 = Ok x /\ tid_ x = g /\ alive x = true /\
    joined_ x = false /\ started_ x = true /\ thread_ x = Some true /\
    func x = match n with 0%nat => Waiting | 1%nat => Running | _ => Finished end.
Proof.
  intros Hg. cbn [acts act construct SetDefaultName fst].
  unfold Start, CurrentThread.Tid, CurrentThread.CacheTid. cbn. rewrite i32_small by lia.
  destruct n as [|n]; [by eexists|]. cbn.
  edestruct (steps_running g n) as (y & E & F & A & T & J & S & H); [..|exists y; split; [exact E|]]; [done..|].
  cbn in *. split_and!; try done. rewrite F. by destruct n.
Qed.

(** [s] has asked for the ids of some threads. *)
Definition cached_ok (gettid : nat -> Z) (s : CurrentThread.process) : Prop :=
  forall th, s th = CurrentThread.create \/ s th = CurrentThread.mk (gettid th) 1.

Lemma call_law gettid u s : 0 < gettid u < 2 ^ 31 -> cached_ok gettid s ->
  CurrentThread.call gettid u s =
    (gettid u, fun v => if decide (v = u) then CurrentThread.mk (gettid u) 1 else s v).
Proof.
  intros Hg Hs. unfold CurrentThread.call, CurrentThread.Tid, CurrentThread.CacheTid.
  destruct (Hs u) as [->| ->]; cbn; [by rewrite i32_small by lia|].
  by rewrite (proj2 (Z.eqb_neq _ _)) by lia.
Qed.

Lemma calls_law gettid ths s : (forall th, 0 < gettid th < 2 ^ 31) -> cached_ok gettid s ->
  let '(tids, s') := CurrentThread.calls gettid ths s in tids = gettid <$> ths /\
    forall th, s' th = if decide (th ∈ ths) then CurrentThread.mk (gettid th) 1 else s th.
Proof.
  intros Hg. revert s. induction ths as [|u ths IH]; intros s Hs.
  { split; [done|]. intros th. by rewrite decide_False by apply not_elem_of_nil. }
  cbn [CurrentThread.calls]. rewrite call_law by done. set (s1 := fun v => if decide (v = u) then _ else s v).
  specialize (IH s1). destruct (CurrentThread.calls gettid ths s1) as [tids s2].
  destruct IH as [-> IH].
  { intros th. unfold s1. destruct (decide (th = u)) as [->|]; [by right|apply Hs]. }
  split; [done|]. intros th. rewrite IH. unfold s1. destruct (decide (th = u)) as [->|Hne].
  - rewrite (decide_True (P := u ∈ u :: ths)) by apply list_elem_of_here. by case_decide.
  - destruct (decide (th ∈ ths)) as [Hin|Hin].
    + by rewrite decide_True by by apply list_elem_of_further.
    + rewrite decide_False; [done|]. by apply not_elem_of_cons.
Qed.

End ThreadFacts.

(** * Properties *)
Module ThreadProps.
Import Thread ThreadFacts.

(** In every interleaving of the threads of a process, each call of Tid answers the
    caller's own id, and every thread asks the kernel once if it calls Tid at all. *)
Theorem Tid_is_cached gettid ths : (forall th, 0 < gettid th < 2 ^ 31) ->
  let '(tids, s) := CurrentThread.calls gettid ths (fun _ => CurrentThread.create) in
  tids = gettid <$> ths /\
  forall th, CurrentThread.syscalls (s th) = if decide (th ∈ ths) then 1%nat else 0%nat.
Proof.
  intros Hg. pose proof (calls_law gettid ths (fun _ => CurrentThread.create) Hg) as H.
  destruct (CurrentThread.calls gettid ths _) as [tids s]. destruct H as [-> H]; [by left|]. split; [done|].
  intros th. rewrite H. by case_decide.
Qed.

Definition sample_tid (th : nat) : Z := match th with 1%nat => 101 | 2%nat => 102 | _ => 103 end.

Lemma Tid_is_cached_witness :
  (CurrentThread.calls sample_tid [1; 2; 1]%nat (fun _ => CurrentThread.create)).1 = [101; 102; 101].
Proof.
  assert (forall th, 0 < sample_tid th < 2 ^ 31) as Hg by (intros [|[|[|th]]]; cbn; lia).
  pose proof (Tid_is_cached sample_tid [1; 2; 1]%nat Hg) as H.
  destruct (CurrentThread.calls _ _ _) as [tids s]. exact (proj1 H).
Defined.

(** The counter counts the threads constructed, and no two threads that were given no
    name have the same one, whatever the order in which several threads construct
    them. *)
Theorem default_names_distinct names i j x y : zlen names < 2 ^ 31 ->
  (construct_all names 0).2 = zlen names /\
  ((construct_all names 0).1 !! i = Some x -> (construct_all names 0).1 !! j = Some y ->
   names !! i = Some [] -> names !! j = Some [] -> name_ x = name_ y -> i = j).
Proof.
  intros Hl. pose proof (zlen_nonneg names). destruct (construct_all_default names 0) as [E H']; [lia..|].
  split; [lia|]. intros Hx Hy Hi Hj Hxy. apply H' in Hx as (n1 & E1 & Ex), Hy as (n2 & E2 & Ey).
  rewrite Hi in E1. rewrite Hj in E2. injection E1 as <-. injection E2 as <-.
  rewrite bool_decide_eq_true_2 in Ex, Ey by done. rewrite Ex, Ey in Hxy. apply app_inv_head, to_string_inj in Hxy. lia.
Qed.

(** C36: A started thread has its id, and its object can be destroyed at any time, joined
    or not; but a thread that has not called its function by then calls it through the
    destroyed object. Join returns only when the function has; a second Start of a
    thread that was not joined terminates the process, and Join needs a thread that was
    started and not joined. *)
Theorem thread_ends g name num n : 0 < g < 2 ^ 31 ->
  let x0 := (construct name num).1 in
  is_ok (destruct_ x0) = true /\ Join x0 = Err (UB NullDeref) /\
  exists x, acts g (AStart :: replicate n AStep) x0 = Ok x /\ tid_ x = g /\ Start g x = Err Terminated /\
    (exists y, destruct_ x = Ok y /\ (thread_step y = Err (UB UseAfterFree) <-> n = 0%nat)) /\
    match Join x with
    | Ok (Some y) => (2 <= n)%nat /\ is_ok (destruct_ y) = true /\ is_ok (Start g y) = true /\ Join y = Err SystemError
    | Ok None => (n < 2)%nat
    | Err _ => False
    end.
Proof.
  intros Hg x0. split; [done|]. split; [done|].
  destruct (started_steps g name num n Hg) as (x & E & T & A & J & S & H & F). exists x.
  split; [exact E|]. split; [done|]. unfold Start, Join, destruct_. rewrite H, S, J. cbn.
  split; [done|]. split.
  - eexists. split; [done|]. unfold thread_step. cbn. rewrite F. by destruct n as [|[|n]].
  - rewrite F. destruct n as [|[|n]]; case_bool_decide; try done; cbn; [lia..|]. split; [lia|done].
Qed.

Lemma thread_ends_witness : Join (construct (str "t") 0).1 = Err (UB NullDeref) /\
  exists x, acts 41 [AStart; AStep; AStep] (construct (str "t") 0).1 = Ok x /\ tid_ x = 41.
Proof.
  destruct (thread_ends 41 (str "t") 0 2) as (_ & H & x & E & T & _); [lia|]. split; [exact H|]. by exists x.
Defined.

End ThreadProps.
