(* ===== verification/ThreadPool.v ===== *)
(** Threads and the pool of loops (include/thread.h, src/thread.cc,
    include/event_loop_thread.h, src/event_loop_thread.cc,
    include/event_loop_thread_pool.h, src/event_loop_thread_poll.cc): the handshake
    by which a thread publishes its loop, the destructor that quits and joins it,
    and the round-robin choice of a loop. *)
From Stdlib Require Import ZArith Lia.
From stdpp Require Import base gmap list option strings relations.
From S2P Require Import Prelude Poller.

(** * Thread and EventLoopThread: the starting thread against the new one *)
Module EventLoopThread.

(** Where the thread that calls [StartLoop] and later the destructor is. *)
Inductive main_pc :=
  | MStart                (* before Thread::Start *)
  | MSemWait              (* sem_wait(&sem) *)
  | MLock                 (* about to lock mutex_ and test loop_ *)
  | MWaiting              (* inside cond_.wait *)
  | MHave (p : ptr)       (* StartLoop returned p *)
  | MQuit (p : ptr)       (* destructor: loop_ was not null *)
  | MJoin                 (* thread_.Join() *)
  | MDead.                (* destructor returned *)

(** Where the new thread is. *)
Inductive thread_pc :=
  | TNone                 (* not created *)
  | TTid                  (* tid_ = CurrentThread::Tid() *)
  | TPost                 (* sem_post(&sem) *)
  | TConstruct            (* EventLoop loop; *)
  | TInit                 (* thread_init_callback_(&loop) *)
  | TPublish              (* loop_ = &loop; cond_.notify_one() *)
  | TEnter                (* loop.Loop(): quit_ = false *)
  | TLoop                 (* turning *)
  | TClear                (* loop_ = nullptr *)
  | TExited.

Record st := mk {
  main : main_pc;
  thr : thread_pc;
  sem : nat;
  tid_ : option Z;
  started_ : bool;
  joined_ : bool;
  loop_ : option ptr;        (* the shared pointer *)
  loop_quit : bool;          (* quit_ of the loop on the thread's stack *)
  constructed : bool;        (* the loop object exists *)
  init_done : bool;          (* thread_init_callback_ has run on it *)
}.

Definition create : st := mk MStart TNone 0 None false false None false false false.

Section Steps.
(** The address of the thread's loop and the identifier the kernel gives it. *)
Context (self : ptr) (tid : Z).

(** The next atomic action of the starting thread; [None] when it is blocked or
    has nothing left to do. *)
Definition main_step (s : st) : option st :=
  let 'mk m t sem tid' stt jnd lp q c i := s in
  match m with
  | MStart => Some (mk MSemWait TTid sem tid' true jnd lp q c i)
  | MSemWait =>
      match sem with
      | O => None
      | S n => Some (mk MLock t n tid' stt jnd lp q c i)
      end
  | MLock =>
      match lp with
      | None => Some (mk MWaiting t sem tid' stt jnd lp q c i)
      | Some p => Some (mk (MHave p) t sem tid' stt jnd lp q c i)
      end
  | MWaiting => None
  | MHave _ =>
      match lp with
      | None => Some (mk MDead t sem tid' stt jnd lp q c i)
      | Some p => Some (mk (MQuit p) t sem tid' stt jnd lp q c i)
      end
  | MQuit _ => Some (mk MJoin t sem tid' stt true lp true c i)
  | MJoin => match t with TExited => Some (mk MDead t sem tid' stt jnd lp q c i) | _ => None end
  | MDead => None
  end.

(** The next atomic action of the new thread. [notify_one] moves a waiting starter
    back to its test. *)
Definition thread_step (s : st) : option st :=
  let 'mk m t sem tid' stt jnd lp q c i := s in
  match t with
  | TNone => None
  | TTid => Some (mk m TPost sem (Some tid) stt jnd lp q c i)
  | TPost => Some (mk m TConstruct (S sem) tid' stt jnd lp q c i)
  | TConstruct => Some (mk m TInit sem tid' stt jnd lp false true i)
  | TInit => Some (mk m TPublish sem tid' stt jnd lp q c true)
  | TPublish =>
      Some (mk (match m with MWaiting => MLock | _ => m end) TEnter sem tid' stt jnd (Some self) q c i)
  | TEnter => Some (mk m TLoop sem tid' stt jnd lp false c i)
  | TLoop => if q then Some (mk m TClear sem tid' stt jnd lp q c i) else None
  | TClear => Some (mk m TExited sem tid' stt jnd None q false i)
  | TExited => None
  end.

Inductive step : st -> st -> Prop :=
  | step_main s s' : main_step s = Some s' -> step s s'
  | step_thread s s' : thread_step s = Some s' -> step s s'.

Definition reachable (s : st) : Prop := rtc step create s.

(** [StartLoop] has not returned. *)
Definition starting (m : main_pc) : bool :=
  match m with MStart | MSemWait | MLock | MWaiting => true | _ => false end.

End Steps.
End EventLoopThread.

(** * The pool *)
Module EventLoopThreadPool.

Record t := mk {
  base_loop_ : ptr;
  name_ : bytes;
  started_ : bool;
  num_threads_ : Z;
  next_ : Z;
  loops_ : list ptr;
}.

Definition create (base_loop : ptr) (name : bytes) : t := mk base_loop name false 0 0 [].

Definition SetThreadNum (n : Z) (p : t) : t :=
  mk (base_loop_ p) (name_ p) (started_ p) n (next_ p) (loops_ p).

(** The loop of [Start]: the name of thread [i] and the loop it publishes, which is
    given by [loop_of]. *)
Fixpoint start_loop (n : nat) (i : Z) (name : bytes) (loop_of : Z -> ptr) : list (bytes * ptr) :=
  match n with
  | O => []
  | S n => (name ++ to_string i, loop_of i) :: start_loop n (i + 1)%Z name loop_of
  end.

(** [Start]: the pool, the names of its threads, and the loops [cb] was called
    with, in order; [cb] tells whether a callback was given. *)
Definition Start (cb : bool) (loop_of : Z -> ptr) (p : t) : t * list bytes * list ptr :=
  let ts := start_loop (Z.to_nat (num_threads_ p)) 0 (name_ p) loop_of in
  let p' := mk (base_loop_ p) (name_ p) true (num_threads_ p) (next_ p) (loops_ p ++ ts.*2) in
  let inits := if cb then ts.*2 else [] in
  (p', ts.*1, inits ++ if (num_threads_ p =? 1)%Z && cb then [base_loop_ p] else []).

(** [GetNextLoop]: [loops_[next_]] is undefined out of range. *)
Definition GetNextLoop (p : t) : result (ptr * t) :=
  match loops_ p with
  | [] => Ok (base_loop_ p, p)
  | ls =>
      match ls !! Z.to_nat (next_ p) with
      | None => Err (UB OutOfBounds)
      | Some l =>
          let next := i32 (next_ p + 1) in
          Ok (l, mk (base_loop_ p) (name_ p) (started_ p) (num_threads_ p)
            (if (zlen ls <=? next)%Z then 0%Z else next) (loops_ p))
      end
  end.

Definition GetAllLoops (p : t) : list ptr :=
  match loops_ p with [] => [base_loop_ p] | ls => ls end.

(** [k] calls in a row. *)
Fixpoint next_loops (k : nat) (p : t) : result (list ptr * t) :=
  match k with
  | O => Ok ([], p)
  | S k =>
      '(l, p) ← GetNextLoop p;
      '(ls, p) ← next_loops k p;
      Ok (l :: ls, p)
  end.

(** The index is inside the vector, which has fewer than 2^31 - 1 entries. *)
Definition inv (p : t) : Prop :=
  (0 <= next_ p)%Z /\ (loops_ p = [] \/ next_ p < zlen (loops_ p) < 2 ^ 31 - 1)%Z.

End EventLoopThreadPool.

(** * Lemmas *)
Module EventLoopThreadFacts.
Import EventLoopThread.

Section Facts.
Context (self : ptr) (tid : Z).

(** The order of the new thread's actions, as a number. *)
Definition rank (t : thread_pc) : nat :=
  match t with
  | TNone => 9 | TTid => 8 | TPost => 7 | TConstruct => 6 | TInit => 5 | TPublish => 4
  | TEnter => 3 | TLoop => 2 | TClear => 1 | TExited => 0
  end.

(** Which positions of the two threads go together, with the loop's [quit_]. *)
Definition together (m : main_pc) (t : thread_pc) (quit : bool) : bool :=
  match m with
  | MStart => (rank t =? 9) && negb quit
  | MSemWait => (rank t <=? 8) && (2 <=? rank t) && negb quit
  | MLock => (rank t <=? 6) && (2 <=? rank t) && negb quit
  | MWaiting => (rank t <=? 6) && (4 <=? rank t) && negb quit
  | MHave p | MQuit p => (rank t <=? 3) && (2 <=? rank t) && negb quit && bool_decide (p = self)
  | MJoin => (rank t <=? 3) && (quit || (rank t =? 2))
  | MDead => (rank t =? 0) && quit
  end.

(** The shared state as a function of the positions. *)
Definition shared_ok (s : st) : Prop :=
  tid_ s = (if rank (thr s) <? 8 then Some tid else None) /\
  sem s = (match main s with MStart | MSemWait => if rank (thr s) <? 7 then 1 else 0 | _ => 0 end) /\
  loop_ s = (if (0 <? rank (thr s)) && (rank (thr s) <? 4) then Some self else None) /\
  constructed s = (0 <? rank (thr s)) && (rank (thr s) <? 6) /\
  init_done s = (rank (thr s) <? 5).

Definition inv (s : st) : Prop :=
  together (main s) (thr s) (loop_quit s) = true /\ shared_ok s.

Lemma step_inv s s' : inv s -> step self tid s s' -> inv s'.
Proof.
  intros [Ht (H1 & H2 & H3 & H4 & H5)] Hs. destruct s as [m t sm td stt jnd lp q c i].
  cbn in Ht, H1, H2, H3, H4, H5. subst.
  inversion Hs as [? ? E|? ? E]; subst; destruct m, t; cbn in *; try done; destruct q; cbn in *; try done;
    simplify_eq; (split; [|unfold shared_ok; cbn; by split_and!]); cbn; rewrite ?bool_decide_eq_true_2 by done; done.
Qed.

Lemma reachable_inv s : reachable self tid s -> inv s.
Proof.
  unfold reachable. intros Hr. assert (inv create) as H0 by done. revert H0.
  induction Hr as [|s1 s2 s3 Hs _ IH]; eauto using step_inv.
Qed.

(** Each step brings the start to its end. *)
Definition main_rank (m : main_pc) : nat :=
  match m with MStart => 3 | MSemWait => 2 | MLock => 1 | _ => 0 end.

Definition measure (s : st) : nat := 2 * rank (thr s) + main_rank (main s).

Lemma step_measure s s' : inv s -> step self tid s s' -> starting (main s') = true ->
  measure s' < measure s.
Proof.
  intros [Ht (H1 & H2 & H3 & H4 & H5)] Hs Hst. destruct s as [m t sm td stt jnd lp q c i].
  cbn in Ht, H1, H2, H3, H4, H5. subst.
  inversion Hs as [? ? E|? ? E]; subst; destruct m, t; cbn in *; try done; destruct q; cbn in *; try done;
    simplify_eq; cbn in *; (done || (unfold measure; cbn; lia)).
Qed.

Lemma start_progress s : inv s -> starting (main s) = true -> exists s', step self tid s s'.
Proof.
  intros [Ht (H1 & H2 & H3 & H4 & H5)] Hst. destruct s as [m t sm td stt jnd lp q c i].
  cbn in Ht, H1, H2, H3, H4, H5, Hst. subst.
  destruct m, t; try done; try (by eexists; apply step_main); by eexists; apply step_thread.
Qed.

End Facts.
End EventLoopThreadFacts.

Module PoolFacts.
Import EventLoopThreadPool.

Lemma start_loop_spec n i name loop_of :
  start_loop n i name loop_of =
    (fun k => (name ++ to_string (i + Z.of_nat k), loop_of (i + Z.of_nat k)%Z)) <$> seq 0 n.
Proof.
  revert i. induction n as [|n IH]; intros i; [done|]. cbn. rewrite IH. f_equal.
  - by rewrite Z.add_0_r.
  - rewrite <- list.fmap_S_seq, <- list_fmap_compose. apply list_fmap_ext. intros ? k _.
    cbn [compose]. by replace (i + Z.of_nat (S k))%Z with (i + 1 + Z.of_nat k)%Z by lia.
Qed.

Lemma next_spec p : inv p -> loops_ p <> [] ->
  exists l, loops_ p !! Z.to_nat (next_ p) = Some l /\
    GetNextLoop p = Ok (l, mk (base_loop_ p) (name_ p) (started_ p) (num_threads_ p)
      ((next_ p + 1) mod zlen (loops_ p)) (loops_ p)).
Proof.
  intros [H0 [?|H1]] Hne; [done|].
  destruct (lookup_lt_is_Some_2 (loops_ p) (Z.to_nat (next_ p))) as [l Hl]; [unfold zlen in *; lia|].
  exists l. split; [done|]. unfold GetNextLoop. destruct (loops_ p) as [|l0 ls] eqn:El; [done|].
  rewrite <- El in *. rewrite Hl. rewrite i32_small by lia. do 4 f_equal.
  destruct (Z.leb_spec (zlen (loops_ p)) (next_ p + 1)%Z) as [Hle|Hlt].
  - replace (next_ p + 1)%Z with (zlen (loops_ p)) by lia. by rewrite Z.mod_same by lia.
  - by rewrite Z.mod_small by lia.
Qed.

(** The loop at a cyclic position. *)
Definition at_cycle (p : t) (k : nat) : option ptr :=
  loops_ p !! Z.to_nat ((next_ p + Z.of_nat k) mod zlen (loops_ p)).

Lemma next_loops_cycle k p : inv p -> loops_ p <> [] ->
  exists ls p', next_loops k p = Ok (ls, p') /\ Some <$> ls = at_cycle p <$> seq 0 k /\
    inv p' /\ loops_ p' = loops_ p /\ next_ p' = ((next_ p + Z.of_nat k) mod zlen (loops_ p))%Z.
Proof.
  revert p. induction k as [|k IH]; intros p Hi Hne.
  - exists [], p. split_and!; try done. destruct Hi as [? [?|?]]; [done|].
    rewrite Z.add_0_r, Z.mod_small by lia. done.
  - destruct (next_spec p Hi Hne) as (l & Hl & E). cbn. rewrite E. cbn.
    set (p1 := mk _ _ _ _ _ _). destruct Hi as [H0 [?|H1]]; [done|].
    assert (0 < zlen (loops_ p))%Z as Hpos by lia.
    pose proof (Z.mod_pos_bound (next_ p + 1) (zlen (loops_ p)) Hpos) as Hb.
    destruct (IH p1) as (ls & p' & E' & Hls & Hi' & Hl' & Hn').
    { split; [cbn; lia|]. right. cbn. lia. }
    { done. }
    exists (l :: ls), p'. rewrite E'. split_and!; try done.
    + cbn. f_equal.
      * unfold at_cycle. rewrite Z.add_0_r, Z.mod_small by lia. done.
      * rewrite Hls, <- list.fmap_S_seq, <- list_fmap_compose. apply list_fmap_ext. intros ? j _. cbn.
        unfold at_cycle. cbn [loops_ next_ p1]. rewrite Z.add_mod_idemp_l by lia.
        by replace (next_ p + 1 + Z.of_nat j)%Z with (next_ p + Z.of_nat (S j))%Z by lia.
    + rewrite Hn'. cbn [loops_ next_ p1]. rewrite Z.add_mod_idemp_l by lia.
      by replace (next_ p + 1 + Z.of_nat k)%Z with (next_ p + Z.of_nat (S k))%Z by lia.
Qed.

(** One full round starts at the current position and goes once around. *)
Lemma next_loops_round p : inv p -> loops_ p <> [] ->
  exists ls p', next_loops (length (loops_ p)) p = Ok (ls, p') /\
    ls = drop (Z.to_nat (next_ p)) (loops_ p) ++ take (Z.to_nat (next_ p)) (loops_ p) /\
    inv p' /\ loops_ p' = loops_ p /\ next_ p' = next_ p.
Proof.
  intros Hi Hne. destruct (next_loops_cycle (length (loops_ p)) p Hi Hne) as
    (ls & p' & E & Hls & Hi' & Hl' & Hn'). exists ls, p'. destruct Hi as [H0 [?|H1]]; [done|].
  split_and!; try done.
  2:{ rewrite Hn'. fold (zlen (loops_ p)).
      replace (next_ p + zlen (loops_ p))%Z with (next_ p + 1 * zlen (loops_ p))%Z by lia.
      by rewrite Z.mod_add, Z.mod_small by lia. }
  apply (inj (fmap Some)). rewrite Hls. apply list_eq. intros j.
  rewrite !list_lookup_fmap. unfold zlen in *. set (n := Z.to_nat (next_ p)).
  assert (next_ p = Z.of_nat n) as Hnn by lia.
  destruct (decide (j < length (loops_ p))) as [Hj|Hj].
  2:{ rewrite lookup_ge_None_2, (lookup_ge_None_2 (drop _ _ ++ _)); [done|..].
      - rewrite ?length_app, ?length_drop, ?length_take, ?length_seq. lia.
      - rewrite ?length_app, ?length_drop, ?length_take, ?length_seq. lia. }
  rewrite lookup_seq_lt by done. cbn.
  cut (at_cycle p j = (drop n (loops_ p) ++ take n (loops_ p)) !! j).
  { intros ->. destruct (lookup_lt_is_Some_2 (drop n (loops_ p) ++ take n (loops_ p)) j) as [x ->]; [|done].
    rewrite length_app, length_drop, length_take. lia. }
  unfold at_cycle. rewrite Hnn. destruct (decide (n + j < length (loops_ p))) as [Hlt|Hge].
  - rewrite Z.mod_small by (unfold zlen; lia).
    rewrite lookup_app_l by (rewrite length_drop; lia). rewrite lookup_drop. f_equal. lia.
  - rewrite lookup_app_r by (rewrite length_drop; lia). rewrite length_drop, lookup_take_lt by lia.
    replace (Z.of_nat n + Z.of_nat j)%Z
      with (Z.of_nat (n + j - length (loops_ p)) + 1 * zlen (loops_ p))%Z by (unfold zlen; lia).
    rewrite Z.mod_add, Z.mod_small by (unfold zlen; lia). f_equal. lia.
Qed.

End PoolFacts.

(** * Properties *)
Module ThreadPoolProps.
Import EventLoopThread EventLoopThreadFacts.

(** C22: Starting a loop thread always completes, in every interleaving: until
    [StartLoop] returns some thread can move and every sequence of moves is finite;
    what it returns is the address of the thread's loop, constructed and passed
    to the init callback, with the thread identifier set. *)
Theorem StartLoop_handshake self tid s :
  reachable self tid s ->
  (forall p, main s = MHave p -> p = self /\ constructed s = true /\ init_done s = true /\
     tid_ s = Some tid /\ loop_ s = Some self) /\
  (starting (main s) = true ->
     (exists s', step self tid s s') /\
     Acc (fun s2 s1 => step self tid s1 s2 /\ starting (main s2) = true) s).
Proof.
  intros Hr%reachable_inv. split.
  - intros p Hm. destruct Hr as [Ht (H1 & _ & H3 & H4 & H5)]. rewrite Hm in Ht. cbn in Ht.
    apply andb_true_iff in Ht as [Ht ->%bool_decide_eq_true].
    destruct (thr s); cbn in *; try done.
  - intros Hst. split; [by apply start_progress|].
    remember (measure s) as n eqn:Hn. revert s Hn Hr Hst.
    induction n as [n IH] using lt_wf_ind. intros s -> Hi Hst.
    constructor. intros s' [Hs Hst']. eapply IH; [|done| |done].
    + by eapply step_measure.
    + by eapply step_inv.
Qed.

(** Destroying a loop thread whose loop is already turning returns; destroying
    it in the window between [StartLoop]'s return and the thread's entry into
    [Loop()] can leave both threads waiting for ever, the loop having overwritten
    [quit_]. *)
Theorem destructor_returns_or_hangs self tid :
  (forall s p, reachable self tid s -> main s = MQuit p -> thr s = TLoop ->
     exists s', rtc (step self tid) s s' /\ main s' = MDead) /\
  (exists s, reachable self tid s /\ main s = MJoin /\ thr s = TLoop /\
     forall s', ~ step self tid s s').
Proof.
  split.
  - intros [m t sm td stt jnd lp q c i] p Hr Hm Ht. cbn in Hm, Ht. subst.
    eexists. split.
    + eapply rtc_l; [by apply step_main|]. eapply rtc_l; [by apply step_thread|].
      eapply rtc_l; [by apply step_thread|]. eapply rtc_l; [by apply step_main|]. apply rtc_refl.
    + done.
  - eexists. split.
    + do 1 (eapply rtc_l; [by apply step_main|]). do 5 (eapply rtc_l; [by apply step_thread|]).
      do 4 (eapply rtc_l; [by apply step_main|]). eapply rtc_l; [by apply step_thread|]. apply rtc_refl.
    + split_and!; [done|done|]. intros s' Hs. by inversion Hs.
Qed.

Import EventLoopThreadPool PoolFacts.

(** C23: Successive calls of [GetNextLoop] go round the loops in order from the
    current position, each round answering every loop exactly once, and the index
    stays inside the vector; without loops the base loop is answered. *)
Theorem GetNextLoop_round_robin p :
  EventLoopThreadPool.inv p ->
  (loops_ p = [] -> GetNextLoop p = Ok (base_loop_ p, p)) /\
  (loops_ p <> [] -> exists ls p',
     next_loops (length (loops_ p)) p = Ok (ls, p') /\
     ls = drop (Z.to_nat (next_ p)) (loops_ p) ++ take (Z.to_nat (next_ p)) (loops_ p) /\
     ls ≡ₚ loops_ p /\ EventLoopThreadPool.inv p' /\ next_ p' = next_ p).
Proof.
  intros Hi. split.
  - intros E. unfold GetNextLoop. by rewrite E.
  - intros Hne. destruct (next_loops_round p Hi Hne) as (ls & p' & E & Hls & Hi' & _ & Hn).
    exists ls, p'. split_and!; try done. rewrite Hls, Permutation_app_comm. by rewrite take_drop.
Qed.

(** Starting a pool of [n] threads names them with consecutive numbers, adds
    their loops in order and calls the init callback with each; the base loop gets
    the callback exactly when [n] is 1, not when there are no threads. *)
Theorem Start_inits cb loop_of p n :
  num_threads_ p = Z.of_nat n -> loops_ p = [] ->
  let '(p', names, inits) := Start cb loop_of p in
  loops_ p' = (fun i => loop_of (Z.of_nat i)) <$> seq 0 n /\
  names = (fun i => name_ p ++ to_string (Z.of_nat i)) <$> seq 0 n /\ NoDup names /\
  (inits = if cb then loops_ p' ++ (if decide (n = 1) then [base_loop_ p] else []) else []).
Proof.
  intros Hn Hl. unfold Start. rewrite Hn, Hl, Nat2Z.id, start_loop_spec. cbn.
  rewrite <- !list_fmap_compose. split_and!; try done.
  - apply NoDup_fmap_2; [|apply NoDup_seq]. intros i j Hij. cbn in Hij.
    apply app_inv_head, to_string_inj in Hij. lia.
  - destruct cb; [|by rewrite andb_false_r]. rewrite andb_true_r.
    destruct (Z.eqb_spec (Z.of_nat n) 1); case_decide; try lia; done.
Qed.

Lemma StartLoop_handshake_witness :
  starting (main EventLoopThread.create) = true /\ exists s', step 9%positive 41 EventLoopThread.create s'.
Proof. split; [done|]. apply (StartLoop_handshake 9%positive 41 EventLoopThread.create); [apply rtc_refl|done]. Defined.

Definition pool3 : EventLoopThreadPool.t :=
  EventLoopThreadPool.mk 1%positive (str "p") true 3 1 [2; 3; 4]%positive.

Lemma GetNextLoop_round_robin_witness :
  exists p', next_loops 3 pool3 = Ok ([3; 4; 2]%positive, p') /\ next_ p' = 1%Z.
Proof.
  destruct (GetNextLoop_round_robin pool3) as [_ H]; [split; [done|by right]|].
  destruct H as (ls & p' & E & -> & _ & _ & Hn); [done|]. by exists p'.
Defined.

Lemma Start_inits_witness :
  (Start true (fun i => Z.to_pos (i + 2)) (SetThreadNum 1 (EventLoopThreadPool.create 1%positive (str "p")))).2
    = [2; 1]%positive.
Proof.
  pose proof (Start_inits true (fun i => Z.to_pos (i + 2))
    (SetThreadNum 1 (EventLoopThreadPool.create 1%positive (str "p"))) 1 eq_refl eq_refl) as H.
  destruct (Start _ _ _) as [[p' names] inits]. destruct H as (H1 & _ & _ & ->). by rewrite H1.
Defined.

End ThreadPoolProps.
