(* ===== verification/Net.v ===== *)
(** Addresses, sockets and the acceptor (include/inet_addr.h, src/inet_addr.cc,
    include/socket.h, src/socket.cc, include/socket_utils.h, src/socket_utils.cc,
    include/acceptor.h, src/acceptor.cc): addresses in network byte order and their
    printed form, the options a socket has in the kernel, and the handler that
    accepts connections. *)
From Stdlib Require Import ZArith Lia Ascii.
From stdpp Require Import base gmap list option strings pretty numbers.
From S2P Require Import Prelude Channel Poller PollPoller EventLoop.

Local Open Scope Z_scope.

(** * Addresses *)
Module InetAddr.

Definition AF_INET : Z := 2.
Definition INADDR_ANY : Z := 0.

(** [sockaddr_in]: port and address are stored in network byte order and read here
    as the little-endian integers the struct's fields are. *)
Record t := mk {
  sin_family : Z;
  sin_port : Z;
  s_addr : Z;
}.

(** [htons] and [ntohs] on a little-endian machine. *)
Definition htons (x : Z) : Z :=
  Z.lor (Z.shiftl (Z.land x 255) 8) (Z.land (Z.shiftr x 8) 255).
Definition ntohs : Z -> Z := htons.

(** [inet_addr] and [inet_ntop] of the C library on the four bytes of an address. *)
Definition pack_ip (a b c d : Z) : Z :=
  Z.lor a (Z.lor (Z.shiftl b 8) (Z.lor (Z.shiftl c 16) (Z.shiftl d 24))).
Definition byte_of (x i : Z) : Z := Z.land (Z.shiftr x (8 * i)) 255.

Definition dot : bytes := ["."%char].
Definition inet_ntop (x : Z) : bytes :=
  to_string (byte_of x 0) ++ dot ++ to_string (byte_of x 1) ++ dot ++
  to_string (byte_of x 2) ++ dot ++ to_string (byte_of x 3).

(** The three constructors: an address the library parsed to [ip], a port on any
    address, and the default 0.0.0.0:10001. *)
Definition of_ip (ip : Z) (port : Z) : t := mk AF_INET (htons port) ip.
Definition of_port (port : Z) : t := mk AF_INET (htons port) INADDR_ANY.
Definition default : t := mk AF_INET (htons 10001) INADDR_ANY.

Definition ToPort (a : t) : Z := ntohs (sin_port a).
Definition ToIp (a : t) : bytes := inet_ntop (s_addr a).

(** [ToIpPort] writes the address and ":port" into a 64-byte array, the
    terminating NUL included. *)
Definition ToIpPort (a : t) : result bytes :=
  let s := inet_ntop (s_addr a) ++ [":"%char] ++ to_string (ntohs (sin_port a)) in
  if zlen s + 1 <=? 64 then Ok s else Err (UB OutOfBounds).

End InetAddr.

(** * Sockets *)
Module Socket.

(** What the kernel keeps for a descriptor. *)
Record sock := mk_sock {
  nonblocking : bool;
  reuse_addr : bool;
  reuse_port : bool;
  keep_alive : bool;
  tcp_no_delay : bool;
  listening : bool;
  shut_wr : bool;
}.

Definition fresh_sock (nb : bool) : sock := mk_sock nb false false false false false false.

Abbreviation fds := (gmap Z sock).

(** [setsockopt] of the kernel, whose failure on a descriptor that is not open nobody
    looks at. *)
Inductive sockopt := TCP_NODELAY | SO_REUSEADDR | SO_REUSEPORT | SO_KEEPALIVE.
Definition with_opt (o : sockopt) (b : bool) (s : sock) : sock :=
  mk_sock (nonblocking s)
    (match o with SO_REUSEADDR => b | _ => reuse_addr s end)
    (match o with SO_REUSEPORT => b | _ => reuse_port s end)
    (match o with SO_KEEPALIVE => b | _ => keep_alive s end)
    (match o with TCP_NODELAY => b | _ => tcp_no_delay s end)
    (listening s) (shut_wr s).
Definition setsockopt (fd : Z) (o : sockopt) (optval : Z) (k : fds) : fds :=
  alter (with_opt o (negb (optval =? 0))) fd k.

Definition SetTcpNoDelay (fd : Z) (on : bool) (k : fds) : fds :=
  let optval := if on then 1 else 0 in setsockopt fd TCP_NODELAY optval k.
Definition SetReuseAddr (fd : Z) (on : bool) (k : fds) : fds :=
  let optval := if on then 1 else 0 in setsockopt fd SO_REUSEADDR optval k.
Definition SetReusePort (fd : Z) (on : bool) (k : fds) : fds :=
  let optval := if on then 1 else 0 in setsockopt fd SO_REUSEPORT optval k.
Definition SetKeepAlive (fd : Z) (on : bool) (k : fds) : fds :=
  let optval := if on then 1 else 0 in setsockopt fd SO_KEEPALIVE optval k.

(** The descriptor's other states. *)
Definition set_nonblocking (s : sock) : sock :=
  mk_sock true (reuse_addr s) (reuse_port s) (keep_alive s) (tcp_no_delay s) (listening s) (shut_wr s).
Definition set_listening (s : sock) : sock :=
  mk_sock (nonblocking s) (reuse_addr s) (reuse_port s) (keep_alive s) (tcp_no_delay s) true (shut_wr s).
Definition set_shut_wr (s : sock) : sock :=
  mk_sock (nonblocking s) (reuse_addr s) (reuse_port s) (keep_alive s) (tcp_no_delay s) (listening s) true.

(** [SetNonblocking] adds [O_NONBLOCK] whatever its argument is. *)
Definition SetNonblocking (fd : Z) (on : bool) (k : fds) : bool * fds :=
  match k !! fd with
  | None => (false, k)
  | Some _ => (true, alter set_nonblocking fd k)
  end.

(** [Connect]: the kernel's answer is dropped. *)
Definition Connect (connect : fds -> Z * fds) (k : fds) : fds := let '(ret, k) := connect k in k.

(** [ShutdownWrite]: a failure is only logged; [ok] is the kernel's answer. *)
Definition ShutdownWrite (fd : Z) (ok : bool) (k : fds) : fds :=
  if ok then alter set_shut_wr fd k else k.

(** The destructor closes the descriptor. *)
Definition destruct_ (fd : Z) (k : fds) : fds := delete fd k.

(** [Bind]: a failure is fatal; [ok] is the kernel's answer. *)
Definition Bind (ok : bool) (k : fds) : result fds := if ok then Ok k else Err Aborted.

Definition Listen (fd : Z) (ok : bool) (k : fds) : result fds :=
  if ok then
    Ok (alter set_listening fd k)
  else Err Aborted.

(** [Accept]: the kernel's [accept4] answers a new descriptor, which is blocking
    because only [SOCK_CLOEXEC] is asked for, and the peer's address, or fails. The
    non-blocking mode is set on the listening descriptor [fd]. *)
Definition Accept (fd : Z) (nonblock : bool) (accept4 : option (Z * InetAddr.t)) (k : fds) :
    result (Z * InetAddr.t * fds) :=
  let k := match accept4 with
           | Some (connfd, _) => <[connfd := fresh_sock false]> k
           | None => k
           end in
  let k := if nonblock then (SetNonblocking fd true k).2 else k in
  match accept4 with
  | Some (connfd, addr) => if 0 <? connfd then Ok (connfd, addr, k) else Err Aborted
  | None => Err Aborted
  end.

End Socket.

(** The same calls on a plain descriptor. *)
Module SocketUtils.
Import Socket.

Definition SetTcpNoDelay (fd : Z) (on : bool) (k : fds) : fds :=
  let optval := if on then 1 else 0 in setsockopt fd TCP_NODELAY optval k.
Definition SetReuseAddr (fd : Z) (on : bool) (k : fds) : fds :=
  let optval := if on then 1 else 0 in setsockopt fd SO_REUSEADDR optval k.
Definition SetReusePort (fd : Z) (on : bool) (k : fds) : fds :=
  let optval := if on then 1 else 0 in setsockopt fd SO_REUSEPORT optval k.
Definition SetKeepAlive (fd : Z) (on : bool) (k : fds) : fds :=
  let optval := if on then 1 else 0 in setsockopt fd SO_KEEPALIVE optval k.
Definition SetNonblocking (fd : Z) (on : bool) (k : fds) : bool * fds :=
  match k !! fd with
  | None => (false, k)
  | Some _ => (true, alter set_nonblocking fd k)
  end.

(** The addresses of a connection, as getsockname and getpeername answer; when they fail
    the zeroed struct is returned. *)
Definition zeroed : InetAddr.t := InetAddr.mk 0 0 0.
Definition GetLocalAddr (getsockname : option InetAddr.t) : InetAddr.t := default zeroed getsockname.
Definition GetPeerAddr (getpeername : option InetAddr.t) : InetAddr.t := default zeroed getpeername.

End SocketUtils.

(** The parts of a TcpConnection that TcpConnection.v leaves out: its socket, its
    addresses and the context its user hangs on it. *)
Module ConnectionSocket.
Import Socket.

Section ConnectionSocket.
Context {any : Type}.

Record t := mk {
  socket_ : Z;
  local_addr_ : InetAddr.t;
  peer_addr_ : InetAddr.t;
  context_ : option any;
}.

(** The constructor's part: the accepted descriptor becomes the connection's, with
    keep-alive set. *)
Definition construct (fd : Z) (local_addr peer_addr : InetAddr.t) (k : fds) : t * fds :=
  (mk fd local_addr peer_addr None, SocketUtils.SetKeepAlive fd true k).

Definition SetTcpNoDelay (on : bool) (c : t) (k : fds) : fds := Socket.SetTcpNoDelay (socket_ c) on k.
Definition SetReuseAddr (on : bool) (c : t) (k : fds) : fds := Socket.SetReuseAddr (socket_ c) on k.
Definition SetReusePort (on : bool) (c : t) (k : fds) : fds := Socket.SetReusePort (socket_ c) on k.
Definition SetKeepAlive (on : bool) (c : t) (k : fds) : fds := Socket.SetKeepAlive (socket_ c) on k.
Definition SetNonblocking (on : bool) (c : t) (k : fds) : bool * fds := Socket.SetNonblocking (socket_ c) on k.

Definition SetContext (a : any) (c : t) : t := mk (socket_ c) (local_addr_ c) (peer_addr_ c) (Some a).
Definition GetContext (c : t) : option any := context_ c.
Definition LocalAddr (c : t) : InetAddr.t := local_addr_ c.
Definition PeerAddr (c : t) : InetAddr.t := peer_addr_ c.

(** The destructor destroys the socket. *)
Definition destruct_ (c : t) (k : fds) : fds := Socket.destruct_ (socket_ c) k.

End ConnectionSocket.
Arguments t : clear implicits.
End ConnectionSocket.

(** * The acceptor *)
Module Acceptor.

Section Acceptor.
Context {CB OBJ P : Type} `{!Poller (CB := CB) (OBJ := OBJ) P}.
Abbreviation chans := (gmap ptr (Channel.t CB OBJ)).

Record t := mk {
  accept_fd : Z;
  accept_channel_ : ptr;
  listenning_ : bool;
  new_connection_callback_ : bool;   (* whether it is set *)
}.

(** The constructor, on the descriptor [fd] that [socket] answered (negative on
    failure) and [bind]'s answer: [SO_REUSEADDR] is set twice. *)
Definition construct (fd : Z) (bind_ok reuse_port : bool) (c : ptr) (handle_read : CB)
    (k : Socket.fds) (cs : chans) : result (t * Socket.fds * chans) :=
  if fd <? 0 then Err Aborted
  else
    let k := <[fd := Socket.fresh_sock true]> k in
    let k := Socket.SetReuseAddr fd reuse_port k in
    let k := Socket.SetReuseAddr fd reuse_port k in
    k ← Socket.Bind bind_ok k;
    let ch := Channel.SetCallbacks (Some handle_read) None None None (Channel.create fd) in
    Ok (mk fd c false false, k, <[c := ch]> cs).

Definition SetNewConnectionCallback (a : t) : t :=
  mk (accept_fd a) (accept_channel_ a) (listenning_ a) true.

Definition Listen (listen_ok : bool) (a : t) (k : Socket.fds) (cs : chans) (p : P) :
    result (t * Socket.fds * chans * P) :=
  let a := mk (accept_fd a) (accept_channel_ a) true (new_connection_callback_ a) in
  k ← Socket.Listen (accept_fd a) listen_ok k;
  '(cs, p) ← LoopChannel.EnableRead (accept_channel_ a) cs p;
  Ok (a, k, cs, p).

(** The destructor; the members go after its body: the channel, then the socket, which
    closes the descriptor. *)
Definition destruct_ (a : t) (k : Socket.fds) (cs : chans) (p : P) : result (Socket.fds * chans * P) :=
  '(cs, p) ← LoopChannel.DisableAll (accept_channel_ a) cs p;
  '(cs, p) ← LoopChannel.Remove (accept_channel_ a) cs p;
  Ok (Socket.destruct_ (accept_fd a) k, delete (accept_channel_ a) cs, p).

(** [HandleRead]: the connection handed to the callback, if any. The branch for a
    negative descriptor is there in the source but [Accept] does not return one. *)
Definition HandleRead (accept4 : option (Z * InetAddr.t)) (a : t) (k : Socket.fds) :
    result (option (Z * InetAddr.t) * Socket.fds) :=
  '(connfd, peeraddr, k) ← Socket.Accept (accept_fd a) true accept4 k;
  if 0 <=? connfd then
    let k := SocketUtils.SetReuseAddr connfd true k in
    let k := SocketUtils.SetReusePort connfd true k in
    if new_connection_callback_ a then Ok (Some (connfd, peeraddr), k)
    else Ok (None, delete connfd k)
  else Ok (None, k).

End Acceptor.
End Acceptor.

(** * Lemmas *)
Module InetAddrFacts.
Import InetAddr.


Lemma byte_of_range x i : 0 <= byte_of x i < 256.
Proof.
  unfold byte_of. change 255 with (Z.ones 8). rewrite Z.land_ones by lia.
  apply Z.mod_pos_bound. lia.
Qed.

Lemma htons_arith x : 0 <= x < 2 ^ 16 -> htons x = (x mod 256) * 256 + x / 256.
Proof.
  intros Hx. unfold htons. change 255 with (Z.ones 8). rewrite !Z.land_ones by lia.
  rewrite Z.shiftl_mul_pow2, Z.shiftr_div_pow2 by lia. change (2 ^ 8) with 256.
  assert (0 <= x / 256 < 256) by (split; [apply Z.div_pos; lia|apply Z.div_lt_upper_bound; lia]).
  rewrite (Z.mod_small (x / 256)) by lia.
  assert (Z.land (x mod 256 * 256) (x / 256) = 0) as Hland.
  { apply Z.bits_inj'. intros n Hn. rewrite Z.land_spec, Z.bits_0. destruct (Z.ltb_spec n 8).
    - change 256 with (2 ^ 8) at 2. by rewrite Z.mul_pow2_bits_low by lia.
    - apply andb_false_intro2. apply Z.bits_above_log2; [lia|].
      destruct (decide (x / 256 = 0)) as [->|]; [cbn; lia|].
      apply (Z.lt_le_trans _ 8); [apply Z.log2_lt_pow2; lia|lia]. }
  by rewrite <- Z.lxor_lor, <- Z.add_nocarry_lxor.
Qed.

Lemma htons_involutive x : 0 <= x < 2 ^ 16 -> ntohs (htons x) = x /\ 0 <= htons x < 2 ^ 16.
Proof.
  intros Hx. unfold ntohs. pose proof (Z.mod_pos_bound x 256 ltac:(lia)).
  assert (0 <= x / 256 < 256) by (split; [apply Z.div_pos; lia|apply Z.div_lt_upper_bound; lia]).
  pose proof (Z.div_mod x 256 ltac:(lia)).
  rewrite (htons_arith x) by done. split; [|lia]. rewrite htons_arith by lia.
  rewrite !(Z.add_comm (x mod 256 * 256) (x / 256)), Z.mod_add, Z.div_add by lia.
  rewrite (Z.mod_small (x / 256)), (Z.div_small (x / 256)) by lia. lia.
Qed.

(** The printed form always fits the array it is built in. *)
Lemma ToIpPort_length a : 0 <= ntohs (sin_port a) < 2 ^ 16 ->
  exists s, ToIpPort a = Ok s /\ zlen s <= 21 /\
    s = ToIp a ++ [":"%char] ++ to_string (ToPort a).
Proof.
  intros Hp. unfold ToIpPort. set (s := inet_ntop _ ++ _).
  assert (zlen s <= 21) as Hlen.
  { unfold s, inet_ntop. rewrite !zlen_app. change (zlen dot) with 1.
    change (zlen [":"%char]) with 1.
    pose proof (to_string_length 5 (ntohs (sin_port a)) ltac:(lia) ltac:(lia)).
    assert (forall i, zlen (to_string (byte_of (s_addr a) i)) <= 3) as Hb.
    { intros i. apply (to_string_length 3); [|lia]. pose proof (byte_of_range (s_addr a) i). lia. }
    pose proof (Hb 0). pose proof (Hb 1). pose proof (Hb 2). pose proof (Hb 3). lia. }
  zcase; [|lia]. by exists s.
Qed.

End InetAddrFacts.

Module AcceptorFacts.

(** What accepting a connection and constructing it leaves of the descriptors: the new one
    has the two options of the handler and keep-alive, but not the non-blocking mode, which
    goes to the listening descriptor. *)
Lemma HandleRead_accepts {any : Type} a k f connfd peer local :
  k !! Acceptor.accept_fd a = Some f -> Acceptor.new_connection_callback_ a = true ->
  0 < connfd -> connfd <> Acceptor.accept_fd a ->
  exists k1, Acceptor.HandleRead (Some (connfd, peer)) a k = Ok (Some (connfd, peer), k1) /\
    let k2 := (ConnectionSocket.construct (any := any) connfd local peer k1).2 in
    k2 !! connfd = Some (Socket.mk_sock false true true true false false false) /\
    k2 !! Acceptor.accept_fd a = Some (Socket.set_nonblocking f) /\
    forall fd, fd <> connfd -> fd <> Acceptor.accept_fd a -> k2 !! fd = k !! fd.
Proof.
  intros Hf Hcb Hpos Hne.
  unfold Acceptor.HandleRead, Socket.Accept, Socket.SetNonblocking. rewrite lookup_insert_ne, Hf by done.
  cbn [mbind result_bind snd fst]. destruct (Z.ltb_spec 0 connfd); [|lia]. cbn [mbind result_bind].
  destruct (Z.leb_spec 0 connfd); [|lia]. rewrite Hcb.
  eexists. split; [done|]. cbn [ConnectionSocket.construct snd].
  unfold SocketUtils.SetKeepAlive, SocketUtils.SetReusePort, SocketUtils.SetReuseAddr, Socket.setsockopt.
  split_and!.
  - by rewrite !lookup_alter_eq, lookup_alter_ne, lookup_insert_eq by done.
  - by rewrite !lookup_alter_ne, lookup_alter_eq, lookup_insert_ne, Hf by done.
  - intros fd H1 H2. by rewrite !lookup_alter_ne, lookup_insert_ne by done.
Qed.

(** Any failure of accept ends the process: the branch of the handler that logs a lack of
    descriptors never runs. *)
Lemma HandleRead_fails a k : Acceptor.HandleRead None a k = Err Aborted.
Proof. done. Qed.

End AcceptorFacts.

(** * Properties *)
Module NetProps.
Import InetAddr InetAddrFacts.

(** C34: An address keeps its port through the byte-order conversions, and its
    printed form "a.b.c.d:port" is at most 21 characters, so the 64-byte array
    [ToIpPort] prints into never overflows. *)
Theorem address_prints a port :
  0 <= port < 2 ^ 16 -> 0 <= sin_port a < 2 ^ 16 ->
  ToPort (of_port port) = port /\
  exists s, ToIpPort a = Ok s /\ zlen s <= 21 /\ s = ToIp a ++ [":"%char] ++ to_string (ToPort a).
Proof.
  intros Hp Ha. split; [by apply htons_involutive|].
  apply ToIpPort_length. by apply htons_involutive.
Qed.

Lemma address_prints_witness :
  exists s, ToIpPort (of_ip (pack_ip 127 0 0 1) 8080) = Ok s /\ s = str "127.0.0.1:8080".
Proof.
  destruct (address_prints (of_ip (pack_ip 127 0 0 1) 8080) 80) as (_ & s & E & _ & Hs);
    [lia|vm_compute; by split|]. exists s. split; [done|]. rewrite Hs. by vm_compute.
Defined.

End NetProps.
