(* ===== verification/TcpServer.v ===== *)
(** The server (include/tcp_server.h, src/tcp_server.cc): the names it gives its
    connections, the map it keeps them in, the loops it hands them to, and the
    functors it leaves for those loops. *)
From Stdlib Require Import ZArith Lia Ascii.
From stdpp Require Import base gmap list option strings pretty numbers.
From S2P Require Import Prelude Poller ThreadPool Net.

Local Open Scope Z_scope.

Module TcpServer.

(** What the server binds for a loop to run. *)
Inductive task :=
  | TListen                       (* Acceptor::Listen *)
  | TEstablished (c : ptr)        (* TcpConnection::ConnectionEstablished *)
  | TRemoveInLoop (c : ptr)       (* TcpServer::RemoveconnectionInLoop *)
  | TDestroyed (c : ptr).         (* TcpConnection::ConnectionDestroyed *)

(** The callbacks its user gives a server; a [std::function] that was never set is
    empty. *)
Section Callbacks.
Context {UCB TCB : Type}.

Record callbacks := mk_callbacks {
  connection_callback_ : option UCB;
  message_callback_ : option UCB;
  write_complete_callback_ : option UCB;
  thread_init_callback_ : option TCB;
}.

Definition no_callbacks : callbacks := mk_callbacks None None None None.

Definition SetThreadInitCallback (cb : TCB) (x : callbacks) : callbacks :=
  mk_callbacks (connection_callback_ x) (message_callback_ x) (write_complete_callback_ x) (Some cb).
Definition SetConnectionCallback (cb : UCB) (x : callbacks) : callbacks :=
  mk_callbacks (Some cb) (message_callback_ x) (write_complete_callback_ x) (thread_init_callback_ x).
Definition SetMessageCallback (cb : UCB) (x : callbacks) : callbacks :=
  mk_callbacks (connection_callback_ x) (Some cb) (write_complete_callback_ x) (thread_init_callback_ x).
Definition SetWriteCompleteCallback (cb : UCB) (x : callbacks) : callbacks :=
  mk_callbacks (connection_callback_ x) (message_callback_ x) (Some cb) (thread_init_callback_ x).
End Callbacks.
Arguments callbacks : clear implicits.

(** What the server needs of a connection object. *)
Record conn := mk_conn {
  conn_name : bytes;
  conn_loop : ptr;
  conn_fd : Z;
}.

(** [calls] are the functors handed to each loop in order, with whether the loop's
    own thread ran them in place; [conns] are the connection objects by address. A
    [shared_ptr] of the map is null, [None], once it has been reset. *)
Record t := mk {
  name_ : bytes;
  ip_port_ : bytes;
  loop_ : ptr;
  next_conn_id_ : Z;
  started_ : Z;
  thread_pool_ : EventLoopThreadPool.t;
  connection_maps : gmap bytes (option ptr);
  conns : gmap ptr conn;
  next_ptr : ptr;
  calls : list (ptr * task * bool);
}.

(** The constructor, on the printed listen address. *)
Definition create (loop : ptr) (ip_port name : bytes) : t :=
  mk name ip_port loop 1 0 (EventLoopThreadPool.create loop name) ∅ ∅ 1%positive [].

Definition Name (s : t) : bytes := name_ s.
Definition IpPort (s : t) : bytes := ip_port_ s.

Definition add_call (l : ptr) (k : task) (in_place : bool) (s : t) : t :=
  mk (name_ s) (ip_port_ s) (loop_ s) (next_conn_id_ s) (started_ s) (thread_pool_ s)
    (connection_maps s) (conns s) (next_ptr s) (calls s ++ [(l, k, in_place)]).

(** [l->RunInLoop(k)] from the thread of loop [here]: in place when it is [l]'s own
    thread, and then [run] is what happens, queued otherwise. *)
Definition RunInLoop (here l : ptr) (k : task) (run : t -> t) (s : t) : t :=
  if bool_decide (here = l) then run (add_call l k true s) else add_call l k false s.

(** Forgets the functors that have been handed over. *)
Definition take_calls (s : t) : t :=
  mk (name_ s) (ip_port_ s) (loop_ s) (next_conn_id_ s) (started_ s) (thread_pool_ s)
    (connection_maps s) (conns s) (next_ptr s) [].

Definition QueueInLoop (l : ptr) (k : task) (s : t) : t := add_call l k false s.

Definition SetThreadNum (n : Z) (s : t) : t :=
  mk (name_ s) (ip_port_ s) (loop_ s) (next_conn_id_ s) (started_ s)
    (EventLoopThreadPool.SetThreadNum n (thread_pool_ s)) (connection_maps s) (conns s)
    (next_ptr s) (calls s).

(** [Start], called from the thread of loop [here]: [started_++ == 0] lets only the
    first call through. *)
Definition Start (here : ptr) (cb : bool) (loop_of : Z -> ptr) (s : t) : t :=
  let first := started_ s =? 0 in
  let s := mk (name_ s) (ip_port_ s) (loop_ s) (next_conn_id_ s) (i32 (started_ s + 1))
    (thread_pool_ s) (connection_maps s) (conns s) (next_ptr s) (calls s) in
  if first then
    let pool := (EventLoopThreadPool.Start cb loop_of (thread_pool_ s)).1.1 in
    let s := mk (name_ s) (ip_port_ s) (loop_ s) (next_conn_id_ s) (started_ s) pool
      (connection_maps s) (conns s) (next_ptr s) (calls s) in
    RunInLoop here (loop_ s) TListen id s
  else s.

(** [snprintf(buf, sizeof buf, "-%s#%d", ...)] into 64 bytes: at most 63 characters
    are kept. *)
Definition name_suffix (ip_port : bytes) (id : Z) : bytes :=
  ztake 63 (["-"%char] ++ ip_port ++ ["#"%char] ++ to_string id).

Definition make_name (s : t) (id : Z) : bytes := name_ s ++ name_suffix (ip_port_ s) id.

(** [NewConnection], in the base loop's thread: the new connection and the server.
    The id is an [int] that is incremented. *)
Definition NewConnection (sockfd : Z) (s : t) : result (ptr * t) :=
  '(io_loop, pool) ← EventLoopThreadPool.GetNextLoop (thread_pool_ s);
  let nm := make_name s (next_conn_id_ s) in
  let c := next_ptr s in
  let s := mk (name_ s) (ip_port_ s) (loop_ s) (i32 (next_conn_id_ s + 1)) (started_ s) pool
    (<[nm := Some c]> (connection_maps s)) (<[c := mk_conn nm io_loop sockfd]> (conns s))
    (Pos.succ c) (calls s) in
  Ok (c, RunInLoop (loop_ s) io_loop (TEstablished c) id s).

(** [RemoveconnectionInLoop]: the connection is always queued to its own loop for
    destruction. *)
Definition RemoveconnectionInLoop (c : ptr) (s : t) : t :=
  match conns s !! c with
  | None => s
  | Some x =>
      let s := mk (name_ s) (ip_port_ s) (loop_ s) (next_conn_id_ s) (started_ s) (thread_pool_ s)
        (delete (conn_name x) (connection_maps s)) (conns s) (next_ptr s) (calls s) in
      QueueInLoop (conn_loop x) (TDestroyed c) s
  end.

(** [RemoveConnection], in the thread of loop [here]. *)
Definition RemoveConnection (here c : ptr) (s : t) : t :=
  RunInLoop here (loop_ s) (TRemoveInLoop c) (RemoveconnectionInLoop c) s.

(** A functor the base loop takes from its queue. *)
Definition run_task (k : task) (s : t) : t :=
  match k with
  | TRemoveInLoop c => RemoveconnectionInLoop c s
  | _ => s
  end.

(** One round of the destructor's loop, at the entry named [nm], run in the thread of loop
    [here]: the entry stays, its pointer is reset, and the connection it held is handed to
    its loop for destruction. *)
Definition reset_entry (here : ptr) (nm : bytes) (s : t) : result t :=
  match connection_maps s !! nm with
  | None => Ok s
  | Some None => Err (UB NullDeref)
  | Some (Some c) =>
      match conns s !! c with
      | None => Err (UB UseAfterFree)
      | Some x =>
          let s := mk (name_ s) (ip_port_ s) (loop_ s) (next_conn_id_ s) (started_ s) (thread_pool_ s)
            (<[nm := None]> (connection_maps s)) (conns s) (next_ptr s) (calls s) in
          Ok (RunInLoop here (conn_loop x) (TDestroyed c) id s)
      end
  end.

(** The destructor, with the names of the map in the order it goes through them. *)
Definition destruct_ (here : ptr) (order : list bytes) (s : t) : result t :=
  run_steps (reset_entry here) order s.

(** The map holds connections, none of them null, under their own names, names carry ids already used,
    and addresses are fresh. *)
Definition inv (s : t) : Prop :=
  1 <= next_conn_id_ s < 2 ^ 31 /\ zlen (ip_port_ s) <= 21 /\
  EventLoopThreadPool.inv (thread_pool_ s) /\
  (forall nm e, connection_maps s !! nm = Some e ->
     exists c x, e = Some c /\ conns s !! c = Some x /\ conn_name x = nm) /\
  (forall c x, conns s !! c = Some x ->
     (c < next_ptr s)%positive /\
     exists id, 1 <= id < next_conn_id_ s /\ conn_name x = make_name s id).

End TcpServer.

(** * Lemmas *)
Module TcpServerFacts.
Import TcpServer.

(** The 64 bytes are always enough, so no name is cut. *)
Lemma name_suffix_full ip_port id : zlen ip_port <= 21 -> 0 <= id < 2 ^ 31 ->
  name_suffix ip_port id = ["-"%char] ++ ip_port ++ ["#"%char] ++ to_string id.
Proof.
  intros Hip Hid. unfold name_suffix. apply ztake_all. rewrite !zlen_app.
  change (zlen ["-"%char]) with 1. change (zlen ["#"%char]) with 1.
  pose proof (to_string_length 10 id ltac:(lia) ltac:(lia)). lia.
Qed.

Lemma make_name_inj s i j : zlen (ip_port_ s) <= 21 -> 0 <= i < 2 ^ 31 -> 0 <= j < 2 ^ 31 ->
  make_name s i = make_name s j -> i = j.
Proof.
  intros Hip Hi Hj. unfold make_name. rewrite !name_suffix_full by done.
  intros H%app_inv_head%app_inv_head%app_inv_head%app_inv_head. by apply to_string_inj.
Qed.

Lemma add_call_inv l k b s : inv s -> inv (add_call l k b s).
Proof. done. Qed.

(** The next loop is one of the server's, and the set of them does not change. *)
Lemma GetNextLoop_ok p : EventLoopThreadPool.inv p ->
  exists l p', EventLoopThreadPool.GetNextLoop p = Ok (l, p') /\ EventLoopThreadPool.inv p' /\
    l = match EventLoopThreadPool.loops_ p with
        | [] => EventLoopThreadPool.base_loop_ p
        | ls => nth (Z.to_nat (EventLoopThreadPool.next_ p)) ls l
        end /\
    l ∈ EventLoopThreadPool.GetAllLoops p /\
    EventLoopThreadPool.GetAllLoops p' = EventLoopThreadPool.GetAllLoops p.
Proof.
  intros Hi. destruct (decide (EventLoopThreadPool.loops_ p = [])) as [E|E].
  - eexists _, p. unfold EventLoopThreadPool.GetNextLoop, EventLoopThreadPool.GetAllLoops. rewrite E.
    split_and!; try done. by apply list_elem_of_singleton.
  - destruct (PoolFacts.next_spec p Hi E) as (l & Hl & Hg). eexists l, _. split; [exact Hg|].
    destruct Hi as [H0 [?|H1]]; [done|]. split_and!.
    + pose proof (Z.mod_pos_bound (EventLoopThreadPool.next_ p + 1)
        (zlen (EventLoopThreadPool.loops_ p)) ltac:(lia)).
      split; [cbn; lia|]. right. cbn. lia.
    + destruct (EventLoopThreadPool.loops_ p) as [|l0 ls] eqn:El; [done|].
      rewrite nth_lookup, Hl. done.
    + unfold EventLoopThreadPool.GetAllLoops. destruct (EventLoopThreadPool.loops_ p); [done|].
      by eapply list_elem_of_lookup_2.
    + done.
Qed.

Lemma make_name_fresh s : inv s -> connection_maps s !! make_name s (next_conn_id_ s) = None.
Proof.
  intros (Hid & Hip & _ & Hm & Hc).
  destruct (connection_maps s !! make_name s (next_conn_id_ s)) as [c|] eqn:E; [|done].
  destruct (Hm _ _ E) as (d & x & _ & Hx & Hn). destruct (Hc d x Hx) as (_ & id & Hr & Hn').
  assert (id = next_conn_id_ s); [|lia]. apply (make_name_inj s); [done|lia|lia|congruence].
Qed.

Lemma conn_fresh s : inv s -> conns s !! next_ptr s = None.
Proof.
  intros (_ & _ & _ & _ & Hc). destruct (conns s !! next_ptr s) as [x|] eqn:E; [|done].
  destruct (Hc _ _ E) as [? _]. lia.
Qed.

(** Accepting a connection. *)
Lemma NewConnection_law sockfd s :
  inv s -> next_conn_id_ s < 2 ^ 31 - 1 ->
  exists c s' io, let nm := make_name s (next_conn_id_ s) in
    NewConnection sockfd s = Ok (c, s') /\ inv s' /\
    connection_maps s !! nm = None /\ connection_maps s' = <[nm := Some c]> (connection_maps s) /\
    conns s !! c = None /\ conns s' = <[c := mk_conn nm io sockfd]> (conns s) /\
    io = match EventLoopThreadPool.loops_ (thread_pool_ s) with
         | [] => EventLoopThreadPool.base_loop_ (thread_pool_ s)
         | ls => nth (Z.to_nat (EventLoopThreadPool.next_ (thread_pool_ s))) ls io
         end /\
    calls s' = calls s ++ [(io, TEstablished c, bool_decide (loop_ s = io))] /\
    io ∈ EventLoopThreadPool.GetAllLoops (thread_pool_ s) /\
    EventLoopThreadPool.GetAllLoops (thread_pool_ s') = EventLoopThreadPool.GetAllLoops (thread_pool_ s) /\
    loop_ s' = loop_ s /\ c = next_ptr s /\ name_ s' = name_ s /\ ip_port_ s' = ip_port_ s /\
    next_conn_id_ s' = next_conn_id_ s + 1 /\ next_ptr s' = Pos.succ c.
Proof.
  intros Hi Hid. pose proof (make_name_fresh s Hi) as Hnm. pose proof (conn_fresh s Hi) as Hc.
  destruct Hi as (Hid1 & Hip & Hp & Hm & Hcs).
  destruct (GetNextLoop_ok _ Hp) as (io & p' & E & Hp' & Hio & Hin & Hall).
  unfold NewConnection. rewrite E. cbn. eexists _, _, io. split; [done|].
  set (s1 := mk _ _ _ _ _ _ _ _ _ _).
  assert (inv s1) as Hi1.
  { unfold inv. cbn. rewrite i32_small by lia. split_and!; try done; [lia|lia|..].
    - intros nm c. destruct (decide (nm = make_name s (next_conn_id_ s))) as [->|Hne].
      + rewrite lookup_insert_eq. intros [= <-]. eexists _, _. split; [done|]. by rewrite lookup_insert_eq.
      + rewrite lookup_insert_ne by done. intros Hl. destruct (Hm _ _ Hl) as (d & x & -> & Hx & Hn).
        exists d, x. by rewrite lookup_insert_ne by congruence.
    - intros c x. destruct (decide (c = next_ptr s)) as [->|Hne].
      + rewrite lookup_insert_eq. intros [= <-]. split; [lia|]. exists (next_conn_id_ s). split; [lia|done].
      + rewrite lookup_insert_ne by done. intros Hx. destruct (Hcs _ _ Hx) as (Hlt & id & Hr & Hn).
        split; [lia|]. exists id. split; [lia|done]. }
  unfold RunInLoop. change (loop_ s1) with (loop_ s).
  pose proof (i32_small (next_conn_id_ s + 1) ltac:(lia)).
  destruct (bool_decide (loop_ s = io)); by split_and!.
Qed.

(** A server that was constructed, given [n] threads and started listens once, and is
    in order whatever [n] is. *)
Lemma Start_law here cb loop_of loop ip_port name n : zlen ip_port <= 21 -> n < 2 ^ 31 - 1 ->
  let s := Start here cb loop_of (SetThreadNum n (create loop ip_port name)) in
  inv s /\ connection_maps s = ∅ /\ loop_ s = loop /\ name_ s = name /\ ip_port_ s = ip_port /\
  calls s = [(loop, TListen, bool_decide (here = loop))] /\
  EventLoopThreadPool.GetAllLoops (thread_pool_ s) =
    (if n <=? 0 then [loop] else (fun i => loop_of (Z.of_nat i)) <$> seq 0 (Z.to_nat n)).
Proof.
  intros Hip Hn. cbn zeta. unfold Start. cbn [SetThreadNum create started_ Z.eqb].
  set (pool := (EventLoopThreadPool.Start cb loop_of _).1.1).
  assert (EventLoopThreadPool.loops_ pool = (fun i => loop_of (Z.of_nat i)) <$> seq 0 (Z.to_nat n)) as Hls.
  { unfold pool. cbn. rewrite PoolFacts.start_loop_spec. cbn.
    rewrite <- list_fmap_compose. by apply list_fmap_ext. }
  assert (EventLoopThreadPool.inv pool) as Hp.
  { split; [done|]. rewrite Hls. destruct (Z.leb_spec n 0).
    - left. by replace (Z.to_nat n) with 0%nat by lia.
    - right. unfold zlen. rewrite length_fmap, length_seq. cbn. lia. }
  assert (EventLoopThreadPool.GetAllLoops pool =
    (if n <=? 0 then [loop] else (fun i => loop_of (Z.of_nat i)) <$> seq 0 (Z.to_nat n))) as Hall.
  { unfold EventLoopThreadPool.GetAllLoops. rewrite Hls. destruct (Z.leb_spec n 0).
    - by replace (Z.to_nat n) with 0%nat by lia.
    - by destruct (Z.to_nat n) as [|k] eqn:E; [lia|]. }
  set (s := mk _ _ _ _ _ pool _ _ _ _).
  assert (inv s) as Hi.
  { split_and!; try done. }
  unfold RunInLoop. change (loop_ s) with loop. by destruct (bool_decide (here = loop)).
Qed.

End TcpServerFacts.

(** * Properties *)
Module TcpServerProps.
Import TcpServer TcpServerFacts.

(** C21: Accepting a connection never fails while the id counter lasts: the new
    connection gets a name no live connection has (the 64-byte name buffer never
    cuts it), is added to the map without displacing any other, goes to the loop
    whose turn it is, and its establishment is handed to that loop exactly once,
    run in place when it is the server's own. *)
Theorem NewConnection_correct sockfd s :
  inv s -> next_conn_id_ s < 2 ^ 31 - 1 ->
  exists c s' io, let nm := make_name s (next_conn_id_ s) in
    NewConnection sockfd s = Ok (c, s') /\ inv s' /\
    connection_maps s !! nm = None /\ connection_maps s' = <[nm := Some c]> (connection_maps s) /\
    conns s !! c = None /\ conns s' = <[c := mk_conn nm io sockfd]> (conns s) /\
    io = match EventLoopThreadPool.loops_ (thread_pool_ s) with
         | [] => EventLoopThreadPool.base_loop_ (thread_pool_ s)
         | ls => nth (Z.to_nat (EventLoopThreadPool.next_ (thread_pool_ s))) ls io
         end /\
    calls s' = calls s ++ [(io, TEstablished c, bool_decide (loop_ s = io))].
Proof.
  intros Hi Hid. destruct (NewConnection_law sockfd s Hi Hid) as (c & s' & io & H).
  exists c, s', io. naive_solver.
Qed.

(** Closing a connection removes exactly its own entry from the map and queues
    its destruction on its own loop, once: directly when the close happens in the
    server's loop, otherwise when the server's loop runs the functor the close
    left for it. *)
Theorem RemoveConnection_correct here s nm c x :
  inv s -> connection_maps s !! nm = Some (Some c) -> conns s !! c = Some x ->
  exists s', (if bool_decide (here = loop_ s) then RemoveConnection here c s = s'
              else calls (RemoveConnection here c s) = calls s ++ [(loop_ s, TRemoveInLoop c, false)] /\
                   connection_maps (RemoveConnection here c s) = connection_maps s /\
                   run_task (TRemoveInLoop c) (RemoveConnection here c s) = s') /\
    inv s' /\ connection_maps s' !! nm = None /\
    (forall nm', nm' <> nm -> connection_maps s' !! nm' = connection_maps s !! nm') /\
    calls s' = calls s ++ [(loop_ s, TRemoveInLoop c, bool_decide (here = loop_ s));
                           (conn_loop x, TDestroyed c, false)].
Proof.
  intros Hi Hm Hx. pose proof Hi as (Hid & Hip & Hp & Hms & Hcs).
  destruct (Hms _ _ Hm) as (c' & x' & [= <-] & Hx' & Hn). rewrite Hx in Hx'. injection Hx' as <-.
  exists (RemoveconnectionInLoop c (add_call (loop_ s) (TRemoveInLoop c) (bool_decide (here = loop_ s)) s)).
  split.
  { unfold RemoveConnection, RunInLoop. destruct (bool_decide (here = loop_ s)); done. }
  unfold RemoveconnectionInLoop. cbn. rewrite Hx. split_and!.
  - unfold inv. cbn. split_and!; try done; [lia|lia|].
    intros nm' c'. intros [_ Hl]%lookup_delete_Some. eauto.
  - cbn. rewrite Hn. apply lookup_delete_eq.
  - intros nm' Hne. cbn. rewrite Hn. by apply lookup_delete_ne.
  - cbn. by rewrite <- app_assoc.
Qed.

(** Only the first [Start] does anything. *)
Lemma Start_once here cb f s : 0 < started_ s < 2 ^ 31 - 1 ->
  calls (Start here cb f s) = calls s /\ thread_pool_ (Start here cb f s) = thread_pool_ s.
Proof. intros Hs. unfold Start. destruct (Z.eqb_spec (started_ s) 0); [lia|done]. Qed.

(** ** A server with two connections *)

Definition sample : t :=
  mk (str "srv") (str "0.0.0.0:80") 1%positive 1 1
    (EventLoopThreadPool.mk 1%positive (str "srv") true 2 0 [2; 3]%positive) ∅ ∅ 1%positive [].

Lemma server_sample_inv : inv sample.
Proof.
  unfold inv. cbn. split_and!; try done.
  - split; [done|]. right. done.
Qed.

Lemma sample_name : make_name sample 1 = str "srv-0.0.0.0:80#1".
Proof. by vm_compute. Qed.

Lemma NewConnection_correct_witness :
  exists c s', NewConnection 9 sample = Ok (c, s') /\ inv s' /\
    connection_maps s' = <[str "srv-0.0.0.0:80#1" := Some c]> ∅ /\
    calls s' = [(2%positive, TEstablished c, false)].
Proof.
  destruct (NewConnection_correct 9 sample) as (c & s' & io & E & Hi & _ & Hm & _ & _ & Hio & Hc);
    [apply server_sample_inv|done|].
  change (next_conn_id_ sample) with 1 in Hm. rewrite sample_name in Hm.
  assert (io = 2%positive) as -> by exact Hio.
  exists c, s'. by split_and!.
Defined.

(** A server with one connection on loop 2. *)
Definition sample_one : t :=
  mk (str "srv") (str "0.0.0.0:80") 1%positive 2 1
    (EventLoopThreadPool.mk 1%positive (str "srv") true 2 1 [2; 3]%positive)
    {[make_name sample 1 := Some 1%positive]} {[1%positive := mk_conn (make_name sample 1) 2%positive 9]}
    2%positive [].

Lemma sample_one_inv : inv sample_one.
Proof.
  unfold inv. split_and!; try done.
  - split; [done|]. right. done.
  - intros nm c H. cbn in H. apply lookup_singleton_Some in H as [<- <-].
    eexists _, _. split; [done|]. split; [apply lookup_singleton_eq|done].
  - intros c x H. cbn in H. apply lookup_singleton_Some in H as [<- <-].
    split; [done|]. exists 1. split; [cbn; lia|done].
Qed.

Lemma RemoveConnection_correct_witness :
  exists s', run_task (TRemoveInLoop 1%positive) (RemoveConnection 2%positive 1%positive sample_one) = s' /\
    inv s' /\ connection_maps s' !! make_name sample 1 = None /\
    calls s' = [(1%positive, TRemoveInLoop 1%positive, false); (2%positive, TDestroyed 1%positive, false)].
Proof.
  destruct (RemoveConnection_correct 2%positive sample_one (make_name sample 1) 1%positive
    (mk_conn (make_name sample 1) 2%positive 9)) as (s' & H & Hi & Hm & _ & Hc);
    [apply sample_one_inv|apply lookup_singleton_eq|apply lookup_singleton_eq|].
  destruct H as (_ & _ & H). exists s'. by split_and!.
Defined.

End TcpServerProps.
