(* ===== verification/Config.v ===== *)
(** The configuration file (include/config.h): the lines of the file, the regular
    expression each is searched for, the map of keys and values, and what the echo
    server (example/echo_server.cc) takes from it. *)
From Stdlib Require Import ZArith Lia Ascii.
From stdpp Require Import base gmap list option strings pretty numbers.
From S2P Require Import Prelude.

Local Open Scope Z_scope.

Module Config.

Definition newline : ascii := ascii_of_nat 10.
Definition carriage_return : ascii := ascii_of_nat 13.

(** ** The regular expression *)

(** A [std::regex] matcher tries the possibilities of a greedy repetition from the
    longest to the shortest: what it took and what is left, in that order. *)
Fixpoint star (p : ascii -> bool) (l : bytes) : list (bytes * bytes) :=
  match l with
  | c :: l' => (if p c then (fun '(m, r) => (c :: m, r)) <$> star p l' else []) ++ [([], l)]
  | [] => [([], [])]
  end.
Definition plus (p : ascii -> bool) (l : bytes) : list (bytes * bytes) :=
  match l with
  | c :: l' => if p c then (fun '(m, r) => (c :: m, r)) <$> star p l' else []
  | [] => []
  end.

(** The character classes of the expression. *)
Definition key_char (c : ascii) : bool := negb (bool_decide (c = " "%char) || bool_decide (c = "="%char)).
Definition any_char (c : ascii) : bool := negb (bool_decide (c = newline) || bool_decide (c = carriage_return)).

(** The expression: from the start of the line a group of key characters, then
    characters that are no digits, then a group of digits and whatever follows them on
    the line. The two groups of every way to match, in the order they are tried. *)
Definition regex1 (l : bytes) : list (bytes * bytes) :=
  '(k, r) ← star key_char l;
  '(_, r) ← star (fun c => negb (is_digit c)) r;
  '(d, r) ← plus is_digit r;
  '(v, _) ← star any_char r;
  [(k, d ++ v)].

(** ** The object *)

Record t := mk {
  mp : gmap bytes bytes;
  buf : bytes;
}.

Definition create : t := mk ∅ [].
Definition set_buf (l : bytes) (c : t) : t := mk (mp c) l.

(** [Parse_line]: [std::regex_search] stores the first match. *)
Definition Parse_line (c : t) : t :=
  match head (regex1 (buf c)) with
  | Some (k, v) => mk (<[k := v]> (mp c)) (buf c)
  | None => c
  end.

(** The lines [getline] gives. *)
Fixpoint lines (s : bytes) : list bytes :=
  match s with
  | [] => []
  | c :: s =>
      if bool_decide (c = newline) then [] :: lines s
      else match lines s with
           | [] => [[c]]
           | l :: ls => (c :: l) :: ls
           end
  end.

(** [PullConfig] on a file's contents and whether it may be written to: the stream is
    opened for input and output, and [getline] leaves [buf] empty at the end. *)
Definition PullConfig (file : option (bytes * bool)) (c : t) : bool * t :=
  match file with
  | Some (s, true) => (true, set_buf [] (foldl (fun c l => Parse_line (set_buf l c)) c (lines s)))
  | _ => (false, c)
  end.

(** [mp[k]], which adds an empty value for a missing key. *)
Definition index (k : bytes) (c : t) : bytes * t :=
  match mp c !! k with
  | Some v => (v, c)
  | None => ([], mk (<[k := []]> (mp c)) (buf c))
  end.

(** [OutputConfig]: one line per entry, in the order of the map. *)
Definition OutputConfig (entries : list (bytes * bytes)) : bytes :=
  concat ((fun '(k, v) => str "key=" ++ k ++ str ",value=" ++ v ++ [newline]) <$> entries).

End Config.

(** * The echo server's settings *)
Module EchoSettings.
Import Config.

(** [atoi]: blanks, a sign, digits; the value has to be an [int]. *)
Definition is_space (c : ascii) : bool :=
  bool_decide (c = " "%char) || ((9 <=? nat_of_ascii c)%nat && (nat_of_ascii c <=? 13)%nat).
Fixpoint skip_space (s : bytes) : bytes :=
  match s with c :: s' => if is_space c then skip_space s' else s | [] => [] end.
Definition atoi (s : bytes) : result Z :=
  let z := match skip_space s with
           | "-"%char :: s => - digits 0 s
           | "+"%char :: s => digits 0 s
           | s => digits 0 s
           end in
  if (- 2 ^ 31 <=? z) && (z <? 2 ^ 31) then Ok z else Err (UB SignedOverflow).

(** [main] up to the server: the port, which becomes a [uint16_t], the name and the
    number of threads. That the file could not be read is not looked at. *)
Definition main (file : option (bytes * bool)) : result (Z * bytes * Z) :=
  let '(_, c) := PullConfig file create in
  let '(p, c) := index (str "server_listen_port") c in
  port ← atoi p;
  let '(name, c) := index (str "server_name") c in
  let '(n, c) := index (str "server_thread_num") c in
  threads ← atoi n;
  Ok (port mod 2 ^ 16, name, threads).

End EchoSettings.

(** * The ping-pong server's arguments *)
Module PingpongSettings.

(** [main] up to the server: address, port and number of threads of the command line
    without the program's name; [None] when there are fewer than three and the program
    exits. *)
Definition main (argv : list bytes) : result (option (bytes * Z * Z)) :=
  match argv with
  | ip :: port :: threads :: _ =>
      port ← EchoSettings.atoi port;
      thread_count ← EchoSettings.atoi threads;
      Ok (Some (ip, port mod 2 ^ 16, thread_count))
  | _ => Ok None
  end.

End PingpongSettings.

(** * Lemmas *)
Module ConfigFacts.
Import Config.

(** ** The reference scanner *)

Fixpoint take_while (p : ascii -> bool) (l : bytes) : bytes :=
  match l with c :: l => if p c then c :: take_while p l else [] | [] => [] end.
Fixpoint drop_while (p : ascii -> bool) (l : bytes) : bytes :=
  match l with c :: l' => if p c then drop_while p l' else l | [] => [] end.

(** The value of what follows the key: from its first digit to the end of the line. *)
Definition value_of (l : bytes) : option bytes :=
  match drop_while (fun c => negb (is_digit c)) l with
  | [] => None
  | d => Some (take_while any_char d)
  end.

(** The key is the longest one that leaves a digit behind it. *)
Fixpoint scan (l : bytes) : option (bytes * bytes) :=
  let here := (fun v => ([], v)) <$> value_of l in
  match l with
  | c :: l' =>
      if key_char c
      then match scan l' with Some (k, v) => Some (c :: k, v) | None => here end
      else here
  | [] => here
  end.

(** ** Backtracking *)

Lemma head_app {A} (l k : list A) : head (l ++ k) = match head l with Some x => Some x | None => head k end.
Proof. by destruct l. Qed.

Lemma head_map {A B} (f : A -> B) l : head (f <$> l) = f <$> head l.
Proof. by destruct l. Qed.

(** If every alternative succeeds, the first one gives the result. *)
Lemma head_bind_total {A B} (f : A -> list B) l : (forall x, f x <> []) ->
  head (l ≫= f) = x ← head l; head (f x).
Proof.
  intros Hf. destruct l as [|x l]; [done|]. cbn. rewrite head_app. specialize (Hf x). by destruct (f x).
Qed.

Lemma bind_map {A B C} (g : A -> B) (f : B -> list C) l : (g <$> l) ≫= f = l ≫= (fun x => f (g x)).
Proof. induction l as [|x l IH]; [done|]. cbn. by rewrite IH. Qed.

Lemma head_star p l : head (star p l) = Some (take_while p l, drop_while p l).
Proof.
  induction l as [|c l IH]; [done|]. cbn. rewrite head_app. destruct (p c); [|done]. by rewrite head_map, IH.
Qed.

Lemma star_nonempty p l : star p l <> [].
Proof. intros E. pose proof (head_star p l) as H. by rewrite E in H. Qed.

Lemma digit_any c : is_digit c = true -> any_char c = true.
Proof.
  unfold is_digit, any_char. intros [H1 H2]%andb_true_iff. apply negb_true_iff, orb_false_iff.
  split; apply bool_decide_eq_false; intros ->; done.
Qed.

Lemma take_while_split p q l : (forall c, p c = true -> q c = true) ->
  take_while p l ++ take_while q (drop_while p l) = take_while q l.
Proof.
  intros Hpq. induction l as [|c l IH]; [done|]. cbn. destruct (p c) eqn:E; [|done]. cbn. by rewrite (Hpq c E), IH.
Qed.

Lemma star_skip {B} p (f : bytes -> list B) c l : p c = true ->
  star p (c :: l) ≫= (fun '(_, r) => f r) = (star p l ≫= (fun '(_, r) => f r)) ++ f (c :: l).
Proof.
  intros Hp. cbn [star]. rewrite Hp, bind_app, bind_map. f_equal; [|cbn; apply app_nil_r].
  generalize (star p l). intros m. induction m as [|[a r] m IH]; [done|]. cbn. by rewrite IH.
Qed.

Lemma star_stop {B} p (f : bytes -> list B) c l : p c = false ->
  star p (c :: l) ≫= (fun '(_, r) => f r) = f (c :: l).
Proof. intros Hp. cbn [star]. rewrite Hp. cbn. apply app_nil_r. Qed.

(** What the expression does after the key. *)
Definition rest (r : bytes) : list bytes :=
  '(_, r) ← star (fun c => negb (is_digit c)) r;
  '(d, r) ← plus is_digit r;
  '(v, _) ← star any_char r;
  [d ++ v].

Lemma plus_value c l : is_digit c = true ->
  head ('(d, r) ← plus is_digit (c :: l); '(v, _) ← star any_char r; [d ++ v]) =
    Some (take_while any_char (c :: l)).
Proof.
  intros Hc. cbn. rewrite Hc, (digit_any c Hc), bind_map.
  rewrite head_bind_total.
  2:{ intros [d r]. destruct (star any_char r) as [|[v ?] ?] eqn:E; [by apply star_nonempty in E|done]. }
  rewrite head_star. cbn. rewrite head_bind_total by (by intros []). rewrite head_star. cbn.
  by rewrite take_while_split by apply digit_any.
Qed.

Lemma head_rest r : head (rest r) = value_of r.
Proof.
  set (f := fun r => plus is_digit r ≫= (fun '(d, r) => star any_char r ≫= (fun '(v, _) => [d ++ v]))).
  change (head (star (fun c => negb (is_digit c)) r ≫= (fun '(_, r) => f r)) = value_of r). unfold value_of.
  induction r as [|c r IH]; [done|]. destruct (is_digit c) eqn:Hc.
  - rewrite star_stop by (by rewrite Hc). cbn [drop_while]. rewrite Hc. cbn [negb]. by apply plus_value.
  - rewrite (star_skip _ f) by (by rewrite Hc). rewrite head_app, IH. cbn [drop_while]. rewrite Hc. cbn [negb].
    assert (f (c :: r) = []) as -> by (unfold f, plus; by rewrite Hc). by destruct (drop_while _ r).
Qed.

Lemma bind_ext {A B} (f g : A -> list B) l : (forall x, f x = g x) -> l ≫= f = l ≫= g.
Proof. intros E. induction l as [|x l IH]; [done|]. cbn. by rewrite E, IH. Qed.

Lemma map_bind {A B C} (h : B -> C) (f : A -> list B) l : h <$> (l ≫= f) = l ≫= (fun x => h <$> f x).
Proof. induction l as [|x l IH]; [done|]. cbn. by rewrite fmap_app, IH. Qed.

Lemma regex1_rest l : regex1 l = star key_char l ≫= (fun '(k, r) => (fun v => (k, v)) <$> rest r).
Proof.
  unfold regex1, rest. apply bind_ext. intros [k r]. rewrite map_bind. apply bind_ext. intros [? r1].
  rewrite map_bind. apply bind_ext. intros [d r2]. rewrite map_bind. apply bind_ext. by intros [v ?].
Qed.

Lemma no_key r : head ([([], r)] ≫= (fun '(k, r) => (fun v => (k, v)) <$> rest r)) =
  (fun v => ([] : bytes, v)) <$> value_of r.
Proof. rewrite <- head_rest, <- head_map. cbn [mbind list_bind]. by rewrite app_nil_r. Qed.

(** The matcher finds what the scanner finds. *)
Lemma regex1_scan l : head (regex1 l) = scan l.
Proof.
  rewrite regex1_rest. induction l as [|c l IH]; [done|].
  cbn [star scan]. rewrite bind_app, head_app, no_key. destruct (key_char c); [|done].
  rewrite bind_map.
  rewrite (bind_ext _ (fun x => (fun '(k, v) => (c :: k, v)) <$> (let '(k, r) := x in (fun v => (k, v)) <$> rest r))).
  2:{ intros [k r]. by rewrite <- list_fmap_compose. }
  rewrite <- map_bind, head_map, IH. by destruct (scan l) as [[k v]|].
Qed.

(** ** Printing entries *)

Lemma drop_while_app p l k : Forall (fun c => p c = true) l -> drop_while p (l ++ k) = drop_while p k.
Proof. induction 1 as [|c l Hc _ IH]; [done|]. cbn. by rewrite Hc. Qed.

Lemma take_while_all p l : Forall (fun c => p c = true) l -> take_while p l = l.
Proof. induction 1 as [|c l Hc _ IH]; [done|]. cbn. by rewrite Hc, IH. Qed.

(** A value: a digit, and nothing that ends a line. *)
Definition value_ok (v : bytes) : Prop :=
  match v with c :: _ => is_digit c = true | [] => False end /\ Forall (fun c => any_char c = true) v.

(** What stands between key and value: an '=' or a blank, and no digit. *)
Definition sep_ok (s : bytes) : Prop :=
  match s with c :: _ => key_char c = false | [] => False end /\
  Forall (fun c => negb (is_digit c) = true) s /\ Forall (fun c => any_char c = true) s.

Definition key_ok (k : bytes) : Prop :=
  Forall (fun c => key_char c = true) k /\ Forall (fun c => any_char c = true) k.

Lemma value_of_entry s v : Forall (fun c => negb (is_digit c) = true) s -> value_ok v -> value_of (s ++ v) = Some v.
Proof.
  intros Hs [Hv Ha]. unfold value_of. rewrite drop_while_app by done. destruct v as [|c v]; [done|].
  cbn [drop_while]. rewrite Hv. cbn [negb]. by rewrite take_while_all.
Qed.

Lemma scan_entry k s v : key_ok k -> sep_ok s -> value_ok v -> scan (k ++ s ++ v) = Some (k, v).
Proof.
  intros [Hk _] (Hs & Hsd & _) Hv. induction Hk as [|c k Hc _ IH]; cbn [app].
  - pose proof (value_of_entry s v Hsd Hv) as E. destruct s as [|c s]; [done|]. cbn [app] in *. cbn [scan].
    by rewrite Hs, E.
  - cbn [scan]. by rewrite Hc, IH.
Qed.

Lemma lines_line l s : Forall (fun c => any_char c = true) l -> lines (l ++ newline :: s) = l :: lines s.
Proof.
  induction 1 as [|c l Hc _ IH]; [done|]. cbn [app lines]. rewrite IH. rewrite bool_decide_eq_false_2; [done|].
  intros ->. done.
Qed.

(** An entry as it stands in a file. *)
Definition line_of (e : bytes * bytes * bytes) : bytes := let '(k, s, v) := e in k ++ s ++ v ++ [newline].
Definition entry_ok (e : bytes * bytes * bytes) : Prop := let '(k, s, v) := e in key_ok k /\ sep_ok s /\ value_ok v.

Lemma parse_entry k s v c : key_ok k -> sep_ok s -> value_ok v ->
  Parse_line (set_buf (k ++ s ++ v) c) = mk (<[k := v]> (mp c)) (k ++ s ++ v).
Proof. intros. unfold Parse_line. cbn [set_buf buf]. rewrite regex1_scan, scan_entry by done. done. Qed.

Lemma pull_entries es c : Forall entry_ok es ->
  mp (foldl (fun c l => Parse_line (set_buf l c)) c (lines (concat (line_of <$> es)))) =
  foldl (fun m '(k, s, v) => <[k := v]> m) (mp c) es.
Proof.
  intros Hes. revert c. induction Hes as [|[[k s] v] es (Hk & Hs & Hv) _ IH]; intros c; [done|].
  assert (concat (line_of <$> (k, s, v) :: es) = (k ++ s ++ v) ++ newline :: concat (line_of <$> es)) as ->.
  { cbn. by rewrite <- !app_assoc. }
  rewrite lines_line.
  2:{ destruct Hk, Hs as (_ & _ & ?), Hv. by rewrite !Forall_app. }
  cbn [foldl]. rewrite parse_entry, IH by done. done.
Qed.

End ConfigFacts.

(** * Properties *)
Module ConfigProps.
Import Config ConfigFacts.

Definition no_digit (l : bytes) : Prop := Forall (fun c => is_digit c = false) l.

Lemma drop_while_nondigit l :
  exists m, l = m ++ drop_while (fun c => negb (is_digit c)) l /\ no_digit m /\
    match drop_while (fun c => negb (is_digit c)) l with c :: _ => is_digit c = true | [] => True end.
Proof.
  induction l as [|c l (m & E & Hm & Hd)]; [by exists []; repeat constructor|]. cbn.
  destruct (is_digit c) eqn:Hc; cbn.
  - exists []. repeat split; [constructor|done].
  - exists (c :: m). cbn. rewrite <- E. repeat split; [by constructor|done].
Qed.

Lemma take_while_spec p l : exists t, l = take_while p l ++ t /\ match t with c :: _ => p c = false | [] => True end.
Proof.
  induction l as [|c l (t & E & Ht)]; [by exists []|]. cbn. destruct (p c) eqn:Hc.
  - exists t. cbn. by rewrite <- E.
  - exists (c :: l). done.
Qed.

Lemma value_of_spec l :
  match value_of l with
  | None => no_digit l
  | Some v => exists m t, l = m ++ v ++ t /\ no_digit m /\
      match v with c :: _ => is_digit c = true | [] => False end /\
      match t with c :: _ => any_char c = false | [] => True end
  end.
Proof.
  unfold value_of. destruct (drop_while_nondigit l) as (m & E & Hm & Hd).
  destruct (drop_while _ l) as [|c d]; [by rewrite E, app_nil_r|].
  destruct (take_while_spec any_char (c :: d)) as (t & Et & Ht). exists m, t. rewrite <- Et.
  split_and!; try done. cbn. by rewrite (digit_any c Hd).
Qed.

Lemma scan_spec l :
  match scan l with
  | None => no_digit l
  | Some (k, v) => exists m t, l = k ++ m ++ v ++ t /\ Forall (fun c => key_char c = true) k /\ no_digit m /\
      match v with c :: _ => is_digit c = true | [] => False end /\
      match t with c :: _ => any_char c = false | [] => True end /\
      (forall k' r, l = k' ++ r -> Forall (fun c => key_char c = true) k' -> (length k < length k')%nat -> no_digit r)
  end.
Proof.
  assert (forall l, (forall k' r, l = k' ++ r -> Forall (fun c => key_char c = true) k' -> (0 < length k')%nat -> no_digit r) ->
    match (fun v => ([] : bytes, v)) <$> value_of l with
    | None => no_digit l
    | Some (k, v) => exists m t, l = k ++ m ++ v ++ t /\ Forall (fun c => key_char c = true) k /\ no_digit m /\
        match v with c :: _ => is_digit c = true | [] => False end /\
        match t with c :: _ => any_char c = false | [] => True end /\
        (forall k' r, l = k' ++ r -> Forall (fun c => key_char c = true) k' -> (length k < length k')%nat -> no_digit r)
    end) as Hhere.
  { intros l1 Hmax. pose proof (value_of_spec l1) as Hv. destruct (value_of l1) as [v|]; [|done]. cbn.
    destruct Hv as (m & t & ? & ? & ? & ?). exists m, t. by split_and!. }
  induction l as [|c l IH].
  - apply Hhere. intros [|c k'] r E Hk Hlen; [cbn in Hlen; lia|done].
  - cbn [scan]. destruct (key_char c) eqn:Hc.
    2:{ apply Hhere. intros [|c' k'] r E Hk Hlen; [cbn in Hlen; lia|]. injection E as <- _. inversion Hk. congruence. }
    destruct (scan l) as [[k v]|].
    + destruct IH as (m & t & E & Hk & Hm & Hv & Ht & Hmax). exists m, t. rewrite E. split_and!; try done; [by constructor|].
      intros [|c' k'] r E' Hk' Hlen; [cbn in Hlen; lia|]. injection E' as <- E'. inversion Hk'. subst.
      apply (Hmax k' r); [done|done|cbn in Hlen; lia].
    + apply Hhere. intros [|c' k'] r E Hk Hlen; [cbn in Hlen; lia|]. injection E as <- ->.
      unfold no_digit in *. by apply Forall_app in IH as [_ ?].
Qed.

(** C30: [Parse_line]'s regular expression, with all its backtracking, finds what one
    pass over the line finds: nothing if the line has no digit; otherwise the longest
    key, free of blanks and '=', that leaves a digit behind it, and as its value the
    rest of the line from the first such digit. *)
Theorem Parse_line_scans c :
  Parse_line c = match scan (buf c) with Some (k, v) => mk (<[k := v]> (mp c)) (buf c) | None => c end /\
  match scan (buf c) with
  | None => no_digit (buf c)
  | Some (k, v) => exists m t, buf c = k ++ m ++ v ++ t /\ Forall (fun c => key_char c = true) k /\ no_digit m /\
      match v with c :: _ => is_digit c = true | [] => False end /\
      match t with c :: _ => any_char c = false | [] => True end /\
      (forall k' r, buf c = k' ++ r -> Forall (fun c => key_char c = true) k' -> (length k < length k')%nat ->
         no_digit r)
  end.
Proof. split; [unfold Parse_line; by rewrite regex1_scan|apply scan_spec]. Qed.

Lemma PullConfig_law es c : Forall entry_ok es ->
  PullConfig (Some (concat (line_of <$> es), true)) c =
    (true, mk (foldl (fun m '(k, s, v) => <[k := v]> m) (mp c) es) []) /\
  PullConfig (Some (concat (line_of <$> es), false)) c = (false, c) /\ PullConfig None c = (false, c).
Proof.
  intros Hes. split; [|done]. unfold PullConfig. f_equal. unfold set_buf. f_equal. by apply pull_entries.
Qed.

(** A file with one entry per line, each a key free of blanks and '=', then
    anything that starts with one of these and has no digit, then a value that starts
    with a digit, is read back: the map holds every key with its last value. A file
    that is missing or may not be written to gives nothing. *)
Theorem PullConfig_round_trip es c : Forall entry_ok es ->
  PullConfig (Some (concat (line_of <$> es), true)) c =
    (true, mk (foldl (fun m '(k, s, v) => <[k := v]> m) (mp c) es) []) /\
  PullConfig (Some (concat (line_of <$> es), false)) c = (false, c) /\ PullConfig None c = (false, c).
Proof. apply PullConfig_law. Qed.

Definition eq_sign : bytes := ["="%char].
Definition settings_file (port : Z) (name : bytes) (threads : Z) : list (bytes * bytes * bytes) :=
  [(str "server_listen_port", eq_sign, to_string port); (str "server_name", eq_sign, name);
   (str "server_thread_num", eq_sign, to_string threads)].

Lemma numeral_ok z : 0 <= z -> value_ok (to_string z).
Proof.
  intros Hz. destruct (to_string_digits z Hz) as (Hd & Hne & _). split.
  - destruct (to_string z) as [|c l]; [done|]. by inversion Hd.
  - eapply list.Forall_impl; [exact Hd|]. intros c. apply digit_any.
Qed.

Lemma settings_ok port name threads : 0 <= port -> value_ok name -> 0 <= threads ->
  Forall entry_ok (settings_file port name threads).
Proof.
  intros Hp Hn Ht. assert (sep_ok eq_sign) as Hs by (split; [done|split; by repeat constructor]).
  pose proof (numeral_ok port Hp). pose proof (numeral_ok threads Ht).
  repeat (constructor; [split_and!; try done; split; by repeat constructor|]). constructor.
Qed.

Lemma index_some k c v : mp c !! k = Some v -> index k c = (v, c).
Proof. intros E. unfold index. by rewrite E. Qed.

Lemma digit_starts_number c l : is_digit c = true ->
  EchoSettings.skip_space (c :: l) = c :: l /\
  match c :: l with "-"%char :: s => - digits 0 s | "+"%char :: s => digits 0 s | s => digits 0 s end = digits 0 (c :: l).
Proof. destruct c as [[|] [|] [|] [|] [|] [|] [|] [|]]; intros Hc; done. Qed.

Lemma atoi_numeral z : 0 <= z < 2 ^ 31 -> EchoSettings.atoi (to_string z) = Ok z.
Proof.
  intros Hz. destruct (to_string_digits z) as (Hd & Hne & E); [lia|]. unfold EchoSettings.atoi.
  destruct (to_string z) as [|c l]; [done|]. inversion Hd as [|? ? Hc]; subst.
  destruct (digit_starts_number c l Hc) as [-> ->]. set (v := digits 0 (c :: l)) in *.
  destruct (Z.leb_spec (- 2 ^ 31) v), (Z.ltb_spec v (2 ^ 31)); [done|lia..].
Qed.

(** The echo server reads the port, the name and the number of threads its
    configuration file says, provided that the name starts with a digit; without a file
    it takes port 0, an empty name and no threads. The ping-pong server takes the same
    numbers from its command line. *)
Lemma settings_read port name threads :
  0 <= port < 2 ^ 16 -> value_ok name -> 0 <= threads < 2 ^ 31 ->
  EchoSettings.main (Some (concat (line_of <$> settings_file port name threads), true)) = Ok (port, name, threads) /\
  EchoSettings.main None = Ok (0, [], 0) /\
  (forall ip more, PingpongSettings.main (ip :: to_string port :: to_string threads :: more) =
     Ok (Some (ip, port, threads))).
Proof.
  intros Hp Hn Ht. split; [|split; [by vm_compute|]].
  2:{ intros ip more. cbn. rewrite !atoi_numeral by lia. cbn. by rewrite Z.mod_small by lia. }
  unfold EchoSettings.main.
  destruct (PullConfig_law (settings_file port name threads) create) as [-> _]; [apply settings_ok; [lia|done|lia]|].
  cbn [settings_file foldl mp create].
  rewrite (index_some _ _ (to_string port)) by (cbn [mp]; by rewrite !lookup_insert_ne, lookup_insert_eq by done).
  rewrite atoi_numeral by lia. cbn [mbind result_bind].
  rewrite (index_some _ _ name) by (cbn [mp]; by rewrite lookup_insert_ne, lookup_insert_eq by done).
  rewrite (index_some _ _ (to_string threads)) by (cbn [mp]; by rewrite lookup_insert_eq).
  rewrite atoi_numeral by lia. cbn [mbind result_bind].
  by rewrite Z.mod_small by lia.
Qed.

Lemma PullConfig_round_trip_witness :
  (PullConfig (Some (str "port = 80", true)) create).2 = mk {[str "port" := str "80"]} [] /\
  PullConfig (Some (concat (line_of <$> [(str "port", str " = ", str "80")]), true)) create =
    (true, mk {[str "port" := str "80"]} []).
Proof.
  split; [by vm_compute|]. apply (PullConfig_round_trip [(str "port", str " = ", str "80")] create).
  repeat constructor.
Defined.

(** A name without a leading digit loses what is in front of its first digit, and a
    digit of the key can become the value. *)
Example name_is_cut :
  scan (str "server_name=EchoServer2") = Some (str "server_name", str "2") /\
  scan (str "server_name=EchoServer") = None /\ scan (str "log1=on") = Some (str "log", str "1=on").
Proof. by vm_compute. Qed.

End ConfigProps.
