(* ===== verification/Client.v ===== *)
(** The load generator of the ping-pong server (example/pingpong_client.cc): its
    sessions, what they send and count, and the report at the end. It is written
    against the muduo library, whose clients are given by the events they deliver:
    a connection that comes up, the call about data with what is then in the input
    buffer, a connection that goes down, and the timer. All sessions exist before the
    first event. *)
From Stdlib Require Import ZArith Lia Ascii.
From stdpp Require Import base list option strings.
From S2P Require Import Prelude Config.

Local Open Scope Z_scope.

Module PingpongClient.

(** [Session], its counters of type [int64_t]. *)
Record session := mk_session {
  name : bytes;
  bytesRead_ : Z;
  bytesWritten_ : Z;
  messagesRead_ : Z;
}.

(** What the client writes to its log; the two quotients by their operands. *)
Inductive entry :=
  | AllConnected
  | AllDisconnected
  | TotalBytes (n : Z)
  | TotalMessages (n : Z)
  | AverageSize (n d : Z)
  | Throughput (n d : Z)
  | Stopped.

#[export] Instance entry_eq_dec : EqDecision entry.
Proof. solve_decision. Defined.

(** [Client]; [quit] says whether the loop was told to stop. *)
Record t := mk {
  threads : Z;
  sessionCount_ : Z;
  timeout_ : Z;
  sessions_ : list session;
  message_ : bytes;
  numConnected_ : Z;
  log : list entry;
  quit : bool;
}.

(** What is handed to the library: data for a session's connection, or the request to
    disconnect it. *)
Inductive output := Send (i : nat) (data : bytes) | Disconnect (i : nat).

(** The constructor: the message is built, and every session connects. *)
Definition block (blockSize : Z) : bytes :=
  (fun i => ascii_of_nat (i mod 128)) <$> seq 0 (Z.to_nat blockSize).
Definition session_name (i : Z) : bytes := ztake 31 (str "C" ++ zero_pad 5 i).
Definition construct (blockSize sessionCount timeout threadCount : Z) : t :=
  mk (if 1 <? threadCount then threadCount else 0) sessionCount timeout
    ((fun i => mk_session (session_name (Z.of_nat i)) 0 0 0) <$> seq 0 (Z.to_nat sessionCount))
    (block blockSize) 0 [] false.

Definition set_connected (n : Z) (es : list entry) (q : bool) (c : t) : t :=
  mk (threads c) (sessionCount_ c) (timeout_ c) (sessions_ c) (message_ c) n (log c ++ es) (quit c || q).

(** [Session::onMessage]: [buf] is all that the input buffer holds. The number of bytes is
    a [size_t], so that the sums are taken modulo 2^64 and converted back; the number of
    messages is incremented as it is. The buffer is then handed to the connection. *)
Definition count_message (buf : bytes) (s : session) : result session :=
  _ ← require (messagesRead_ s + 1 <? 2 ^ 63) (UB SignedOverflow);
  Ok (mk_session (name s) (i64 (bytesRead_ s + zlen buf)) (i64 (bytesWritten_ s + zlen buf)) (messagesRead_ s + 1)).
Definition onMessage (i : nat) (buf : bytes) (c : t) : result (t * list output) :=
  match sessions_ c !! i with
  | Some s =>
      s ← count_message buf s;
      Ok (mk (threads c) (sessionCount_ c) (timeout_ c) (<[i := s]> (sessions_ c)) (message_ c)
            (numConnected_ c) (log c) (quit c), [Send i buf])
  | None => Err (UB UseAfterFree)
  end.

(** [Client::onConnect] *)
Definition onConnect (c : t) : t :=
  let n := i32 (numConnected_ c + 1) in
  set_connected n (if n =? sessionCount_ c then [AllConnected] else []) false c.

(** [Client::onDisconnect]: the totals are of type [int64_t], and the divisor of the
    throughput is an [int]. *)
Fixpoint total (f : session -> Z) (n : Z) (ss : list session) : result Z :=
  match ss with
  | [] => Ok n
  | s :: ss =>
      _ ← require ((- 2 ^ 63 <=? n + f s) && (n + f s <? 2 ^ 63)) (UB SignedOverflow);
      total f (n + f s) ss
  end.
Definition onDisconnect (c : t) : result t :=
  let n := i32 (numConnected_ c - 1) in
  if n =? 0 then
    totalBytesRead ← total bytesRead_ 0 (sessions_ c);
    totalMessagesRead ← total messagesRead_ 0 (sessions_ c);
    let d := timeout_ c * 1024 * 1024 in
    _ ← require ((- 2 ^ 31 <=? d) && (d <? 2 ^ 31)) (UB SignedOverflow);
    Ok (set_connected n [AllDisconnected; TotalBytes totalBytesRead; TotalMessages totalMessagesRead;
                         AverageSize totalBytesRead totalMessagesRead; Throughput totalBytesRead d] true c)
  else Ok (set_connected n [] false c).

(** [Session::onConnection] *)
Definition onConnection (i : nat) (connected : bool) (c : t) : result (t * list output) :=
  if connected then Ok (onConnect c, [Send i (message_ c)])
  else c ← onDisconnect c; Ok (c, []).

(** [handleTimeout] disconnects every session. *)
Definition handleTimeout (c : t) : t * list output :=
  (set_connected (numConnected_ c) [Stopped] false c, Disconnect <$> seq 0 (length (sessions_ c))).

(** The library's events; that of a message has what the input buffer then holds. *)
Inductive event := Connected (i : nat) | Message (i : nat) (buf : bytes) | Disconnected (i : nat) | Timeout.

#[export] Instance event_eq_dec : EqDecision event.
Proof. solve_decision. Defined.

Definition step (e : event) (c : t) : result (t * list output) :=
  match e with
  | Connected i => onConnection i true c
  | Message i buf => onMessage i buf c
  | Disconnected i => onConnection i false c
  | Timeout => Ok (handleTimeout c)
  end.

(** The outputs of a run are listed event by event. *)
Fixpoint run (es : list event) (c : t) : result (t * list (list output)) :=
  match es with
  | [] => Ok (c, [])
  | e :: es =>
      '(c, o) ← step e c;
      '(c, os) ← run es c;
      Ok (c, o :: os)
  end.

(** [main]: the port and the client of a command line, when it has the six arguments; the
    address is the library's to parse. *)
Definition main (argv : list bytes) : result (option (bytes * Z * t)) :=
  match argv with
  | [ip; port; threadCount; blockSize; sessionCount; timeout] =>
      port ← EchoSettings.atoi port;
      threadCount ← EchoSettings.atoi threadCount;
      blockSize ← EchoSettings.atoi blockSize;
      sessionCount ← EchoSettings.atoi sessionCount;
      timeout ← EchoSettings.atoi timeout;
      Ok (Some (ip, port mod 2 ^ 16, construct blockSize sessionCount timeout threadCount))
  | _ => Ok None
  end.

End PingpongClient.

(** * What the library promises *)
Module ClientSpec.
Import PingpongClient.

(** A session's connection: not yet up, up, told to disconnect, or gone. While it is up,
    what it is handed is sent and the input buffer emptied; once it was told to
    disconnect it still receives, but it neither sends nor empties the buffer, whose
    content is [unread]. The request means nothing to a connection that is not up. *)
Inductive status := Idle | Up | Leaving (unread : bytes) | Down (unread : bytes).

#[export] Instance status_eq_dec : EqDecision status.
Proof. solve_decision. Defined.

Definition unread (st : status) : bytes := match st with Leaving u | Down u => u | _ => [] end.
Definition view (sts : list status) (i : nat) : status := default Idle (sts !! i).

(** It comes up once, delivers data as long as it is not gone, the call being about all
    the buffer holds, and goes down once. *)
Definition legal (sts : list status) (e : event) : Prop :=
  match e with
  | Connected i => sts !! i = Some Idle
  | Message i buf => match sts !! i with Some Up => True | Some (Leaving u) => u `prefix_of` buf | _ => False end
  | Disconnected i => match sts !! i with Some Up | Some (Leaving _) => True | _ => False end
  | Timeout => True
  end.
Definition next (e : event) (st : status) : status :=
  match e, st with
  | Connected _, _ => Up
  | Message _ buf, Leaving _ => Leaving buf
  | Disconnected _, _ => Down (unread st)
  | Timeout, Up => Leaving []
  | _, _ => st
  end.
Definition after (sts : list status) (e : event) : list status :=
  match e with
  | Connected i | Message i _ | Disconnected i => alter (next e) i sts
  | Timeout => next e <$> sts
  end.
Fixpoint legal_run (sts : list status) (es : list event) : Prop :=
  match es with [] => True | e :: es => legal sts e /\ legal_run (after sts e) es end.

(** No session goes down before all have come up. *)
Fixpoint together (sts : list status) (es : list event) : Prop :=
  match es with
  | [] => True
  | e :: es =>
      match e with Disconnected _ => Idle ∉ sts | _ => True end /\ together (after sts e) es
  end.

Definition finally (sts : list status) (es : list event) : list status := foldl after sts es.

(** What the events of a run give, each with the connections it finds. *)
Fixpoint over {A} (f : list status -> event -> A) (sts : list status) (es : list event) : list A :=
  match es with [] => [] | e :: es => f sts e :: over f (after sts e) es end.
Definition sum (l : list Z) : Z := foldr Z.add 0 l.
Arguments sum : simpl never.

(** Of a call about session [i]: the bytes that are new, those that the library sends
    back, and how many it is told about once more. *)
Definition fresh (i : nat) (sts : list status) (e : event) : bytes :=
  match e with Message j buf => if decide (j = i) then drop (length (unread (view sts i))) buf else [] | _ => [] end.
Definition echo (i : nat) (sts : list status) (e : event) : bytes :=
  match e, view sts i with Message j buf, Up => if decide (j = i) then buf else [] | _, _ => [] end.
Definition again (i : nat) (sts : list status) (e : event) : Z :=
  match e with Message j _ => if decide (j = i) then zlen (unread (view sts i)) else 0 | _ => 0 end.
Definition message (i : nat) (e : event) : Z :=
  match e with Message j _ => if decide (j = i) then 1 else 0 | _ => 0 end.

(** What session [i] received, what of it was sent back, how many bytes it was told about
    more than once, counted each further time, and in how many calls. *)
Definition received (i : nat) (sts : list status) (es : list event) : bytes := concat (over (fresh i) sts es).
Definition echoed (i : nat) (sts : list status) (es : list event) : bytes := concat (over (echo i) sts es).
Definition repeated (i : nat) (sts : list status) (es : list event) : Z := sum (over (again i) sts es).
Definition messages (i : nat) (es : list event) : Z := sum (message i <$> es).

(** What is sent on connection [i]: what it is handed, if it is up. *)
Definition taken (i : nat) (sts : list status) (os : list output) : bytes :=
  if decide (sts !! i = Some Up)
  then concat ((fun o => match o with Send j d => if decide (j = i) then d else [] | _ => [] end) <$> os)
  else [].
Definition sent (i : nat) (sts : list status) (es : list event) (oss : list (list output)) : bytes :=
  concat (zip_with (taken i) (over after sts es) oss).

Definition is_up (st : status) : Z := match st with Up | Leaving _ => 1 | _ => 0 end.
Definition count_up (sts : list status) : Z := sum (is_up <$> sts).

(** Over all sessions: the bytes received, the bytes the calls are about, and the number
    of calls. *)
Definition all_received (sts : list status) (es : list event) : Z :=
  sum (over (fun sts e => match e with Message j _ => zlen (fresh j sts e) | _ => 0 end) sts es).
Definition all_bytes (es : list event) : Z := sum ((fun e => match e with Message _ buf => zlen buf | _ => 0 end) <$> es).
Definition all_messages (es : list event) : Z := sum ((fun e => match e with Message _ _ => 1 | _ => 0 end) <$> es).

(** The counters suffice. *)
Definition fits (es : list event) : Prop := all_bytes es < 2 ^ 63 /\ all_messages es < 2 ^ 63.

(** The entries of the log about the end. *)
Definition report (c : t) : list entry :=
  filter (fun x => x <> AllConnected /\ x <> Stopped) (log c).

End ClientSpec.

(** * Lemmas *)
Module ClientFacts.
Import PingpongClient ClientSpec.

Lemma sum_cons x l : sum (x :: l) = x + sum l.
Proof. done. Qed.
Lemma sum_nil : sum [] = 0.
Proof. done. Qed.
Lemma sum_app l l' : sum (l ++ l') = sum l + sum l'.
Proof. induction l as [|x l IH]; [done|]. cbn. rewrite !sum_cons. lia. Qed.
Lemma sum_one x : sum [x] = x.
Proof. rewrite sum_cons, sum_nil. lia. Qed.
Lemma sum_insert (l : list Z) i x y : l !! i = Some x -> sum (<[i := y]> l) = sum l - x + y.
Proof.
  revert i. induction l as [|z l IH]; intros [|i] H; [done..| |].
  - injection H as ->. cbn. rewrite !sum_cons. lia.
  - change (<[S i := y]> (z :: l)) with (z :: <[i := y]> l). rewrite !sum_cons, (IH i) by done. lia.
Qed.
Lemma sum_pos l : Forall (fun x => 0 <= x) l -> 0 <= sum l.
Proof. induction 1; rewrite ?sum_cons, ?sum_nil; lia. Qed.
Lemma sum_lookup l i x : Forall (fun x => 0 <= x) l -> l !! i = Some x -> 0 <= x <= sum l.
Proof.
  intros H. revert i. induction H as [|y l Hy H IH]; intros [|i] E; [done..| |]; pose proof (sum_pos _ H); rewrite sum_cons.
  - injection E as ->. lia.
  - specialize (IH i E). lia.
Qed.

Lemma over_app {A} (f : list status -> event -> A) sts es e :
  over f sts (es ++ [e]) = over f sts es ++ [f (finally sts es) e].
Proof. revert sts. induction es as [|e' es IH]; intros sts; [done|]. cbn. by rewrite IH. Qed.
Lemma over_length {A} (f : list status -> event -> A) sts es : length (over f sts es) = length es.
Proof. revert sts. induction es; intros; cbn; auto. Qed.
Lemma finally_app sts es e : finally sts (es ++ [e]) = after (finally sts es) e.
Proof. unfold finally. by rewrite foldl_app. Qed.
Lemma legal_run_app sts es e : legal_run sts (es ++ [e]) <-> legal_run sts es /\ legal (finally sts es) e.
Proof. revert sts. induction es as [|e' es IH]; intros sts; cbn; [tauto|]. rewrite IH. unfold finally. cbn. tauto. Qed.
Lemma together_app sts es e : together sts (es ++ [e]) <->
  together sts es /\ match e with Disconnected _ => Idle ∉ finally sts es | _ => True end.
Proof. revert sts. induction es as [|e' es IH]; intros sts; cbn; [tauto|]. rewrite IH. unfold finally. cbn. tauto. Qed.

Lemma run_app es e c : run (es ++ [e]) c = '(c, os) ← run es c; '(c, o) ← step e c; Ok (c, os ++ [o]).
Proof.
  revert c. induction es as [|e' es IH]; intros c; cbn.
  - destruct (step e c) as [[c1 o]|?]; done.
  - destruct (step e' c) as [[c1 o]|?]; [|done]. cbn. rewrite IH.
    destruct (run es c1) as [[c2 os]|?]; [|done]. cbn. by destruct (step e c2) as [[c3 o']|?].
Qed.

Section traces.
Context (i : nat) (sts : list status) (es : list event) (e : event).

Lemma received_app : received i sts (es ++ [e]) = received i sts es ++ fresh i (finally sts es) e.
Proof. unfold received. rewrite over_app, concat_app. cbn. by rewrite app_nil_r. Qed.
Lemma echoed_app : echoed i sts (es ++ [e]) = echoed i sts es ++ echo i (finally sts es) e.
Proof. unfold echoed. rewrite over_app, concat_app. cbn. by rewrite app_nil_r. Qed.
Lemma repeated_app : repeated i sts (es ++ [e]) = repeated i sts es + again i (finally sts es) e.
Proof. unfold repeated. by rewrite over_app, sum_app, sum_one. Qed.
Lemma messages_app : messages i (es ++ [e]) = messages i es + message i e.
Proof. unfold messages. rewrite fmap_app, sum_app. cbn. by rewrite sum_one. Qed.
Lemma all_bytes_app : all_bytes (es ++ [e]) = all_bytes es + match e with Message _ buf => zlen buf | _ => 0 end.
Proof. unfold all_bytes. rewrite fmap_app, sum_app. cbn. by rewrite sum_one. Qed.
Lemma all_messages_app : all_messages (es ++ [e]) = all_messages es + match e with Message _ _ => 1 | _ => 0 end.
Proof. unfold all_messages. rewrite fmap_app, sum_app. cbn. by rewrite sum_one. Qed.
Lemma sent_app oss o : length oss = length es ->
  sent i sts (es ++ [e]) (oss ++ [o]) = sent i sts es oss ++ taken i (after (finally sts es) e) o.
Proof.
  intros H. unfold sent. rewrite over_app, zip_with_app, concat_app by (by rewrite over_length).
  cbn. by rewrite app_nil_r.
Qed.
End traces.

Lemma fits_app es e : fits (es ++ [e]) -> fits es.
Proof.
  unfold fits. rewrite all_bytes_app, all_messages_app. destruct e as [|i buf| |]; try pose proof (zlen_nonneg buf); lia.
Qed.

(** ** The connections *)

Lemma after_length sts e : length (after sts e) = length sts.
Proof. destruct e; cbn; by rewrite ?length_alter, ?length_fmap. Qed.

Definition touches (e : event) (i : nat) : Prop :=
  match e with Connected j | Message j _ | Disconnected j => j = i | Timeout => True end.

Lemma after_eq sts e i : touches e i -> after sts e !! i = next e <$> sts !! i.
Proof. destruct e; cbn; intros; subst; by rewrite ?list_lookup_alter_eq, ?list_lookup_fmap. Qed.
Lemma after_ne sts e i : ~ touches e i -> after sts e !! i = sts !! i.
Proof. destruct e; cbn; intros; rewrite ?list_lookup_alter_ne by done; tauto. Qed.
#[export] Instance touches_dec e i : Decision (touches e i).
Proof. destruct e; cbn; apply _. Defined.

(** What an event does to the line of one session. *)
Lemma line_step sts e i st : legal sts e -> sts !! i = Some st -> exists st', after sts e !! i = Some st' /\
  unread st ++ fresh i sts e = echo i sts e ++ unread st' /\
  (st' = Idle -> st = Idle /\ echo i sts e = []) /\
  zlen (fresh i sts e) + again i sts e = match e with Message j buf => if decide (j = i) then zlen buf else 0 | _ => 0 end.
Proof.
  intros Hl Hi. destruct (decide (touches e i)) as [Ht|Ht].
  - rewrite after_eq, Hi by done. eexists. split; [done|].
    unfold fresh, echo, again, view. rewrite Hi. cbn [default from_option id].
    destruct e as [j|j buf|j|]; cbn in Ht, Hl |- *; subst; rewrite ?Hi in Hl.
    + injection Hl as ->. done.
    + destruct (decide (i = i)) as [_|]; [|done]. destruct st as [| |u|u]; cbn; try done.
      * rewrite app_nil_r, drop_0. split_and!; [done..|]. change (zlen (@nil ascii)) with 0. lia.
      * destruct Hl as [d ->]. rewrite drop_app_length. split_and!; [done..|]. rewrite zlen_app. lia.
    + destruct st; by rewrite ?app_nil_r.
    + destruct st; by rewrite ?app_nil_r.
  - exists st. rewrite after_ne by done. split; [done|].
    destruct e as [j|j buf|j|]; cbn in Ht |- *; rewrite ?decide_False by done; destruct (view sts i); try done;
      by rewrite ?app_nil_r.
Qed.

Lemma count_up_bounds sts : 0 <= count_up sts <= zlen sts.
Proof. unfold count_up. induction sts as [|st sts IH]; [done|]. rewrite zlen_cons. cbn. rewrite sum_cons. destruct st; cbn; lia. Qed.
Lemma count_up_idle n : count_up (replicate n Idle) = 0.
Proof. by induction n. Qed.

Lemma count_up_alter f i sts st : sts !! i = Some st ->
  count_up (alter f i sts) = count_up sts - is_up st + is_up (f st).
Proof.
  intros H. assert (alter f i sts = <[i := f st]> sts) as ->.
  { rewrite list_insert_alter. apply list_alter_ext; [|done]. intros x Hx. congruence. }
  unfold count_up. rewrite list_fmap_insert.
  apply sum_insert. by rewrite list_lookup_fmap, H.
Qed.

(** The change of the number of connections. *)
Definition change (e : event) : Z := match e with Connected _ => 1 | Disconnected _ => -1 | _ => 0 end.
Lemma count_up_after sts e : legal sts e -> count_up (after sts e) = count_up sts + change e.
Proof.
  destruct e as [i|i buf|i|]; cbn [legal after change].
  - intros H. rewrite (count_up_alter _ _ _ _ H). cbn. lia.
  - destruct (sts !! i) as [st|] eqn:H; [|done]. intros _. rewrite (count_up_alter _ _ _ _ H). destruct st; cbn; lia.
  - destruct (sts !! i) as [st|] eqn:H; [|done]. rewrite (count_up_alter _ _ _ _ H). destruct st; cbn; lia.
  - intros _. rewrite Z.add_0_r. unfold count_up. rewrite <- list_fmap_compose. f_equal. apply list_fmap_ext.
    intros _ st _. by destruct st.
Qed.

Definition gone (st : status) : bool := match st with Down _ => true | _ => false end.
Definition all_down (sts : list status) : bool := forallb gone sts.

Lemma not_all_down sts i st : sts !! i = Some st -> gone st = false -> all_down sts = false.
Proof.
  revert i. induction sts as [|s sts IH]; intros [|i] H E; [done..| |]; cbn.
  - injection H as ->. by rewrite E.
  - fold (all_down sts). by rewrite (IH i H E), andb_false_r.
Qed.
Lemma count_up_zero sts : Idle ∉ sts -> (count_up sts =? 0) = all_down sts.
Proof.
  induction sts as [|st sts IH]; intros Hi; [done|]. apply not_elem_of_cons in Hi as [Hst Hi].
  specialize (IH Hi). pose proof (count_up_bounds sts). unfold count_up in *. cbn. fold (all_down sts). rewrite <- IH, sum_cons.
  destruct st; cbn; try done; apply Z.eqb_neq; lia.
Qed.

(** When all are down, nothing but the timer comes any more. *)
Lemma after_all_down sts : all_down (next Timeout <$> sts) = all_down sts.
Proof. induction sts as [|st sts IH]; [done|]. cbn. fold (all_down sts). rewrite <- IH. by destruct st. Qed.

Definition is_message (e : event) : bool := match e with Message _ _ => true | _ => false end.
Definition ends (sts : list status) (e : event) : bool :=
  match e with Disconnected _ => count_up (after sts e) =? 0 | _ => false end.

Lemma all_down_step sts e : legal sts e -> match e with Disconnected _ => Idle ∉ sts | _ => True end ->
  all_down (after sts e) = (all_down sts || ends sts e)%bool /\
  (all_down sts = true -> ends sts e = false /\ is_message e = false).
Proof.
  destruct e as [i|i buf|i|]; cbn [legal ends is_message]; intros Hl Ht.
  - rewrite (not_all_down sts i Idle), (not_all_down _ i Up); [done|..]; try done. by rewrite after_eq, Hl.
  - destruct (sts !! i) as [st|] eqn:Hi; [|done].
    rewrite (not_all_down sts i st), (not_all_down _ i (next (Message i buf) st)); try done; try by destruct st.
    by rewrite after_eq, Hi.
  - destruct (sts !! i) as [st|] eqn:Hi; [|done]. rewrite (not_all_down sts i st) by (done || by destruct st).
    rewrite count_up_zero; [done|]. intros [j Hj]%list_elem_of_lookup_1.
    destruct (decide (i = j)) as [<-|Hne].
    + rewrite after_eq, Hi in Hj by done. done.
    + rewrite after_ne in Hj by done. by apply Ht, (list_elem_of_lookup_2 _ j).
  - rewrite orb_false_r. split; [apply after_all_down|done].
Qed.

(** ** The totals *)

Definition totals (f : session -> Z) (c : t) : Z := sum (f <$> sessions_ c).

Lemma total_sum f ss n : Forall (fun s => 0 <= f s) ss -> 0 <= n -> n + sum (f <$> ss) < 2 ^ 63 ->
  total f n ss = Ok (n + sum (f <$> ss)).
Proof.
  intros H. revert n. induction H as [|s ss Hs H IH]; intros n Hn Hb; cbn in *; [by rewrite sum_nil, Z.add_0_r|].
  assert (0 <= sum (f <$> ss)) as Hp by (by apply sum_pos, Forall_fmap). rewrite sum_cons in *.
  destruct (Z.leb_spec (- 2 ^ 63) (n + f s)), (Z.ltb_spec (n + f s) (2 ^ 63)); try lia.
  cbn. rewrite IH by lia. f_equal. lia.
Qed.

Lemma totals_insert f c i s s' : sessions_ c !! i = Some s ->
  sum (f <$> <[i := s']> (sessions_ c)) = totals f c - f s + f s'.
Proof. intros H. rewrite list_fmap_insert. apply sum_insert. by rewrite list_lookup_fmap, H. Qed.

(** ** The invariant *)

(** The client after the events [es] of connections that began at [sts], which made it
    hand [oss] to the library. *)
Record inv (m : bytes) (T : Z) (sts : list status) (es : list event) (c : t) (oss : list (list output)) : Prop := {
  inv_sessions : length (sessions_ c) = length (finally sts es);
  inv_outputs : length oss = length es;
  inv_message : message_ c = m;
  inv_timeout : timeout_ c = T;
  inv_connected : numConnected_ c = count_up (finally sts es);
  inv_counts : forall i s, sessions_ c !! i = Some s ->
    bytesRead_ s = zlen (received i sts es) + repeated i sts es /\ bytesWritten_ s = bytesRead_ s /\
    messagesRead_ s = messages i es;
  inv_positive : Forall (fun s => 0 <= bytesRead_ s /\ 0 <= messagesRead_ s) (sessions_ c);
  inv_bytes : totals bytesRead_ c = all_bytes es;
  inv_messages : totals messagesRead_ c = all_messages es;
  inv_line : forall i st, finally sts es !! i = Some st ->
    sent i sts es oss = (if decide (st = Idle) then [] else m) ++ echoed i sts es /\
    received i sts es = echoed i sts es ++ unread st /\
    (st = Idle -> echoed i sts es = []);
}.

Lemma inv_read m T sts es c oss : inv m T sts es c oss -> Forall (fun s => 0 <= bytesRead_ s) (sessions_ c).
Proof. intros H. eapply Forall_impl; [exact (inv_positive _ _ _ _ _ _ H)|]. cbn. tauto. Qed.
Lemma inv_called m T sts es c oss : inv m T sts es c oss -> Forall (fun s => 0 <= messagesRead_ s) (sessions_ c).
Proof. intros H. eapply Forall_impl; [exact (inv_positive _ _ _ _ _ _ H)|]. cbn. tauto. Qed.

(** What is sent on a connection in a step. *)
Definition outputs (m : bytes) (e : event) (n : nat) : list output :=
  match e with
  | Connected i => [Send i m] | Message i buf => [Send i buf] | Disconnected _ => []
  | Timeout => Disconnect <$> seq 0 n
  end.
Lemma outputs_taken m e n sts i st st' : legal sts e -> sts !! i = Some st -> after sts e !! i = Some st' ->
  taken i (after sts e) (outputs m e n) =
  (if decide (st = Idle) then if decide (st' = Idle) then [] else m else []) ++ echo i sts e.
Proof.
  intros Hl Hi Hi'. unfold taken. rewrite Hi'. unfold echo, view. rewrite Hi. cbn [default from_option id].
  destruct e as [j|j buf|j|]; cbn [outputs]; cbn in Hl.
  - cbn. destruct (decide (j = i)) as [->|Hne].
    + rewrite Hi in Hl. injection Hl as ->. rewrite after_eq, Hi in Hi' by done. injection Hi' as <-. done.
    + rewrite after_ne, Hi in Hi' by done. injection Hi' as <-. destruct st; cbn; done.
  - cbn. destruct (decide (j = i)) as [->|Hne].
    + rewrite Hi in Hl. rewrite after_eq, Hi in Hi' by done. injection Hi' as <-. destruct st; cbn; by rewrite ?app_nil_r.
    + rewrite after_ne, Hi in Hi' by done. injection Hi' as <-. destruct st; cbn; done.
  - destruct (decide (touches (Disconnected j) i)) as [Ht|Hne].
    + cbn in Ht. subst j. rewrite Hi in Hl. destruct st; done || (cbn; by destruct (decide _)).
    + rewrite after_ne, Hi in Hi' by done. injection Hi' as <-. destruct st; done || (cbn; by destruct (decide _)).
  - rewrite after_eq, Hi in Hi' by done. injection Hi' as <-.
    assert (forall l, concat ((fun o => match o with Send j d => if decide (j = i) then d else [] | Disconnect _ => [] end) <$>
              (Disconnect <$> l)) = ([] : bytes)) as -> by (intros l; induction l; done).
    destruct st; cbn; done || by destruct (decide _).
Qed.

(** The lines follow whatever the client does with its own state. *)
Lemma inv_lines m T sts es c oss e n : inv m T sts es c oss -> legal (finally sts es) e ->
  forall i st', finally sts (es ++ [e]) !! i = Some st' ->
    sent i sts (es ++ [e]) (oss ++ [outputs m e n]) = (if decide (st' = Idle) then [] else m) ++ echoed i sts (es ++ [e]) /\
    received i sts (es ++ [e]) = echoed i sts (es ++ [e]) ++ unread st' /\
    (st' = Idle -> echoed i sts (es ++ [e]) = []).
Proof.
  intros Hinv Hl i st' Hi'. rewrite finally_app in Hi'.
  destruct (finally sts es !! i) as [st|] eqn:Hi.
  2:{ apply lookup_ge_None in Hi. apply lookup_lt_Some in Hi'. rewrite after_length in Hi'. lia. }
  destruct (line_step _ _ _ _ Hl Hi) as (st1 & E1 & Hu & Hid & _). rewrite Hi' in E1. injection E1 as <-.
  destruct (inv_line _ _ _ _ _ _ Hinv i st Hi) as (Hs & Hr & He).
  rewrite sent_app, (outputs_taken _ _ _ _ _ _ _ Hl Hi Hi'), received_app, echoed_app, Hs, Hr by apply (inv_outputs _ _ _ _ _ _ Hinv).
  split_and!.
  - destruct (decide (st = Idle)) as [E|E].
    + by rewrite (He E).
    + rewrite (decide_False (P := st' = Idle)) by (intros H; by apply Hid in H as [? _]). by rewrite <- !app_assoc.
  - by rewrite <- !app_assoc, Hu.
  - intros H. apply Hid in H as [E ->]. by rewrite (He E).
Qed.
Lemma finally_length sts es : length (finally sts es) = length sts.
Proof. revert sts. induction es as [|e es IH]; intros sts; [done|]. unfold finally in *. cbn. by rewrite IH, after_length. Qed.

(** An event that is no message leaves the sessions as they are. *)
Lemma inv_other m T sts es c oss e c' n : inv m T sts es c oss -> legal (finally sts es) e -> is_message e = false ->
  sessions_ c' = sessions_ c -> message_ c' = message_ c -> timeout_ c' = timeout_ c ->
  numConnected_ c' = count_up (finally sts es) + change e ->
  inv m T sts (es ++ [e]) c' (oss ++ [outputs m e n]).
Proof.
  intros Hinv Hl He E1 E2 E3 E4. pose proof (inv_lines _ _ _ _ _ _ _ n Hinv Hl) as Hlines. destruct Hinv. constructor.
  - by rewrite E1, finally_length in *.
  - by rewrite !length_app, inv_outputs0.
  - by rewrite E2.
  - by rewrite E3.
  - by rewrite finally_app, count_up_after.
  - intros i s Hs. rewrite E1 in Hs. rewrite received_app, repeated_app, messages_app.
    destruct (inv_counts0 i s Hs) as (-> & -> & ->). destruct e; try done; cbn; by rewrite app_nil_r, !Z.add_0_r.
  - by rewrite E1.
  - unfold totals. rewrite E1, all_bytes_app. destruct e; try done; by rewrite Z.add_0_r.
  - unfold totals. rewrite E1, all_messages_app. destruct e; try done; by rewrite Z.add_0_r.
  - done.
Qed.

Lemma message_fits m T sts es c oss i buf s : inv m T sts es c oss -> fits (es ++ [Message i buf]) ->
  sessions_ c !! i = Some s -> count_message buf s =
    Ok (mk_session (name s) (bytesRead_ s + zlen buf) (bytesWritten_ s + zlen buf) (messagesRead_ s + 1)).
Proof.
  intros Hinv [Hb Hm] Hs. rewrite all_bytes_app in Hb. rewrite all_messages_app in Hm.
  destruct (inv_counts _ _ _ _ _ _ Hinv i s Hs) as (_ & Hw & _).
  pose proof (inv_bytes _ _ _ _ _ _ Hinv) as Eb. pose proof (inv_messages _ _ _ _ _ _ Hinv) as Em.
  assert (0 <= bytesRead_ s <= totals bytesRead_ c) as Hr.
  { apply (sum_lookup _ i); [by apply Forall_fmap, (inv_read _ _ _ _ _ _ Hinv)|by rewrite list_lookup_fmap, Hs]. }
  assert (0 <= messagesRead_ s <= totals messagesRead_ c) as Hc.
  { apply (sum_lookup _ i); [by apply Forall_fmap, (inv_called _ _ _ _ _ _ Hinv)|by rewrite list_lookup_fmap, Hs]. }
  pose proof (zlen_nonneg buf). unfold count_message. rewrite (proj2 (Z.ltb_lt _ _)) by lia. cbn.
  by rewrite Hw, !i64_small by lia.
Qed.

Lemma inv_data m T sts es c oss i buf : inv m T sts es c oss -> legal (finally sts es) (Message i buf) ->
  fits (es ++ [Message i buf]) -> exists c', onMessage i buf c = Ok (c', [Send i buf]) /\
    inv m T sts (es ++ [Message i buf]) c' (oss ++ [[Send i buf]]) /\ log c' = log c /\ quit c' = quit c.
Proof.
  intros Hinv Hl Hf. pose proof (inv_lines _ _ _ _ _ _ _ 0 Hinv Hl) as Hlines. cbn [outputs] in Hlines.
  destruct (finally sts es !! i) as [st|] eqn:Hi; [|cbn in Hl; by rewrite Hi in Hl].
  assert (exists s, sessions_ c !! i = Some s) as [s Hs].
  { apply lookup_lt_is_Some_2. rewrite (inv_sessions _ _ _ _ _ _ Hinv). by eapply lookup_lt_Some. }
  destruct (line_step _ _ _ _ Hl Hi) as (_ & _ & _ & _ & Hcount). rewrite decide_True in Hcount by done.
  pose proof (zlen_nonneg buf). unfold onMessage. rewrite Hs, (message_fits _ _ _ _ _ _ _ _ _ Hinv Hf Hs). cbn.
  eexists. split; [done|]. split; [|done]. destruct Hinv. constructor; cbn; try done.
  - by rewrite length_insert, inv_sessions0, !finally_length.
  - by rewrite !length_app, inv_outputs0.
  - rewrite finally_app, count_up_after, inv_connected0 by done. cbn. lia.
  - intros j s' Hj. rewrite received_app, repeated_app, messages_app. destruct (decide (i = j)) as [<-|Hne].
    + rewrite list_lookup_insert_eq in Hj by (by eapply lookup_lt_Some). injection Hj as <-. cbn -[fresh again].
      destruct (inv_counts0 i s Hs) as (-> & Hw & ->). rewrite zlen_app, decide_True by done.
      rewrite Hw. destruct (inv_counts0 i s Hs) as (-> & _). lia.
    + rewrite list_lookup_insert_ne in Hj by done. cbn. rewrite !decide_False by done.
      rewrite app_nil_r, !Z.add_0_r. by apply inv_counts0.
  - apply Forall_insert; [done|]. cbn. rewrite Forall_lookup in inv_positive0. specialize (inv_positive0 i s Hs). lia.
  - unfold totals. cbn. rewrite (totals_insert _ _ _ _ _ Hs), inv_bytes0, all_bytes_app. cbn. lia.
  - unfold totals. cbn. rewrite (totals_insert _ _ _ _ _ Hs), inv_messages0, all_messages_app. cbn. lia.
Qed.

(** What the last disconnection writes. *)
Definition final_report (B M T : Z) : list entry :=
  [AllDisconnected; TotalBytes B; TotalMessages M; AverageSize B M; Throughput B (T * 1024 * 1024)].

Lemma report_other n es q c : Forall (fun x => x = AllConnected \/ x = Stopped) es -> report (set_connected n es q c) = report c.
Proof.
  intros H. unfold report. cbn. rewrite filter_app.
  assert (filter (fun x => x <> AllConnected /\ x <> Stopped) es = []) as ->; [|by rewrite app_nil_r].
  induction H as [|x es [->| ->] _ IH]; [done|..]; by rewrite filter_cons_False by naive_solver.
Qed.

Lemma onDisconnect_ok m T sts es c oss i : inv m T sts es c oss -> legal (finally sts es) (Disconnected i) -> fits es ->
  zlen sts < 2 ^ 31 -> 0 <= T < 2048 ->
  let n := count_up (after (finally sts es) (Disconnected i)) in
  onDisconnect c = Ok (if n =? 0 then set_connected n (final_report (all_bytes es) (all_messages es) T) true c
                       else set_connected n [] false c).
Proof.
  intros Hinv Hl [Hb Hm] Hn HT n. assert (n = count_up (finally sts es) - 1) as En.
  { unfold n. rewrite count_up_after by done. cbn. lia. }
  pose proof (count_up_bounds (finally sts es)) as Hc. unfold zlen in Hc, Hn. rewrite finally_length in Hc.
  unfold onDisconnect. rewrite (inv_connected _ _ _ _ _ _ Hinv), <- En, i32_small by lia.
  destruct (Z.eqb_spec n 0) as [_|_]; [|done].
  rewrite (total_sum bytesRead_), (total_sum messagesRead_).
  2: by apply (inv_called _ _ _ _ _ _ Hinv).
  3: fold (totals messagesRead_ c); by rewrite (inv_messages _ _ _ _ _ _ Hinv).
  3: by apply (inv_read _ _ _ _ _ _ Hinv).
  4: fold (totals bytesRead_ c); by rewrite (inv_bytes _ _ _ _ _ _ Hinv).
  2,3: lia.
  fold (totals bytesRead_ c) (totals messagesRead_ c).
  rewrite (inv_timeout _ _ _ _ _ _ Hinv), (inv_bytes _ _ _ _ _ _ Hinv), (inv_messages _ _ _ _ _ _ Hinv). cbn [mbind result_bind].
  rewrite (proj2 (Z.leb_le _ _)), (proj2 (Z.ltb_lt _ _)) by lia. done.
Qed.

Lemma client_step m T sts es c oss e : inv m T sts es c oss -> legal (finally sts es) e -> fits (es ++ [e]) ->
  zlen sts < 2 ^ 31 -> 0 <= T < 2048 ->
  exists c' o, step e c = Ok (c', o) /\ inv m T sts (es ++ [e]) c' (oss ++ [o]) /\
    report c' = report c ++ (if ends (finally sts es) e then final_report (all_bytes es) (all_messages es) T else []) /\
    quit c' = quit c || ends (finally sts es) e.
Proof.
  intros Hinv Hl Hf Hn HT. pose proof (count_up_bounds (finally sts es)) as Hc.
  pose proof (count_up_bounds (after (finally sts es) e)) as Hc'. rewrite count_up_after in Hc' by done.
  unfold zlen in Hc, Hc', Hn. rewrite finally_length in Hc. rewrite after_length, finally_length in Hc'.
  destruct e as [i|i buf|i|]; cbn [step ends].
  - eexists _, _. split; [done|]. rewrite app_nil_r, orb_false_r, (inv_message _ _ _ _ _ _ Hinv). split; [|split].
    + apply (inv_other _ _ _ _ _ _ (Connected i) _ 0 Hinv); try done. cbn in *.
      by rewrite (inv_connected _ _ _ _ _ _ Hinv), i32_small by lia.
    + apply report_other. destruct (_ =? _); repeat constructor.
    + cbn. by rewrite orb_false_r.
  - destruct (inv_data _ _ _ _ _ _ _ _ Hinv Hl Hf) as (c' & E & Hi' & El & Eq). exists c', [Send i buf].
    split; [done|]. split; [done|]. unfold report. by rewrite El, Eq, app_nil_r, orb_false_r.
  - unfold onConnection. rewrite (onDisconnect_ok _ _ _ _ _ _ i Hinv Hl (fits_app _ _ Hf)) by done.
    cbn [mbind result_bind]. eexists _, _. split; [done|].
    assert (forall es' q, inv m T sts (es ++ [Disconnected i])
      (set_connected (count_up (after (finally sts es) (Disconnected i))) es' q c) (oss ++ [[]])) as Ho.
    { intros es' q. apply (inv_other _ _ _ _ _ _ (Disconnected i) _ 0 Hinv); try done. cbn [numConnected_ set_connected].
      by rewrite count_up_after. }
    destruct (_ =? 0); (split; [by apply Ho|]).
    + split; [unfold report; cbn [log set_connected]; by rewrite filter_app|done].
    + rewrite app_nil_r. split; [by apply report_other|done].
  - eexists _, _. split; [done|]. rewrite app_nil_r, orb_false_r. split; [|split].
    + apply (inv_other _ _ _ _ _ _ Timeout _ _ Hinv); try done. cbn. rewrite Z.add_0_r. apply (inv_connected _ _ _ _ _ _ Hinv).
    + apply report_other. constructor; [by right|constructor].
    + cbn. by rewrite orb_false_r.
Qed.

Lemma construct_inv bs sc T tc :
  inv (block bs) T (replicate (Z.to_nat sc) Idle) [] (construct bs sc T tc) [].
Proof.
  assert (forall (f : session -> Z) l, (forall i, f (mk_session (session_name (Z.of_nat i)) 0 0 0) = 0) ->
    sum (f <$> ((fun i => mk_session (session_name (Z.of_nat i)) 0 0 0) <$> l)) = 0) as Hsum.
  { intros f l Hf. induction l as [|i l IH]; [done|]. cbn. rewrite sum_cons, Hf. done. }
  constructor; cbn; try done.
  - by rewrite length_fmap, length_seq, length_replicate.
  - by rewrite count_up_idle.
  - intros i s Hs. apply list_lookup_fmap_Some in Hs as (j & -> & _). done.
  - apply Forall_fmap, Forall_true. cbn. lia.
  - by apply Hsum.
  - by apply Hsum.
  - intros i st Hi. apply lookup_replicate in Hi as [-> _]. done.
Qed.

(** ** The runs *)
Section runs.
Context (bs sc T tc : Z) (Hsc : sc < 2 ^ 31) (HT : 0 <= T < 2048).
Let idle := replicate (Z.to_nat sc) Idle.

Lemma idle_fits : zlen idle < 2 ^ 31.
Proof. unfold zlen, idle. rewrite length_replicate. lia. Qed.

Lemma client_run es : legal_run idle es -> fits es ->
  exists c oss, run es (construct bs sc T tc) = Ok (c, oss) /\ inv (block bs) T idle es c oss.
Proof.
  induction es as [|e es IH] using rev_ind; intros Hl Hf.
  { exists (construct bs sc T tc), []. split; [done|]. apply construct_inv. }
  apply legal_run_app in Hl as [Hl He]. destruct (IH Hl (fits_app _ _ Hf)) as (c & oss & E & Hinv).
  destruct (client_step _ _ _ _ _ _ _ Hinv He Hf idle_fits HT) as (c' & o & E' & Hinv' & _).
  exists c', (oss ++ [o]). rewrite run_app, E. cbn. by rewrite E'.
Qed.

(** When no session goes down before all are up, the report is there as soon as all are
    down. *)
Definition reported (es : list event) (c : t) : Prop :=
  report c = (if all_down (finally idle es) then final_report (all_bytes es) (all_messages es) T else []) /\
  quit c = all_down (finally idle es).

Lemma client_run_reported es : 0 < sc -> legal_run idle es -> together idle es -> fits es ->
  exists c oss, run es (construct bs sc T tc) = Ok (c, oss) /\ reported es c.
Proof.
  intros Hs Hl Ht Hf. cut (exists c oss, run es (construct bs sc T tc) = Ok (c, oss) /\
    inv (block bs) T idle es c oss /\ reported es c); [intros (c & oss & ? & _ & ?); eauto|].
  induction es as [|e es IH] using rev_ind.
  { exists (construct bs sc T tc), []. split; [done|]. split; [apply construct_inv|]. unfold reported, finally. cbn [foldl].
    rewrite (not_all_down _ 0 Idle); [done| |done]. apply lookup_replicate. split; [done|lia]. }
  apply legal_run_app in Hl as [Hl He]. apply together_app in Ht as [Ht Hte].
  destruct (IH Hl Ht (fits_app _ _ Hf)) as (c & oss & E & Hinv & Hr & Hq).
  destruct (client_step _ _ _ _ _ _ _ Hinv He Hf idle_fits HT) as (c' & o & E' & Hinv' & Hr' & Hq').
  exists c', (oss ++ [o]). rewrite run_app, E. cbn [mbind result_bind]. rewrite E'. split; [done|]. split; [done|].
  unfold reported. rewrite Hr', Hq', Hr, Hq, finally_app, all_bytes_app, all_messages_app.
  destruct (all_down_step _ _ He Hte) as [-> Hd]. destruct (all_down (finally idle es)).
  - destruct (Hd eq_refl) as [-> Hm]. rewrite app_nil_r. destruct e; try done; by rewrite !Z.add_0_r.
  - cbn [orb app]. split; [|done]. destruct e; cbn [ends]; try done. by rewrite !Z.add_0_r.
Qed.

End runs.

(** Without the timer nothing is unread. *)
Lemma next_unread e st : e <> Timeout -> (forall u, st <> Leaving u) -> unread st = [] ->
  (forall u, next e st <> Leaving u) /\ unread (next e st) = [].
Proof. intros He Hs Hu. destruct e, st; try done; by destruct (Hs unread0). Qed.

Lemma untimed n es : Timeout ∉ es -> legal_run (replicate n Idle) es ->
  forall i st, finally (replicate n Idle) es !! i = Some st -> (forall u, st <> Leaving u) /\ unread st = [].
Proof.
  induction es as [|e es IH] using rev_ind; intros Hn Hl i st.
  { intros [-> _]%lookup_replicate. done. }
  apply not_elem_of_app in Hn as [Hn He]. apply not_elem_of_cons in He as [He _]. apply legal_run_app in Hl as [Hl _].
  rewrite finally_app. destruct (decide (touches e i)) as [Htch|Htch]; [|rewrite after_ne by done; by apply IH].
  rewrite after_eq by done. destruct (finally (replicate n Idle) es !! i) as [st'|] eqn:Hi; [|done].
  intros [= <-]. destruct (IH Hn Hl i st' Hi). by apply next_unread.
Qed.

Lemma untimed_repeated n es i : Timeout ∉ es -> legal_run (replicate n Idle) es -> repeated i (replicate n Idle) es = 0.
Proof.
  induction es as [|e es IH] using rev_ind; intros Hn Hl; [done|].
  apply not_elem_of_app in Hn as [Hn _]. apply legal_run_app in Hl as [Hl _]. rewrite repeated_app, IH by done.
  unfold again. destruct e as [|j buf| |]; try done. destruct (decide (j = i)); [|done]. unfold view.
  destruct (finally (replicate n Idle) es !! i) as [st|] eqn:Hi; [|done]. cbn. by destruct (untimed n es Hn Hl i st Hi) as [_ ->].
Qed.

Lemma all_received_app sts es e : all_received sts (es ++ [e]) =
  all_received sts es + match e with Message j _ => zlen (fresh j (finally sts es) e) | _ => 0 end.
Proof. unfold all_received. by rewrite over_app, sum_app, sum_one. Qed.

(** What the calls are about is at least what was received, and just that without the timer. *)
Lemma all_bytes_received sts es : legal_run sts es -> all_received sts es <= all_bytes es.
Proof.
  induction es as [|e es IH] using rev_ind; intros Hl; [done|]. apply legal_run_app in Hl as [Hl He].
  specialize (IH Hl). rewrite all_received_app, all_bytes_app. destruct e as [|j buf| |]; try lia.
  unfold fresh. rewrite decide_True by done. unfold zlen. rewrite length_drop. lia.
Qed.

(** What is unread at the end has been unread since it came. *)
Lemma unread_back sts e : legal sts e -> Forall (fun st => unread st = []) (after sts e) ->
  Forall (fun st => unread st = []) sts.
Proof.
  rewrite !Forall_lookup. intros Hl H i st Hi. destruct (decide (touches e i)) as [Ht|Ht].
  - specialize (H i (next e st)). rewrite after_eq, Hi in H by done. specialize (H eq_refl).
    destruct e as [j|j buf|j|]; cbn in Ht, Hl; subst; rewrite ?Hi in Hl; destruct st; try done.
    cbn in *. subst. by apply prefix_nil_inv in Hl.
  - apply (H i). by rewrite after_ne.
Qed.

Lemma read_received sts es : legal_run sts es -> Forall (fun st => unread st = []) (finally sts es) ->
  all_received sts es = all_bytes es.
Proof.
  induction es as [|e es IH] using rev_ind; intros Hl Hu; [done|].
  apply legal_run_app in Hl as [Hl He]. rewrite finally_app in Hu. apply unread_back in Hu; [|done].
  rewrite all_received_app, all_bytes_app, IH by done. destruct e as [|j buf| |]; try done.
  unfold fresh. rewrite decide_True by done. unfold view.
  destruct (finally sts es !! j) as [st|] eqn:Hj; [|done].
  cbn [default from_option id]. by rewrite (proj1 (Forall_lookup _ _) Hu j st Hj).
Qed.

End ClientFacts.

(** * Properties *)
Module ClientProps.
Import PingpongClient ClientSpec ClientFacts.

(** C31: Whatever the order in which the library delivers the events of the sessions, the
    client runs without a fault as long as its 64-bit counters suffice, and knows how many
    sessions are up. On each session that came up it has sent the message and then, byte
    for byte, what it received, up to the bytes that came after the time was up, which are
    left in the input buffer; and it has counted what it received, and those left
    bytes once more at every later call: before the time is up, exactly what it received. *)
Theorem client_counts bs sc T tc es : 0 <= sc < 2 ^ 31 -> 0 <= T < 2048 ->
  let idle := replicate (Z.to_nat sc) Idle in
  legal_run idle es -> fits es ->
  exists c oss, run es (construct bs sc T tc) = Ok (c, oss) /\
    numConnected_ c = count_up (finally idle es) /\
    (forall i s st, sessions_ c !! i = Some s -> finally idle es !! i = Some st ->
       sent i idle es oss = (if decide (st = Idle) then [] else block bs) ++ echoed i idle es /\
       received i idle es = echoed i idle es ++ unread st /\
       bytesRead_ s = zlen (received i idle es) + repeated i idle es /\
       bytesWritten_ s = bytesRead_ s /\ messagesRead_ s = messages i es /\
       (Timeout ∉ es -> unread st = [] /\ bytesRead_ s = zlen (received i idle es))).
Proof.
  intros [_ Hs] HT idle Hl Hf. destruct (client_run bs sc T tc Hs HT es Hl Hf) as (c & oss & E & Hinv).
  exists c, oss. split; [done|]. split; [apply (inv_connected _ _ _ _ _ _ Hinv)|]. intros i s st His Hst.
  destruct (inv_line _ _ _ _ _ _ Hinv i st Hst) as (? & ? & _), (inv_counts _ _ _ _ _ _ Hinv i s His) as (Hb & ? & ?).
  split_and!; try done. intros Hn. split; [by apply (untimed _ es Hn Hl i)|].
  rewrite Hb. unfold idle. rewrite untimed_repeated by done. lia.
Qed.

(** C32: If no session goes down before all have come up, and the 64-bit counters
    suffice, the client reports and stops its loop when the last one goes down and never
    before, once, and the totals it reports are those of all the calls about messages:
    at least what was received, and exactly that if nothing was left unread when the
    time was up. *)
Theorem client_reports bs sc T tc es : 0 < sc < 2 ^ 31 -> 0 <= T < 2048 ->
  let idle := replicate (Z.to_nat sc) Idle in
  legal_run idle es -> together idle es -> fits es ->
  exists c oss, run es (construct bs sc T tc) = Ok (c, oss) /\
    quit c = all_down (finally idle es) /\
    report c = (if all_down (finally idle es) then final_report (all_bytes es) (all_messages es) T else []) /\
    all_received idle es <= all_bytes es /\
    (Forall (fun st => unread st = []) (finally idle es) -> all_received idle es = all_bytes es).
Proof.
  intros [Hs0 Hs] HT idle Hl Ht Hf. destruct (client_run_reported bs sc T tc Hs HT es Hs0 Hl Ht Hf) as (c & oss & E & Hr & Hq).
  exists c, oss. split_and!; try done; [by apply all_bytes_received|].
  by apply read_received.
Qed.

Lemma prefix_period (m r : bytes) : 0 < zlen m -> r `prefix_of` m ++ r ->
  forall k x, r !! k = Some x -> m !! (k mod length m)%nat = Some x.
Proof.
  intros Hm [tl Htl] k. unfold zlen in Hm. induction (lt_wf k) as [k _ IH]. intros x Hx.
  assert ((m ++ r) !! k = Some x) as Hk by (rewrite Htl; by apply lookup_app_l_Some).
  destruct (Nat.lt_ge_cases k (length m)) as [Hlt|Hge].
  - rewrite Nat.mod_small by done. by rewrite lookup_app_l in Hk.
  - rewrite lookup_app_r in Hk by done. apply IH in Hk; [|lia].
    replace k with (k - length m + 1 * length m)%nat at 1 by lia. by rewrite Nat.Div0.mod_add.
Qed.

(** With a server that sends back what it receives, so that what a session received is
    the beginning of what was sent on it, there is always one block of [bs] bytes under
    way or unread, and what arrives is the block over and over again. *)
Theorem block_circulates bs sc T tc es c oss i st : 0 <= sc < 2 ^ 31 -> 0 <= T < 2048 -> 0 < bs ->
  let idle := replicate (Z.to_nat sc) Idle in
  legal_run idle es -> fits es -> run es (construct bs sc T tc) = Ok (c, oss) ->
  finally idle es !! i = Some st -> st <> Idle -> received i idle es `prefix_of` sent i idle es oss ->
  zlen (sent i idle es oss) = zlen (received i idle es) - zlen (unread st) + bs /\
  forall k x, received i idle es !! k = Some x -> x = ascii_of_nat (k mod Z.to_nat bs mod 128).
Proof.
  intros [_ Hs] HT Hb idle Hl Hf E Hi Hup Hp. destruct (client_run bs sc T tc Hs HT es Hl Hf) as (c' & oss' & E' & Hinv).
  rewrite E in E'. injection E' as <- <-. destruct (inv_line _ _ _ _ _ _ Hinv i st Hi) as (Hsent & Hr & _).
  fold idle in Hsent, Hr. rewrite decide_False in Hsent by done.
  assert (length (block bs) = Z.to_nat bs) as Hlen by (unfold block; by rewrite length_fmap, length_seq).
  split; [rewrite Hsent, Hr, !zlen_app; unfold zlen; rewrite Hlen; lia|].
  assert (received i idle es `prefix_of` block bs ++ received i idle es) as Hp'.
  { etrans; [exact Hp|]. rewrite Hsent, Hr. apply prefix_app, prefix_app_r. done. }
  intros k x Hx. apply (prefix_period (block bs)) in Hx; [|unfold zlen; lia|done].
  rewrite Hlen in Hx. unfold block in Hx. apply list_lookup_fmap_Some in Hx as (j & -> & Hj).
  apply lookup_seq in Hj as [-> _]. done.
Qed.

(** Two sessions, with one byte to send; the first receives two bytes more when the time
    is up, of which it is told one by one. *)
Definition sample_events : list event :=
  [Connected 0; Connected 1; Message 0 [Ascii.zero]; Timeout; Message 0 [Ascii.one]; Message 0 [Ascii.one; Ascii.zero];
   Disconnected 1; Disconnected 0].

Lemma sample_legal : legal_run (replicate 2 Idle) sample_events.
Proof. cbn. split_and!; try done; by eexists. Defined.
Lemma sample_events_fit : fits sample_events.
Proof. by vm_compute. Defined.

Lemma client_counts_witness : exists c oss, run sample_events (construct 1 2 10 4) = Ok (c, oss) /\ numConnected_ c = 0.
Proof.
  destruct (client_counts 1 2 10 4 sample_events) as (c & os & E & H & _);
    [lia|lia|exact sample_legal|exact sample_events_fit|]. by exists c, os.
Defined.

(** Three bytes were received, and four are reported. *)
Lemma client_reports_witness : all_received (replicate 2 Idle) sample_events = 3 /\
  exists c oss, run sample_events (construct 1 2 10 4) = Ok (c, oss) /\
  report c = [AllDisconnected; TotalBytes 4; TotalMessages 3; AverageSize 4 3; Throughput 4 10485760].
Proof.
  split; [by vm_compute|].
  destruct (client_reports 1 2 10 4 sample_events) as (c & os & E & _ & H & _);
    [lia|lia|exact sample_legal| |exact sample_events_fit|by exists c, os].
  cbn. split_and!; try done; apply (bool_decide_unpack _); by vm_compute.
Defined.

Lemma block_circulates_witness : exists c oss, run [Connected 0; Message 0 [Ascii.zero]] (construct 2 1 10 1) = Ok (c, oss) /\
  zlen (sent 0 [Idle] [Connected 0; Message 0 [Ascii.zero]] oss) = 3.
Proof.
  eexists _, _. split; [by vm_compute|].
  eapply (block_circulates 2 1 10 1 [Connected 0; Message 0 [Ascii.zero]] _ _ 0 Up); try lia; try (by vm_compute).
  eexists. by vm_compute.
Defined.

(** The client gives up as soon as none of the sessions is up, be it that one went down
    before the next came up; and with a time of 2048 seconds or more the divisor of
    the throughput overflows. *)
Example early_quit : exists c oss, run [Connected 0; Disconnected 0] (construct 1 2 10 1) = Ok (c, oss) /\ quit c = true.
Proof. eexists _, _. split; [by vm_compute|done]. Qed.
Example throughput_overflows :
  run [Connected 0; Disconnected 0] (construct 1 1 2048 1) = Err (UB SignedOverflow).
Proof. by vm_compute. Qed.

End ClientProps.
