(* ===== verification/System.v ===== *)
(** The whole server (src/tcp_server.cc, src/tcp_connection.cc, src/channel.cc and
    src/event_loop.cc together): the server's map, the loops with their pollers and
    queues, and the connection objects, which live as long as something holds a
    [shared_ptr] to them. Every step is one the threads of the loops take: accepting
    a connection, handling the events of one channel, running one queued functor. What
    the server's user does in the callbacks is an interface, [App].

    A loop's queue is the rest of the batch [DoPendingFunctors] swapped out, then
    [pending_functors_]. A functor's hold on its connection ends here as soon as it has
    run, in the code when its batch ends: nothing here gains from the time between.
    That the threads take these steps in rounds of a poll and a batch is Reactor.v.
    The channels of the acceptor and of the loops' wakeup descriptors are in Net.v and
    EventLoop.v; which descriptors are open is added in Descriptors.v. *)
From Stdlib Require Import ZArith Lia Ascii.
From stdpp Require Import base gmap list option strings.
From S2P Require Import Prelude Buffer Channel Poller EventLoop TcpConnection ThreadPool Net TcpServer.

Local Open Scope Z_scope.

(** * The user of a server *)

(** The callbacks a [TcpServer] gives its connections: the user's three, and
    [RemoveConnection] for closing. *)
Inductive callback := OnConnection | OnMessage | OnWriteComplete | OnClose.

#[export] Instance callback_eq_dec : EqDecision callback.
Proof. solve_decision. Defined.

(** And the one for the threads of its loops. *)
Inductive thread_callback := OnThreadInit.

Abbreviation world := (TcpConnection.W callback).

(** What the user's callbacks do to the connection they are called with, in its loop's
    thread, the kernel's write being for those that send; and which of them the server
    was given. *)
Class App := {
  app : forall {Q : Type} `{!Poller (CB := TcpConnection.handler) (OBJ := unit) Q},
    (bytes -> Buffer.write_result) -> callback -> world Q -> result (world Q);
  server_callbacks : TcpServer.callbacks callback thread_callback;
}.

(** Whether a write-complete callback was set at all. *)
Definition write_complete_set `{!App} : bool :=
  match TcpServer.write_complete_callback_ server_callbacks with Some _ => true | None => false end.

Module System.

(** What the kernel answers: a write takes up to [n] bytes or fails, a read gives the
    bytes that are there, as far as they fit, or fails. *)
Inductive write_answer := WTake (n : Z) | WFail (errno : Z).
Inductive read_answer := RGive (d : bytes) | RFail (errno : Z).

Definition writes (a : write_answer) (d : bytes) : Buffer.write_result :=
  match a with
  | WTake n => Buffer.Wrote (Z.max 0 (Z.min n (zlen d)))
  | WFail e => Buffer.WriteErr e
  end.
Definition reads (a : read_answer) (cap : Z) : Buffer.read_result :=
  match a with RGive d => Buffer.ReadData (ztake cap d) | RFail e => Buffer.ReadErr e end.

(** A write that says the peer is gone. *)
Definition breaks (a : write_answer) : bool :=
  match a with WTake _ => false | WFail e => TcpConnection.fault_error e end.

(** A functor in a loop's queue: the server's, which hold the connection, and the
    connection's own, of which only the write-complete callback does. *)
Inductive functor :=
  | FServer (k : TcpServer.task)
  | FTask (c : ptr) (k : TcpConnection.task callback).

(** The connection a functor is about, and whether it holds a [shared_ptr] to it. *)
Definition about (f : functor) : option ptr :=
  match f with
  | FServer TcpServer.TListen => None
  | FServer (TcpServer.TEstablished c) => Some c
  | FServer (TcpServer.TRemoveInLoop c) => Some c
  | FServer (TcpServer.TDestroyed c) => Some c
  | FTask c _ => Some c
  end.
Definition holds (f : functor) : bool :=
  match f with
  | FServer _ => true
  | FTask _ (TcpConnection.TWriteComplete _) => true
  | FTask _ _ => false
  end.

(** A connection object, its loop, its socket, and the history of what the kernel
    delivered to it and whether a write was answered that the peer is gone. *)
Record obj := mk_obj {
  o_conn : TcpConnection.t callback;
  o_loop : ptr;
  o_sent : bytes;
  o_shut : bool;
  o_recv : bytes;
  o_lost : bool;
}.

Section System.
Context {P : Type} `{!Poller (CB := TcpConnection.handler) (OBJ := unit) P} `{!App}.

(** A loop: the channels of its connections, its poller and its queue. *)
Record loopst := mk_loop {
  l_chans : gmap ptr (Channel.t TcpConnection.handler unit);
  l_poller : P;
  l_queue : list functor;
}.

Record t := mk {
  srv : TcpServer.t;
  loops : gmap ptr loopst;
  objs : gmap ptr obj;
}.

Definition set_srv (x : TcpServer.t) (s : t) : t := mk x (loops s) (objs s).
Definition push (l : ptr) (fs : list functor) (s : t) : t :=
  mk (srv s)
    (alter (fun ls => mk_loop (l_chans ls) (l_poller ls) (l_queue ls ++ fs)) l (loops s)) (objs s).

(** What one connection's code sees of the system. *)
Definition enter (o : obj) (ls : loopst) : world P :=
  TcpConnection.mkW (o_conn o) (l_chans ls) (l_poller ls) (o_sent o) (o_shut o) [] ∅ [].

(** The callbacks as the connection calls them: the server's own hands the closing
    over to the server's loop. *)
Definition user (wr : bytes -> Buffer.write_result) (f : callback) (w : world P) : result (world P) :=
  match f with
  | OnClose => Ok (TcpConnection.post OnClose w)
  | f => app wr f w
  end.

(** Putting back what the connection's code changed. *)
Definition leave (c : ptr) (o : obj) (ls : loopst) (w : world P) (s : t) : t :=
  mk (srv s)
    (<[o_loop o := mk_loop (TcpConnection.chans w) (TcpConnection.poller w)
        (l_queue ls ++ (FTask c <$> TcpConnection.queued w))]> (loops s))
    (<[c := mk_obj (TcpConnection.conn w) (o_loop o) (TcpConnection.sent w)
        (TcpConnection.wr_shut w) (o_recv o) (o_lost o)]> (objs s)).

(** The functors the server handed out go to their loops' queues. *)
Definition hand_out (s : t) : t :=
  foldl (fun s '(l, k, in_place) => if in_place : bool then s else push l [FServer k] s)
    (set_srv (TcpServer.take_calls (srv s)) s) (TcpServer.calls (srv s)).

(** [TcpServer::RemoveConnection], the close callback, in the thread of loop [here]. *)
Definition close (here c : ptr) (s : t) : t :=
  hand_out (set_srv (TcpServer.RemoveConnection here c (srv s)) s).

(** Code of connection [c], run in the thread of its loop. *)
Definition on_conn (c : ptr) (op : world P -> result (world P)) (s : t) : result t :=
  match objs s !! c with
  | None => Err (UB UseAfterFree)
  | Some o =>
      match loops s !! o_loop o with
      | None => Err (UB UseAfterFree)
      | Some ls =>
          w ← op (enter o ls);
          Ok (foldl (fun s _ => close (o_loop o) c s) (leave c o ls w s) (TcpConnection.posted w))
      end
  end.

(** A connection exists as long as the map or a queued functor holds it. *)
Definition referenced (s : t) (c : ptr) : bool :=
  existsb (fun kv => bool_decide (kv.2 = Some c)) (map_to_list (TcpServer.connection_maps (srv s))) ||
  existsb (fun kv => existsb (fun f => holds f && bool_decide (about f = Some c)) (l_queue kv.2))
    (map_to_list (loops s)).

(** The last [shared_ptr] is gone: the connection is destroyed with its channel. *)
Definition dead (s : t) (c : ptr) : bool :=
  bool_decide (is_Some (objs s !! c)) && negb (referenced s c).
Definition release (s : t) : t :=
  mk (srv s)
    ((fun ls => mk_loop (filter (fun kv => dead s kv.1 = false) (l_chans ls)) (l_poller ls) (l_queue ls))
       <$> loops s)
    (filter (fun kv => dead s kv.1 = false) (objs s)).

(** The handlers of a connection's channel. *)
Definition deliver (c : ptr) (d : bytes) (lost : bool) (s : t) : t :=
  mk (srv s) (loops s)
    (alter (fun o => mk_obj (o_conn o) (o_loop o) (o_sent o) (o_shut o) (o_recv o ++ d) (o_lost o || lost))
       c (objs s)).

Definition delivered (ra : read_answer) (c : ptr) (s : t) : bytes :=
  match ra, objs s !! c with
  | RGive d, Some o => ztake (Buffer.read_capacity (TcpConnection.input_buffer_ (o_conn o))) d
  | _, _ => []
  end.

(** [rd], and the write it may cause, for [HandleRead]; [wr] for [HandleWrite]. *)
Definition invoke (rd : read_answer) (rw ww : write_answer) (c : ptr) (h : TcpConnection.handler) (s : t) :
    result t :=
  match h with
  | TcpConnection.HRead =>
      let d := delivered rd c s in
      on_conn c (TcpConnection.HandleRead (user (writes rw)) (reads rd)) (deliver c d (breaks rw) s)
  | TcpConnection.HWrite => on_conn c (TcpConnection.HandleWrite (writes ww)) s
  | TcpConnection.HClose => on_conn c (TcpConnection.HandleClose (user (writes rw))) s
  | TcpConnection.HError => on_conn c TcpConnection.HandleError s
  end.

Definition find_channel (c : ptr) (s : t) : option (Channel.t TcpConnection.handler unit) :=
  o ← objs s !! c; ls ← loops s !! o_loop o; l_chans ls !! c.

(** The poller reports events [r] on the channel, which then handles them. *)
Definition set_revents (c : ptr) (r : Z) (s : t) : t :=
  match objs s !! c with
  | None => s
  | Some o =>
      mk (srv s)
        (alter (fun ls => mk_loop (alter (Channel.Set_Revents r) c (l_chans ls)) (l_poller ls) (l_queue ls))
           (o_loop o) (loops s)) (objs s)
  end.

Definition handle_io (c : ptr) (r : Z) (rd : read_answer) (rw ww : write_answer) (s : t) : result t :=
  Channel.HandleEvent find_channel (invoke rd rw ww c)
    (fun _ s => bool_decide (is_Some (objs s !! c))) c (set_revents c r s).

(** What [NewConnection] sets on the new connection: the server's callbacks, and its
    own for closing. *)
Definition install (x : TcpConnection.t callback) : TcpConnection.t callback :=
  let x := TcpConnection.SetConnectionCallback (TcpServer.connection_callback_ server_callbacks) x in
  let x := TcpConnection.SetMessageCallback (TcpServer.message_callback_ server_callbacks) x in
  let x := TcpConnection.SetWriteCompleteCallback (TcpServer.write_complete_callback_ server_callbacks) x in
  TcpConnection.SetCloseCallback (Some OnClose) x.

(** [Acceptor::HandleRead] got descriptor [fd]: [TcpServer::NewConnection], with the
    connection's constructor and the callbacks it is given. *)
Definition accept (fd : Z) (s : t) : result t :=
  '(c, x) ← TcpServer.NewConnection fd (srv s);
  match TcpServer.conns x !! c with
  | None => Err (UB NullDeref)
  | Some y =>
      match loops s !! TcpServer.conn_loop y with
      | None => Err (UB NullDeref)
      | Some ls =>
          w ← TcpConnection.construct c fd (TcpServer.conn_name y) (l_chans ls) (l_poller ls);
          let w := TcpConnection.with_conn install w in
          let o := mk_obj (TcpConnection.conn w) (TcpServer.conn_loop y) [] false [] false in
          let s := leave c o ls w (mk x (loops s) (objs s)) in
          if existsb (fun k => k.2) (TcpServer.calls x) then
            on_conn c (TcpConnection.ConnectionEstablished (user (writes (WTake 0)))) (hand_out s)
          else Ok (hand_out s)
      end
  end.

(** A functor taken from the queue of loop [l]. *)
Definition run_functor (wa : write_answer) (f : functor) (s : t) : result t :=
  match f with
  | FServer TcpServer.TListen => Ok s
  | FServer (TcpServer.TEstablished c) => on_conn c (TcpConnection.ConnectionEstablished (user (writes wa))) s
  | FServer (TcpServer.TRemoveInLoop c) =>
      Ok (hand_out (set_srv (TcpServer.RemoveconnectionInLoop c (srv s)) s))
  | FServer (TcpServer.TDestroyed c) => on_conn c (TcpConnection.ConnectionDestroyed (user (writes wa))) s
  | FTask c k => on_conn c (TcpConnection.run_task (user (writes wa)) (writes wa) k) s
  end.

Definition pop_queue (l : ptr) (s : t) : option (functor * t) :=
  match loops s !! l with
  | Some ls =>
      match l_queue ls with
      | f :: q => Some (f, mk (srv s) (<[l := mk_loop (l_chans ls) (l_poller ls) q]> (loops s)) (objs s))
      | [] => None
      end
  | None => None
  end.

(** What can happen: a connection is accepted, a channel's events are handled, a loop
    runs its next functor, or another thread that found the connection open finishes
    its [Send] or [ShutDown] by queueing a functor that holds nothing. *)
Inductive event :=
  | EvAccept (fd : Z)
  | EvIo (c : ptr) (revents : Z) (rd : read_answer) (rw ww : write_answer)
  | EvRun (l : ptr) (wa : write_answer)
  | EvForeign (c : ptr) (k : TcpConnection.task callback).

Definition act (e : event) (s : t) : result t :=
  match e with
  | EvAccept fd => accept fd s
  | EvIo c r rd rw ww => handle_io c r rd rw ww s
  | EvRun l wa =>
      match pop_queue l s with
      | Some (f, s) => run_functor wa f s
      | None => Ok s
      end
  | EvForeign c k =>
      match objs s !! c with
      | Some o => Ok (push (o_loop o) [FTask c k] s)
      | None => Ok s
      end
  end.

(** A step; a connection nobody holds any more is gone when it ends. *)
Definition step (e : event) (s : t) : result t := s ← act e s; Ok (release s).

Fixpoint run (es : list event) (s : t) : result t :=
  match es with
  | [] => Ok s
  | e :: es => s ← step e s; run es s
  end.

(** A started server whose loops have no connections yet. *)
Definition initial (x : TcpServer.t) (ps : gmap ptr P) : t :=
  mk (TcpServer.take_calls x) ((fun p => mk_loop ∅ p []) <$> ps) ∅.

End System.
Arguments loopst : clear implicits.
Arguments t : clear implicits.
End System.
