(* ===== verification/SystemFacts.v ===== *)
(** The invariant of the whole server of System.v, against any poller that satisfies
    the interface and any user whose callbacks satisfy [AppLaws]: the four stages of a
    connection's life, where it is held in each, and that every step keeps them. *)
From Stdlib Require Import ZArith Lia Ascii.
From stdpp Require Import base gmap list option strings.
From S2P Require Import Prelude Buffer Channel Poller EventLoop TcpConnection ThreadPool Net TcpServer System.

Local Open Scope Z_scope.

Abbreviation conn_inv := TcpConnectionFacts.inv.
Abbreviation content w := (Buffer.content (TcpConnection.input_buffer_ (TcpConnection.conn w))).

(** What the server may rely on: callbacks keep the connection's invariant and touch
    nothing else of the loop, and [app_good] relates what a connection has received,
    what is still unread, and what is on its way back. *)
Class AppLaws `{App} := {
  app_callbacks :
    TcpServer.connection_callback_ server_callbacks = Some OnConnection /\
    TcpServer.message_callback_ server_callbacks = Some OnMessage /\
    TcpServer.write_complete_callback_ server_callbacks =
      (if write_complete_set then Some OnWriteComplete else None);
  app_good : bytes -> bytes -> bytes -> Prop;
  app_start : app_good [] [] [];
  app_callback {Q} `{!Poller Q, !PollerLaws (CB := TcpConnection.handler) (OBJ := unit) Q}
      wr f (w : world Q) :
    f = OnConnection \/ f = OnWriteComplete /\ write_complete_set = true -> conn_inv w ->
    exists w', app wr f w = Ok w' /\ conn_inv w' /\ TcpConnectionFacts.frame w w' /\
      TcpConnection.state_ (TcpConnection.conn w') = TcpConnection.state_ (TcpConnection.conn w) /\
      content w' = content w /\ TcpConnectionFacts.stream w' = TcpConnectionFacts.stream w /\
      TcpConnection.queued w' = TcpConnection.queued w /\
      TcpConnection.chans w' !! TcpConnection.channel_ (TcpConnection.conn w) =
        TcpConnection.chans w !! TcpConnection.channel_ (TcpConnection.conn w);
  app_message {Q} `{!Poller Q, !PollerLaws (CB := TcpConnection.handler) (OBJ := unit) Q}
      wr (w : world Q) recv old d :
    conn_inv w -> TcpConnection.state_ (TcpConnection.conn w) = TcpConnection.kConnected ->
    TcpConnection.write_complete_callback_ (TcpConnection.conn w) =
      (if write_complete_set then Some OnWriteComplete else None) ->
    TcpConnectionFacts.kernel_write w wr -> content w = old ++ d ->
    zlen (content w) <= Vec.max_size -> TcpConnectionFacts.room w (zlen (content w)) ->
    exists w', app wr OnMessage w = Ok w' /\ conn_inv w' /\ TcpConnectionFacts.frame w w' /\
      TcpConnection.state_ (TcpConnection.conn w') = TcpConnection.kConnected /\
      ((forall x e, wr x = Buffer.WriteErr e -> TcpConnection.fault_error e = false) ->
       app_good recv old (TcpConnectionFacts.stream w) ->
       app_good (recv ++ d) (content w') (TcpConnectionFacts.stream w'));
}.

Module SystemFacts.
Import System.

Section Facts.
Context {P : Type} `{!Poller (CB := TcpConnection.handler) (OBJ := unit) P}
  `{!PollerLaws (CB := TcpConnection.handler) (OBJ := unit) P} `{!App, !AppLaws}.
Implicit Types (s : System.t P) (ls : loopst P) (o : obj) (q : list functor) (c d l : ptr).

(** A connection is waiting to be established, open, closed with its map entry still
    there, or out of the map and waiting to be destroyed. *)
Inductive stage := SNew | SUp | SClosing | SRemoved.

#[export] Instance stage_eq_dec : EqDecision stage.
Proof. solve_decision. Defined.

(** Where the functors about a connection are in each stage: [n] write-complete
    callbacks in its own loop, and the server's functor behind them or, while it is
    closing, in the server's loop. *)
Definition completes (c : ptr) (n : nat) : list functor :=
  replicate (if write_complete_set then n else 0%nat) (FTask c (TcpConnection.TWriteComplete OnWriteComplete)).

Definition proj (c : ptr) (q : list functor) : list functor := filter (fun f => about f = Some c) q.

Definition expected (g : stage) (base io c : ptr) (n : nat) (l : ptr) : list functor :=
  match g with
  | SNew => if decide (l = io) then [FServer (TcpServer.TEstablished c)] else []
  | SUp => if decide (l = io) then completes c n else []
  | SClosing =>
      if decide (l = io) then completes c n
      else if decide (l = base) then [FServer (TcpServer.TRemoveInLoop c)] else []
  | SRemoved =>
      if decide (l = io) then completes c n ++ [FServer (TcpServer.TDestroyed c)] else []
  end.

(** A connection as accepted. *)
Definition newborn (w : world P) (ch : Channel.t TcpConnection.handler unit) : Prop :=
  Buffer.wf (TcpConnection.input_buffer_ (TcpConnection.conn w)) /\
  Buffer.wf (TcpConnection.output_buffer_ (TcpConnection.conn w)) /\
  TcpConnection.state_ (TcpConnection.conn w) = TcpConnection.kConnecting /\
  TcpConnection.wr_shut w = false /\ TcpConnectionFacts.unsent w = [] /\
  Channel.index_ ch = -1 /\ Channel.events_ ch = 0.

Definition stage_ok (g : stage) (w : world P) (ch : Channel.t TcpConnection.handler unit) : Prop :=
  match g with
  | SNew => newborn w ch
  | SUp => conn_inv w /\ TcpConnection.state_ (TcpConnection.conn w) = TcpConnection.kConnected
  | _ =>
      conn_inv w /\ TcpConnection.state_ (TcpConnection.conn w) = TcpConnection.kDisconnected /\
      Channel.events_ ch = 0
  end.

Definition our_callbacks (x : TcpConnection.t callback) : Prop :=
  TcpConnection.connection_callback_ x = Some OnConnection /\
  TcpConnection.message_callback_ x = Some OnMessage /\
  TcpConnection.write_complete_callback_ x = (if write_complete_set then Some OnWriteComplete else None) /\
  TcpConnection.close_callback_ x = Some OnClose.

Definition handlers : option TcpConnection.handler * option TcpConnection.handler *
    option TcpConnection.handler * option TcpConnection.handler :=
  (Some TcpConnection.HRead, Some TcpConnection.HWrite, Some TcpConnection.HClose,
   Some TcpConnection.HError).

(** The connection's own part: what its code relies on, and what the user keeps. *)
Definition shell (g : stage) (fd : Z) (c : ptr) (o : obj) (ls : loopst P) : Prop :=
  exists ch, l_chans ls !! c = Some ch /\ TcpConnection.channel_ (o_conn o) = c /\
    our_callbacks (o_conn o) /\
    Channel.fd_ ch = fd /\ (ChannelFacts.wiring ch).2 = handlers /\
    stage_ok g (enter o ls) ch.

Definition good (o : obj) : Prop :=
  o_lost o = false ->
  app_good (o_recv o) (Buffer.content (TcpConnection.input_buffer_ (o_conn o)))
    (o_sent o ++ Buffer.content (TcpConnection.output_buffer_ (o_conn o))).

Definition body_ok (g : stage) (fd : Z) (c : ptr) (o : obj) (ls : loopst P) : Prop :=
  shell g fd c o ls /\ good o.

(** The server's part: its map and the queues. *)
Definition held (g : stage) (n : nat) (s : System.t P) (c : ptr) (x : TcpServer.conn) : Prop :=
  (forall l ls, loops s !! l = Some ls ->
     proj c (l_queue ls) = expected g (TcpServer.loop_ (srv s)) (TcpServer.conn_loop x) c n l) /\
  match g with
  | SRemoved => forall nm, TcpServer.connection_maps (srv s) !! nm <> Some (Some c)
  | _ => TcpServer.connection_maps (srv s) !! TcpServer.conn_name x = Some (Some c)
  end /\
  (g = SClosing -> TcpServer.conn_loop x <> TcpServer.loop_ (srv s)).

Definition conn_ok (s : System.t P) (c : ptr) (o : obj) (g : stage) (n : nat) (x : TcpServer.conn) : Prop :=
  TcpServer.conns (srv s) !! c = Some x /\ TcpServer.conn_loop x = o_loop o /\
  held g n s c x /\
  exists ls, loops s !! o_loop o = Some ls /\ body_ok g (TcpServer.conn_fd x) c o ls.

(** The invariant, except for connection [c0] if one is given; its loop's poller is
    then only known to be in order through the other connections. *)
Definition sinv_but (c0 : option ptr) (s : System.t P) : Prop :=
  TcpServer.inv (srv s) /\ TcpServer.calls (srv s) = [] /\
  (forall l, l = TcpServer.loop_ (srv s) \/ l ∈ EventLoopThreadPool.GetAllLoops (TcpServer.thread_pool_ (srv s)) ->
     is_Some (loops s !! l)) /\
  (forall l ls, loops s !! l = Some ls -> poller_inv (l_chans ls) (l_poller ls)) /\
  (forall l ls c ch, loops s !! l = Some ls -> l_chans ls !! c = Some ch ->
     exists o, objs s !! c = Some o /\ o_loop o = l) /\
  (forall c d o o' x y, objs s !! c = Some o -> objs s !! d = Some o' ->
     TcpServer.conns (srv s) !! c = Some x -> TcpServer.conns (srv s) !! d = Some y ->
     TcpServer.conn_fd x = TcpServer.conn_fd y -> c = d) /\
  (forall l ls f c, loops s !! l = Some ls -> f ∈ l_queue ls -> about f = Some c -> is_Some (objs s !! c)) /\
  (forall nm c, TcpServer.connection_maps (srv s) !! nm = Some (Some c) -> is_Some (objs s !! c)) /\
  (forall c o, objs s !! c = Some o -> c0 <> Some c -> exists g n x, conn_ok s c o g n x).

Definition sinv := sinv_but None.

Lemma sinv_but_weaken c s : sinv s -> sinv_but (Some c) s.
Proof. intros (H1 & H2 & H3 & H4 & H5 & H6 & H7 & H8 & H9). split_and!; try done. intros d o Hd _. by apply H9. Qed.

Lemma sinv_join c o g n x s : sinv_but (Some c) s -> objs s !! c = Some o -> conn_ok s c o g n x -> sinv s.
Proof.
  intros (H1 & H2 & H3 & H4 & H5 & H6 & H7 & H8 & H9) Ho Hc. split_and!; try done. intros d o' Hd _.
  destruct (decide (d = c)) as [->|]; [|apply H9; [done|congruence]].
  rewrite Ho in Hd. injection Hd as <-. by exists g, n, x.
Qed.

(** ** Queues *)

Lemma proj_app c q q' : proj c (q ++ q') = proj c q ++ proj c q'.
Proof. apply filter_app. Qed.

Lemma proj_cons_here c f q : about f = Some c -> proj c (f :: q) = f :: proj c q.
Proof. intros. unfold proj. by rewrite filter_cons_True. Qed.

Lemma proj_cons_other c f q : about f <> Some c -> proj c (f :: q) = proj c q.
Proof. intros. unfold proj. by rewrite filter_cons_False. Qed.

Lemma proj_all c q : Forall (fun f => about f = Some c) q -> proj c q = q.
Proof. induction 1; [done|]. rewrite proj_cons_here by done. congruence. Qed.

Lemma proj_none c q : Forall (fun f => about f <> Some c) q -> proj c q = [].
Proof. induction 1; [done|]. by rewrite proj_cons_other. Qed.

Lemma completes_about c n : Forall (fun f => about f = Some c) (completes c n).
Proof. by apply Forall_replicate. Qed.

(** ** Other connections *)

(** The invariant of a connection survives what another connection's code does to
    the loop they share. *)
Lemma inv_others c fd (w w' : world P) :
  TcpConnectionFacts.inv w -> TcpConnection.conn w' = TcpConnection.conn w ->
  TcpConnection.sent w' = TcpConnection.sent w -> TcpConnection.wr_shut w' = TcpConnection.wr_shut w ->
  TcpConnection.channel_ (TcpConnection.conn w) <> c -> TcpConnectionFacts.fd_of w <> fd ->
  others c fd (TcpConnection.chans w) (TcpConnection.poller w) (TcpConnection.chans w') (TcpConnection.poller w') ->
  poller_inv (TcpConnection.chans w') (TcpConnection.poller w') -> TcpConnectionFacts.inv w'.
Proof.
  intros (Hin & Hout & Hcb & Hsh & ch & Hl & Hw) Hcn Hs Hws Hc Hfd (Hsame & Hkept & Hint) Hi.
  pose proof Hl as (_ & Hch & Hm & He & Hin'). rewrite (TcpConnectionFacts.linked_fd _ _ Hl) in Hfd.
  specialize (Hsame _ Hc). rewrite Hch in Hsame.
  destruct (TcpConnection.chans w' !! TcpConnection.channel_ (TcpConnection.conn w)) as [ch'|] eqn:E; [|done].
  cbn in Hsame. destruct (Hkept _ _ _ Hc Hch E) as [Hm' _].
  unfold TcpConnectionFacts.inv, TcpConnectionFacts.unsent. rewrite Hcn, Hws.
  split_and!; try done. exists ch'. split.
  - unfold TcpConnectionFacts.linked. rewrite Hcn.
    rewrite <- (ChannelFacts.events_proper _ _ Hsame), <- (ChannelFacts.fd_proper _ _ Hsame).
    split_and!; try done; [by apply Hm'|]. by rewrite Hint.
  - unfold TcpConnectionFacts.writing_ok, TcpConnectionFacts.unsent. rewrite Hcn.
    by rewrite <- (ChannelFacts.IsWriting_proper _ _ Hsame).
Qed.

Lemma stage_others g c fd d o ls ls' ch ch' :
  stage_ok g (enter o ls) ch -> TcpConnection.channel_ (o_conn o) = d -> d <> c ->
  l_chans ls !! d = Some ch -> l_chans ls' !! d = Some ch' -> Channel.fd_ ch <> fd ->
  ChannelFacts.same_but_index ch ch' -> (Channel.index_ ch = -1 -> Channel.index_ ch' = -1) ->
  others c fd (l_chans ls) (l_poller ls) (l_chans ls') (l_poller ls') ->
  poller_inv (l_chans ls') (l_poller ls') -> stage_ok g (enter o ls') ch'.
Proof.
  intros Hg Hd Hdc Hch Hch' Hfd Hb Hix Ho Hi.
  assert (conn_inv (enter o ls) -> conn_inv (enter o ls')) as Hinv.
  { intros Hci. apply (inv_others c fd (enter o ls)); cbn; try done; [congruence|].
    unfold TcpConnectionFacts.fd_of. cbn. by rewrite Hd, Hch. }
  pose proof (ChannelFacts.events_proper _ _ Hb) as He.
  destruct g; cbn in *.
  - destruct Hg as (H1 & H2 & H3 & H4 & H5 & H6 & H7). split_and!; try done; [by apply Hix|congruence].
  - destruct Hg. auto.
  - destruct Hg as (? & ? & ?). split_and!; auto; congruence.
  - destruct Hg as (? & ? & ?). split_and!; auto; congruence.
Qed.

Lemma body_others g c fdc fd d o ls ls' :
  body_ok g fd d o ls -> d <> c -> fd <> fdc ->
  others c fdc (l_chans ls) (l_poller ls) (l_chans ls') (l_poller ls') ->
  poller_inv (l_chans ls') (l_poller ls') -> body_ok g fd d o ls'.
Proof.
  intros [(ch & Hch & Hca & Hcb & Hfd & Hw & Hg) Hgood] Hdc Hne Ho Hi. split; [|done].
  pose proof Ho as (Hsame & Hkept & _). specialize (Hsame _ Hdc). rewrite Hch in Hsame.
  destruct (l_chans ls' !! d) as [ch'|] eqn:E; [|done]. cbn in Hsame.
  destruct (Hkept _ _ _ Hdc Hch E) as [_ Hix].
  exists ch'. split_and!; try done.
  - by rewrite <- (ChannelFacts.fd_proper _ _ Hsame).
  - by rewrite <- (ChannelFacts.wiring_proper _ _ Hsame).
  - eapply stage_others; try done. by rewrite Hfd.
Qed.

(** ** Changing one connection *)

(** A new state of connection [c] ([None] when it is gone) and of its loop. *)
Definition upd (c : ptr) (mo : option obj) (l : ptr) (ls : loopst P) (s : System.t P) : System.t P :=
  mk (srv s) (<[l := ls]> (loops s)) (partial_alter (const mo) c (objs s)).

Lemma upd_lookup_ne c d mo l ls s : d <> c -> objs (upd c mo l ls s) !! d = objs s !! d.
Proof. intros. cbn. by rewrite lookup_partial_alter_ne. Qed.

Lemma upd_lookup c mo l ls s : objs (upd c mo l ls s) !! c = mo.
Proof. cbn. by rewrite lookup_partial_alter_eq. Qed.

Lemma proj_elem c f q : about f = Some c -> (f ∈ proj c q <-> f ∈ q).
Proof. intros. unfold proj. rewrite list_elem_of_filter. naive_solver. Qed.

(** Everything but [c] keeps its invariant when [c]'s loop changes only in what
    concerns [c]. *)
Lemma upd_rest c x mo ls ls' s :
  sinv_but (Some c) s -> TcpServer.conns (srv s) !! c = Some x ->
  loops s !! TcpServer.conn_loop x = Some ls ->
  (forall d o y, d <> c -> objs s !! d = Some o -> TcpServer.conns (srv s) !! d = Some y ->
     TcpServer.conn_fd y <> TcpServer.conn_fd x) ->
  poller_inv (l_chans ls') (l_poller ls') ->
  others c (TcpServer.conn_fd x) (l_chans ls) (l_poller ls) (l_chans ls') (l_poller ls') ->
  (forall d, d <> c -> proj d (l_queue ls') = proj d (l_queue ls)) ->
  (is_Some (l_chans ls' !! c) -> is_Some mo) ->
  (forall o, mo = Some o -> o_loop o = TcpServer.conn_loop x) ->
  (is_Some mo \/ (forall nm, TcpServer.connection_maps (srv s) !! nm <> Some (Some c)) /\
     proj c (l_queue ls') = [] /\
     (forall l ls1, l <> TcpServer.conn_loop x -> loops s !! l = Some ls1 -> proj c (l_queue ls1) = [])) ->
  (forall l ls1, l <> TcpServer.conn_loop x -> loops s !! l = Some ls1 -> l_chans ls1 !! c = None) ->
  sinv_but (Some c) (upd c mo (TcpServer.conn_loop x) ls' s).
Proof.
  intros (H1 & H2 & H3 & H4 & H5 & H6 & H7 & H8 & H9) Hx Hls Hfd Hi Ho Hq Hch Hmo Hgone Hch0.
  set (io := TcpServer.conn_loop x) in *.
  split_and!; try done.
  - intros l Hl. cbn. destruct (decide (l = io)) as [->|]; [by rewrite lookup_insert_eq|].
    rewrite lookup_insert_ne by done. by apply H3.
  - intros l ls1. cbn. rewrite lookup_insert. case_decide; [by intros [= <-]|]. apply H4.
  - intros l ls1 d ch. cbn [upd loops]. rewrite lookup_insert. case_decide as Hl.
    + subst l. intros [= <-] Hd. destruct (decide (d = c)) as [->|Hdc].
      * destruct Hch as [o Ho']; [by eexists|]. exists o. rewrite upd_lookup. auto.
      * rewrite upd_lookup_ne by done. pose proof Ho as (Hs & _). specialize (Hs d Hdc).
        rewrite Hd in Hs. destruct (l_chans ls !! d) as [ch1|] eqn:E; [|done]. by apply (H5 io ls d ch1).
    + intros Hl1 Hd. destruct (decide (d = c)) as [->|Hdc].
      * rewrite (Hch0 l ls1) in Hd by done. done.
      * rewrite upd_lookup_ne by done. by apply (H5 l ls1 d ch).
  - intros d e o o' y z. destruct (decide (d = c)) as [->|Hd], (decide (e = c)) as [->|He]; [done| | |].
    + rewrite (upd_lookup_ne c e) by done. cbn [upd srv]. rewrite Hx. intros _ He' [= <-] Hz E.
      symmetry in E. by destruct (Hfd e o' z He He' Hz).
    + rewrite (upd_lookup_ne c d) by done. cbn [upd srv]. rewrite Hx. intros Hd' _ Hy [= <-] E.
      by destruct (Hfd d o y Hd Hd' Hy).
    + rewrite !upd_lookup_ne by done. by apply H6.
  - intros l ls1 f d. cbn [upd loops]. destruct (decide (d = c)) as [->|Hdc].
    + intros Hl Hf Hab. rewrite upd_lookup. destruct Hgone as [?|(_ & Hp & Hps)]; [done|].
      exfalso. apply (proj2 (proj_elem c f _ Hab)) in Hf. revert Hl. rewrite lookup_insert. case_decide as Hl.
      * intros [= <-]. rewrite Hp in Hf. set_solver.
      * intros Hl1. rewrite (Hps l ls1) in Hf by done. set_solver.
    + rewrite upd_lookup_ne by done. rewrite lookup_insert. case_decide as Hl.
      * intros [= <-] Hf Hab. apply (proj2 (proj_elem d f _ Hab)) in Hf. rewrite Hq in Hf by done.
        apply (proj1 (proj_elem d f _ Hab)) in Hf. exact (H7 io ls f d Hls Hf Hab).
      * intros Hl1 Hf Hab. by eapply H7.
  - intros nm d Hm. destruct (decide (d = c)) as [->|Hdc].
    + rewrite upd_lookup. destruct Hgone as [?|(Hn & _)]; [done|]. by destruct (Hn nm).
    + rewrite upd_lookup_ne by done. by eapply H8.
  - intros d o Hd Hne. assert (d <> c) as Hdc by congruence. rewrite upd_lookup_ne in Hd by done.
    destruct (H9 d o Hd) as (g & n & y & Hy & Hyl & (Hqs & Hmap & Hcl) & ls1 & Hl1 & Hb); [congruence|].
    exists g, n, y. split_and!; [done|done|split_and!; [|done|done]|].
    + intros l ls2. cbn [upd loops]. rewrite lookup_insert. case_decide as Hl.
      * subst l. intros [= <-]. rewrite Hq by done. by apply Hqs.
      * apply Hqs.
    + cbn [upd loops]. rewrite lookup_insert. case_decide as Hl; [|by eexists].
      exists ls'. split; [done|]. rewrite <- Hl, Hls in Hl1. injection Hl1 as <-.
      eapply body_others; try done. by eapply Hfd.
Qed.

(** ** In the middle of a step *)

(** While connection [c] is being worked on: the others are in order, [Q l] are the
    functors about [c] in the queue of loop [l], and [inmap] tells whether the server's
    map has it. *)
Definition mid (s : System.t P) (c : ptr) (x : TcpServer.conn) (o : obj) (ls : loopst P)
    (Q : ptr -> list functor) (inmap : bool) : Prop :=
  sinv_but (Some c) s /\ objs s !! c = Some o /\ TcpServer.conns (srv s) !! c = Some x /\
  TcpServer.conn_loop x = o_loop o /\ loops s !! o_loop o = Some ls /\
  (forall l ls, loops s !! l = Some ls -> proj c (l_queue ls) = Q l) /\
  (if inmap then TcpServer.connection_maps (srv s) !! TcpServer.conn_name x = Some (Some c)
   else forall nm, TcpServer.connection_maps (srv s) !! nm <> Some (Some c)).

Definition in_map (g : stage) : bool := match g with SRemoved => false | _ => true end.

(** A connection in order may be worked on, and is in order again at the end. *)
Lemma mid_intro s c o : sinv s -> objs s !! c = Some o ->
  exists g n x ls, mid s c x o ls (expected g (TcpServer.loop_ (srv s)) (TcpServer.conn_loop x) c n) (in_map g) /\
    body_ok g (TcpServer.conn_fd x) c o ls /\
    (g = SClosing -> TcpServer.conn_loop x <> TcpServer.loop_ (srv s)).
Proof.
  intros Hs Ho. pose proof Hs as (_ & _ & _ & _ & _ & _ & _ & _ & H9).
  destruct (H9 c o Ho) as (g & n & x & Hx & Hl & (Hq & Hm & Hcl) & ls & Hls & Hb); [done|].
  exists g, n, x, ls. split; [|done]. split; [by apply sinv_but_weaken|]. split_and!; try done.
  by destruct g.
Qed.

Lemma mid_done s c x o ls Q b g n : mid s c x o ls Q b -> b = in_map g ->
  body_ok g (TcpServer.conn_fd x) c o ls ->
  (forall l, is_Some (loops s !! l) ->
     Q l = expected g (TcpServer.loop_ (srv s)) (TcpServer.conn_loop x) c n l) ->
  (g = SClosing -> TcpServer.conn_loop x <> TcpServer.loop_ (srv s)) -> sinv s.
Proof.
  intros (Hs & Ho & Hx & Hl & Hls & Hq & Hm) -> Hb HQ Hcl.
  apply (sinv_join c o g n x); [done|done|]. split_and!; [done|done| |by exists ls].
  split_and!; [|by destruct g|done]. intros l ls1 Hl1. rewrite (Hq l ls1 Hl1). by apply HQ.
Qed.

(** Another connection has another descriptor. *)
Lemma mid_fd s c x o ls Q b d o' y : mid s c x o ls Q b -> d <> c -> objs s !! d = Some o' ->
  TcpServer.conns (srv s) !! d = Some y -> TcpServer.conn_fd y <> TcpServer.conn_fd x.
Proof.
  intros ((_ & _ & _ & _ & _ & H6 & _) & Ho & Hx & _) Hdc Hd Hy E. apply Hdc.
  by apply (H6 d c o' o y x).
Qed.

Lemma mid_chans s c x o ls Q b l ls1 : mid s c x o ls Q b -> l <> TcpServer.conn_loop x ->
  loops s !! l = Some ls1 -> l_chans ls1 !! c = None.
Proof.
  intros ((_ & _ & _ & _ & H5 & _) & Ho & _ & Hl & _) Hne Hls1.
  destruct (l_chans ls1 !! c) as [ch|] eqn:E; [|done]. destruct (H5 _ _ _ _ Hls1 E) as (o' & Ho' & Hl').
  rewrite Ho in Ho'. injection Ho' as <-. congruence.
Qed.

(** ** The server's functors *)

(** The server without connection [c]. *)
Definition srv_without (c : ptr) (z : TcpServer.t) : TcpServer.t :=
  TcpServer.take_calls (TcpServer.RemoveconnectionInLoop c z).

Lemma srv_calls_nil (z : TcpServer.t) : TcpServer.calls z = [] -> TcpServer.take_calls z = z.
Proof. destruct z. by intros [= ->]. Qed.

Lemma hand_out_remove c x s :
  TcpServer.conns (srv s) !! c = Some x -> TcpServer.calls (srv s) = [] ->
  hand_out (set_srv (TcpServer.RemoveconnectionInLoop c (srv s)) s) =
    push (TcpServer.conn_loop x) [FServer (TcpServer.TDestroyed c)] (set_srv (srv_without c (srv s)) s).
Proof.
  intros Hx Hc. unfold hand_out, srv_without, TcpServer.RemoveconnectionInLoop. cbn.
  rewrite Hx. cbn. by rewrite Hc.
Qed.

Lemma close_eq here c x s :
  TcpServer.conns (srv s) !! c = Some x -> TcpServer.calls (srv s) = [] ->
  close here c s =
    if decide (here = TcpServer.loop_ (srv s))
    then push (TcpServer.conn_loop x) [FServer (TcpServer.TDestroyed c)] (set_srv (srv_without c (srv s)) s)
    else push (TcpServer.loop_ (srv s)) [FServer (TcpServer.TRemoveInLoop c)] s.
Proof.
  intros Hx Hc. unfold close, TcpServer.RemoveConnection, TcpServer.RunInLoop.
  destruct (decide (here = TcpServer.loop_ (srv s))) as [E|E].
  - rewrite bool_decide_eq_true_2 by done. unfold hand_out, srv_without, TcpServer.RemoveconnectionInLoop.
    cbn. rewrite Hx. cbn. by rewrite Hc.
  - rewrite bool_decide_eq_false_2 by done. unfold hand_out. cbn. rewrite Hc. cbn.
    unfold TcpServer.take_calls. cbn. destruct s as [z lo ob]. cbn in *. f_equal.
    by destruct z; cbn in *; subst.
Qed.

(** Queueing functors about [c]. *)
Lemma push_lookup l fs s l1 ls1 : loops (push l fs s) !! l1 = Some ls1 ->
  exists ls0, loops s !! l1 = Some ls0 /\ l_chans ls1 = l_chans ls0 /\ l_poller ls1 = l_poller ls0 /\
    l_queue ls1 = if decide (l1 = l) then l_queue ls0 ++ fs else l_queue ls0.
Proof.
  cbn. rewrite lookup_alter. case_decide as E.
  - subst. intros (ls0 & Hl & ->)%fmap_Some. exists ls0. rewrite decide_True by done. done.
  - intros Hl. exists ls1. rewrite decide_False by done. done.
Qed.

Lemma push_is_Some l fs s l1 : is_Some (loops s !! l1) -> is_Some (loops (push l fs s) !! l1).
Proof.
  intros [ls Hl]. cbn. rewrite lookup_alter. case_decide; [subst; rewrite Hl; by eexists|by eexists].
Qed.

Lemma push_here l fs s l1 ls : loops s !! l1 = Some ls ->
  loops (push l fs s) !! l1 =
    Some (if decide (l1 = l) then mk_loop (l_chans ls) (l_poller ls) (l_queue ls ++ fs) else ls).
Proof.
  intros Hl. cbn. rewrite lookup_alter. case_decide.
  - subst. rewrite Hl, decide_True by done. done.
  - by rewrite decide_False by done.
Qed.

Lemma body_queue g fd c o ls q : body_ok g fd c o ls -> body_ok g fd c o (mk_loop (l_chans ls) (l_poller ls) q).
Proof. done. Qed.

Lemma push_rest c l fs s : sinv_but (Some c) s -> is_Some (objs s !! c) ->
  Forall (fun f => about f = Some c) fs -> sinv_but (Some c) (push l fs s).
Proof.
  intros (H1 & H2 & H3 & H4 & H5 & H6 & H7 & H8 & H9) Ho Hfs. split_and!; try done.
  - intros l1 Hl1. apply push_is_Some. by apply H3.
  - intros l1 ls1 (ls0 & Hl & -> & -> & _)%push_lookup. by eapply H4.
  - intros l1 ls1 d ch (ls0 & Hl & -> & _ & _)%push_lookup. by apply H5.
  - intros l1 ls1 f d (ls0 & Hl & _ & _ & ->)%push_lookup Hf Ha.
    assert (f ∈ l_queue ls0 \/ f ∈ fs) as [Hf'|Hf'].
    { case_decide; [|by left]. by apply elem_of_app in Hf. }
    + by eapply H7.
    + rewrite list.Forall_forall in Hfs. specialize (Hfs f Hf'). rewrite Ha in Hfs.
      by injection Hfs as <-.
  - intros d o Hd Hne. destruct (H9 d o Hd Hne) as (g & n & y & Hy & Hyl & (Hq & Hm & Hcl) & ls1 & Hl1 & Hb).
    exists g, n, y. split_and!; [done|done|split_and!; [|done|done]|].
    + intros l1 ls2 (ls0 & Hl & _ & _ & ->)%push_lookup. case_decide; [|by apply Hq].
      rewrite proj_app, (proj_none d fs), app_nil_r; [by apply Hq|].
      eapply list.Forall_impl; [exact Hfs|]. cbn. congruence.
    + rewrite (push_here _ _ _ _ _ Hl1). eexists. split; [done|]. by case_decide.
Qed.

Lemma mid_push s c x o ls Q b l fs : mid s c x o ls Q b ->
  Forall (fun f => about f = Some c) fs ->
  mid (push l fs s) c x o
    (if decide (o_loop o = l) then mk_loop (l_chans ls) (l_poller ls) (l_queue ls ++ fs) else ls)
    (fun l1 => if decide (l1 = l) then Q l1 ++ fs else Q l1) b.
Proof.
  intros (Hs & Ho & Hx & Hl & Hls & Hq & Hm) Hfs. split_and!; try done.
  - by apply push_rest; [|eexists|].
  - by apply push_here.
  - intros l1 ls1 (ls0 & Hl0 & _ & _ & ->)%push_lookup. case_decide; [|by apply Hq].
    rewrite proj_app, (proj_all c fs Hfs). f_equal. by apply Hq.
Qed.

(** Taking [c] out of the map. *)
Lemma without_inv c x z : TcpServer.inv z -> TcpServer.conns z !! c = Some x ->
  TcpServer.inv (srv_without c z) /\ TcpServer.calls (srv_without c z) = [] /\
  TcpServer.loop_ (srv_without c z) = TcpServer.loop_ z /\
  TcpServer.thread_pool_ (srv_without c z) = TcpServer.thread_pool_ z /\
  TcpServer.conns (srv_without c z) = TcpServer.conns z /\
  TcpServer.connection_maps (srv_without c z) = delete (TcpServer.conn_name x) (TcpServer.connection_maps z).
Proof.
  intros (H1 & H2 & H3 & H4 & H5) Hx. unfold srv_without, TcpServer.RemoveconnectionInLoop.
  rewrite Hx. cbn. split; [|done]. unfold TcpServer.inv. cbn. split_and!; try done; [lia|lia|].
  intros nm d [_ Hm]%lookup_delete_Some. by apply H4.
Qed.

Lemma mid_without s c x o ls Q : mid s c x o ls Q true ->
  mid (set_srv (srv_without c (srv s)) s) c x o ls Q false /\
  TcpServer.loop_ (srv_without c (srv s)) = TcpServer.loop_ (srv s).
Proof.
  intros ((H1 & H2 & H3 & H4 & H5 & H6 & H7 & H8 & H9) & Ho & Hx & Hl & Hls & Hq & Hm).
  destruct (without_inv c x _ H1 Hx) as (W1 & W2 & W3 & W4 & W5 & W6). split; [|done].
  assert (forall nm, TcpServer.connection_maps (srv s) !! nm = Some (Some c) -> nm = TcpServer.conn_name x) as Hnm.
  { intros nm Hn. destruct H1 as (_ & _ & _ & Hms & _). destruct (Hms _ _ Hn) as (c1 & x' & [= <-] & Hx' & <-). congruence. }
  assert (forall nm, TcpServer.connection_maps (srv_without c (srv s)) !! nm <> Some (Some c)) as Hno.
  { intros nm. rewrite W6. intros [Hne Hn]%lookup_delete_Some. apply Hne. symmetry. by apply Hnm. }
  unfold mid. cbn [set_srv srv objs loops]. rewrite W5. split; [|by split_and!].
  unfold sinv_but. cbn [set_srv srv objs loops]. rewrite W3, W4, W5. split_and!; try done.
  - intros nm d. rewrite W6. intros [_ Hn]%lookup_delete_Some. by eapply H8.
  - intros d o' Hd Hne. destruct (H9 d o' Hd Hne) as (g & n & y & Hy & Hyl & (Hq' & Hm' & Hcl) & Hb).
    exists g, n, y. split_and!; cbn [set_srv srv objs loops]; [by rewrite W5|done| |done].
    split_and!; cbn [set_srv srv objs loops]; [by rewrite W3| |by rewrite W3].
    rewrite W6. destruct g.
    1-3: (rewrite lookup_delete_ne; [done|]; intros E; rewrite <- E in Hm'; congruence).
    intros nm [_ Hn]%lookup_delete_Some. by destruct (Hm' nm).
Qed.

(** ** Running a connection's code *)

Lemma shell_fd g fd c o ls : shell g fd c o ls -> TcpConnectionFacts.fd_of (enter o ls) = fd.
Proof.
  intros (ch & Hch & Hca & _ & <- & _). unfold TcpConnectionFacts.fd_of. cbn. by rewrite Hca, Hch.
Qed.

Lemma shell_channel g fd c o ls : shell g fd c o ls -> TcpConnection.channel_ (o_conn o) = c.
Proof. by intros (ch & _ & ? & _). Qed.

(** The object and the loop a piece of code leaves behind. *)
Definition obj_of (o : obj) (w : world P) : obj :=
  mk_obj (TcpConnection.conn w) (o_loop o) (TcpConnection.sent w) (TcpConnection.wr_shut w) (o_recv o) (o_lost o).
Definition loop_of (c : ptr) (ls : loopst P) (w : world P) : loopst P :=
  mk_loop (TcpConnection.chans w) (TcpConnection.poller w) (l_queue ls ++ (FTask c <$> TcpConnection.queued w)).

Lemma leave_upd c o ls w s : leave c o ls w s = upd c (Some (obj_of o w)) (o_loop o) (loop_of c ls w) s.
Proof. done. Qed.

Lemma queued_completes c o ls w g fd : shell g fd c o ls -> TcpConnectionFacts.frame (enter o ls) w ->
  exists k, FTask c <$> TcpConnection.queued w = completes c k.
Proof.
  intros (ch & _ & _ & (_ & _ & Hwc & _) & _) (_ & _ & _ & _ & _ & _ & (fs & -> & Hfs) & _).
  exists (length fs). cbn in *. rewrite Hwc in Hfs. unfold completes.
  destruct write_complete_set; [|by destruct Hfs].
  induction Hfs as [|f fs [= <-] _ IH]; [done|]. cbn in *. by rewrite IH.
Qed.

(** A new state of [c] and its loop, with functors about [c] behind the queue. *)
Lemma mid_upd s c x o ls Q b g o' ls' fs : mid s c x o ls Q b -> shell g (TcpServer.conn_fd x) c o ls ->
  o_loop o' = o_loop o -> poller_inv (l_chans ls') (l_poller ls') ->
  others c (TcpServer.conn_fd x) (l_chans ls) (l_poller ls) (l_chans ls') (l_poller ls') ->
  l_queue ls' = l_queue ls ++ fs -> Forall (fun f => about f = Some c) fs ->
  mid (upd c (Some o') (o_loop o) ls' s) c x o' ls'
    (fun l => if decide (l = TcpServer.conn_loop x) then Q l ++ fs else Q l) b.
Proof.
  intros Hmid Hsh Hlo Hi Hoth Hqu Ha. pose proof Hmid as (Hs & Ho & Hx & Hl & Hls & Hq & Hm). rewrite <- Hl.
  assert (forall d, proj d (l_queue ls') =
    if decide (d = c) then proj d (l_queue ls) ++ fs else proj d (l_queue ls)) as Hp.
  { intros d. rewrite Hqu, proj_app. case_decide as E.
    - subst d. by rewrite (proj_all c _ Ha).
    - rewrite (proj_none d fs), app_nil_r; [done|]. eapply list.Forall_impl; [exact Ha|]. cbn. congruence. }
  split_and!; try done.
  - eapply upd_rest; try done.
    + by rewrite Hl.
    + intros d o1 y. by eapply mid_fd.
    + intros d Hd. rewrite Hp. by rewrite decide_False.
    + intros o1 [= <-]. by rewrite Hlo.
    + by left.
    + intros l ls1. by eapply mid_chans.
  - by rewrite upd_lookup.
  - by rewrite Hlo.
  - cbn. rewrite Hl, Hlo. by rewrite lookup_insert_eq.
  - intros l ls1. cbn [upd loops]. rewrite lookup_insert. case_decide as E.
    + subst l. intros [= <-]. rewrite Hp, !decide_True by done. rewrite (Hq (TcpServer.conn_loop x)); [done|].
      by rewrite Hl.
    + intros Hl1. rewrite decide_False by done. by apply Hq.
Qed.

Lemma mid_leave s c x o ls Q b g w : mid s c x o ls Q b -> shell g (TcpServer.conn_fd x) c o ls ->
  TcpConnectionFacts.frame (enter o ls) w ->
  poller_inv (TcpConnection.chans w) (TcpConnection.poller w) ->
  exists k, FTask c <$> TcpConnection.queued w = completes c k /\
    mid (leave c o ls w s) c x (obj_of o w) (loop_of c ls w)
    (fun l => if decide (l = TcpServer.conn_loop x) then Q l ++ completes c k else Q l) b.
Proof.
  intros Hmid Hsh Hf Hi. destruct (queued_completes _ _ _ _ _ _ Hsh Hf) as [k Hk]. exists k.
  split; [done|]. rewrite leave_upd. pose proof (shell_channel _ _ _ _ _ Hsh) as Hca. pose proof (shell_fd _ _ _ _ _ Hsh) as Hfd.
  destruct Hf as (_ & _ & _ & _ & _ & _ & _ & _ & Hoth). cbn in Hoth. rewrite Hca, Hfd in Hoth.
  eapply mid_upd; try done.
  - unfold loop_of. cbn [l_queue]. by rewrite Hk.
  - apply completes_about.
Qed.

(** The wiring survives. *)
Lemma shell_after g g' fd c o ls w ch' : shell g fd c o ls -> TcpConnectionFacts.frame (enter o ls) w ->
  TcpConnection.chans w !! c = Some ch' -> stage_ok g' w ch' -> shell g' fd c (obj_of o w) (loop_of c ls w).
Proof.
  intros (ch & Hch & Hca & (C1 & C2 & C3 & C4) & Hfd & Hwi & _) (F1 & F2 & F3 & F4 & F5 & F6 & _) Hch' Hg.
  cbn in *. exists ch'. unfold TcpConnectionFacts.wiring_of in F2. cbn in F2. rewrite F1, Hca, Hch, Hch' in F2.
  injection F2 as E1 E2 E3 E4 E5 E6. split_and!; try done.
  - cbn. congruence.
  - split_and!; cbn; congruence.
  - congruence.
  - unfold ChannelFacts.wiring in *. cbn in *. congruence.
Qed.

(** Connection [c] is in stage [g], the rest is in order, and [r] are the events its
    channel last got. *)
Definition staged (s : System.t P) (c : ptr) (g : stage) (r : Z) : Prop :=
  exists o n x ls,
    mid s c x o ls (expected g (TcpServer.loop_ (srv s)) (TcpServer.conn_loop x) c n) (in_map g) /\
    body_ok g (TcpServer.conn_fd x) c o ls /\
    (g = SClosing -> TcpServer.conn_loop x <> TcpServer.loop_ (srv s)) /\
    Channel.revents_ <$> l_chans ls !! c = Some r.

Lemma staged_sinv s c g r : staged s c g r -> sinv s /\ is_Some (objs s !! c).
Proof.
  intros (o & n & x & ls & Hm & Hb & Hcl & _). split.
  - eapply mid_done; try done.
  - destruct Hm as (_ & Ho & _). by eexists.
Qed.

Lemma completes_app c n k : completes c n ++ completes c k = completes c (n + k).
Proof. unfold completes. destruct write_complete_set; [|done]. symmetry. apply replicate_add. Qed.

Lemma revents_after g fd c o ls w ch' r : shell g fd c o ls -> TcpConnectionFacts.frame (enter o ls) w ->
  TcpConnection.chans w !! c = Some ch' -> Channel.revents_ <$> l_chans ls !! c = Some r ->
  Channel.revents_ ch' = r.
Proof.
  intros (ch & Hch & Hca & _) (F1 & F2 & _) Hch'. unfold TcpConnectionFacts.wiring_of in F2.
  cbn in *. rewrite F1, Hca, Hch, Hch' in F2. rewrite Hch. injection F2 as _ E _ _ _ _. intros [= <-]. done.
Qed.

Lemma on_conn_eq c op s o ls w : objs s !! c = Some o -> loops s !! o_loop o = Some ls ->
  op (enter o ls) = Ok w ->
  on_conn c op s = Ok (foldl (fun s _ => close (o_loop o) c s) (leave c o ls w s) (TcpConnection.posted w)).
Proof. intros Ho Hls Hop. unfold on_conn. by rewrite Ho, Hls, Hop. Qed.

(** Code that leaves the connection in the stage its functors are already in. *)
Lemma on_conn_stays s c x o ls Q g0 g n op w ch' r :
  mid s c x o ls Q (in_map g) -> shell g0 (TcpServer.conn_fd x) c o ls ->
  Channel.revents_ <$> l_chans ls !! c = Some r ->
  op (enter o ls) = Ok w -> TcpConnectionFacts.frame (enter o ls) w ->
  poller_inv (TcpConnection.chans w) (TcpConnection.poller w) ->
  TcpConnection.chans w !! c = Some ch' -> stage_ok g w ch' -> good (obj_of o w) ->
  (g = SClosing -> TcpServer.conn_loop x <> TcpServer.loop_ (srv s)) ->
  (forall l, Q l = expected g (TcpServer.loop_ (srv s)) (TcpServer.conn_loop x) c n l) ->
  (g = SUp \/ TcpConnection.queued w = []) ->
  exists s', on_conn c op s = Ok s' /\ staged s' c g r.
Proof.
  intros Hmid Hsh Hr Hop Hf Hi Hch' Hg Hgood Hcl HQ Hor. pose proof Hmid as (_ & Ho & _ & _ & Hls & _).
  rewrite (on_conn_eq c op s o ls w Ho Hls Hop).
  assert (TcpConnection.posted w = []) as -> by (destruct Hf as (_ & _ & _ & _ & _ & _ & _ & Hp & _); exact Hp).
  cbn. eexists. split; [done|].
  destruct (mid_leave s c x o ls Q (in_map g) g0 w Hmid Hsh Hf Hi) as (k' & Hk & Hm').
  pose proof (revents_after _ _ _ _ _ _ _ _ Hsh Hf Hch' Hr) as Hr'.
  exists (obj_of o w), (if decide (g = SUp) then n + k' else n)%nat, x, (loop_of c ls w).
  split_and!; [|split; [by eapply shell_after|done]|done|cbn; by rewrite Hch', <- Hr'].
  destruct Hm' as (M1 & M2 & M3 & M4 & M5 & M6 & M7). split_and!; try done.
  intros l ls1 Hl. rewrite (M6 l ls1 Hl), HQ. change (srv (leave c o ls w s)) with (srv s).
  destruct (decide (g = SUp)) as [->|Hne].
  - cbn. case_decide; [|done]. apply completes_app.
  - destruct Hor as [?|Hq]; [done|].
    rewrite <- Hk, Hq, app_nil_r. by case_decide.
Qed.

(** Code that closes an open connection. *)
Lemma on_conn_closes s c x o ls n op w ch' r :
  mid s c x o ls (expected SUp (TcpServer.loop_ (srv s)) (TcpServer.conn_loop x) c n) true ->
  shell SUp (TcpServer.conn_fd x) c o ls ->
  Channel.revents_ <$> l_chans ls !! c = Some r ->
  op (enter o ls) = Ok (TcpConnection.post OnClose w) -> TcpConnectionFacts.frame (enter o ls) w ->
  TcpConnection.chans w !! c = Some ch' -> stage_ok SClosing w ch' -> good (obj_of o w) ->
  exists s' g, on_conn c op s = Ok s' /\ staged s' c g r /\ (g = SClosing \/ g = SRemoved).
Proof.
  intros Hmid Hsh Hr Hop Hf Hch' Hg Hgood. pose proof Hmid as (_ & Ho & _ & _ & Hls & _).
  assert (poller_inv (TcpConnection.chans w) (TcpConnection.poller w)) as Hi.
  { destruct Hg as [(_ & _ & _ & _ & ch & (Hi & _) & _) _]. exact Hi. }
  rewrite (on_conn_eq c op s o ls _ Ho Hls Hop).
  assert (TcpConnection.posted w = []) as Hpo by (destruct Hf as (_ & _ & _ & _ & _ & _ & _ & Hp & _); exact Hp).
  unfold TcpConnection.post. cbn [TcpConnection.posted]. rewrite Hpo.
  change (foldl _ _ _) with (close (o_loop o) c (leave c o ls w s)).
  destruct (mid_leave s c x o ls _ true SUp w Hmid Hsh Hf Hi) as (k & _ & Hm').
  pose proof (revents_after _ _ _ _ _ _ _ _ Hsh Hf Hch' Hr) as Hr'.
  pose proof Hm' as ((_ & Hcalls & _) & Ho' & Hx' & Hlo & _).
  pose proof (shell_after SUp SClosing _ _ _ _ _ _ Hsh Hf Hch' Hg) as Hsh'.
  rewrite (close_eq _ c x) by done. change (srv (leave c o ls w s)) with (srv s) in *.
  destruct (decide (o_loop o = TcpServer.loop_ (srv s))) as [E|E].
  - destruct (mid_without _ _ _ _ _ _ Hm') as [Hm2 Hlp].
    change (srv (leave c o ls w s)) with (srv s) in *.
    pose proof (mid_push _ c x _ _ _ _ (TcpServer.conn_loop x) [FServer (TcpServer.TDestroyed c)] Hm2) as Hm3.
    eexists _, SRemoved. split; [done|]. split; [|by right].
    exists (obj_of o w), (n + k)%nat, x. eexists. split; [|split; [|split; [done|]]].
    + destruct Hm3 as (M1 & M2 & M3 & M4 & M5 & M6 & M7); [by repeat constructor|].
      split_and!; [done|done|done|done|exact M5| |done].
      intros l ls1 Hl. rewrite (M6 l ls1 Hl). cbn. repeat case_decide; try done. by rewrite completes_app.
    + split; [|done]. rewrite <- Hlo. by rewrite decide_True.
    + rewrite <- Hlo. rewrite decide_True by done. cbn. by rewrite Hch', <- Hr'.
  - pose proof (mid_push _ c x _ _ _ _ (TcpServer.loop_ (srv s)) [FServer (TcpServer.TRemoveInLoop c)] Hm') as Hm3.
    eexists _, SClosing. split; [done|]. split; [|by left].
    exists (obj_of o w), (n + k)%nat, x, (loop_of c ls w).
    split; [|split; [by split|split; [|cbn; by rewrite Hch', <- Hr']]].
    + destruct Hm3 as (M1 & M2 & M3 & M4 & M5 & M6 & M7); [by repeat constructor|].
      split_and!; [done|done|done|done| | |done].
      * rewrite M5. cbn [obj_of o_loop]. by rewrite decide_False.
      * intros l ls1 Hl. rewrite (M6 l ls1 Hl). cbn. pose proof Hmid as (_ & _ & _ & Hlo' & _).
        rewrite Hlo'. repeat case_decide; subst; try done. apply completes_app.
    + intros _. pose proof Hmid as (_ & _ & _ & Hlo' & _). rewrite Hlo'. exact E.
Qed.

End Facts.
End SystemFacts.
