(* ===== verification/Echo.v ===== *)
(** The two example servers (example/echo_server.cc, example/pingpong_server.cc): what
    their callbacks do to a connection. *)
From Stdlib Require Import ZArith Lia Ascii.
From stdpp Require Import base gmap list option strings.
From S2P Require Import Prelude Buffer Channel Poller EventLoop TcpConnection ThreadPool Net TcpServer System SystemFacts.

Local Open Scope Z_scope.

(** * EchoServer *)
Module EchoServer.

Section EchoServer.
Context {Q : Type} `{!Poller (CB := TcpConnection.handler) (OBJ := unit) Q}.

(** [OnConnection] and [OnWriteComplete] write a log line. *)
Definition OnConnection (w : world Q) : result (world Q) := Ok w.
Definition OnWriteComplete (w : world Q) : result (world Q) := Ok w.

(** The only callback that can run inside [Send]. *)
Definition inside_send (f : callback) (w : world Q) : result (world Q) :=
  match f with System.OnWriteComplete => OnWriteComplete w | _ => Err BadFunctionCall end.

(** [OnMessage]: the input buffer is taken out into the string [msg], which lives at
    a fresh address until the callback returns. *)
Definition OnMessage (wr : bytes -> Buffer.write_result) (w : world Q) : result (world Q) :=
  '(msg, b) ← Buffer.RetriveAllAsString (TcpConnection.input_buffer_ (TcpConnection.conn w));
  let w := TcpConnection.with_conn (TcpConnection.set_input b) w in
  let m := TcpConnection.mem w in
  let a := fresh (dom m) in
  w ← TcpConnection.Send inside_send true wr a (zlen msg) (TcpConnection.set_mem (<[a := msg]> m) w);
  Ok (TcpConnection.set_mem (delete a (TcpConnection.mem w)) w).

Definition callbacks (wr : bytes -> Buffer.write_result) (f : callback) (w : world Q) : result (world Q) :=
  match f with
  | System.OnConnection => OnConnection w
  | System.OnMessage => OnMessage wr w
  | System.OnWriteComplete => OnWriteComplete w
  | OnClose => Err BadFunctionCall
  end.
End EchoServer.

(** What the constructor gives its server. *)
Definition server_callbacks : TcpServer.callbacks callback thread_callback :=
  let x := TcpServer.no_callbacks in
  let x := TcpServer.SetConnectionCallback System.OnConnection x in
  let x := TcpServer.SetMessageCallback System.OnMessage x in
  let x := TcpServer.SetThreadInitCallback System.OnThreadInit x in
  TcpServer.SetWriteCompleteCallback System.OnWriteComplete x.

#[export] Instance echo_app : App := {| app := @callbacks; System.server_callbacks := server_callbacks |}.
End EchoServer.

(** * PingpongServer *)
Module PingpongServer.

Section PingpongServer.
Context {Q : Type} `{!Poller (CB := TcpConnection.handler) (OBJ := unit) Q}.

(** [OnConnection], when the connection comes up and when it goes down. *)
Definition OnConnection (w : world Q) : result (world Q) := Ok (TcpConnection.SetTcpNoDelay true w).

(** [OnMessage] is the echo server's. *)
Definition OnMessage (wr : bytes -> Buffer.write_result) (w : world Q) : result (world Q) :=
  EchoServer.OnMessage wr w.

Definition callbacks (wr : bytes -> Buffer.write_result) (f : callback) (w : world Q) : result (world Q) :=
  match f with
  | System.OnConnection => OnConnection w
  | System.OnMessage => OnMessage wr w
  | System.OnWriteComplete | OnClose => Err BadFunctionCall
  end.
End PingpongServer.

(** What the constructor gives its server. *)
Definition server_callbacks : TcpServer.callbacks callback thread_callback :=
  let x := TcpServer.no_callbacks in
  let x := TcpServer.SetConnectionCallback System.OnConnection x in
  TcpServer.SetMessageCallback System.OnMessage x.

#[export] Instance pingpong_app : App := {| app := @callbacks; System.server_callbacks := server_callbacks |}.
End PingpongServer.


(** * What the server may rely on *)
Module EchoFacts.

Section Facts.
Context {Q : Type} `{!Poller Q, !PollerLaws (CB := TcpConnection.handler) (OBJ := unit) Q}.
Implicit Types (w : world Q).

Lemma frame_mem m w : TcpConnectionFacts.frame w (TcpConnection.set_mem m w).
Proof.
  apply (TcpConnectionFacts.frame_local []); try done. cbn. by rewrite app_nil_r.
Qed.

(** Sending a string that is alive during the call. *)
Lemma Send_string user wr a msg w m :
  conn_inv w -> TcpConnection.state_ (TcpConnection.conn w) = TcpConnection.kConnected ->
  zlen msg <= Vec.max_size ->
  TcpConnection.Send user true wr a (zlen msg) (TcpConnection.set_mem (<[a := msg]> m) w) =
    TcpConnection.SendInLoop user wr msg (TcpConnection.set_mem (<[a := msg]> m) w).
Proof.
  intros Hi Hst Hm. pose proof (zlen_nonneg msg). pose proof BufferFacts.max_size_u64.
  unfold TcpConnection.Send. cbn [TcpConnection.set_mem TcpConnection.conn]. rewrite bool_decide_eq_true_2 by done.
  unfold TcpConnection.send_from. cbn [TcpConnection.set_mem TcpConnection.mem TcpConnection.conn].
  rewrite bool_decide_eq_false_2, lookup_insert_eq, u64_small by (congruence || lia). cbn [orb].
  destruct (Z.eqb_spec (zlen msg) 0) as [->%zlen_nil_inv|]; [done|].
  destruct (Z.ltb_spec (zlen msg) (zlen msg)); [lia|]. by rewrite ztake_all by lia.
Qed.

(** [OnMessage] sends back all that is unread. *)
Lemma OnMessage_law wr w :
  conn_inv w -> TcpConnection.state_ (TcpConnection.conn w) = TcpConnection.kConnected ->
  (forall f, TcpConnection.write_complete_callback_ (TcpConnection.conn w) = Some f -> f = System.OnWriteComplete) ->
  TcpConnectionFacts.kernel_write w wr ->
  zlen (content w) <= Vec.max_size -> TcpConnectionFacts.room w (zlen (content w)) ->
  exists w', EchoServer.OnMessage wr w = Ok w' /\ conn_inv w' /\ TcpConnectionFacts.frame w w' /\
    TcpConnection.state_ (TcpConnection.conn w') = TcpConnection.kConnected /\ content w' = [] /\
    (TcpConnectionFacts.stream w' = TcpConnectionFacts.stream w ++ content w \/
     exists e, wr (content w) = Buffer.WriteErr e /\ TcpConnection.fault_error e = true).
Proof.
  intros Hi Hst Hwc Hk Hmax Hroom. pose proof Hi as (Hin & _).
  unfold EchoServer.OnMessage. rewrite BufferFacts.RetriveAllAsString_ok by done. cbn [mbind result_bind].
  set (b := Buffer.RetriveAll _). pose proof (BufferFacts.RetriveAll_wf _ Hin : Buffer.wf b) as Hwf.
  assert (Buffer.content b = []) as Hc by apply BufferFacts.RetriveAll_content.
  set (msg := content w) in *. set (m := TcpConnection.mem _). set (a := fresh (dom m)).
  set (w1 := TcpConnection.with_conn (TcpConnection.set_input b) w).
  assert (conn_inv w1) as Hi1 by (by apply TcpConnectionFacts.inv_set_input).
  rewrite Send_string by done. set (w2 := TcpConnection.set_mem _ w1).
  assert (TcpConnectionFacts.frame w w2) as Hf2.
  { eapply TcpConnectionFacts.frame_trans; [|apply frame_mem]. by apply TcpConnectionFacts.frame_with_conn. }
  assert (forall w3, TcpConnection.SendInLoop EchoServer.inside_send wr msg w2 = Ok w3 -> conn_inv w3 ->
    TcpConnection.state_ (TcpConnection.conn w3) = TcpConnection.kConnected -> TcpConnectionFacts.sends w2 w3 ->
    (TcpConnectionFacts.stream w3 = TcpConnectionFacts.stream w ++ msg \/
     exists e, wr msg = Buffer.WriteErr e /\ TcpConnection.fault_error e = true) ->
    exists w', (w0 ← TcpConnection.SendInLoop EchoServer.inside_send wr msg w2;
        Ok (TcpConnection.set_mem (delete a (TcpConnection.mem w0)) w0)) = Ok w' /\ conn_inv w' /\
      TcpConnectionFacts.frame w w' /\
      TcpConnection.state_ (TcpConnection.conn w') = TcpConnection.kConnected /\ content w' = [] /\
      (TcpConnectionFacts.stream w' = TcpConnectionFacts.stream w ++ msg \/
       exists e, wr msg = Buffer.WriteErr e /\ TcpConnection.fault_error e = true)) as Hend.
  { intros w3 E3 Hi3 Hst3 [Hf3 Hin3] Hs3. rewrite E3. eexists. split; [done|]. split; [exact Hi3|].
    split; [|split; [exact Hst3|split; [cbn; by rewrite Hin3|exact Hs3]]].
    eapply TcpConnectionFacts.frame_trans; [exact (TcpConnectionFacts.frame_trans _ _ _ Hf2 Hf3)|apply frame_mem]. }
  destruct (TcpConnectionFacts.SendInLoop_law EchoServer.inside_send wr msg w2) as
    [w3 E3 Hi3 Hs3 Hst3 Hse|f w3 Hf E3 Hi3 Hs3 Hu3 Hst3 Hse|e E3 Hfe _ E4]; try done.
  - unfold w2, w1. cbn. congruence.
  - apply (Hend w3); try done; [etrans; [exact Hst3|exact Hst]|by left].
  - rewrite (Hwc f Hf) in E3. apply (Hend w3); try done; [etrans; [exact Hst3|exact Hst]|].
    left. unfold TcpConnectionFacts.stream at 1. by rewrite Hu3, app_nil_r.
  - apply (Hend w2); try done; first [apply TcpConnectionFacts.sends_refl|right; by exists e].
Qed.

End Facts.
End EchoFacts.

(** Nothing stays unread, and what was received is what was or will be sent. *)
Definition echoes (recv unread stream : bytes) : Prop := unread = [] /\ stream = recv.

Section Echoing.
Context {Q : Type} `{!Poller Q, !PollerLaws (CB := TcpConnection.handler) (OBJ := unit) Q}.

Lemma OnMessage_echoes wr (w : world Q) recv old d :
  conn_inv w -> TcpConnection.state_ (TcpConnection.conn w) = TcpConnection.kConnected ->
  (forall f, TcpConnection.write_complete_callback_ (TcpConnection.conn w) = Some f -> f = OnWriteComplete) ->
  TcpConnectionFacts.kernel_write w wr -> content w = old ++ d ->
  zlen (content w) <= Vec.max_size -> TcpConnectionFacts.room w (zlen (content w)) ->
  exists w', EchoServer.OnMessage wr w = Ok w' /\ conn_inv w' /\ TcpConnectionFacts.frame w w' /\
    TcpConnection.state_ (TcpConnection.conn w') = TcpConnection.kConnected /\
    ((forall x e, wr x = Buffer.WriteErr e -> TcpConnection.fault_error e = false) ->
     echoes recv old (TcpConnectionFacts.stream w) ->
     echoes (recv ++ d) (content w') (TcpConnectionFacts.stream w')).
Proof.
  intros Hi Hst Hwc Hk Hold Hmax Hroom.
  destruct (EchoFacts.OnMessage_law wr w Hi Hst Hwc Hk Hmax Hroom) as (w' & E & Hi' & Hf & Hst' & Hc & Hs).
  exists w'. split; [exact E|]. split; [exact Hi'|]. split; [exact Hf|]. split; [exact Hst'|].
  intros Hno [-> Hrecv]. split; [exact Hc|]. destruct Hs as [->|(e & He & Hfe)].
  - by rewrite Hrecv, Hold.
  - by rewrite (Hno _ _ He) in Hfe.
Qed.

(** A callback that does nothing. *)
Lemma idle_callback (w : world Q) : conn_inv w ->
  exists w', Ok w = Ok w' /\ conn_inv w' /\ TcpConnectionFacts.frame w w' /\
    TcpConnection.state_ (TcpConnection.conn w') = TcpConnection.state_ (TcpConnection.conn w) /\
    content w' = content w /\ TcpConnectionFacts.stream w' = TcpConnectionFacts.stream w /\
    TcpConnection.queued w' = TcpConnection.queued w /\
    TcpConnection.chans w' !! TcpConnection.channel_ (TcpConnection.conn w) =
      TcpConnection.chans w !! TcpConnection.channel_ (TcpConnection.conn w).
Proof.
  intros Hi. exists w. split; [done|]. split; [exact Hi|].
  split; [apply TcpConnectionFacts.frame_refl|done].
Qed.

(** A callback that sets an option of the socket. *)
Lemma no_delay_callback on (w : world Q) : conn_inv w ->
  exists w', Ok (TcpConnection.SetTcpNoDelay on w) = Ok w' /\ conn_inv w' /\ TcpConnectionFacts.frame w w' /\
    TcpConnection.state_ (TcpConnection.conn w') = TcpConnection.state_ (TcpConnection.conn w) /\
    content w' = content w /\ TcpConnectionFacts.stream w' = TcpConnectionFacts.stream w /\
    TcpConnection.queued w' = TcpConnection.queued w /\
    TcpConnection.chans w' !! TcpConnection.channel_ (TcpConnection.conn w) =
      TcpConnection.chans w !! TcpConnection.channel_ (TcpConnection.conn w).
Proof.
  intros Hi. exists (TcpConnection.SetTcpNoDelay on w). split; [done|]. split; [exact Hi|].
  split; [by apply TcpConnectionFacts.frame_with_conn|done].
Qed.

End Echoing.

#[export] Instance echo_laws : @AppLaws EchoServer.echo_app.
Proof.
  refine {| app_good := echoes |}; [done|done|..].
  - intros Q ? ? wr f w [->|[-> _]]; apply idle_callback.
  - intros Q ? ? wr w recv old d Hi Hst Hwc. apply OnMessage_echoes; [done|done|].
    intros f. rewrite Hwc. by intros [= <-].
Defined.

#[export] Instance pingpong_laws : @AppLaws PingpongServer.pingpong_app.
Proof.
  refine {| app_good := echoes |}; [done|done|..].
  - intros Q ? ? wr f w [->|[_ ?]]; [apply no_delay_callback|done].
  - intros Q ? ? wr w recv old d Hi Hst Hwc. apply OnMessage_echoes; [done|done|].
    intros f. by rewrite Hwc.
Defined.
