(* ===== verification/SystemSteps.v ===== *)
(** The steps of the server of System.v: each handler of a connection's channel, the
    dispatch of a channel's events, every functor of the queues, accepting a
    connection, and destroying one that nobody holds any more. *)
From Stdlib Require Import ZArith Lia Ascii.
From stdpp Require Import base gmap list option strings.
From S2P Require Import Prelude Buffer Channel Poller EventLoop TcpConnection ThreadPool Net TcpServer.
From S2P Require Import System SystemFacts.

Local Open Scope Z_scope.

Module SystemSteps.
Import System SystemFacts.

Section Steps.
Context {P : Type} `{!Poller (CB := TcpConnection.handler) (OBJ := unit) P}
  `{!PollerLaws (CB := TcpConnection.handler) (OBJ := unit) P} `{!App, !AppLaws}.
Implicit Types (s : System.t P) (ls : loopst P) (o : obj) (q : list functor) (c d l : ptr) (dt : bytes).

(** ** What the kernel and the poller report *)

Definition received (d : bytes) (lost : bool) (o : obj) : obj :=
  mk_obj (o_conn o) (o_loop o) (o_sent o) (o_shut o) (o_recv o ++ d) (o_lost o || lost).

Definition reported (c : ptr) (r : Z) (ls : loopst P) : loopst P :=
  mk_loop (alter (Channel.Set_Revents r) c (l_chans ls)) (l_poller ls) (l_queue ls).

Lemma deliver_upd c dt lost o ls s : objs s !! c = Some o -> loops s !! o_loop o = Some ls ->
  deliver c dt lost s = upd c (Some (received dt lost o)) (o_loop o) ls s.
Proof.
  intros Ho Hl. unfold deliver, upd. rewrite (insert_id (loops s)) by done. f_equal.
  apply map_eq. intros i. destruct (decide (i = c)) as [->|].
  - by rewrite lookup_alter_eq, lookup_partial_alter_eq, Ho.
  - by rewrite lookup_alter_ne, lookup_partial_alter_ne.
Qed.

Lemma set_revents_upd c r o ls s : objs s !! c = Some o -> loops s !! o_loop o = Some ls ->
  set_revents c r s = upd c (Some o) (o_loop o) (reported c r ls) s.
Proof.
  intros Ho Hl. unfold set_revents, upd. rewrite Ho. f_equal.
  - apply map_eq. intros i. destruct (decide (i = o_loop o)) as [->|].
    + by rewrite lookup_alter_eq, lookup_insert_eq, Hl.
    + by rewrite lookup_alter_ne, lookup_insert_ne.
  - apply map_eq. intros i. destruct (decide (i = c)) as [->|].
    + by rewrite lookup_partial_alter_eq.
    + by rewrite lookup_partial_alter_ne.
Qed.

(** Replacing a connection and its loop's channels only. *)
Lemma mid_set s c x o ls Q b g o' ls' : mid s c x o ls Q b -> shell g (TcpServer.conn_fd x) c o ls ->
  o_loop o' = o_loop o -> poller_inv (l_chans ls') (l_poller ls') ->
  others c (TcpServer.conn_fd x) (l_chans ls) (l_poller ls) (l_chans ls') (l_poller ls') ->
  l_queue ls' = l_queue ls -> mid (upd c (Some o') (o_loop o) ls' s) c x o' ls' Q b.
Proof.
  intros Hmid Hsh Hlo Hi Hoth Hqu.
  pose proof (mid_upd _ _ _ _ _ _ _ _ o' ls' [] Hmid Hsh Hlo Hi Hoth) as (M1 & M2 & M3 & M4 & M5 & M6 & M7).
  { by rewrite app_nil_r. }
  { done. }
  split_and!; try done. intros l ls1 Hl. rewrite (M6 l ls1 Hl). case_decide; by rewrite ?app_nil_r.
Qed.

Lemma mid_poller s c x o ls Q b : mid s c x o ls Q b -> poller_inv (l_chans ls) (l_poller ls).
Proof. intros ((_ & _ & _ & H4 & _) & _ & _ & _ & Hls & _). by eapply H4. Qed.

Lemma mid_deliver s c x o ls Q b g dt lost : mid s c x o ls Q b -> shell g (TcpServer.conn_fd x) c o ls ->
  mid (deliver c dt lost s) c x (received dt lost o) ls Q b.
Proof.
  intros Hmid Hsh. pose proof Hmid as (_ & Ho & _ & _ & Hls & _). rewrite (deliver_upd _ _ _ o ls) by done.
  eapply mid_set; try done; [by eapply mid_poller|apply others_refl].
Qed.

(** The events a channel got matter to nothing but its dispatch. *)
Lemma inv_reported (w w' : world P) ch r :
  TcpConnection.conn w' = TcpConnection.conn w -> TcpConnection.sent w' = TcpConnection.sent w ->
  TcpConnection.wr_shut w' = TcpConnection.wr_shut w -> TcpConnection.poller w' = TcpConnection.poller w ->
  TcpConnection.chans w !! TcpConnection.channel_ (TcpConnection.conn w) = Some ch ->
  TcpConnection.chans w' =
    <[TcpConnection.channel_ (TcpConnection.conn w) := Channel.Set_Revents r ch]> (TcpConnection.chans w) ->
  conn_inv w -> conn_inv w'.
Proof.
  intros E1 E2 E3 E4 Hch E5 (H1 & H2 & H3 & H4 & ch' & (Hi & Hch' & Hm & He & Hint) & Hw).
  rewrite Hch in Hch'. injection Hch' as <-.
  unfold TcpConnectionFacts.inv, TcpConnectionFacts.unsent in *. rewrite E1, E3. split_and!; try done.
  exists (Channel.Set_Revents r ch). split.
  - unfold TcpConnectionFacts.linked. rewrite E1, E4, E5. split_and!; try done.
    + by apply (touch_law _ _ _ ch).
    + by rewrite lookup_insert_eq.
    + by eapply managed_ext; [..|exact Hm].
  - unfold TcpConnectionFacts.writing_ok, TcpConnectionFacts.unsent in *. by rewrite E1.
Qed.

Lemma shell_reported g fd c o ls r : poller_inv (l_chans ls) (l_poller ls) ->
  shell g fd c o ls -> shell g fd c o (reported c r ls) /\
    poller_inv (l_chans (reported c r ls)) (l_poller ls) /\
    others c fd (l_chans ls) (l_poller ls) (l_chans (reported c r ls)) (l_poller ls) /\
    Channel.revents_ <$> l_chans (reported c r ls) !! c = Some r.
Proof.
  intros Hi (ch & Hch & Hca & Hcb & Hfd & Hwi & Hg).
  assert (l_chans (reported c r ls) = <[c := Channel.Set_Revents r ch]> (l_chans ls)) as E.
  { apply map_eq. intros i. destruct (decide (i = c)) as [->|].
    - cbn. by rewrite lookup_alter_eq, lookup_insert_eq, Hch.
    - cbn. by rewrite lookup_alter_ne, lookup_insert_ne. }
  rewrite E. split_and!.
  - exists (Channel.Set_Revents r ch). rewrite E, lookup_insert_eq. split_and!; try done.
    assert (conn_inv (enter o ls) -> conn_inv (enter o (reported c r ls))) as Hci.
    { intros Hci. apply (inv_reported (enter o ls) _ ch r); cbn; rewrite ?Hca; try done. }
    destruct g; cbn in *; [done|naive_solver..].
  - by apply (touch_law _ _ _ ch).
  - apply others_touch.
  - by rewrite lookup_insert_eq.
Qed.

(** The poller reports events on a connection in order. *)
Lemma set_revents_staged s c o r : sinv s -> objs s !! c = Some o ->
  exists g n x ls, staged (set_revents c r s) c g r /\
    mid s c x o ls (expected g (TcpServer.loop_ (srv s)) (TcpServer.conn_loop x) c n) (in_map g) /\
    shell g (TcpServer.conn_fd x) c o ls /\ objs (set_revents c r s) = objs s.
Proof.
  intros Hs Ho. destruct (mid_intro s c o Hs Ho) as (g & n & x & ls & Hmid & [Hsh Hgood] & Hcl).
  exists g, n, x, ls. pose proof Hmid as (_ & _ & _ & Hl & Hls & _).
  destruct (shell_reported g _ c o ls r (mid_poller _ _ _ _ _ _ _ Hmid) Hsh) as (Hsh' & Hi & Hot & Hr).
  split; [|split; [done|split; [done|unfold set_revents; by rewrite Ho]]].
  rewrite (set_revents_upd _ _ o ls) by done. exists o, n, x, (reported c r ls).
  split; [|split; [by split|split; [done|done]]]. by eapply mid_set.
Qed.

(** ** Whose descriptor it is *)

Lemma mid_other_fd s c x o ls Q b d chd : mid s c x o ls Q b -> d <> c ->
  l_chans ls !! d = Some chd -> Channel.fd_ chd <> TcpServer.conn_fd x.
Proof.
  intros Hmid Hdc Hd. pose proof Hmid as ((_ & _ & _ & _ & H5 & _ & _ & _ & H9) & _ & _ & Hl & Hls & _).
  destruct (H5 _ _ _ _ Hls Hd) as (o' & Ho' & Hl').
  destruct (H9 d o' Ho') as (g & n & y & Hy & Hyl & _ & ls1 & Hls1 & (ch & Hch & _ & _ & Hfd & _) & _);
    [congruence|].
  assert (ls1 = ls) as -> by congruence. assert (ch = chd) as -> by congruence.
  rewrite Hfd. by eapply mid_fd.
Qed.

(** Only an open connection's descriptor is watched. *)
Lemma watched_up s c x o ls Q b g : mid s c x o ls Q b -> shell g (TcpServer.conn_fd x) c o ls ->
  interest (l_poller ls) (TcpServer.conn_fd x) <> 0 -> g = SUp.
Proof.
  intros Hmid (ch & Hch & Hca & _ & Hfd & _ & Hg) Hw.
  assert (conn_inv (enter o ls) -> Channel.events_ ch = 0 -> False) as Hno.
  { intros (_ & _ & _ & _ & ch' & (_ & Hch' & _ & _ & Hint) & _) He. cbn in *.
    rewrite Hca, Hch in Hch'. injection Hch' as <-. congruence. }
  destruct g; [|done|naive_solver..]. exfalso. apply Hw.
  apply (unwatched_law (l_chans ls)); [by eapply mid_poller|]. intros d chd Hd Hdf.
  destruct (decide (d = c)) as [->|Hdc].
  - rewrite Hch in Hd. injection Hd as <-. apply Hg.
  - by destruct (mid_other_fd _ _ _ _ _ _ _ _ _ Hmid Hdc Hd).
Qed.

(** ** The handlers of a connection's channel *)

Lemma stage_inv g (w : world P) ch : g <> SNew -> stage_ok g w ch -> conn_inv w.
Proof. destruct g; cbn; naive_solver. Qed.

Lemma inv_poller (w : world P) : conn_inv w -> poller_inv (TcpConnection.chans w) (TcpConnection.poller w).
Proof. intros (_ & _ & _ & _ & ch & (Hi & _) & _). exact Hi. Qed.

Lemma good_same o ls (w : world P) : good o -> content w = content (enter o ls) ->
  TcpConnectionFacts.stream w = TcpConnectionFacts.stream (enter o ls) -> good (obj_of o w).
Proof. intros Hg Hc Hs Hl. specialize (Hg Hl). cbn. unfold TcpConnectionFacts.stream, TcpConnectionFacts.unsent in Hs. cbn in Hs. by rewrite Hc, Hs. Qed.

(** Code that does not move the connection to another stage. *)
Lemma staged_op s c g r op : staged s c g r ->
  (forall fd o ls, poller_inv (l_chans ls) (l_poller ls) -> shell g fd c o ls -> good o ->
     exists w ch', op (enter o ls) = Ok w /\ TcpConnectionFacts.frame (enter o ls) w /\
       poller_inv (TcpConnection.chans w) (TcpConnection.poller w) /\
       TcpConnection.chans w !! c = Some ch' /\ stage_ok g w ch' /\ good (obj_of o w) /\
       (g = SUp \/ TcpConnection.queued w = [])) ->
  exists s', on_conn c op s = Ok s' /\ staged s' c g r.
Proof.
  intros (o & n & x & ls & Hmid & [Hsh Hgood] & Hcl & Hr) Hop.
  destruct (Hop (TcpServer.conn_fd x) o ls (mid_poller _ _ _ _ _ _ _ Hmid) Hsh Hgood) as
    (w & ch' & E & Hf & Hi & Hch' & Hg & Hgo & Hq).
  by eapply on_conn_stays.
Qed.

(** [HandleError] changes nothing. *)
Lemma invoke_error rd rw ww s c g r : staged s c g r -> invoke rd rw ww c TcpConnection.HError s = Ok s.
Proof.
  intros (o & n & x & ls & (_ & Ho & _ & _ & Hls & _) & _). cbn [invoke].
  rewrite (on_conn_eq c TcpConnection.HandleError s o ls (enter o ls) Ho Hls eq_refl). cbn. f_equal. rewrite leave_upd.
  unfold loop_of, obj_of, upd. cbn. rewrite app_nil_r.
  replace (mk_loop (l_chans ls) (l_poller ls) (l_queue ls)) with ls by (by destruct ls).
  rewrite insert_id by done. destruct s as [z lo ob]; cbn in *. f_equal.
  apply map_eq. intros i. destruct (decide (i = c)) as [->|].
  - rewrite lookup_partial_alter_eq, Ho. by destruct o.
  - by rewrite lookup_partial_alter_ne.
Qed.

Lemma takes_writes a : TcpConnectionFacts.takes_prefix (writes a).
Proof.
  intros d n. destruct a as [k|e]; cbn; [|done]. intros [= <-]. pose proof (zlen_nonneg d). lia.
Qed.

Lemma invoke_write rd rw ww s c g r : g <> SNew -> staged s c g r ->
  exists s', invoke rd rw ww c TcpConnection.HWrite s = Ok s' /\ staged s' c g r.
Proof.
  intros Hne Hs. apply staged_op; [done|]. intros fd o ls Hi Hsh Hgood.
  pose proof Hsh as (ch & Hch & Hca & _ & _ & _ & Hg). pose proof (stage_inv _ _ _ Hne Hg) as Hci.
  destruct (TcpConnectionFacts.HandleWrite_law (writes ww) (enter o ls) Hci (takes_writes ww)) as
    (w & E & Hi' & Hst & Hs' & _ & [Hf Hin] & Hm).
  destruct (decide (g = SUp)) as [->|Hnu].
  - destruct Hg as [_ Hup]. pose proof Hi' as (_ & _ & _ & _ & ch' & (_ & Hch' & _) & _).
    destruct (Hf) as (Hc' & _). rewrite Hc' in Hch'. cbn in Hch'. rewrite Hca in Hch'.
    exists w, ch'. split_and!; [done|done|by apply inv_poller|done| |by eapply good_same; [|rewrite Hin|]|by left].
    split; [done|]. by rewrite Hs'.
  - assert (w = enter o ls) as ->.
    { assert (TcpConnection.state_ (o_conn o) = TcpConnection.kDisconnected) as Hd by (destruct g; naive_solver).
      destruct (writes ww _) as [k|e]; [|done]. cbn in Hm. rewrite Hd in Hm.
      by rewrite bool_decide_eq_false_2 in Hm by (by intros [? _]). }
    exists (enter o ls), ch. split_and!; try done. by right.
Qed.

(** [HandleClose] of an open connection, up to the close callback. *)
Lemma close_law wr (w : world P) : conn_inv w -> our_callbacks (TcpConnection.conn w) ->
  exists w2 ch, TcpConnection.HandleClose (user wr) w = Ok (TcpConnection.post OnClose w2) /\
    TcpConnectionFacts.frame w w2 /\ content w2 = content w /\
    TcpConnectionFacts.stream w2 = TcpConnectionFacts.stream w /\
    TcpConnection.chans w2 !! TcpConnection.channel_ (TcpConnection.conn w) = Some ch /\
    stage_ok SClosing w2 ch.
Proof.
  intros Hci (C1 & _ & _ & C4).
  destruct (TcpConnectionFacts.HandleClose_law (user wr) w Hci) as
    (w1 & E & Hi1 & Hst1 & Hs1 & [Hf1 Hin1] & ch & Hl & Hint).
  pose proof Hf1 as (F0 & _ & F1 & _ & _ & F4 & _).
  destruct (app_callback wr OnConnection w1) as (w2 & E2 & Hi2 & Hf2 & Hst2 & Hc2 & Hs2 & _ & Hch2); [by left|done|].
  pose proof Hf2 as (G0 & _ & _ & _ & _ & G4 & _).
  exists w2, ch. rewrite E, F1, C1. cbn [TcpConnection.call]. change (user wr OnConnection w1) with (app wr OnConnection w1).
  rewrite E2. cbn. rewrite G4, F4, C4. cbn.
  pose proof Hl as (_ & Hch & _ & _ & Hint').
  split_and!; [done|by eapply TcpConnectionFacts.frame_trans|by rewrite Hc2, Hin1|congruence| | | |].
  - by rewrite <- F0, Hch2.
  - done.
  - congruence.
  - by rewrite <- Hint', Hint.
Qed.

(** A handler that closes the connection, perhaps after changing it. *)
Lemma closes s c x o ls n op wr w0 r :
  mid s c x o ls (expected SUp (TcpServer.loop_ (srv s)) (TcpServer.conn_loop x) c n) true ->
  shell SUp (TcpServer.conn_fd x) c o ls -> Channel.revents_ <$> l_chans ls !! c = Some r ->
  op (enter o ls) = TcpConnection.HandleClose (user wr) w0 ->
  TcpConnectionFacts.frame (enter o ls) w0 -> conn_inv w0 ->
  (o_lost o = false -> app_good (o_recv o) (content w0) (TcpConnectionFacts.stream w0)) ->
  exists s' g, on_conn c op s = Ok s' /\ staged s' c g r /\ (g = SClosing \/ g = SRemoved).
Proof.
  intros Hmid Hsh Hr Hop Hf Hi Hgood.
  assert (our_callbacks (TcpConnection.conn w0)) as Hcb.
  { destruct Hsh as (_ & _ & _ & (C1 & C2 & C3 & C4) & _). destruct Hf as (_ & _ & F1 & F2 & F3 & F4 & _).
    cbn in *. split_and!; congruence. }
  destruct (close_law wr w0 Hi Hcb) as (w2 & ch & E & Hf2 & Hc2 & Hs2 & Hch & Hg).
  pose proof (shell_channel _ _ _ _ _ Hsh) as Hca. pose proof Hf as (F0 & _). cbn in F0.
  rewrite F0, Hca in Hch. rewrite E in Hop.
  eapply (on_conn_closes s c x o ls n op w2 ch r); try done.
  - exact (TcpConnectionFacts.frame_trans _ _ _ Hf Hf2).
  - intros Hl. specialize (Hgood Hl). rewrite <- Hc2, <- Hs2 in Hgood. exact Hgood.
Qed.

Lemma invoke_close rd rw ww s c r : staged s c SUp r ->
  exists s' g, invoke rd rw ww c TcpConnection.HClose s = Ok s' /\ staged s' c g r /\
    (g = SClosing \/ g = SRemoved).
Proof.
  intros (o & n & x & ls & Hmid & [Hsh Hgood] & _ & Hr).
  pose proof Hsh as (ch & _ & _ & _ & _ & _ & Hci & _).
  eapply closes; try done. apply TcpConnectionFacts.frame_refl.
Qed.

(** What the kernel promises when a connection reads, and that its buffers have room
    for what it is given. *)
Definition io_pre (rd : read_answer) (rw : write_answer) (o : obj) : Prop :=
  let inb := TcpConnection.input_buffer_ (o_conn o) in
  let outb := TcpConnection.output_buffer_ (o_conn o) in
  Buffer.write_index_ inb + 2 * Buffer.kExtraBuf + zlen (Buffer.buffer_ inb) <= Vec.max_size /\
  (o_shut o = true -> rw = WFail TcpConnection.EPIPE) /\
  match rd with
  | RGive dt =>
      zlen (Buffer.content inb) + zlen dt <= Vec.max_size /\
      Buffer.write_index_ outb + (zlen (Buffer.content inb) + zlen dt) <= Vec.max_size
  | RFail _ => True
  end.

Lemma zlen_ztake_le {A} n (l : list A) : zlen (ztake n l) <= zlen l.
Proof. unfold zlen, ztake. rewrite length_take. lia. Qed.

Lemma reads_kernel rd rw o ls : io_pre rd rw o -> TcpConnectionFacts.kernel_read (enter o ls) (reads rd).
Proof.
  intros (Hroom & _). split; [|exact Hroom]. intros cap dt Hcap. destruct rd as [d|e]; cbn; [|done]. intros [= <-].
  unfold zlen, ztake. rewrite length_take. lia.
Qed.

Lemma writes_kernel rd rw o ls (b : Buffer.t) : io_pre rd rw o ->
  TcpConnectionFacts.kernel_write (TcpConnection.with_conn (TcpConnection.set_input b) (enter o ls)) (writes rw).
Proof. intros (_ & Hsh & _). split; [apply takes_writes|]. cbn. intros Hs dt _. by rewrite (Hsh Hs). Qed.

Lemma breaks_writes rw x e : breaks rw = false -> writes rw x = Buffer.WriteErr e -> TcpConnection.fault_error e = false.
Proof. destruct rw; cbn; [done|]. by intros ? [= <-]. Qed.

(** A message: the user's callback gets everything that is unread. *)
Lemma message_op rd rw o ls b dt given :
  io_pre rd rw o -> rd = RGive given -> zlen dt <= zlen given ->
  conn_inv (TcpConnection.with_conn (TcpConnection.set_input b) (enter o ls)) ->
  TcpConnection.state_ (o_conn o) = TcpConnection.kConnected -> our_callbacks (o_conn o) ->
  Buffer.content b = Buffer.content (TcpConnection.input_buffer_ (o_conn o)) ++ dt ->
  good o ->
  exists w, TcpConnection.call (user (writes rw)) (TcpConnection.message_callback_ (o_conn o))
      (TcpConnection.with_conn (TcpConnection.set_input b) (enter o ls)) = Ok w /\
    conn_inv w /\ TcpConnectionFacts.frame (enter o ls) w /\
    TcpConnection.state_ (TcpConnection.conn w) = TcpConnection.kConnected /\
    good (obj_of (received dt (breaks rw) o) w).
Proof.
  intros Hpre Hrd Hlen Hi Hup (C1 & C2 & C3 & C4) Hb Hgood. rewrite C2.
  set (w1 := TcpConnection.with_conn _ _) in *.
  pose proof Hpre as (_ & _ & Hroom).
  assert (zlen (content w1) <= Vec.max_size /\ TcpConnectionFacts.room w1 (zlen (content w1))) as [Hm1 Hm2].
  { unfold TcpConnectionFacts.room. cbn. rewrite Hb, zlen_app.
    rewrite Hrd in Hroom. lia. }
  destruct (app_message (writes rw) w1 (o_recv o) (Buffer.content (TcpConnection.input_buffer_ (o_conn o))) dt) as
    (w & E & Hi' & Hf & Hst & Hg); try done.
  { by eapply writes_kernel. }
  exists w. split_and!; [exact E|done| |done|].
  - eapply TcpConnectionFacts.frame_trans; [|exact Hf]. by apply TcpConnectionFacts.frame_with_conn.
  - intros [Hl1 Hl2]%orb_false_iff. apply Hg; [|by apply Hgood].
    intros y e. by apply breaks_writes.
Qed.

Lemma invoke_read rd rw ww s c r o : objs s !! c = Some o -> io_pre rd rw o -> staged s c SUp r ->
  exists s' g, invoke rd rw ww c TcpConnection.HRead s = Ok s' /\ staged s' c g r /\ g <> SNew.
Proof.
  intros Ho Hpre (o' & n & x & ls & Hmid & [Hsh Hgood] & _ & Hr).
  pose proof Hmid as (_ & Ho' & _). rewrite Ho in Ho'. injection Ho' as <-.
  pose proof Hsh as (ch & Hch & Hca & Hcb & _ & _ & Hci & Hup).
  cbn [invoke]. set (dt := delivered rd c s). set (op := TcpConnection.HandleRead _ _).
  pose proof (mid_deliver _ _ _ _ _ _ _ _ dt (breaks rw) Hmid Hsh) as Hmid1.
  set (o1 := received dt (breaks rw) o) in *. set (s1 := deliver _ _ _ s) in *.
  assert (shell SUp (TcpServer.conn_fd x) c o1 ls) as Hsh1 by exact Hsh.
  pose proof (TcpConnectionFacts.HandleRead_law (user (writes rw)) (reads rd) (enter o ls) Hci
    (reads_kernel _ _ _ _ Hpre)) as Hread.
  assert (forall w ch', op (enter o1 ls) = Ok w -> TcpConnectionFacts.frame (enter o ls) w -> conn_inv w ->
    TcpConnection.state_ (TcpConnection.conn w) = TcpConnection.kConnected ->
    TcpConnection.chans w !! c = Some ch' -> good (obj_of o1 w) ->
    exists s' g, on_conn c op s1 = Ok s' /\ staged s' c g r /\ g <> SNew) as Hstay.
  { intros w ch' E Hf Hi Hst Hch' Hg.
    destruct (on_conn_stays s1 c x o1 ls _ SUp SUp n op w ch' r Hmid1 Hsh1 Hr E Hf) as (s' & E' & Hs');
      try done; [by apply inv_poller|by left|]. by exists s', SUp. }
  change (TcpConnection.conn (enter o ls)) with (o_conn o) in Hread.
  destruct rd as [d|e]; cbn [reads] in Hread.
  - assert (dt = ztake (Buffer.read_capacity (TcpConnection.input_buffer_ (o_conn o))) d) as Hdt.
    { unfold dt, delivered. by rewrite Ho. }
    rewrite <- Hdt in Hread. destruct Hread as (b & Hi1 & Hb & E). case_bool_decide as Hnil.
    + destruct (closes s1 c x o1 ls n op (writes rw) (TcpConnection.with_conn (TcpConnection.set_input b) (enter o ls)) r)
        as (s' & g & E' & Hs' & Hg); [done|done|done|exact E| |done| |].
      * by apply TcpConnectionFacts.frame_with_conn.
      * intros [Hl _]%orb_false_iff. specialize (Hgood Hl). unfold o1. rewrite Hnil. cbn.
        by rewrite Hb, Hnil, !app_nil_r.
      * exists s', g. split_and!; [done|done|]. naive_solver.
    + destruct (message_op (RGive d) rw o ls b dt d Hpre) as (w & E1 & Hi2 & Hf & Hst & Hg); try done.
      { rewrite Hdt. apply zlen_ztake_le. }
      pose proof Hi2 as (_ & _ & _ & _ & ch' & (_ & Hch' & _) & _). pose proof Hf as (F0 & _). cbn in F0.
      rewrite F0, Hca in Hch'. eapply Hstay; try done. etrans; [exact E|exact E1].
  - eapply Hstay; try done; [apply TcpConnectionFacts.frame_refl|].
    intros [Hl _]%orb_false_iff. specialize (Hgood Hl). cbn. unfold dt, delivered. by rewrite app_nil_r.
Qed.

(** ** The dispatch *)

Definition handler_of (sl : Channel.slot) : TcpConnection.handler :=
  match sl with
  | Channel.SClose => TcpConnection.HClose
  | Channel.SError => TcpConnection.HError
  | Channel.SRead => TcpConnection.HRead
  | Channel.SWrite => TcpConnection.HWrite
  end.

Lemma find_staged s c g r : staged s c g r ->
  exists ch, find_channel c s = Some ch /\ Channel.revents_ ch = r /\ (ChannelFacts.wiring ch).2 = handlers.
Proof.
  intros (o & n & x & ls & (_ & Ho & _ & _ & Hls & _) & [(ch & Hch & _ & _ & _ & Hwi & _) _] & _ & Hr).
  exists ch. unfold find_channel. rewrite Ho. cbn. rewrite Hls. cbn. rewrite Hch in *. by injection Hr as Hr.
Qed.

Lemma run_slot_staged rd rw ww s c g r sl : staged s c g r ->
  Channel.run_slot find_channel (invoke rd rw ww c) c sl s =
    if Channel.slot_cond sl r then invoke rd rw ww c (handler_of sl) s else Ok s.
Proof.
  intros Hs. destruct (find_staged _ _ _ _ Hs) as (ch & E & Hr & Hw).
  unfold Channel.run_slot. rewrite E, Hr. destruct (Channel.slot_cond sl r); [|done].
  unfold ChannelFacts.wiring, handlers in Hw. cbn in Hw. injection Hw as H1 H2 H3 H4.
  destruct sl; cbn [Channel.slot_callback handler_of]; rewrite ?H1, ?H2, ?H3, ?H4; done.
Qed.

Lemma dispatch_ok rd rw ww s c r o : objs s !! c = Some o -> io_pre rd rw o -> staged s c SUp r ->
  (Channel.slot_cond Channel.SClose r = true -> Channel.slot_cond Channel.SRead r = false) ->
  exists s' g, Channel.HandleEventWithGuard find_channel (invoke rd rw ww c) c s = Ok s' /\ staged s' c g r.
Proof.
  intros Ho Hpre Hs Hhup. unfold Channel.HandleEventWithGuard, Channel.slots. cbn [Channel.run_slots].
  assert (forall s1 g, g <> SNew -> staged s1 c g r -> exists s' g',
    (w ← Channel.run_slot find_channel (invoke rd rw ww c) c Channel.SWrite s1; Ok w) = Ok s' /\
    staged s' c g' r) as Hwrite.
  { intros s1 g Hne Hs1. rewrite (run_slot_staged _ _ _ _ _ _ _ _ Hs1).
    destruct (Channel.slot_cond Channel.SWrite r); [|by exists s1, g].
    destruct (invoke_write rd rw ww s1 c g r Hne Hs1) as (s' & E & Hs'). cbn [handler_of]. rewrite E.
    by exists s', g. }
  assert (forall s1 g, staged s1 c g r ->
    Channel.run_slot find_channel (invoke rd rw ww c) c Channel.SError s1 = Ok s1) as Herror.
  { intros s1 g Hs1. rewrite (run_slot_staged _ _ _ _ _ _ _ _ Hs1).
    destruct (Channel.slot_cond Channel.SError r); [by eapply invoke_error|done]. }
  rewrite (run_slot_staged _ _ _ _ _ _ _ _ Hs).
  destruct (Channel.slot_cond Channel.SClose r) eqn:Ec.
  - destruct (invoke_close rd rw ww s c r Hs) as (s1 & g1 & E1 & Hs1 & Hg1). cbn [handler_of]. rewrite E1. cbn [mbind result_bind].
    rewrite (Herror s1 g1 Hs1). cbn [mbind result_bind].
    rewrite (run_slot_staged _ _ _ _ _ _ _ _ Hs1), Hhup by done.
    cbn [mbind result_bind]. apply (Hwrite s1 g1); [naive_solver|done].
  - cbn [mbind result_bind]. rewrite (Herror s SUp Hs). cbn [mbind result_bind].
    rewrite (run_slot_staged _ _ _ _ _ _ _ _ Hs).
    destruct (Channel.slot_cond Channel.SRead r); [|by apply (Hwrite s SUp)]. cbn [handler_of].
    destruct (invoke_read rd rw ww s c r o Ho Hpre Hs) as (s1 & g1 & E1 & Hs1 & Hg1).
    rewrite E1. cbn [mbind result_bind]. by apply (Hwrite s1 g1).
Qed.

(** The connection exists and is open. *)
Definition up (s : System.t P) (c : ptr) : Prop :=
  exists o, objs s !! c = Some o /\ TcpConnection.state_ (o_conn o) = TcpConnection.kConnected.

Lemma up_stage g fd c o ls : shell g fd c o ls ->
  TcpConnection.state_ (o_conn o) = TcpConnection.kConnected -> g = SUp.
Proof.
  intros (ch & _ & _ & _ & _ & _ & Hg) E. destruct g; [|done|..].
  - destruct Hg as (_ & _ & E' & _). cbn in E'. congruence.
  - destruct Hg as (_ & E' & _). cbn in E'. congruence.
  - destruct Hg as (_ & E' & _). cbn in E'. congruence.
Qed.

(** Its loop watches the connection's descriptor. *)
Definition watched (s : System.t P) (c : ptr) : Prop :=
  match (o ← objs s !! c; ls ← loops s !! o_loop o; ch ← l_chans ls !! c;
         Some (interest (CB := TcpConnection.handler) (OBJ := unit) (l_poller ls) (Channel.fd_ ch))) with
  | Some e => e <> 0
  | None => False
  end.

(** Only open connections are watched. *)
Lemma watched_is_up s c : sinv s -> watched s c -> up s c.
Proof.
  intros Hs Hint. unfold watched in Hint. destruct (objs s !! c) as [o|] eqn:Ho; [|done]. cbn in Hint.
  destruct (mid_intro s c o Hs Ho) as (g & n & x & ls & Hmid & [Hsh _] & _).
  pose proof Hmid as (_ & _ & _ & _ & Hls & _). rewrite Hls in Hint. cbn in Hint.
  pose proof Hsh as (ch & Hch & _ & _ & Hfd & _ & Hg). rewrite Hch in Hint. cbn in Hint. rewrite Hfd in Hint.
  assert (g = SUp) as -> by (by eapply watched_up). exists o. split; [done|]. by destruct Hg.
Qed.

Lemma handle_io_ok rd rw ww s c r o : sinv s -> objs s !! c = Some o ->
  TcpConnection.state_ (o_conn o) = TcpConnection.kConnected -> io_pre rd rw o ->
  (Channel.slot_cond Channel.SClose r = true -> Channel.slot_cond Channel.SRead r = false) ->
  exists s', handle_io c r rd rw ww s = Ok s' /\ sinv s'.
Proof.
  intros Hs Ho Hup Hpre Hhup.
  destruct (set_revents_staged s c o r Hs Ho) as (g & n & x & ls & Hst & Hmid & Hsh & Hobjs).
  assert (g = SUp) as -> by (by eapply up_stage).
  destruct (dispatch_ok rd rw ww _ c r o ltac:(by rewrite Hobjs) Hpre Hst Hhup) as (s' & g & E & Hs').
  destruct (find_staged _ _ _ _ Hst) as (ch & Hf & _).
  unfold handle_io, Channel.HandleEvent. rewrite Hf.
  destruct (staged_sinv _ _ _ _ Hst) as [Hsi _]. destruct (staged_sinv _ _ _ _ Hs') as [Hsi' _].
  destruct (Channel.tied_ ch); [destruct (Channel.tie_ ch)|]; [case_bool_decide|..]; by eexists.
Qed.

(** ** The queues *)

Definition popped (l : ptr) (ls : loopst P) (q : list functor) (s : System.t P) : System.t P :=
  mk (srv s) (<[l := mk_loop (l_chans ls) (l_poller ls) q]> (loops s)) (objs s).

Lemma popped_lookup l ls q s l1 ls1 : loops s !! l = Some ls -> loops (popped l ls q s) !! l1 = Some ls1 ->
  exists ls0, loops s !! l1 = Some ls0 /\ l_chans ls1 = l_chans ls0 /\ l_poller ls1 = l_poller ls0 /\
    l_queue ls1 = if decide (l1 = l) then q else l_queue ls0.
Proof.
  intros Hl. cbn. rewrite lookup_insert. repeat case_decide; subst; try done; [intros [= <-]|intros Hl1].
  - by exists ls.
  - by exists ls1.
Qed.

Lemma popped_here l ls q s l1 ls0 : loops s !! l = Some ls -> loops s !! l1 = Some ls0 ->
  exists ls1, loops (popped l ls q s) !! l1 = Some ls1 /\ l_chans ls1 = l_chans ls0 /\ l_poller ls1 = l_poller ls0.
Proof.
  intros Hl Hl1. cbn. rewrite lookup_insert. case_decide; subst.
  - eexists. split; [done|]. assert (ls0 = ls) as -> by congruence. done.
  - by exists ls0.
Qed.

Lemma shell_loop g fd c o ls ls' : l_chans ls' = l_chans ls -> l_poller ls' = l_poller ls ->
  shell g fd c o ls -> shell g fd c o ls'.
Proof. intros E1 E2. unfold shell, enter. by rewrite E1, E2. Qed.

Lemma pop_rest (c0 : option ptr) s l ls f q : sinv_but c0 s -> loops s !! l = Some ls -> l_queue ls = f :: q ->
  about f = c0 -> sinv_but c0 (popped l ls q s).
Proof.
  intros (H1 & H2 & H3 & H4 & H5 & H6 & H7 & H8 & H9) Hls Hq Hf. split_and!; try done.
  - intros l1 Hl1. destruct (H3 l1 Hl1) as [ls0 Hls0].
    destruct (popped_here l ls q s l1 ls0) as (ls1 & ? & _); by eauto.
  - intros l1 ls1 (ls0 & Hl & -> & -> & _)%popped_lookup; [by eapply H4|done].
  - intros l1 ls1 d ch (ls0 & Hl & -> & _ & _)%popped_lookup; [by apply H5|done].
  - intros l1 ls1 f1 d (ls0 & Hl & _ & _ & ->)%popped_lookup Hf1 Ha; [|done].
    eapply H7; [exact Hl| |done]. case_decide; [|done]. subst. assert (ls0 = ls) as -> by congruence.
    rewrite Hq. by apply list_elem_of_further.
  - intros d o Hd Hne. destruct (H9 d o Hd Hne) as (g & n & y & Hy & Hyl & (Hqs & Hm & Hcl) & ls1 & Hl1 & Hsh & Hg).
    exists g, n, y. split_and!; [done|done|split_and!; [|done|done]|].
    + intros l1 ls2 (ls0 & Hl & _ & _ & ->)%popped_lookup; [|done]. case_decide; [|by apply Hqs].
      subst. assert (ls0 = ls) as -> by congruence. etrans; [|exact (Hqs _ _ Hl)]. rewrite Hq.
      by rewrite proj_cons_other.
    + destruct (popped_here l ls q s _ ls1 Hls Hl1) as (ls2 & Hl2 & E1 & E2).
      exists ls2. split; [done|]. split; [by eapply shell_loop|done].
Qed.

Lemma pop_mid s c x o ls Q b l ls1 f q : mid s c x o ls Q b -> loops s !! l = Some ls1 ->
  l_queue ls1 = f :: q -> about f = Some c ->
  exists q' ls', Q l = f :: q' /\ l_chans ls' = l_chans ls /\ l_poller ls' = l_poller ls /\
    mid (popped l ls1 q s) c x o ls' (fun l1 => if decide (l1 = l) then q' else Q l1) b.
Proof.
  intros (Hs & Ho & Hx & Hl & Hls & Hq & Hm) Hl1 Hqu Hf.
  destruct (popped_here l ls1 q s _ ls Hl1 Hls) as (ls' & Hls' & E1 & E2).
  exists (proj c q), ls'. split_and!; try done.
  - by rewrite <- (Hq l ls1 Hl1), Hqu, proj_cons_here.
  - split; [by eapply pop_rest|]. split_and!; try done.
    intros l2 ls2 (ls0 & Hl2 & _ & _ & ->)%popped_lookup; [|done]. case_decide; [done|by apply Hq].
Qed.

(** The functor at the head of a queue tells the stage. *)
Lemma head_stage g base io c n l f q : expected g base io c n l = f :: q ->
  (write_complete_set = true /\ f = FTask c (TcpConnection.TWriteComplete OnWriteComplete) /\ g <> SNew /\
     exists m, forall l1, (if decide (l1 = l) then q else expected g base io c n l1) = expected g base io c m l1) \/
  (g = SNew /\ f = FServer (TcpServer.TEstablished c) /\
     forall l1, (if decide (l1 = l) then q else expected g base io c n l1) = []) \/
  (g = SClosing /\ f = FServer (TcpServer.TRemoveInLoop c) /\ l = base /\ l <> io /\
     forall l1, (if decide (l1 = l) then q else expected g base io c n l1) =
       if decide (l1 = io) then completes c n else []) \/
  (g = SRemoved /\ f = FServer (TcpServer.TDestroyed c) /\
     forall l1, (if decide (l1 = l) then q else expected g base io c n l1) = []).
Proof.
  assert (forall tail, completes c n ++ tail = f :: q ->
    (write_complete_set = true /\ f = FTask c (TcpConnection.TWriteComplete OnWriteComplete) /\
      exists m, q = completes c m ++ tail) \/ tail = f :: q /\ completes c n = []) as Hc.
  { intros tail. unfold completes. destruct write_complete_set; [|by right].
    destruct n as [|m]; [by right|]. cbn. intros [= <- <-]. left. split_and!; [done|done|by exists m]. }
  destruct g; cbn.
  - case_decide as E; [|done]. intros [= <- <-]. right. left. split_and!; [done|done|].
    intros l1. repeat case_decide; congruence.
  - case_decide as E; [|done]. rewrite <- (app_nil_r (completes c n)) at 1.
    intros [(Hw & -> & m & ->)|[? _]]%Hc; [|done]. left. split_and!; try done. exists m. intros l1.
    rewrite app_nil_r. repeat case_decide; congruence.
  - case_decide as E.
    + rewrite <- (app_nil_r (completes c n)) at 1. intros [(Hw & -> & m & ->)|[? _]]%Hc; [|done].
      left. split_and!; try done. exists m. intros l1. rewrite app_nil_r. repeat case_decide; congruence.
    + case_decide as E'; [|done]. intros [= <- <-]. right. right. left. split_and!; [done..|].
      intros l1. repeat case_decide; congruence.
  - case_decide as E; [|done]. intros [(Hw & -> & m & ->)|[[= <- <-] Hn]]%Hc.
    + left. split_and!; try done. exists m. intros l1. repeat case_decide; congruence.
    + right. right. right. split_and!; try done. intros l1. repeat case_decide; congruence.
Qed.

(** ** The functors *)

Lemma mid_ext s c x o ls Q Q' b : mid s c x o ls Q b -> (forall l, Q l = Q' l) -> mid s c x o ls Q' b.
Proof.
  intros (Hs & Ho & Hx & Hl & Hls & Hq & Hm) HQ. split; [done|]. split_and!; try done.
  intros l ls1 Hl1. rewrite <- HQ. by apply Hq.
Qed.

Lemma shell_revents g fd c o ls : shell g fd c o ls -> exists r, Channel.revents_ <$> l_chans ls !! c = Some r.
Proof. intros (ch & -> & _). by eexists. Qed.

(** Establishing a connection, in its own loop. *)
Lemma establish_op s c x o ls Q b wr :
  mid s c x o ls Q b -> shell SNew (TcpServer.conn_fd x) c o ls ->
  can_watch (CB := TcpConnection.handler) (OBJ := unit) (l_poller ls) (TcpServer.conn_fd x) ->
  exists w ch, TcpConnection.ConnectionEstablished (user wr) (enter o ls) = Ok w /\
    TcpConnectionFacts.frame (enter o ls) w /\ conn_inv w /\
    TcpConnection.state_ (TcpConnection.conn w) = TcpConnection.kConnected /\
    content w = content (enter o ls) /\
    TcpConnectionFacts.stream w = TcpConnectionFacts.stream (enter o ls) /\
    TcpConnection.queued w = [] /\ TcpConnection.chans w !! c = Some ch.
Proof.
  intros Hmid (ch & Hch & Hca & (C1 & C2 & C3 & C4) & Hfd & _ & H1 & H2 & H3 & H4 & H5 & H6 & H7) Hcan.
  cbn in H3. destruct (TcpConnectionFacts.ConnectionEstablished_law (user wr) (enter o ls) ch) as
    (w1 & ch1 & E & Hcn & Hi1 & Hl1 & _ & _ & Hse & Hf1 & Hq1).
  { split_and!; try done.
    - exact (mid_poller _ _ _ _ _ _ _ Hmid).
    - cbn. by rewrite Hca.
    - cbn. rewrite Hca. eapply usable_new; [by eapply mid_poller|done|done| |by rewrite Hfd].
      intros d chd Hdc Hd. rewrite Hfd. by eapply mid_other_fd. }
  destruct (app_callback wr OnConnection w1) as (w2 & E2 & Hi2 & Hf2 & Hst2 & Hc2 & Hs2 & Hq2 & Hch2); [by left|done|].
  pose proof (TcpConnectionFacts.frame_trans _ _ _ Hf1 Hf2) as Hf.
  pose proof Hi2 as (_ & _ & _ & _ & ch2 & (_ & Hl2 & _) & _).
  pose proof Hf as (F0 & _). cbn in F0. rewrite F0, Hca in Hl2.
  exists w2, ch2. split_and!; try done.
  - rewrite E, Hcn. cbn [TcpConnection.connection_callback_ TcpConnection.SetState enter TcpConnection.conn].
    rewrite C1. exact E2.
  - by rewrite Hst2, Hcn.
  - by rewrite Hc2, Hcn.
  - rewrite Hs2. unfold TcpConnectionFacts.stream, TcpConnectionFacts.unsent. by rewrite Hse, Hcn.
  - by rewrite Hq2, Hq1.
Qed.

Lemma establish_ok s c x o ls Q wr :
  mid s c x o ls Q true -> shell SNew (TcpServer.conn_fd x) c o ls -> good o -> (forall l, Q l = []) ->
  can_watch (CB := TcpConnection.handler) (OBJ := unit) (l_poller ls) (TcpServer.conn_fd x) ->
  exists s' r, on_conn c (TcpConnection.ConnectionEstablished (user wr)) s = Ok s' /\ staged s' c SUp r.
Proof.
  intros Hmid Hsh Hgood HQ Hcan.
  destruct (establish_op _ _ _ _ _ _ _ wr Hmid Hsh Hcan) as (w & ch & E & Hf & Hi & Hst & Hc & Hs & Hq & Hch).
  destruct (shell_revents _ _ _ _ _ Hsh) as [r Hr].
  destruct (on_conn_stays s c x o ls Q SNew SUp 0 (TcpConnection.ConnectionEstablished (user wr)) w ch r)
    as (s' & E' & Hs'); try done.
  - by apply inv_poller.
  - by eapply good_same.
  - intros l. rewrite HQ. cbn. case_decide; [|done]. unfold completes. by destruct write_complete_set.
  - by left.
  - by exists s', r.
Qed.

(** A write-complete callback from the queue. *)
Lemma complete_ok s c g r wr : g <> SNew -> write_complete_set = true -> staged s c g r ->
  exists s', on_conn c (TcpConnection.run_task (user wr) wr (TcpConnection.TWriteComplete OnWriteComplete)) s = Ok s' /\
    staged s' c g r.
Proof.
  intros Hne Hwc Hs. apply staged_op; [done|]. intros fd o ls Hi Hsh Hgood.
  pose proof Hsh as (ch & Hch & Hca & _ & _ & _ & Hg). pose proof (stage_inv _ _ _ Hne Hg) as Hci.
  destruct (app_callback wr OnWriteComplete (enter o ls)) as (w & E & Hi' & Hf & Hst & Hc & Hs' & Hq & Hch');
    [by right|done|]. cbn in Hch', Hst. rewrite Hca, Hch in Hch'.
  exists w, ch. split_and!; [exact E|done|by apply inv_poller|done| |by eapply good_same|by right].
  destruct g; cbn in *; [done|..]; naive_solver congruence.
Qed.

(** The server takes a connection out of its map. *)
Lemma remove_ok s c x o ls Q n r :
  mid s c x o ls Q true -> shell SClosing (TcpServer.conn_fd x) c o ls -> good o ->
  Channel.revents_ <$> l_chans ls !! c = Some r ->
  (forall l, Q l = if decide (l = TcpServer.conn_loop x) then completes c n else []) ->
  staged (hand_out (set_srv (TcpServer.RemoveconnectionInLoop c (srv s)) s)) c SRemoved r.
Proof.
  intros Hmid Hsh Hgood Hr HQ. pose proof Hmid as ((_ & Hcalls & _) & Ho & Hx & Hl & _).
  rewrite (hand_out_remove c x) by done. destruct (mid_without _ _ _ _ _ _ Hmid) as [Hm1 Hlp].
  pose proof (mid_push _ c x _ _ _ _ (TcpServer.conn_loop x) [FServer (TcpServer.TDestroyed c)] Hm1) as Hm2.
  exists o, n, x. eexists. split; [|split; [|split; [done|]]].
  - eapply mid_ext; [apply Hm2; by repeat constructor|]. intros l. cbn. rewrite HQ.
    repeat case_decide; done.
  - rewrite decide_True by done. split; [exact Hsh|done].
  - by rewrite decide_True.
Qed.

(** ** What is destroyed *)

Lemma referenced_true s c : referenced s c = true <->
  (exists nm, TcpServer.connection_maps (srv s) !! nm = Some (Some c)) \/
  (exists l ls f, loops s !! l = Some ls /\ f ∈ l_queue ls /\ holds f = true /\ about f = Some c).
Proof.
  unfold referenced. rewrite orb_true_iff, !existsb_exists. split.
  - intros [([nm d] & Hin & Hd)|([l ls] & Hin & (f & Hf & [Hh Ha]%andb_true_iff)%existsb_exists)].
    + apply bool_decide_eq_true in Hd. cbn in Hd. subst. left. exists nm.
      by apply list_elem_of_In, elem_of_map_to_list in Hin.
    + apply bool_decide_eq_true in Ha. right. exists l, ls, f. apply list_elem_of_In, elem_of_map_to_list in Hin.
      by apply list_elem_of_In in Hf.
  - intros [(nm & Hnm)|(l & ls & f & Hl & Hf & Hh & Ha)].
    + left. exists (nm, Some c). split; [by apply list_elem_of_In, elem_of_map_to_list|by apply bool_decide_eq_true].
    + right. exists (l, ls). split; [by apply list_elem_of_In, elem_of_map_to_list|]. apply existsb_exists.
      exists f. split; [by apply list_elem_of_In|]. rewrite Hh. by apply bool_decide_eq_true.
Qed.

(** Only the map and the queues matter. *)
Lemma referenced_queues s s' c : srv s = srv s' ->
  (forall l, l_queue <$> loops s !! l = l_queue <$> loops s' !! l) -> referenced s c = referenced s' c.
Proof.
  assert (forall s s', srv s = srv s' -> (forall l, l_queue <$> loops s !! l = l_queue <$> loops s' !! l) ->
    referenced s c = true -> referenced s' c = true) as Himp.
  { intros s1 s2 E Eq [(nm & Hnm)|(l & ls & f & Hl & Hf & Hh)]%referenced_true; apply referenced_true.
    - left. exists nm. by rewrite <- E.
    - right. specialize (Eq l). rewrite Hl in Eq. destruct (loops s2 !! l) as [ls2|] eqn:El; [|done].
      injection Eq as Eq. exists l, ls2, f. by rewrite <- Eq. }
  intros E Eq. apply eq_true_iff_eq. split; apply Himp; congruence || done.
Qed.

(** A connection in order is held by something. *)
Lemma alive_referenced (c0 : option ptr) s d o : sinv_but c0 s -> objs s !! d = Some o -> c0 <> Some d ->
  referenced s d = true.
Proof.
  intros (_ & _ & _ & _ & _ & _ & _ & _ & H9) Hd Hne. apply referenced_true.
  destruct (H9 d o Hd Hne) as (g & n & y & Hy & Hyl & (Hq & Hm & _) & ls & Hls & _).
  destruct g; [left; by eexists..|]. right. exists (o_loop o), ls, (FServer (TcpServer.TDestroyed d)).
  split_and!; [done| |done|done]. specialize (Hq _ _ Hls). cbn in Hq. rewrite decide_True in Hq by done.
  apply (proj1 (proj_elem d (FServer (TcpServer.TDestroyed d)) _ eq_refl)). rewrite Hq. apply elem_of_app. right. by apply list_elem_of_here.
Qed.

(** Destroying the one connection that is not held. *)
Lemma release_eq s (gone : ptr -> bool) :
  (forall d, is_Some (objs s !! d) -> referenced s d = negb (gone d)) ->
  (forall l ls d ch, loops s !! l = Some ls -> l_chans ls !! d = Some ch -> is_Some (objs s !! d)) ->
  release s = mk (srv s)
    ((fun ls => mk_loop (filter (fun kv => gone kv.1 = false) (l_chans ls)) (l_poller ls) (l_queue ls)) <$> loops s)
    (filter (fun kv => gone kv.1 = false) (objs s)).
Proof.
  intros Href Hch.
  assert (forall d, is_Some (objs s !! d) -> dead s d = gone d) as Hd.
  { intros d Hd. unfold dead. rewrite bool_decide_eq_true_2, Href by done. apply negb_involutive. }
  unfold release. f_equal.
  - apply map_fmap_ext. intros l ls Hl. f_equal. apply map_filter_ext. intros d ch Hc. cbn. rewrite Hd; [done|]. eauto.
  - apply map_filter_ext. intros d o Ho. cbn. by rewrite Hd by (by eexists).
Qed.

Lemma release_none s :
  (forall d, is_Some (objs s !! d) -> referenced s d = true) ->
  (forall l ls d ch, loops s !! l = Some ls -> l_chans ls !! d = Some ch -> is_Some (objs s !! d)) ->
  release s = s.
Proof.
  intros Href Hch. rewrite (release_eq s (fun _ => false)) by done.
  destruct s as [z lo ob]. cbn. f_equal; [|by apply map_filter_id].
  rewrite <- (map_fmap_id lo) at 2. apply map_fmap_ext. intros l ls _. cbn.
  rewrite map_filter_id by done. by destruct ls.
Qed.

Lemma release_id s : sinv s -> release s = s.
Proof.
  intros Hs. apply release_none.
  - intros d [o Ho]. by eapply alive_referenced.
  - intros l ls d ch Hl Hc. destruct Hs as (_ & _ & _ & _ & H5 & _).
    destruct (H5 _ _ _ _ Hl Hc) as (o & Ho & _). by eexists.
Qed.

Lemma filter_delete {A} (m : gmap ptr A) c :
  filter (fun kv => bool_decide (kv.1 = c) = false) m = delete c m.
Proof.
  apply map_eq. intros i. rewrite map_lookup_filter. destruct (decide (i = c)) as [->|].
  - rewrite lookup_delete_eq. destruct (m !! c); cbn; [|done]. rewrite bool_decide_eq_true_2 by done. done.
  - rewrite lookup_delete_ne by done. destruct (m !! i); cbn; [|done]. rewrite bool_decide_eq_false_2 by done. done.
Qed.

Lemma no_chans l ls c : l_chans ls !! c = None ->
  filter (fun kv => bool_decide (kv.1 = c) = false) (l_chans ls) = l_chans (P := P) ls.
Proof. intros Hn. by rewrite filter_delete, delete_id. Qed.

(** A connection whose code ran last and that nothing holds any more goes alone. *)
Lemma release_gone s c o ls w : objs s !! c = Some o -> loops s !! o_loop o = Some ls ->
  TcpConnection.queued w = [] -> referenced s c = false ->
  (forall d, d <> c -> is_Some (objs s !! d) -> referenced s d = true) ->
  (forall l ls1 d ch, loops s !! l = Some ls1 -> l_chans ls1 !! d = Some ch ->
     exists o1, objs s !! d = Some o1 /\ o_loop o1 = l) ->
  (forall d, d <> c -> is_Some (TcpConnection.chans w !! d) -> is_Some (l_chans ls !! d)) ->
  release (leave c o ls w s) =
    upd c None (o_loop o) (mk_loop (delete c (TcpConnection.chans w)) (TcpConnection.poller w) (l_queue ls)) s.
Proof.
  intros Ho Hls Hqw Hc Hoth H5 Hcs.
  assert (forall d, referenced (leave c o ls w s) d = referenced s d) as Href.
  { intros d. apply referenced_queues; [done|]. intros l. cbn. rewrite lookup_insert.
    case_decide as E; [|done]. subst l. rewrite Hls. cbn. by rewrite Hqw, app_nil_r. }
  rewrite (release_eq _ (fun d => bool_decide (d = c))).
  - unfold upd. f_equal.
    + cbn. apply map_eq. intros l. rewrite lookup_fmap, !lookup_insert. case_decide as E; cbn.
      * by rewrite filter_delete, Hqw, app_nil_r.
      * destruct (loops s !! l) as [ls1|] eqn:Hl1; [|done]. cbn. rewrite (no_chans l); [by destruct ls1|].
        destruct (l_chans ls1 !! c) as [ch|] eqn:Hch; [|done]. destruct (H5 _ _ _ _ Hl1 Hch) as (o1 & Ho1 & El).
        congruence.
    + cbn. rewrite filter_delete, delete_insert_eq. apply map_eq. intros d. destruct (decide (d = c)) as [->|].
      * by rewrite lookup_delete_eq, lookup_partial_alter_eq.
      * by rewrite lookup_delete_ne, lookup_partial_alter_ne.
  - intros d [o1 Hd]. rewrite Href. case_bool_decide as E; [by subst|]. apply Hoth; [done|].
    cbn in Hd. rewrite lookup_insert_ne in Hd by done. by eexists.
  - intros l ls1 d ch. cbn. rewrite !lookup_insert. destruct (decide (c = d)) as [->|E]; [by eexists|].
    case_decide as El.
    + intros [= <-] Hd. cbn in Hd. destruct (Hcs d) as [ch1 Hch1]; [done|by eexists|].
      destruct (H5 _ _ _ _ Hls Hch1) as (o1 & Ho1 & _). by eexists.
    + intros Hl1 Hd. destruct (H5 _ _ _ _ Hl1 Hd) as (o1 & Ho1 & _). by eexists.
Qed.

Lemma others_some c fd cs (p : P) cs' p' d :
  others (CB := TcpConnection.handler) (OBJ := unit) c fd cs p cs' p' -> d <> c ->
  is_Some (cs' !! d) -> is_Some (cs !! d).
Proof.
  intros (Hs & _) Hd [ch Hch]. specialize (Hs d Hd). rewrite Hch in Hs. destruct (cs !! d); [by eexists|done].
Qed.

Lemma mid_unreferenced s c x o ls Q : mid s c x o ls Q false -> (forall l, Q l = []) -> referenced s c = false.
Proof.
  intros (_ & _ & _ & _ & _ & Hq & Hm) HQ. apply not_true_is_false.
  intros [[nm Hnm]|(l & ls1 & f & Hl1 & Hf & _ & Ha)]%referenced_true; [by destruct (Hm nm)|].
  apply (proj2 (proj_elem c f _ Ha)) in Hf. rewrite (Hq _ _ Hl1), HQ in Hf. by apply elem_of_nil in Hf.
Qed.

(** When a connection's last functor has run, it is gone, and the rest is in order. *)
Lemma gone_law s c x o ls Q g w :
  mid s c x o ls Q false -> shell g (TcpServer.conn_fd x) c o ls -> (forall l, Q l = []) ->
  TcpConnection.queued w = [] ->
  others c (TcpServer.conn_fd x) (l_chans ls) (l_poller ls) (TcpConnection.chans w) (TcpConnection.poller w) ->
  poller_inv (delete c (TcpConnection.chans w)) (TcpConnection.poller w) ->
  release (leave c o ls w s) =
    upd c None (o_loop o) (mk_loop (delete c (TcpConnection.chans w)) (TcpConnection.poller w) (l_queue ls)) s /\
  sinv (release (leave c o ls w s)).
Proof.
  intros Hmid Hsh HQ Hqw Hoth Hi. pose proof Hmid as (Hs & Ho & Hx & Hl & Hls & Hq & Hm).
  assert (release (leave c o ls w s) =
    upd c None (o_loop o) (mk_loop (delete c (TcpConnection.chans w)) (TcpConnection.poller w) (l_queue ls)) s) as E.
  { apply release_gone; try done.
    - by eapply mid_unreferenced.
    - intros d Hd [o1 Ho1]. eapply (alive_referenced (Some c)); [exact Hs|exact Ho1|congruence].
    - by destruct Hs as (_ & _ & _ & _ & H5 & _).
    - intros d Hd. by eapply others_some. }
  split; [exact E|]. rewrite E, <- Hl. set (ls2 := mk_loop _ _ _).
  assert (sinv_but (Some c) (upd c None (TcpServer.conn_loop x) ls2 s)) as Hs2.
  { apply (upd_rest c x None ls ls2 s); try done.
    - by rewrite Hl.
    - intros d o1 y. by eapply mid_fd.
    - by apply others_delete.
    - cbn. rewrite lookup_delete_eq. by intros [? ?].
    - right. split_and!; [done| |].
      + etrans; [exact (Hq _ _ Hls)|apply HQ].
      + intros l ls1 _ Hl1. etrans; [exact (Hq _ _ Hl1)|apply HQ].
    - intros l ls1. by eapply mid_chans. }
  pose proof Hs2 as (G1 & G2 & G3 & G4 & G5 & G6 & G7 & G8 & G9). split_and!; try done.
  intros d o1 Hd _. apply G9; [done|]. intros [= <-]. by rewrite upd_lookup in Hd.
Qed.

Lemma destroy_ok s c x o ls Q wr :
  mid s c x o ls Q false -> shell SRemoved (TcpServer.conn_fd x) c o ls -> (forall l, Q l = []) ->
  exists s', on_conn c (TcpConnection.ConnectionDestroyed (user wr)) s = Ok s' /\ sinv (release s') /\ srv s' = srv s.
Proof.
  intros Hmid Hsh HQ. pose proof Hsh as (ch & Hch & Hca & _ & Hfd & _ & Hci & Hst & _).
  pose proof Hmid as (_ & Ho & _ & _ & Hls & _).
  destruct (TcpConnectionFacts.Remove_law (enter o ls) Hci) as
    (w & ch' & E & _ & (_ & Hch' & _) & Hi & _ & (cs & p & Hw) & Hoth).
  cbn in Hch'. rewrite Hca, Hch in Hch'. injection Hch' as <-. cbn in Hi, Hoth. rewrite Hca in Hi, Hoth.
  exists (leave c o ls w s). split.
  - rewrite (on_conn_eq c (TcpConnection.ConnectionDestroyed (user wr)) s o ls w Ho Hls).
    + by rewrite Hw.
    + unfold TcpConnection.ConnectionDestroyed. cbn in Hst. cbn [enter TcpConnection.conn]. rewrite Hst.
      rewrite bool_decide_eq_false_2 by done. exact E.
  - split; [|done]. eapply gone_law; try done; [by rewrite Hw|by rewrite <- Hfd].
Qed.

(** ** Accepting *)

(** What accepting descriptor [fd] relies on: the id counter lasts, the kernel gives a
    descriptor no live connection has, and it can be watched. *)
Definition accept_pre (fd : Z) (s : System.t P) : Prop :=
  TcpServer.next_conn_id_ (srv s) < 2 ^ 31 - 1 /\
  (forall d y, is_Some (objs s !! d) -> TcpServer.conns (srv s) !! d = Some y -> TcpServer.conn_fd y <> fd) /\
  (forall l ls, loops s !! l = Some ls ->
     can_watch (CB := TcpConnection.handler) (OBJ := unit) (l_poller ls) fd).

(** The connection object is new to everything. *)
Lemma new_nowhere s : sinv s -> let c := TcpServer.next_ptr (srv s) in
  objs s !! c = None /\ (forall l ls, loops s !! l = Some ls -> l_chans ls !! c = None /\ proj c (l_queue ls) = []).
Proof.
  intros Hs c. assert (objs s !! c = None) as Hn.
  { destruct (objs s !! c) as [o|] eqn:E; [|done]. destruct Hs as (H1 & _ & _ & _ & _ & _ & _ & _ & H9).
    destruct (H9 c o E) as (g & n & x & Hx & _); [done|]. pose proof (TcpServerFacts.conn_fresh _ H1). unfold c in *. congruence. }
  split; [done|]. intros l ls Hl. destruct Hs as (_ & _ & _ & _ & H5 & _ & H7 & _). split.
  - destruct (l_chans ls !! c) as [ch|] eqn:E; [|done]. destruct (H5 _ _ _ _ Hl E) as (o & Ho & _). congruence.
  - destruct (proj c (l_queue ls)) as [|f q] eqn:E; [done|]. assert (f ∈ proj c (l_queue ls)) as Hf.
    { rewrite E. apply list_elem_of_here. }
    unfold proj in Hf. apply list_elem_of_filter in Hf as [Ha Hf]. destruct (H7 _ _ _ _ Hl Hf Ha). congruence.
Qed.

Definition added (c io : ptr) (o : obj) (ch : Channel.t TcpConnection.handler unit) (ls : loopst P)
    (z : TcpServer.t) (s : System.t P) : System.t P :=
  mk (TcpServer.take_calls z)
    (<[io := mk_loop (<[c := ch]> (l_chans ls)) (l_poller ls) (l_queue ls)]> (loops s)) (<[c := o]> (objs s)).

Lemma mid_added fd s c z io o ch ls nm : sinv s -> accept_pre fd s ->
  c = TcpServer.next_ptr (srv s) -> TcpServer.inv z -> TcpServer.connection_maps (srv s) !! nm = None ->
  TcpServer.connection_maps z = <[nm := Some c]> (TcpServer.connection_maps (srv s)) ->
  TcpServer.conns z = <[c := TcpServer.mk_conn nm io fd]> (TcpServer.conns (srv s)) ->
  EventLoopThreadPool.GetAllLoops (TcpServer.thread_pool_ z) =
    EventLoopThreadPool.GetAllLoops (TcpServer.thread_pool_ (srv s)) ->
  TcpServer.loop_ z = TcpServer.loop_ (srv s) ->
  loops s !! io = Some ls -> o_loop o = io ->
  poller_inv (<[c := ch]> (l_chans ls)) (l_poller ls) ->
  mid (added c io o ch ls z s) c (TcpServer.mk_conn nm io fd) o
    (mk_loop (<[c := ch]> (l_chans ls)) (l_poller ls) (l_queue ls)) (fun _ => []) true.
Proof.
  intros Hs (_ & Hfds & _) Hc Hz Hnm Hmaps Hconns Hall Hbase Hls Ho Hi.
  destruct (new_nowhere s Hs) as [Hcn Hcl]. rewrite <- Hc in Hcn, Hcl.
  pose proof Hs as (H1 & H2 & H3 & H4 & H5 & H6 & H7 & H8 & H9).
  set (ls' := mk_loop _ _ _).
  assert (forall l ls1, loops (added c io o ch ls z s) !! l = Some ls1 ->
    exists ls0, loops s !! l = Some ls0 /\ l_queue ls1 = l_queue ls0) as Hq.
  { intros l ls1. cbn. rewrite lookup_insert. case_decide; [|by exists ls1]. intros [= <-]. subst l.
    by exists ls. }
  assert (forall d, d <> c -> objs (added c io o ch ls z s) !! d = objs s !! d) as Hobj.
  { intros d Hd. cbn. by rewrite lookup_insert_ne. }
  assert (forall d y, d <> c -> TcpServer.conns z !! d = Some y -> TcpServer.conns (srv s) !! d = Some y) as Hcon.
  { intros d y Hd. by rewrite Hconns, lookup_insert_ne. }
  assert (objs (added c io o ch ls z s) !! c = Some o) as Hoc by (cbn; by rewrite lookup_insert_eq).
  split; [split_and!|split_and!]; cbn [added srv TcpServer.take_calls TcpServer.conns TcpServer.thread_pool_
    TcpServer.loop_ TcpServer.connection_maps TcpServer.calls]; try done.
  - rewrite Hall, Hbase. intros l Hl. cbn. rewrite lookup_insert. case_decide; [by eexists|by apply H3].
  - intros l ls1. cbn. rewrite lookup_insert. case_decide; [by intros [= <-]|by apply H4].
  - intros l ls1 d ch1. cbn [added loops]. rewrite lookup_insert. destruct (decide (d = c)) as [->|Hd].
    + case_decide; [intros _ _; exists o; by subst|]. intros Hl1. by rewrite (proj1 (Hcl _ _ Hl1)).
    + rewrite Hobj by done. case_decide; [|by apply H5]. intros [= <-]. subst l. cbn.
      rewrite lookup_insert_ne by done. by apply H5.
  - intros d e o1 o2 y1 y2 Hd He Hy1 Hy2 E.
    destruct (decide (d = c)) as [->|Hdc], (decide (e = c)) as [->|Hec]; [done|..].
    + rewrite Hconns, lookup_insert_eq in Hy1. injection Hy1 as <-. rewrite Hobj in He by done.
      destruct (Hfds e y2); [by eexists|by apply Hcon|done].
    + rewrite Hconns, lookup_insert_eq in Hy2. injection Hy2 as <-. rewrite Hobj in Hd by done.
      destruct (Hfds d y1); [by eexists|by apply Hcon|done].
    + rewrite Hobj in Hd, He by done. eapply H6; eauto.
  - intros l ls1 f d Hl1 Hf Ha. destruct (Hq _ _ Hl1) as (ls0 & Hl0 & E). rewrite E in Hf.
    destruct (H7 _ _ _ _ Hl0 Hf Ha) as [o1 Ho1]. exists o1. rewrite Hobj; [done|congruence].
  - intros nm1 d. rewrite Hmaps, lookup_insert. case_decide; [intros [= <-]; by eexists|].
    intros Hm. destruct (H8 _ _ Hm) as [o1 Ho1]. exists o1. rewrite Hobj; [done|congruence].
  - intros d o1 Hd Hne. assert (d <> c) as Hdc by congruence. rewrite Hobj in Hd by done.
    destruct (H9 d o1 Hd) as (g & n & y & Hy & Hyl & (Hqs & Hm & Hclo) & ls1 & Hl1 & Hb); [done|].
    exists g, n, y. split_and!; cbn [added srv TcpServer.take_calls TcpServer.conns];
      [by rewrite Hconns, lookup_insert_ne|done|split_and!|];
      cbn [added srv TcpServer.take_calls TcpServer.conns TcpServer.loop_ TcpServer.connection_maps].
    + intros l ls2 Hl2. destruct (Hq _ _ Hl2) as (ls0 & Hl0 & ->). rewrite Hbase. by apply Hqs.
    + rewrite Hmaps. destruct g.
      1-3: (rewrite lookup_insert_ne; [done|congruence]).
      intros nm1. rewrite lookup_insert. case_decide; [congruence|done].
    + by rewrite Hbase.
    + cbn [added loops]. rewrite lookup_insert. case_decide as E; [|by exists ls1].
      exists ls'. split; [done|]. assert (ls1 = ls) as -> by congruence.
      eapply (body_others _ c fd); [exact Hb|done| |apply others_touch|done].
      eapply Hfds; [by eexists|done].
  - rewrite Hconns. by rewrite lookup_insert_eq.
  - cbn. rewrite Ho. by rewrite lookup_insert_eq.
  - intros l ls1 Hl1. destruct (Hq _ _ Hl1) as (ls0 & Hl0 & ->). by apply (Hcl l).
  - rewrite Hmaps. cbn. by rewrite lookup_insert_eq.
Qed.

(** The constructor's object: all in order for a connection that is not yet
    established. *)
Lemma construct_law c fd nm ls : poller_inv (l_chans ls) (l_poller ls) -> l_chans ls !! c = None ->
  exists (w : world P) ch,
    TcpConnection.construct c fd nm (l_chans ls) (l_poller ls) = Ok w /\
    TcpConnection.chans w = <[c := ch]> (l_chans ls) /\ TcpConnection.poller w = l_poller ls /\
    TcpConnection.queued w = [] /\
    poller_inv (<[c := ch]> (l_chans ls)) (l_poller ls) /\
    forall io q, let o := mk_obj (install (TcpConnection.conn w)) io [] false [] false in
      good o /\ shell SNew fd c o (mk_loop (<[c := ch]> (l_chans ls)) (l_poller ls) q).
Proof.
  intros Hi Hn. destruct (BufferFacts.create_ok Buffer.kInitialSize) as (b & Hb & Hwf & Hc).
  { vm_compute. split; congruence. }
  unfold TcpConnection.construct. rewrite Hb. cbn.
  eexists _, (Channel.SetCallbacks _ _ _ _ (Channel.create fd)). split; [done|].
  split_and!; try done.
  - rewrite <- (insert_insert_eq (l_chans ls) c _ (Channel.create fd)).
    apply (touch_law _ _ _ (Channel.create fd)); [by apply new_law|by rewrite lookup_insert_eq|done..].
  - intros io q. split; [intros _; cbn; rewrite Hc; apply app_start|].
    destruct app_callbacks as (C1 & C2 & C3). eexists. cbn. rewrite lookup_insert_eq. by split_and!.
Qed.

Lemma existsb_single {A} (f : A -> bool) a : existsb f [a] = f a.
Proof. cbn. apply orb_false_r. Qed.

Lemma accept_ok fd s : sinv s -> accept_pre fd s -> exists s', accept fd s = Ok s' /\ sinv s'.
Proof.
  intros Hs Hpre. pose proof Hs as (H1 & H2 & H3 & H4 & _). pose proof Hpre as (Hid & _ & Hcan).
  destruct (TcpServerFacts.NewConnection_law fd (srv s) H1 Hid) as
    (c & z & io & E & Hz & Hnm & Hmaps & _ & Hconns & _ & Hcalls & Hio & Hall & Hbase & Hc & _).
  destruct (H3 io) as [ls Hls]; [by right|].
  destruct (new_nowhere s Hs) as [_ Hcl]. rewrite <- Hc in Hcl. destruct (Hcl _ _ Hls) as [Hch _].
  set (nm := TcpServer.make_name (srv s) (TcpServer.next_conn_id_ (srv s))) in *.
  destruct (construct_law c fd nm ls (H4 _ _ Hls) Hch) as (w & ch & Ew & Ecs & Ep & Eq & Hi & Hobj).
  set (o := mk_obj (install (TcpConnection.conn w)) io [] false [] false).
  pose proof (mid_added fd s c z io o ch ls nm Hs Hpre Hc Hz Hnm Hmaps Hconns Hall Hbase Hls eq_refl Hi) as Hmid.
  destruct (Hobj io (l_queue ls)) as [Hgood Hsh].
  unfold accept. rewrite E. cbn [mbind result_bind].
  rewrite Hconns, lookup_insert_eq. cbn [TcpServer.conn_loop TcpServer.conn_name]. rewrite Hls, Ew. cbn [mbind result_bind].
  rewrite H2 in Hcalls. change ([] ++ [?k]) with [k] in Hcalls. rewrite Hcalls, existsb_single. cbn [snd].
  assert (forall b, TcpServer.calls z = [(io, TcpServer.TEstablished c, b)] ->
    hand_out (leave c (mk_obj (install (TcpConnection.conn w)) io [] false [] false) ls
      (TcpConnection.with_conn install w) (mk z (loops s) (objs s))) =
    if b then added c io o ch ls z s
    else push io [FServer (TcpServer.TEstablished c)] (added c io o ch ls z s)) as Hhand.
  { intros b Hb. unfold hand_out, leave. cbn [srv]. rewrite Hb. cbn [foldl].
    assert (set_srv (TcpServer.take_calls z) (mk z
      (<[io := mk_loop (TcpConnection.chans w) (TcpConnection.poller w) (l_queue ls ++ (FTask c <$> TcpConnection.queued w))]> (loops s))
      (<[c := mk_obj (install (TcpConnection.conn w)) io (TcpConnection.sent w) (TcpConnection.wr_shut w) [] false]> (objs s)))
      = added c io o ch ls z s) as Ea;
      [|exact (f_equal (fun s0 => if b then s0 else push io [FServer (TcpServer.TEstablished c)] s0) Ea)].
    unfold added, set_srv. cbn. rewrite Ecs, Ep, Eq, app_nil_r. do 2 f_equal.
    unfold TcpConnection.construct in Ew. destruct (Buffer.create _); [|done]. cbn in Ew. by injection Ew as <-. }
  change (TcpConnection.conn (TcpConnection.with_conn install w)) with (install (TcpConnection.conn w)).
  rewrite (Hhand _ Hcalls). case_bool_decide as Eio.
  - destruct (establish_ok _ c _ o _ _ (writes (WTake 0)) Hmid Hsh Hgood (fun _ => eq_refl)) as (s' & r & E' & Hs');
      [exact (Hcan _ _ Hls)|]. exists s'. split; [exact E'|]. exact (proj1 (staged_sinv _ _ _ _ Hs')).
  - eexists. split; [done|]. pose proof (mid_push _ _ _ _ _ _ _ io [FServer (TcpServer.TEstablished c)] Hmid) as Hm2.
    eapply (mid_done _ c _ o _ _ true SNew 0); [apply Hm2; by repeat constructor|done| | |done].
    + cbn [o_loop o]. rewrite decide_True by done. by split.
    + intros l _. cbn. case_decide; done.
Qed.

End Steps.
End SystemSteps.
