(* ===== verification/SystemProps.v ===== *)
(** What the whole server of System.v guarantees: no legal sequence of steps fails,
    a server whose queues are empty keeps exactly its open connections, and what
    happens when a functor that holds nothing outlives its connection. *)
From Stdlib Require Import ZArith Lia Ascii.
From stdpp Require Import base gmap list option strings.
From S2P Require Import Prelude Buffer Channel Poller EpollPoller EventLoop TcpConnection ThreadPool Net TcpServer.
From S2P Require Import System SystemFacts Echo SystemSteps.

Local Open Scope Z_scope.

Module SystemLaws.
Import System SystemFacts SystemSteps.

Section Laws.
Context {P : Type} `{!Poller (CB := TcpConnection.handler) (OBJ := unit) P}
  `{!PollerLaws (CB := TcpConnection.handler) (OBJ := unit) P} `{!App, !AppLaws}.
Implicit Types (s : System.t P) (ls : loopst P) (o : obj) (q : list functor) (c d l : ptr).

(** What each step relies on: the kernel's descriptors are fresh and can be watched, events
    are handled for open connections ([watched_is_up]: a poller that reports what it watches
    reports no others; Reactor.v), not POLLHUP with POLLPRI alone, and no other thread works
    on a connection. *)
Definition pre (e : event) (s : System.t P) : Prop :=
  match e with
  | EvAccept fd => accept_pre fd s
  | EvIo c r rd rw _ =>
      match objs s !! c with
      | Some o => TcpConnection.state_ (o_conn o) = TcpConnection.kConnected /\ io_pre rd rw o
      | None => False
      end /\
      (Channel.slot_cond Channel.SClose r = true -> Channel.slot_cond Channel.SRead r = false)
  | EvRun l _ =>
      forall ls c q x, loops s !! l = Some ls -> l_queue ls = FServer (TcpServer.TEstablished c) :: q ->
        TcpServer.conns (srv s) !! c = Some x ->
        can_watch (CB := TcpConnection.handler) (OBJ := unit) (l_poller ls) (TcpServer.conn_fd x)
  | EvForeign _ _ => False
  end.

Fixpoint legal (es : list event) (s : System.t P) : Prop :=
  match es with
  | [] => True
  | e :: es => pre e s /\ match step e s with Ok s' => legal es s' | Err _ => True end
  end.

Lemma run_functor_ok wa f c s l ls q : sinv s -> loops s !! l = Some ls -> l_queue ls = f :: q ->
  about f = Some c ->
  (forall x, f = FServer (TcpServer.TEstablished c) -> TcpServer.conns (srv s) !! c = Some x ->
     can_watch (CB := TcpConnection.handler) (OBJ := unit) (l_poller ls) (TcpServer.conn_fd x)) ->
  exists s', run_functor wa f (popped l ls q s) = Ok s' /\ sinv (release s') /\
    (release s' = s' \/ srv s' = srv s).
Proof.
  intros Hs Hl Hqu Hf Hcan. pose proof Hs as (_ & _ & _ & _ & _ & _ & H7 & _).
  destruct (H7 l ls f c Hl) as [o Ho]; [rewrite Hqu; apply list_elem_of_here|done|].
  destruct (mid_intro s c o Hs Ho) as (g & n & x & lsc & Hmid & [Hsh Hgood] & Hcl).
  destruct (pop_mid _ _ _ _ _ _ _ _ _ _ _ Hmid Hl Hqu Hf) as (q' & ls' & HQ & E1 & E2 & Hmid').
  pose proof (shell_loop _ _ _ _ _ ls' E1 E2 Hsh) as Hsh'.
  destruct (shell_revents _ _ _ _ _ Hsh') as [r Hr].
  assert (forall g1 s1, staged s1 c g1 r -> sinv (release s1) /\ release s1 = s1) as Hdone.
  { intros g1 s1 H1. destruct (staged_sinv _ _ _ _ H1) as [H2 _]. by rewrite release_id. }
  destruct (head_stage _ _ _ _ _ _ _ _ HQ) as
    [(Hwc & -> & Hne & m & Hm)|[(-> & -> & Hm)|[(-> & -> & _ & _ & Hm)|(-> & -> & Hm)]]].
  - assert (staged (popped l ls q s) c g r) as Hst.
    { exists o, m, x, ls'. split; [by eapply mid_ext|split; [by split|split; [done|done]]]. }
    destruct (complete_ok _ c g r (writes wa) Hne Hwc Hst) as (s' & E & Hs'). exists s'.
    destruct (Hdone _ _ Hs'). by eauto.
  - assert (lsc = ls) as ->.
    { cbn in HQ. case_decide as El; [|done]. destruct Hmid as (_ & _ & _ & Hlo & Hlsc & _). congruence. }
    destruct (establish_ok _ c x o ls' _ (writes wa) Hmid' Hsh' Hgood Hm) as (s' & r' & E & Hs').
    { rewrite E2. apply Hcan; [done|]. by destruct Hmid as (_ & _ & Hx & _). }
    exists s'. split; [done|]. destruct (staged_sinv _ _ _ _ Hs') as [H2 _].
    rewrite release_id by done. by split; [|left].
  - eexists. split; [done|]. edestruct Hdone; [by eapply remove_ok|]. by split; [|left].
  - destruct (destroy_ok (popped l ls q s) c x o ls' _ (writes wa) Hmid' Hsh' Hm) as (s' & E & Hs' & Hv).
    exists s'. split; [exact E|]. split; [done|by right].
Qed.

(** Every step succeeds and keeps the invariant. *)
Lemma step_ok e s : sinv s -> pre e s -> exists s', step e s = Ok s' /\ sinv s'.
Proof.
  intros Hs Hpre.
  assert (forall s1, act e s = Ok s1 -> sinv s1 -> exists s', step e s = Ok s' /\ sinv s') as Hkeep.
  { intros s1 E H1. exists s1. unfold step. rewrite E. cbn. by rewrite release_id. }
  destruct e as [fd|c r rd rw ww|l wa|c k]; cbn in Hpre.
  - destruct (accept_ok fd s Hs Hpre) as (s1 & E & H1). by eapply Hkeep.
  - destruct Hpre as (Hpre & Hhup). destruct (objs s !! c) as [o|] eqn:Ho; [|done].
    destruct Hpre as [Hup Hio].
    destruct (handle_io_ok rd rw ww s c r o Hs Ho Hup Hio Hhup) as (s1 & E & H1). by eapply Hkeep.
  - destruct (pop_queue l s) as [[f s1]|] eqn:Epop; [|by eapply Hkeep; cbn; rewrite ?Epop].
    unfold step. cbn [act]. rewrite Epop. unfold pop_queue in Epop.
    destruct (loops s !! l) as [ls|] eqn:Hl; [|done]. destruct (l_queue ls) as [|f1 q] eqn:Hqu; [done|].
    injection Epop as -> <-.
    change (mk (srv s) _ (objs s)) with (popped l ls q s).
    destruct (about f) as [c|] eqn:Hf.
    + destruct (run_functor_ok wa f c s l ls q Hs Hl Hqu Hf) as (s1 & E & H1 & _).
      { intros x -> Hx. by eapply Hpre. }
      exists (release s1). by rewrite E.
    + assert (run_functor wa f (popped l ls q s) = Ok (popped l ls q s)) as -> by (by destruct f as [[]|]).
      cbn. assert (sinv (popped l ls q s)) as H1 by (by eapply pop_rest). eexists. split; [done|]. by rewrite release_id.
  - done.
Qed.

Lemma run_ok es s : sinv s -> legal es s -> exists s', run es s = Ok s' /\ sinv s'.
Proof.
  revert s. induction es as [|e es IH]; intros s Hs Hl; [by exists s|]. destruct Hl as [Hpre Hl].
  destruct (step_ok e s Hs Hpre) as (s1 & E & H1). cbn [run]. rewrite E in *. cbn. by apply IH.
Qed.

(** A server that has just been started, with a poller for each of its loops. *)
Definition started (z : TcpServer.t) (ps : gmap ptr P) : Prop :=
  TcpServer.inv z /\ TcpServer.connection_maps z = ∅ /\
  (forall l, l = TcpServer.loop_ z \/ l ∈ EventLoopThreadPool.GetAllLoops (TcpServer.thread_pool_ z) ->
     is_Some (ps !! l)) /\
  (forall l p, ps !! l = Some p -> poller_inv (CB := TcpConnection.handler) (OBJ := unit) ∅ p).

Lemma started_sinv z ps : started z ps -> sinv (initial z ps).
Proof.
  intros (H1 & H2 & H3 & H4). split_and!; cbn; try done.
  - intros l Hl. rewrite lookup_fmap. destruct (H3 l Hl) as [p ->]. by eexists.
  - intros l ls. rewrite lookup_fmap. destruct (ps !! l) as [p|] eqn:E; [|done]. intros [= <-]. by eapply H4.
  - intros l ls c ch. rewrite lookup_fmap. destruct (ps !! l); [|done]. by intros [= <-].
  - intros l ls f c. rewrite lookup_fmap. destruct (ps !! l); [|done]. intros [= <-]. cbn. set_solver.
  - intros nm c. by rewrite H2.
Qed.

(** ** Draining the queues *)

Definition queue_of (l : ptr) (s : System.t P) : list functor := default [] (l_queue <$> loops s !! l).

(** Connection [c] is closed, if it still exists. *)
Definition closed (c : ptr) (s : System.t P) : Prop :=
  forall o, objs s !! c = Some o -> TcpConnection.state_ (o_conn o) = TcpConnection.kDisconnected.

(** What taking functor [f] from loop [l] may do: nothing is queued but by the
    server's loop, and closed connections stay closed. *)
Definition drains (l : ptr) (s s1 : System.t P) : Prop :=
  queue_of l s1 = tail (queue_of l s) /\
  (l <> TcpServer.loop_ (srv s) -> forall l', l' <> l -> queue_of l' s1 = queue_of l' s) /\
  (forall d, closed d s -> closed d s1) /\ TcpServer.loop_ (srv s1) = TcpServer.loop_ (srv s) /\
  TcpServer.conns (srv s1) = TcpServer.conns (srv s) /\
  (forall l', is_Some (loops s1 !! l') -> is_Some (loops s !! l')).

Lemma leave_effect c o ls (w : world P) s : loops s !! o_loop o = Some ls -> objs s !! c = Some o ->
  TcpConnection.queued w = [] ->
  (TcpConnection.state_ (o_conn o) = TcpConnection.kDisconnected ->
   TcpConnection.state_ (TcpConnection.conn w) = TcpConnection.kDisconnected) ->
  (forall l, queue_of l (leave c o ls w s) = queue_of l s) /\
  (forall d, closed d s -> closed d (leave c o ls w s)).
Proof.
  intros Hls Ho Hq Hst. split.
  - intros l. unfold queue_of, leave. cbn. rewrite lookup_insert. case_decide as E; [|done].
    subst l. rewrite Hls. cbn. by rewrite Hq, app_nil_r.
  - intros d Hd o'. unfold leave. cbn. rewrite lookup_insert. case_decide as E; [|by apply Hd].
    subst d. intros [= <-]. cbn. apply Hst. by apply Hd.
Qed.

Lemma popped_queue l ls q s l' : loops s !! l = Some ls ->
  queue_of l' (popped l ls q s) = if decide (l' = l) then q else queue_of l' s.
Proof.
  intros Hl. unfold queue_of. cbn. rewrite lookup_insert. repeat case_decide; subst; try done.
Qed.

Lemma functor_effect wa f c s l ls q s1 : sinv s -> loops s !! l = Some ls -> l_queue ls = f :: q ->
  about f = Some c ->
  (forall x, f = FServer (TcpServer.TEstablished c) -> TcpServer.conns (srv s) !! c = Some x ->
     can_watch (CB := TcpConnection.handler) (OBJ := unit) (l_poller ls) (TcpServer.conn_fd x)) ->
  run_functor wa f (popped l ls q s) = Ok s1 -> drains l s s1.
Proof.
  intros Hs Hl Hqu Hf Hcan Hrun. pose proof Hs as (_ & _ & _ & _ & _ & _ & H7 & _).
  destruct (H7 l ls f c Hl) as [o Ho]; [rewrite Hqu; apply list_elem_of_here|done|].
  destruct (mid_intro s c o Hs Ho) as (g & n & x & lsc & Hmid & [Hsh Hgood] & Hcl).
  destruct (pop_mid _ _ _ _ _ _ _ _ _ _ _ Hmid Hl Hqu Hf) as (q' & ls' & HQ & E1 & E2 & Hmid').
  pose proof (shell_loop _ _ _ _ _ ls' E1 E2 Hsh) as Hsh'.
  pose proof Hmid' as ((_ & Hcalls & _) & Ho' & Hx' & Hlo & Hls' & _).
  assert (tail (queue_of l s) = q) as Ht by (unfold queue_of; rewrite Hl; cbn; by rewrite Hqu).
  assert (forall op w, on_conn c op (popped l ls q s) = Ok s1 -> op (enter o ls') = Ok w ->
    TcpConnection.posted w = [] -> TcpConnection.queued w = [] ->
    (TcpConnection.state_ (o_conn o) = TcpConnection.kDisconnected ->
     TcpConnection.state_ (TcpConnection.conn w) = TcpConnection.kDisconnected) -> drains l s s1) as Hop.
  { intros op w Hon Hw Hpo Hq Hst. rewrite (on_conn_eq c op _ o ls' w Ho' Hls' Hw), Hpo in Hon.
    injection Hon as <-. destruct (leave_effect c o ls' w _ Hls' Ho' Hq Hst) as [Hqs Hcs].
    unfold drains. rewrite Hqs, Ht, popped_queue, decide_True by done. split_and!; try done.
    - intros _ l' Hne. by rewrite Hqs, popped_queue, decide_False by done.
    - intros l'. cbn. rewrite !lookup_insert. repeat case_decide; subst; try done.
      intros _. destruct Hmid as (_ & _ & _ & _ & Hlsc & _). by eexists. }
  destruct (head_stage _ _ _ _ _ _ _ _ HQ) as
    [(Hwc & -> & Hne & m & Hm)|[(-> & -> & Hm)|[(-> & -> & Hb & Hio & Hm)|(-> & -> & Hm)]]].
  - pose proof Hsh' as (ch & _ & _ & _ & _ & _ & Hg). pose proof (stage_inv _ _ _ Hne Hg) as Hci.
    destruct (app_callback (writes wa) OnWriteComplete (enter o ls')) as (w & E & _ & Hfr & Hst & _ & _ & Hq & _);
      [by right|done|]. eapply Hop; [exact Hrun|exact E|apply Hfr|done|]. intros Hd. by rewrite Hst.
  - assert (lsc = ls) as ->.
    { cbn in HQ. case_decide as El; [|done]. destruct Hmid as (_ & _ & _ & Hlo1 & Hlsc & _). congruence. }
    destruct (establish_op _ c x o ls' _ _ (writes wa) Hmid' Hsh') as (w & ch & E & Hfr & _ & _ & _ & _ & Hq & _).
    { rewrite E2. apply Hcan; [done|]. by destruct Hmid as (_ & _ & Hx & _). }
    eapply Hop; [exact Hrun|exact E|apply Hfr|done|].
    destruct Hsh' as (_ & _ & _ & _ & _ & _ & _ & _ & Hnew & _). cbn in Hnew. congruence.
  - cbn [run_functor] in Hrun. rewrite (hand_out_remove c x _ Hx' Hcalls) in Hrun. injection Hrun as <-.
    split; [|split; [|split; [|split; [|split]]]].
    + unfold queue_of at 1. cbn. rewrite lookup_alter_ne, lookup_insert_eq by done. cbn. by rewrite Ht.
    + intros Hnb. by rewrite Hb in Hnb.
    + intros d Hd. exact Hd.
    + unfold srv_without, TcpServer.RemoveconnectionInLoop. cbn. cbn in Hx'. by rewrite Hx'.
    + unfold srv_without, TcpServer.RemoveconnectionInLoop. cbn. cbn in Hx'. by rewrite Hx'.
    + intros l' [ls1 (ls0 & Hl0 & _)%push_lookup]. cbn in Hl0. rewrite lookup_insert in Hl0.
      case_decide; [subst|]; by eexists.
  - destruct Hsh' as (ch & _ & _ & _ & _ & _ & Hci & Hst & _).
    destruct (TcpConnectionFacts.Remove_law (enter o ls') Hci) as (w & _ & E & Hcn & _ & _ & _ & (cs & p & Hw) & _).
    eapply (Hop _ w Hrun); [|by rewrite Hw..|intros Hd; by rewrite Hcn].
    unfold TcpConnection.ConnectionDestroyed. cbn in Hst. cbn [enter TcpConnection.conn]. rewrite Hst.
    rewrite bool_decide_eq_false_2 by done. exact E.
Qed.

Lemma release_queue l s : queue_of l (release s) = queue_of l s.
Proof. unfold queue_of, release. cbn. rewrite lookup_fmap. by destruct (loops s !! l). Qed.

Lemma release_objs c o s : objs (release s) !! c = Some o -> objs s !! c = Some o.
Proof. cbn. by intros [? _]%map_lookup_filter_Some. Qed.

Lemma drains_release l s s1 : drains l s s1 -> drains l s (release s1).
Proof.
  intros (H1 & H2 & H3 & H4 & H5 & H6). unfold drains. rewrite release_queue. split_and!; try done.
  - intros Hne l' Hl. rewrite release_queue. by apply H2.
  - intros d Hd o Ho%release_objs. by apply (H3 d Hd).
  - intros l'. unfold release. cbn. rewrite lookup_fmap. intros Hl%fmap_is_Some. by apply H6.
Qed.

Lemma step_drains l wa s : sinv s -> pre (EvRun l wa) s -> queue_of l s <> [] ->
  exists s1, step (EvRun l wa) s = Ok s1 /\ sinv s1 /\ drains l s s1.
Proof.
  intros Hs Hcan Hne. destruct (step_ok (EvRun l wa) s Hs Hcan) as (s' & E & Hs').
  unfold queue_of in Hne. destruct (loops s !! l) as [ls|] eqn:Hl; [|done]. cbn in Hne.
  exists s'. split_and!; [done|done|]. unfold step in E. cbn [act] in E. unfold pop_queue in E. rewrite Hl in E.
  destruct (l_queue ls) as [|f q] eqn:Hqu; [done|]. change (mk (srv s) _ (objs s)) with (popped l ls q s) in E.
  destruct (run_functor wa f (popped l ls q s)) as [s1|] eqn:Erun; [|done]. injection E as <-.
  apply drains_release. destruct (about f) as [c|] eqn:Hf.
  - eapply functor_effect; try done. intros x -> Hx. by eapply Hcan.
  - assert (s1 = popped l ls q s) as -> by (destruct f as [[| | |]|]; [cbn in Erun; congruence|done..]).
    unfold drains. rewrite popped_queue, decide_True by done. split_and!; try done.
    + unfold queue_of. rewrite Hl. cbn. by rewrite Hqu.
    + intros _ l' Hl'. by rewrite popped_queue, decide_False.
    + intros l'. cbn. rewrite lookup_insert. case_decide; [subst; by eexists|done].
Qed.

(** A loop runs what is in its queue. *)
Lemma run_queue l wa n s : sinv s -> legal (replicate n (EvRun l wa)) s -> length (queue_of l s) = n ->
  exists s1, run (replicate n (EvRun l wa)) s = Ok s1 /\ sinv s1 /\ queue_of l s1 = [] /\
    (l <> TcpServer.loop_ (srv s) -> forall l', l' <> l -> queue_of l' s1 = queue_of l' s) /\
    (forall d, closed d s -> closed d s1) /\ TcpServer.loop_ (srv s1) = TcpServer.loop_ (srv s) /\
    TcpServer.conns (srv s1) = TcpServer.conns (srv s) /\
    (forall l', is_Some (loops s1 !! l') -> is_Some (loops s !! l')).
Proof.
  revert s. induction n as [|n IH]; intros s Hs Hcan Hn.
  - exists s. split_and!; try done. by apply nil_length_inv.
  - destruct Hcan as [Hpre Hcan].
    destruct (step_drains l wa s Hs Hpre) as (s1 & E & Hs1 & Hq & Hoth & Hcl & Hb & Hc & Hd); [by intros Hnil; rewrite Hnil in Hn|].
    rewrite E in Hcan. destruct (IH s1 Hs1 Hcan) as (s2 & E2 & Hs2 & Hq2 & Hoth2 & Hcl2 & Hb2 & Hc2 & Hd2).
    { rewrite Hq. destruct (queue_of l s); [done|]. by injection Hn. }
    exists s2. cbn [replicate run]. rewrite E. cbn. rewrite Hb in Hb2, Hoth2. split_and!; try done; [|naive_solver|congruence|naive_solver].
    intros Hne l' Hl'. rewrite Hoth2 by done. by apply Hoth.
Qed.

(** The loops take turns, each running all it has. *)
Fixpoint drain (wa : write_answer) (order : list ptr) (s : System.t P) : result (System.t P) :=
  match order with
  | [] => Ok s
  | l :: order => s ← run (replicate (length (queue_of l s)) (EvRun l wa)) s; drain wa order s
  end.

(** What each of those steps relies on. *)
Fixpoint drain_legal (wa : write_answer) (order : list ptr) (s : System.t P) : Prop :=
  match order with
  | [] => True
  | l :: order =>
      legal (replicate (length (queue_of l s)) (EvRun l wa)) s /\
      match run (replicate (length (queue_of l s)) (EvRun l wa)) s with
      | Ok s' => drain_legal wa order s'
      | Err _ => True
      end
  end.

Lemma drain_rest wa order s : sinv s -> drain_legal wa order s -> TcpServer.loop_ (srv s) ∉ order ->
  exists s1, drain wa order s = Ok s1 /\ sinv s1 /\ (forall l, l ∈ order -> queue_of l s1 = []) /\
    (forall l, l ∉ order -> queue_of l s1 = queue_of l s) /\ (forall d, closed d s -> closed d s1) /\
    (forall l', is_Some (loops s1 !! l') -> is_Some (loops s !! l')).
Proof.
  revert s. induction order as [|l order IH]; intros s Hs Hcan Hb.
  - exists s. split_and!; try done. intros l. by rewrite elem_of_nil.
  - apply not_elem_of_cons in Hb as [Hbl Hbo].
    destruct Hcan as [Hleg Hcan].
    destruct (run_queue l wa _ s Hs Hleg eq_refl) as (s1 & E & Hs1 & Hq & Hoth & Hcl & Hb1 & Hc1 & Hd1).
    rewrite E in Hcan. destruct (IH s1 Hs1 Hcan) as (s2 & E2 & Hs2 & Hin & Hout & Hcl2 & Hd2); [by rewrite Hb1|].
    exists s2. cbn [drain]. rewrite E. cbn. split_and!; try done.
    + intros l' [->|Hl']%elem_of_cons; [|by apply Hin]. destruct (decide (l ∈ order)); [by apply Hin|by rewrite Hout].
    + intros l' [Hne Hno]%not_elem_of_cons. rewrite Hout by done. by apply Hoth.
    + intros d Hd. by apply Hcl2, Hcl.
    + intros l' Hl'. by apply Hd1, Hd2.
Qed.

(** Once the server's loop and then the others have run their queues, all are empty. *)
Lemma drain_all wa order s : sinv s -> drain_legal wa (TcpServer.loop_ (srv s) :: order) s -> TcpServer.loop_ (srv s) ∉ order ->
  (forall l, is_Some (loops s !! l) -> l = TcpServer.loop_ (srv s) \/ l ∈ order) ->
  exists s1, drain wa (TcpServer.loop_ (srv s) :: order) s = Ok s1 /\ sinv s1 /\
    (forall l ls, loops s1 !! l = Some ls -> l_queue ls = []) /\ (forall d, closed d s -> closed d s1).
Proof.
  intros Hs [Hleg Hcan] Hb Hall.
  destruct (run_queue (TcpServer.loop_ (srv s)) wa _ s Hs Hleg eq_refl) as (s1 & E & Hs1 & Hq & _ & Hcl & Hb1 & Hc1 & Hd1).
  rewrite E in Hcan. destruct (drain_rest wa order s1 Hs1 Hcan) as (s2 & E2 & Hs2 & Hin & Hout & Hcl2 & Hd2);
    [by rewrite Hb1|].
  exists s2. cbn [drain]. rewrite E. cbn. split_and!; [done|done| |by intros d Hd; apply Hcl2, Hcl].
  intros l ls Hl. assert (queue_of l s2 = []) as Hnil; [|by unfold queue_of in Hnil; rewrite Hl in Hnil].
  destruct (Hall l) as [->|Hlo]; [apply Hd1, Hd2; by eexists|by rewrite Hout|by apply Hin].
Qed.

(** When no functor is waiting, what exists is what the map holds, and it is open. *)
Lemma quiet_law s c o : sinv s -> (forall l ls, loops s !! l = Some ls -> l_queue ls = []) ->
  objs s !! c = Some o ->
  exists x ls, conn_ok s c o SUp 0 x /\ TcpServer.connection_maps (srv s) !! TcpServer.conn_name x = Some (Some c) /\
    TcpConnection.state_ (o_conn o) = TcpConnection.kConnected /\
    loops s !! o_loop o = Some ls /\ shell SUp (TcpServer.conn_fd x) c o ls /\ good o.
Proof.
  intros Hs Hq Ho. pose proof Hs as (_ & _ & H3 & _ & _ & _ & _ & _ & H9).
  destruct (H9 c o Ho) as (g & n & x & Hx & Hl & Hheld & ls & Hls & Hsh & Hg); [done|].
  pose proof Hheld as (Hqs & Hm & Hcl).
  assert (forall l ls1, loops s !! l = Some ls1 ->
    expected g (TcpServer.loop_ (srv s)) (TcpServer.conn_loop x) c n l = []) as Hnil.
  { intros l ls1 Hl1. by rewrite <- (Hqs l ls1 Hl1), (Hq l ls1 Hl1). }
  pose proof (Hnil _ _ Hls) as Hio.
  destruct g; cbn in Hio, Hnil.
  - by rewrite decide_True in Hio.
  - exists x, ls. rewrite decide_True in Hio by done. split_and!; try done.
    + split_and!; [done|done|split_and!; [|done|done]|by exists ls]. intros l ls1 Hl1. rewrite (Hq _ _ Hl1). cbn.
      case_decide; [|done]. unfold completes. by destruct write_complete_set.
    + by destruct Hsh as (_ & _ & _ & _ & _ & _ & _ & Hup).
  - destruct (H3 (TcpServer.loop_ (srv s))) as [lsb Hlb]; [by left|]. specialize (Hnil _ _ Hlb).
    rewrite decide_False, decide_True in Hnil by (done || (intros E; by apply Hcl)). done.
  - rewrite decide_True in Hio by done. by destruct (completes c n).
Qed.

(** ** Functors that hold nothing *)

Lemma push_referenced l fs s d : referenced s d = true -> referenced (push l fs s) d = true.
Proof.
  intros [(nm & Hnm)|(l1 & ls & f & Hl & Hf & Hh)]%referenced_true; apply referenced_true; [left; by exists nm|].
  right. exists l1. rewrite (push_here _ _ _ _ _ Hl). eexists _, f. split; [done|]. split; [|done].
  case_decide; [|done]. cbn. apply elem_of_app. by left.
Qed.

Lemma push_release l fs s : sinv s -> release (push l fs s) = push l fs s.
Proof.
  intros Hs. apply release_none.
  - intros d [o Ho]. apply push_referenced. by eapply alive_referenced.
  - intros l1 ls1 d ch (ls0 & Hl & E & _)%push_lookup Hch. rewrite E in Hch.
    destruct Hs as (_ & _ & _ & _ & H5 & _). destruct (H5 _ _ _ _ Hl Hch) as (o & Ho & _). by eexists.
Qed.

Lemma step_run l wa s ls f q : loops s !! l = Some ls -> l_queue ls = f :: q ->
  step (EvRun l wa) s = (s1 ← run_functor wa f (popped l ls q s); Ok (release s1)).
Proof. intros Hl Hq. unfold step. cbn [act]. unfold pop_queue. by rewrite Hl, Hq. Qed.

(** A functor that does not hold its connection runs after the connection is gone. *)
Lemma dangling_law s l c ls k wa wa' : sinv s -> loops s !! l = Some ls ->
  l_queue ls = [FServer (TcpServer.TDestroyed c)] -> holds (FTask c k) = false ->
  run [EvForeign c k; EvRun l wa; EvRun l wa'] s = Err (UB UseAfterFree).
Proof.
  intros Hs Hl Hqu Hk. pose proof Hs as (_ & _ & _ & _ & _ & _ & H7 & _).
  destruct (H7 l ls (FServer (TcpServer.TDestroyed c)) c Hl) as [o Ho]; [rewrite Hqu; apply list_elem_of_here|done|].
  destruct (mid_intro s c o Hs Ho) as (g & n & x & lsc & Hmid & [Hsh _] & _).
  pose proof Hmid as (_ & _ & _ & Hlo & Hlsc & Hq & Hm).
  pose proof (Hq l ls Hl) as HQ. rewrite Hqu, proj_cons_here in HQ by done.
  destruct (head_stage _ _ _ _ _ _ _ _ (eq_sym HQ)) as
    [(_ & ? & _)|[(_ & ? & _)|[(_ & ? & _)|(-> & _ & Hnone)]]]; [done..|].
  assert (l = o_loop o) as ->.
  { cbn in HQ. case_decide as E; [congruence|done]. }
  assert (lsc = ls) as -> by congruence. rewrite Hlo in *.
  destruct Hsh as (ch & _ & _ & _ & _ & _ & Hci & Hst & _). cbn in Hst.
  destruct (TcpConnectionFacts.Remove_law (enter o ls) Hci) as (w & _ & E & _ & _ & _ & _ & (cs & p & Hw) & _).
  set (s1 := push (o_loop o) [FTask c k] s).
  assert (step (EvForeign c k) s = Ok s1) as E1.
  { unfold step. cbn [act]. rewrite Ho. cbn. by rewrite push_release. }
  pose proof (push_here (o_loop o) [FTask c k] s _ _ Hl) as Hl1. rewrite decide_True, Hqu in Hl1 by done.
  set (ls1 := mk_loop (l_chans ls) (l_poller ls) ([FServer (TcpServer.TDestroyed c)] ++ [FTask c k])) in *.
  set (s2 := popped (o_loop o) ls1 [FTask c k] s1).
  set (ls2 := mk_loop (l_chans ls) (l_poller ls) [FTask c k]).
  assert (loops s2 !! o_loop o = Some ls2) as Hl2 by (cbn; by rewrite lookup_insert_eq).
  set (s3 := leave c o ls2 w s2).
  assert (step (EvRun (o_loop o) wa) s1 = Ok (release s3)) as E2.
  { rewrite (step_run _ wa s1 ls1 _ _ Hl1 eq_refl). cbn [run_functor]. fold s2.
    rewrite (on_conn_eq c (TcpConnection.ConnectionDestroyed (user (writes wa))) s2 o ls2 w Ho Hl2);
      [by assert (TcpConnection.posted w = []) as -> by (by rewrite Hw)|].
    unfold TcpConnection.ConnectionDestroyed. cbn [enter TcpConnection.conn]. rewrite Hst.
    rewrite bool_decide_eq_false_2 by done. exact E. }
  assert (referenced s3 c = false) as Hdead.
  { apply not_true_is_false. intros [[nm Hnm]|(l & ls3 & f & Hl3 & Hf & Hh & Ha)]%referenced_true; [by destruct (Hm nm)|].
    cbn in Hl3. rewrite !lookup_insert in Hl3. destruct (decide (o_loop o = l)) as [<-|Hne].
    - injection Hl3 as <-. cbn in Hf. rewrite Hw in Hf. cbn in Hf. apply list_elem_of_singleton in Hf as ->. congruence.
    - rewrite lookup_alter_ne in Hl3 by done. specialize (Hq l ls3 Hl3). cbn in Hq. rewrite decide_False in Hq by done.
      apply (proj2 (proj_elem c f _ Ha)) in Hf. rewrite Hq in Hf. set_solver. }
  assert (objs (release s3) !! c = None) as Hgone.
  { cbn. rewrite map_lookup_filter, lookup_insert_eq. cbn. unfold dead. rewrite Hdead. cbn.
    rewrite lookup_insert_eq. rewrite bool_decide_eq_true_2 by (by eexists). done. }
  assert (exists cs' p', loops (release s3) !! o_loop o = Some (mk_loop cs' p' [FTask c k])) as (cs' & p' & Hl4).
  { cbn. rewrite lookup_fmap, lookup_insert_eq. cbn. rewrite Hw. by eexists _, _. }
  cbn [run]. rewrite E1. cbn [mbind result_bind]. rewrite E2. cbn [mbind result_bind].
  rewrite (step_run _ wa' _ _ _ _ Hl4 eq_refl). cbn [run_functor]. unfold on_conn at 1. cbn [popped objs].
  by rewrite Hgone.
Qed.

(** ** Quiet servers *)

Definition empty_queue (ls : loopst P) : bool := match l_queue ls with [] => true | _ => false end.
Definition quiet (s : System.t P) : bool := forallb (fun kv => empty_queue kv.2) (map_to_list (loops s)).

Lemma quiet_queues s : quiet s = true <-> forall l ls, loops s !! l = Some ls -> l_queue ls = [].
Proof.
  unfold quiet. rewrite forallb_forall. split.
  - intros Hq l ls Hl. specialize (Hq (l, ls)). cbn in Hq. unfold empty_queue in Hq.
    destruct (l_queue ls); [done|]. discriminate Hq. by apply list_elem_of_In, elem_of_map_to_list.
  - intros Hq [l ls] Hin%list_elem_of_In%elem_of_map_to_list. cbn. unfold empty_queue. by rewrite (Hq l ls Hin).
Qed.

(** Every loop is the server's or one of [order]. *)
Definition covers (order : list ptr) (s : System.t P) : bool :=
  forallb (fun kv => bool_decide (kv.1 ∈ TcpServer.loop_ (srv s) :: order)) (map_to_list (loops s)).

Lemma covers_all order s l : covers order s = true -> is_Some (loops s !! l) ->
  l = TcpServer.loop_ (srv s) \/ l ∈ order.
Proof.
  unfold covers. rewrite forallb_forall. intros Hc [ls Hl]. apply elem_of_cons. specialize (Hc (l, ls)).
  apply bool_decide_eq_true in Hc; [exact Hc|]. by apply list_elem_of_In, elem_of_map_to_list.
Qed.

(** A descriptor of no live connection is not watched. *)
Lemma unwatched_fd s l ls fd : sinv s -> loops s !! l = Some ls ->
  (forall c x, is_Some (objs s !! c) -> TcpServer.conns (srv s) !! c = Some x -> TcpServer.conn_fd x <> fd) ->
  interest (CB := TcpConnection.handler) (OBJ := unit) (l_poller ls) fd = 0.
Proof.
  intros (_ & _ & _ & H4 & H5 & _ & _ & _ & H9) Hl Hfd. apply (unwatched_law (l_chans ls)); [by eapply H4|].
  intros d ch Hd Hf. exfalso. destruct (H5 _ _ _ _ Hl Hd) as (o & Ho & Hlo).
  destruct (H9 d o Ho) as (g & n & x & Hx & _ & _ & ls1 & Hl1 & (ch1 & Hch1 & _ & _ & Hf1 & _) & _); [done|].
  apply (Hfd d x); [by eexists|done|]. assert (ls1 = ls) as -> by congruence. congruence.
Qed.

End Laws.
End SystemLaws.

(** * Properties *)
Module SystemProps.
Import System SystemFacts SystemSteps SystemLaws.

Section Props.
Context {P : Type} `{!Poller (CB := TcpConnection.handler) (OBJ := unit) P}
  `{!PollerLaws (CB := TcpConnection.handler) (OBJ := unit) P}.
Implicit Types (z : TcpServer.t) (ps : gmap ptr P) (es : list event) (s : System.t P).

Section AnyUser.
Context `{!App, !AppLaws}.

(** C1: From its start, whatever legal sequence of acceptances, channel events and
    queued functors a server goes through, in any interleaving of its loops, no step
    faults, throws or aborts, and the invariant of the whole server holds at the end:
    every connection is in one of its four stages, with its functors queued where the
    stage says, its buffers and its channel in order, and held by something exactly
    as long as it exists. *)
Theorem server_never_fails z ps es : started z ps -> legal es (initial z ps) ->
  exists s, run es (initial z ps) = Ok s /\ sinv s.
Proof. intros Hs Hl. apply run_ok; [by apply started_sinv|done]. Qed.

(** C4: Once the server's loop and then the other loops have run what was in their
    queues, which takes as many steps as there were functors, every queue is empty,
    every connection that was closed before is destroyed, and exactly the connections
    of the server's map remain. As everywhere, a descriptor whose connection is
    established in one of these steps has to be one its loop's poller can watch then. *)
Theorem closed_connections_are_destroyed z ps es s wa order :
  started z ps -> legal es (initial z ps) -> run es (initial z ps) = Ok s ->
  drain_legal wa (TcpServer.loop_ (srv s) :: order) s -> TcpServer.loop_ (srv s) ∉ order -> covers order s = true ->
  exists s', drain wa (TcpServer.loop_ (srv s) :: order) s = Ok s' /\ quiet s' = true /\
    (forall c, closed c s -> objs s' !! c = None) /\
    (forall c, is_Some (objs s' !! c) <-> exists nm, TcpServer.connection_maps (srv s') !! nm = Some (Some c)).
Proof.
  intros Hst Hl Hr Hcan Hb Hcov. destruct (run_ok es _ (started_sinv _ _ Hst) Hl) as (s0 & E & Hs).
  assert (s0 = s) as -> by congruence.
  destruct (drain_all wa order s Hs Hcan Hb) as (s' & E' & Hs' & Hq & Hcl); [intros l; by apply covers_all|].
  exists s'. split_and!; [done|by apply quiet_queues| |].
  - intros c Hc. destruct (objs s' !! c) as [o|] eqn:Ho; [|done]. exfalso.
    destruct (quiet_law s' c o Hs' Hq Ho) as (x & ls & _ & _ & Hup & _). by rewrite (Hcl c Hc o Ho) in Hup.
  - intros c. split.
    + intros [o Ho]. destruct (quiet_law s' c o Hs' Hq Ho) as (x & _ & _ & Hm & _). by eexists.
    + intros [nm Hm]. destruct Hs' as (_ & _ & _ & _ & _ & _ & _ & H8 & _). by eapply H8.
Qed.

(** C40: While no functor is waiting, the connections that exist are those of the
    server's map, all open, and no loop watches a descriptor of any other: nothing is
    leaked. *)
Theorem quiet_server_leaks_nothing z ps es s :
  started z ps -> legal es (initial z ps) -> run es (initial z ps) = Ok s -> quiet s = true ->
  (forall c, is_Some (objs s !! c) <-> exists nm, TcpServer.connection_maps (srv s) !! nm = Some (Some c)) /\
  (forall c o, objs s !! c = Some o -> TcpConnection.state_ (o_conn o) = TcpConnection.kConnected) /\
  (forall l ls fd, loops s !! l = Some ls ->
     (forall c x, is_Some (objs s !! c) -> TcpServer.conns (srv s) !! c = Some x -> TcpServer.conn_fd x <> fd) ->
     interest (CB := TcpConnection.handler) (OBJ := unit) (l_poller ls) fd = 0).
Proof.
  intros Hst Hl Hr Hq. pose proof (proj1 (quiet_queues s) Hq) as Hqs. destruct (run_ok es _ (started_sinv _ _ Hst) Hl) as (s0 & E & Hs).
  assert (s0 = s) as -> by congruence. split_and!.
  - intros c. split.
    + intros [o Ho]. destruct (quiet_law s c o Hs Hqs Ho) as (x & _ & _ & Hm & _). by eexists.
    + intros [nm Hm]. destruct Hs as (_ & _ & _ & _ & _ & _ & _ & H8 & _). by eapply H8.
  - intros c o Ho. by destruct (quiet_law s c o Hs Hqs Ho) as (x & ls & _ & _ & Hup & _).
  - intros l ls fd Hls Hfd. by eapply unwatched_fd.
Qed.


End AnyUser.

(** C2: The echo server and the ping-pong server send back what they receive: unless
    a write was answered that the peer is gone, what the kernel took from a
    connection followed by what waits in its output buffer is, byte for byte, what
    the kernel delivered to it, and nothing stays unread; an open connection that
    does not wait to write has sent all of it. *)
Theorem servers_echo (A : App) z ps es s c o :
  A = EchoServer.echo_app \/ A = PingpongServer.pingpong_app ->
  started z ps -> legal es (initial z ps) -> run es (initial z ps) = Ok s ->
  objs s !! c = Some o -> o_lost o = false ->
  Buffer.content (TcpConnection.input_buffer_ (o_conn o)) = [] /\
  o_sent o ++ Buffer.content (TcpConnection.output_buffer_ (o_conn o)) = o_recv o /\
  (forall ls ch, loops s !! o_loop o = Some ls -> l_chans ls !! c = Some ch ->
     TcpConnection.state_ (o_conn o) = TcpConnection.kConnected -> Channel.IsWriting ch = false ->
     o_sent o = o_recv o).
Proof.
  intros HA Hst Hl Hr Ho Hlost.
  assert (exists HL : AppLaws, forall i r t, app_good r i t -> echoes r i t) as (HL & Hgood).
  { destruct HA as [-> | ->]; [exists echo_laws|exists pingpong_laws]; auto. }
  destruct (run_ok es _ (started_sinv _ _ Hst) Hl) as (s0 & E & Hs).
  assert (s0 = s) as -> by congruence. destruct Hs as (_ & _ & _ & _ & _ & _ & _ & _ & H9).
  destruct (H9 c o Ho) as (g & n & x & _ & _ & _ & ls & Hls & Hsh & Hg); [done|].
  destruct (Hgood _ _ _ (Hg Hlost)) as [Hin Hout]. split_and!; [done|done|].
  intros ls' ch Hls' Hch Hup Hw. rewrite Hls in Hls'. injection Hls' as <-.
  assert (Buffer.content (TcpConnection.output_buffer_ (o_conn o)) = []) as Hnil; [|by rewrite Hnil, app_nil_r in Hout].
  destruct Hsh as (ch' & Hch' & Hca & _ & _ & _ & Hg'). assert (ch' = ch) as -> by congruence.
  assert (conn_inv (enter o ls)) as (_ & _ & _ & _ & ch1 & (_ & Hc1 & _) & Hw1).
  { destruct g; cbn in Hg'; [|by destruct Hg'..]. destruct Hg' as (_ & _ & Hk & _). cbn in Hk. congruence. }
  cbn in Hc1. rewrite Hca, Hch in Hc1. injection Hc1 as <-.
  unfold TcpConnectionFacts.writing_ok in Hw1. rewrite Hw in Hw1. symmetry in Hw1.
  apply bool_decide_eq_false in Hw1. cbn in Hw1. unfold TcpConnectionFacts.unsent in Hw1. cbn in Hw1.
  rewrite Hup in Hw1. destruct (Buffer.content (TcpConnection.output_buffer_ (o_conn o))); [done|].
  exfalso. apply Hw1. by split.
Qed.

End Props.

(** ** An echo server on three loops *)

Import EpollPoller EpollFacts.
Abbreviation EP := (EpollPoller.t SimpleEpoll.t).
#[local] Existing Instance EchoServer.echo_app.

Definition sample_pollers : gmap ptr EP :=
  list_to_map ((fun l => (l, EpollPoller.create (SimpleEpoll.mk ∅ []))) <$> [1; 2; 3]%positive).
Definition sample0 : System.t EP := initial TcpServerProps.sample sample_pollers.

(** A client connects, sends a word, of which the kernel takes back two bytes at
    first, and leaves; then the server's loop takes it out of the map, and its own loop
    calls the write-complete callback. *)
Definition coming : list event :=
  [EvAccept 7; EvRun 2%positive (WTake 0)].
Definition sending : list event :=
  coming ++ [EvIo 1%positive Channel.POLLIN (RGive (str "hello")) (WTake 2) (WTake 0)].
Definition talk : list event :=
  sending ++ [EvIo 1%positive Channel.POLLOUT (RGive []) (WTake 0) (WTake 3)].
Definition leaving : list event :=
  talk ++ [EvIo 1%positive Channel.POLLIN (RGive []) (WTake 0) (WTake 0)].
Definition ending : list event := (leaving ++ [EvRun 1%positive (WTake 0)]) ++ [EvRun 2%positive (WTake 0)].

Definition after (es : list event) : System.t EP :=
  match run es sample0 with Ok s => s | Err _ => sample0 end.

Lemma sample_started : started TcpServerProps.sample sample_pollers.
Proof.
  split_and!; [apply TcpServerProps.server_sample_inv|done| |].
  - intros l [->|Hl]; [by eexists|].
    change (l ∈ [2; 3]%positive) in Hl. repeat (apply elem_of_cons in Hl as [->|Hl]); [by eexists..|by apply elem_of_nil in Hl].
  - intros l p Hl. assert (p = EpollPoller.create (SimpleEpoll.mk ∅ [])) as ->.
    { apply elem_of_list_to_map_2 in Hl. repeat (apply elem_of_cons in Hl as [Hl|Hl]); [congruence..|by apply elem_of_nil in Hl]. }
    cbn. unfold inv, maps_ok, reg_ok, index_ok. split_and!; cbn; naive_solver.
Qed.

Lemma legal_snoc es e s : run es sample0 = Ok s -> legal es sample0 -> pre e s -> legal (es ++ [e]) sample0.
Proof.
  intros Hr Hl Hp. apply (legal_steps_app step pre _ _ _ _ Hr). split; [done|]. split; [done|].
  by destruct (step e s).
Qed.

Ltac run_it := vm_compute; reflexivity.

Lemma coming_legal : legal coming sample0.
Proof.
  split; [|vm_compute; split; [intros; exact I|exact I]]. split; [reflexivity|split; [|intros; exact I]].
  intros d y [o Ho]. assert (objs sample0 !! d = None) by apply lookup_empty. congruence.
Qed.

Lemma sending_legal : legal sending sample0.
Proof.
  apply (legal_snoc coming _ (after coming)); [run_it|apply coming_legal|].
  vm_compute. by split_and!.
Qed.

Lemma talk_legal : legal talk sample0.
Proof.
  apply (legal_snoc sending _ (after sending)); [run_it|apply sending_legal|].
  vm_compute. by split_and!.
Qed.

Lemma leaving_legal : legal leaving sample0.
Proof.
  apply (legal_snoc talk _ (after talk)); [run_it|apply talk_legal|].
  vm_compute. by split_and!.
Qed.

Lemma ending_legal : legal ending sample0.
Proof.
  apply (legal_snoc _ _ (after (leaving ++ [EvRun 1%positive (WTake 0)]))); [run_it| |intros ? ? ? ? _ _ _; exact I].
  apply (legal_snoc leaving _ (after leaving)); [run_it|apply leaving_legal|intros ? ? ? ? _ _ _; exact I].
Qed.

Lemma server_never_fails_witness : exists s, run leaving sample0 = Ok s /\ sinv s.
Proof. apply (server_never_fails (P := EP) _ _ _ sample_started leaving_legal). Defined.

Lemma closed_connections_are_destroyed_witness :
  exists s', drain (WTake 0) (TcpServer.loop_ (srv (after leaving)) :: [2; 3]%positive) (after leaving) = Ok s' /\
    quiet s' = true /\ bool_decide (is_Some (objs (after leaving) !! 1%positive)) = true /\ objs s' !! 1%positive = None.
Proof.
  destruct (closed_connections_are_destroyed (P := EP) _ _ _ (after leaving) (WTake 0) [2; 3]%positive
    sample_started leaving_legal) as (s' & E & Hq & Hd & _).
  - by vm_compute.
  - vm_compute. repeat split; intros; exact I.
  - by apply (bool_decide_eq_true_1 _).
  - by vm_compute.
  - exists s'. split; [exact E|]. split; [exact Hq|]. split; [by vm_compute|].
    apply Hd. intros o Ho. vm_compute in Ho. by injection Ho as <-.
Defined.

Lemma quiet_server_leaks_nothing_witness :
  quiet (after sending) = true /\
  forall c, is_Some (objs (after sending) !! c) <->
    exists nm, TcpServer.connection_maps (srv (after sending)) !! nm = Some (Some c).
Proof.
  split; [run_it|].
  apply (quiet_server_leaks_nothing (P := EP) _ _ sending (after sending) sample_started sending_legal); run_it.
Defined.


Lemma servers_echo_witness :
  exists o, objs (after sending) !! 1%positive = Some o /\ o_recv o = str "hello" /\ o_sent o = str "he" /\
    o_sent o ++ Buffer.content (TcpConnection.output_buffer_ (o_conn o)) = o_recv o.
Proof.
  destruct (objs (after sending) !! 1%positive) as [o|] eqn:Ho; [|exfalso; vm_compute in Ho; discriminate Ho].
  assert (o_lost o = false /\ o_recv o = str "hello" /\ o_sent o = str "he") as (Hl & Hr & Hs).
  { vm_compute in Ho. by injection Ho as <-. }
  exists o. split; [done|]. split; [exact Hr|]. split; [exact Hs|].
  apply (servers_echo (P := EP) EchoServer.echo_app _ _ sending (after sending) 1%positive o
    (or_introl eq_refl) sample_started sending_legal); [run_it|exact Ho|exact Hl].
Defined.

End SystemProps.
