(* ===== verification/Teardown.v ===== *)
(** Taking the server down (TcpServer::~TcpServer of src/tcp_server.cc, in the whole
    server of System.v): the connections of the map are destroyed in place when they
    belong to the destructor's own thread, and left to the queues of their loops
    otherwise. The theorems follow the loops that run what they were left; that a loop can
    be asked to quit before it does is in EventLoop.v ([functor_before_quit_unrun]). *)
From Stdlib Require Import ZArith Lia Ascii.
From stdpp Require Import base gmap list option strings.
From S2P Require Import Prelude Buffer Channel Poller EpollPoller EventLoop TcpConnection ThreadPool Net TcpServer.
From S2P Require Import System SystemFacts Echo SystemSteps SystemProps.

Local Open Scope Z_scope.

Module Teardown.
Import System.

Section Teardown.
Context {P : Type} `{!Poller (CB := TcpConnection.handler) (OBJ := unit) P} `{!App}.

(** One round of the destructor's loop, in the thread of the server's loop, at the entry
    named [nm]; [wa] is the kernel's answer should the user's callback send. *)
Definition destroy_entry (wa : write_answer) (nm : bytes) (s : System.t P) : result (System.t P) :=
  x ← TcpServer.reset_entry (TcpServer.loop_ (srv s)) nm (srv s);
  s ← match TcpServer.connection_maps (srv s) !! nm with
      | Some (Some c) =>
          if existsb (fun k => k.2) (TcpServer.calls x)
          then on_conn c (TcpConnection.ConnectionDestroyed (user (writes wa))) (hand_out (set_srv x s))
          else Ok (hand_out (set_srv x s))
      | _ => Ok s
      end;
  Ok (release s).

(** The destructor's body, with the names of the map in the order it goes through
    them. *)
Fixpoint destroy (wa : write_answer) (order : list bytes) (s : System.t P) : result (System.t P) :=
  match order with
  | [] => Ok s
  | nm :: order => s ← destroy_entry wa nm s; destroy wa order s
  end.

End Teardown.
End Teardown.

(** * Lemmas *)
Module TeardownFacts.
Import System SystemFacts SystemSteps SystemLaws Teardown.

Section Facts.
Context {P : Type} `{!Poller (CB := TcpConnection.handler) (OBJ := unit) P}
  `{!PollerLaws (CB := TcpConnection.handler) (OBJ := unit) P} `{!App, !AppLaws}.
Implicit Types (s : System.t P) (ls : loopst P) (o : obj) (q : list functor) (c d l : ptr)
  (busy : option ptr) (pend : ptr -> list ptr).

(** Destroying an open connection: its descriptor is no longer watched, the user is told
    once, and the channel leaves the poller. *)
Lemma destroy_open_law wr c fd o ls : poller_inv (l_chans ls) (l_poller ls) -> shell SUp fd c o ls ->
  exists w, TcpConnection.ConnectionDestroyed (user wr) (enter o ls) = Ok w /\
    TcpConnection.queued w = [] /\ TcpConnection.posted w = [] /\
    others c fd (l_chans ls) (l_poller ls) (TcpConnection.chans w) (TcpConnection.poller w) /\
    poller_inv (delete c (TcpConnection.chans w)) (TcpConnection.poller w).
Proof.
  intros Hi (ch & Hch & Hca & (C1 & _) & Hfd & _ & Hci & Hup). cbn in Hup.
  destruct (TcpConnectionFacts.disconnect_law (enter o ls) Hci) as (cs & p & E & Hi1 & Hf1 & _). cbv zeta in *.
  set (w1 := TcpConnection.set_poll _ _ _) in *.
  destruct (app_callback wr OnConnection w1) as (w2 & E2 & Hi2 & Hf2 & _ & _ & _ & Hq2 & _); [by left|done|].
  destruct (TcpConnectionFacts.Remove_law w2 Hi2) as (w3 & ch3 & E3 & Hcn & Hl3 & Hi3 & _ & (cs3 & p3 & Hw3) & Hoth3).
  pose proof (TcpConnectionFacts.frame_trans _ _ _ Hf1 Hf2) as Hf.
  assert (TcpConnection.channel_ (TcpConnection.conn w2) = c) as Hc2.
  { pose proof Hf as (-> & _). exact Hca. }
  assert (TcpConnectionFacts.fd_of (enter o ls) = fd) as Hfdo.
  { unfold TcpConnectionFacts.fd_of. cbn. by rewrite Hca, Hch. }
  assert (Channel.fd_ ch3 = fd) as Hfd3.
  { rewrite <- (TcpConnectionFacts.linked_fd _ _ Hl3), <- Hfdo. pose proof Hf as (_ & Hw & _).
    by apply TcpConnectionFacts.wiring_fd. }
  exists w3. split_and!.
  - unfold TcpConnection.ConnectionDestroyed. cbn [enter TcpConnection.conn]. rewrite Hup.
    rewrite bool_decide_eq_true_2 by done. change (TcpConnection.mkW _ _ _ _ _ _ _ _) with (enter o ls).
    rewrite E. cbn [mbind result_bind]. change (TcpConnection.connection_callback_ (TcpConnection.conn w1))
      with (TcpConnection.connection_callback_ (o_conn o)). rewrite C1. cbn [TcpConnection.call].
    change (user wr OnConnection w1) with (app wr OnConnection w1). rewrite E2. exact E3.
  - rewrite Hw3. cbn. by rewrite Hq2.
  - rewrite Hw3. cbn. by destruct Hf as (_ & _ & _ & _ & _ & _ & _ & -> & _).
  - eapply others_trans; [|rewrite Hc2, Hfd3 in Hoth3; exact Hoth3].
    destruct Hf as (_ & _ & _ & _ & _ & _ & _ & _ & Hoth). cbn in Hoth. by rewrite Hca, Hfdo in Hoth.
  - by rewrite Hc2 in Hi3.
Qed.

(** ** A server that is being left *)

Definition destroyed (c : ptr) : functor := FServer (TcpServer.TDestroyed c).

(** Server [s] is the server [s0], which is quiet and alive, but for some of the
    connections, which are out of the map: [pend l] are those that wait in the queue of
    loop [l] to be destroyed, and [busy], if one is given, is being destroyed. *)
Record leaving (busy : option ptr) (s0 : System.t P) (pend : ptr -> list ptr) (s : System.t P) : Prop := {
  lv_live : sinv s0;
  lv_quiet l ls : loops s0 !! l = Some ls -> l_queue ls = [];
  lv_objs : objs s = objs s0;
  lv_conns : TcpServer.conns (srv s) = TcpServer.conns (srv s0);
  lv_base : TcpServer.loop_ (srv s) = TcpServer.loop_ (srv s0);
  lv_calls : TcpServer.calls (srv s) = [];
  lv_maps nm c : TcpServer.connection_maps (srv s) !! nm = Some (Some c) ->
    TcpServer.connection_maps (srv s0) !! nm = Some (Some c) /\ busy <> Some c;
  lv_loops l : loops s !! l =
    (fun ls => mk_loop (l_chans ls) (l_poller ls) (destroyed <$> pend l)) <$> loops s0 !! l;
  lv_pend l c : c ∈ pend l <-> (exists o, objs s0 !! c = Some o /\ o_loop o = l) /\ busy <> Some c /\
    forall nm, TcpServer.connection_maps (srv s) !! nm <> Some (Some c);
  lv_nodup l : NoDup (pend l);
  lv_away : pend (TcpServer.loop_ (srv s0)) = [];
}.

Lemma leaving_ext busy s0 pend pend' s : leaving busy s0 pend s -> (forall l, pend l = pend' l) -> leaving busy s0 pend' s.
Proof.
  intros [H1 H2 H3 H4 H5 H6 H7 H8 H9 H10 H11] E. split; try done.
  - intros l. by rewrite <- E.
  - intros l c. rewrite <- E. apply H9.
  - intros l. by rewrite <- E.
  - by rewrite <- E.
Qed.

Lemma leaving_start s : sinv s -> (forall l ls, loops s !! l = Some ls -> l_queue ls = []) ->
  leaving None s (fun _ => []) s.
Proof.
  intros Hs Hq. split; try done.
  - by destruct Hs as (_ & ? & _).
  - intros l. destruct (loops s !! l) as [ls|] eqn:Hl; [|done]. cbn. f_equal. pose proof (Hq _ _ Hl).
    destruct ls; cbn in *. congruence.
  - intros l c. split; [by intros ?%elem_of_nil|]. intros ((o & Ho & _) & _ & Hno). exfalso.
    destruct (quiet_law s c o Hs Hq Ho) as (x & _ & _ & Hm & _). by apply (Hno (TcpServer.conn_name x)).
  - intros l. constructor.
Qed.

(** A connection is in the map or it is not. *)
Lemma in_map_dec (m : gmap bytes (option ptr)) c :
  (exists nm, m !! nm = Some (Some c)) \/ (forall nm, m !! nm <> Some (Some c)).
Proof.
  destruct (decide (Some c ∈ (map_to_list m).*2)) as [Hin|Hout].
  - left. apply list_elem_of_fmap in Hin as ([nm d] & -> & Hin). exists nm. by apply elem_of_map_to_list.
  - right. intros nm Hm. apply Hout. apply list_elem_of_fmap. exists (nm, Some c). split; [done|].
    by apply elem_of_map_to_list.
Qed.

Lemma leaving_alive busy s0 pend s d : leaving busy s0 pend s -> is_Some (objs s !! d) -> busy <> Some d ->
  referenced s d = true.
Proof.
  intros L [o Ho] Hne. apply referenced_true. rewrite (lv_objs _ _ _ _ L) in Ho.
  destruct (in_map_dec (TcpServer.connection_maps (srv s)) d) as [?|Hout]; [by left|right].
  destruct (quiet_law s0 d o (lv_live _ _ _ _ L) (lv_quiet _ _ _ _ L) Ho) as (x & ls & _ & _ & _ & Hls & _).
  exists (o_loop o). rewrite (lv_loops _ _ _ _ L), Hls. eexists _, (destroyed d). split; [done|].
  split; [|done]. cbn. apply list_elem_of_fmap_2, (lv_pend _ _ _ _ L). eauto.
Qed.

Lemma leaving_chans busy s0 pend s l ls d ch : leaving busy s0 pend s -> loops s !! l = Some ls ->
  l_chans ls !! d = Some ch -> exists o, objs s !! d = Some o /\ o_loop o = l.
Proof.
  intros L Hl Hd. rewrite (lv_loops _ _ _ _ L) in Hl. apply fmap_Some in Hl as (ls0 & Hl0 & ->). cbn in Hd.
  rewrite (lv_objs _ _ _ _ L). pose proof (lv_live _ _ _ _ L) as (_ & _ & _ & _ & H5 & _). by eapply H5.
Qed.

Lemma leaving_release s0 pend s : leaving None s0 pend s -> release s = s.
Proof.
  intros L. apply release_none; [intros d Hd; by eapply leaving_alive|].
  intros l ls d ch Hl Hd. destruct (leaving_chans _ _ _ _ _ _ _ _ L Hl Hd) as (o & -> & _). by eexists.
Qed.

(** The connection being destroyed is an open one of the live server. *)
Lemma leaving_mid s0 c o : sinv s0 -> (forall l ls, loops s0 !! l = Some ls -> l_queue ls = []) ->
  objs s0 !! c = Some o ->
  exists x ls, mid (set_srv (srv_without c (srv s0)) s0) c x o ls (fun _ => []) false /\
    shell SUp (TcpServer.conn_fd x) c o ls /\ loops s0 !! o_loop o = Some ls /\
    TcpServer.conns (srv s0) !! c = Some x /\ TcpServer.connection_maps (srv s0) !! TcpServer.conn_name x = Some (Some c).
Proof.
  intros Hs Hq Ho. destruct (quiet_law s0 c o Hs Hq Ho) as (x & ls & (Hx & Hl & _) & Hm & _ & Hls & Hsh & _).
  exists x, ls. split; [|done]. apply (mid_without s0 c x o ls (fun _ => [])).
  split; [by apply sinv_but_weaken|]. split_and!; try done. intros l ls1 Hl1. by rewrite (Hq _ _ Hl1).
Qed.

(** Destroying it leaves the live server without it. *)
Lemma leaving_destroy s0 pend s c o wr : leaving (Some c) s0 pend s -> objs s0 !! c = Some o ->
  exists s0' s', on_conn c (TcpConnection.ConnectionDestroyed (user wr)) s = Ok s' /\
    leaving None s0' pend (release s') /\ srv (release s') = srv s /\ objs s0' = delete c (objs s0).
Proof.
  intros L Ho. pose proof L as [Hs Hq Hobj Hcon Hb Hca Hm Hlo Hp Hnd Hbase].
  destruct (leaving_mid s0 c o Hs Hq Ho) as (x & ls & Hmid & Hsh & Hls & Hx & Hmx).
  pose proof Hmid as (Hsb & _ & _ & Hl & _).
  assert (poller_inv (l_chans ls) (l_poller ls)) as Hi by (by eapply mid_poller).
  destruct (destroy_open_law wr c _ o ls Hi Hsh) as (w & E & Hqw & Hpo & Hoth & Hi').
  destruct (gone_law _ c x o ls _ SUp w Hmid Hsh (fun _ => eq_refl) Hqw Hoth Hi') as [E0 Hs0'].
  set (ls1 := mk_loop (l_chans ls) (l_poller ls) (destroyed <$> pend (o_loop o))).
  assert (loops s !! o_loop o = Some ls1) as Hls1 by (by rewrite Hlo, Hls).
  assert (on_conn c (TcpConnection.ConnectionDestroyed (user wr)) s = Ok (leave c o ls1 w s)) as E1.
  { rewrite (on_conn_eq c _ s o ls1 w); [by rewrite Hpo|by rewrite Hobj|done|exact E]. }
  eexists (release (leave c o ls w _)), _. split; [exact E1|].
  assert (release (leave c o ls1 w s) =
    upd c None (o_loop o) (mk_loop (delete c (TcpConnection.chans w)) (TcpConnection.poller w) (l_queue ls1)) s) as E2.
  { apply release_gone; try done; [by rewrite Hobj| | | |].
    - apply not_true_is_false. intros [[nm Hnm]|(l & ls2 & f & Hl2 & Hf & _ & Ha)]%referenced_true.
      + by destruct (Hm nm c Hnm).
      + rewrite Hlo in Hl2. apply fmap_Some in Hl2 as (ls3 & _ & ->). cbn in Hf.
        apply list_elem_of_fmap in Hf as (d & -> & Hd). cbn in Ha. injection Ha as ->.
        apply Hp in Hd as (_ & ? & _). done.
    - intros d Hd Hs'. eapply leaving_alive; [done|done|congruence].
    - intros l ls2 d ch. by eapply leaving_chans.
    - intros d Hd. by eapply others_some. }
  rewrite E0, E2 in *. split; [|split; [done|apply map_eq; intros d; cbn; destruct (decide (d = c)) as [->|]; [by rewrite lookup_partial_alter_eq, lookup_delete_eq|by rewrite lookup_partial_alter_ne, lookup_delete_ne]]].
  destruct (without_inv c x (srv s0) ltac:(by destruct Hs) Hx) as (_ & _ & W3 & _ & W5 & W6).
  split; cbn [upd srv set_srv objs loops]; try done.
  - intros l ls2. rewrite lookup_insert. case_decide; [|by apply Hq]. intros [= <-]. cbn. by eapply Hq.
  - by rewrite Hobj.
  - by rewrite W5.
  - by rewrite W3.
  - intros nm d Hd. destruct (Hm nm d Hd) as [Hd0 Hne]. split; [|done]. rewrite W6, lookup_delete_ne; [done|].
    intros <-. congruence.
  - intros l. rewrite !lookup_insert. case_decide as El; [|by apply Hlo]. subst l. done.
  - intros l d. rewrite Hp. destruct (decide (d = c)) as [->|Hne].
    + split; [by intros (_ & ? & _)|]. intros ((o' & Ho' & _) & _). by rewrite lookup_partial_alter_eq in Ho'.
    + rewrite lookup_partial_alter_ne by done. split; [naive_solver|]. intros (? & _ & ?). split_and!; [done|congruence|done].
  - by rewrite W3.
Qed.

(** ** The loops run what they have *)

Definition put (l : ptr) (cs : list ptr) (pend : ptr -> list ptr) (l1 : ptr) : list ptr :=
  if decide (l1 = l) then cs else pend l1.

(** Taking a connection from the head of a queue. *)
Lemma leaving_pop s0 pend s l ls c cs : leaving None s0 pend s -> loops s !! l = Some ls -> pend l = c :: cs ->
  leaving (Some c) s0 (put l cs pend) (popped l ls (destroyed <$> cs) s) /\ is_Some (objs s0 !! c).
Proof.
  intros [Hs Hq Hobj Hcon Hb Hca Hm Hlo Hp Hnd Hbase] Hl Hc.
  assert (c ∈ pend l) as Hin by (rewrite Hc; apply list_elem_of_here).
  pose proof Hin as ((o & Ho & Hlo') & _ & Hout)%Hp. split; [|by eexists].
  pose proof (Hnd l) as Hn. rewrite Hc in Hn. apply list.NoDup_cons in Hn as [Hcs Hn].
  split; cbn [popped srv objs loops]; try done.
  - intros nm d Hd. destruct (Hm nm d Hd) as [? _]. split; [done|]. intros [= ->]. by apply (Hout nm).
  - intros l1. unfold put. rewrite lookup_insert. case_decide as E.
    + subst l1. rewrite decide_True by done. rewrite Hlo in Hl. apply fmap_Some in Hl as (ls0 & -> & ->). done.
    + rewrite decide_False by congruence. apply Hlo.
  - intros l1 d. unfold put. assert (d ∈ pend l1 <-> (exists o, objs s0 !! d = Some o /\ o_loop o = l1) /\
      forall nm, TcpServer.connection_maps (srv s) !! nm <> Some (Some d)) as Hp' by (rewrite Hp; naive_solver).
    destruct (decide (d = c)) as [->|Hdc].
    + split; [|by intros (_ & ? & _)]. case_decide as E; [done|]. intros (? & _)%Hp'. naive_solver.
    + assert (d ∈ (if decide (l1 = l) then cs else pend l1) <-> d ∈ pend l1) as ->; [|naive_solver congruence].
      case_decide as E; [|done]. subst. rewrite Hc, elem_of_cons. naive_solver.
  - intros l1. unfold put. case_decide; [done|apply Hnd].
  - unfold put. case_decide as E; [|done]. rewrite <- E, Hbase in Hc. done.
Qed.

Lemma leaving_run1 s0 pend s l wa : leaving None s0 pend s ->
  exists s0' s', step (EvRun l wa) s = Ok s' /\ leaving None s0' (put l (tail (pend l)) pend) s' /\ srv s' = srv s.
Proof.
  intros L. pose proof (lv_loops _ _ _ _ L l) as Hl.
  assert (pend l = [] \/ exists c cs ls, pend l = c :: cs /\ loops s !! l = Some ls) as [Hn|(c & cs & ls & Hc & Hls)].
  { destruct (pend l) as [|c cs] eqn:Hc; [by left|right]. assert (c ∈ pend l) as Hin by (rewrite Hc; apply list_elem_of_here).
    apply (lv_pend _ _ _ _ L) in Hin as ((o & Ho & <-) & _).
    destruct (quiet_law s0 c o (lv_live _ _ _ _ L) (lv_quiet _ _ _ _ L) Ho) as (x & ls & _ & _ & _ & Hls & _).
    rewrite Hls in Hl. by eexists c, cs, _. }
  - exists s0, s. split; [|split; [|done]].
    + unfold step. cbn [act]. unfold pop_queue. rewrite Hl. destruct (loops s0 !! l); cbn [fmap option_fmap option_map l_queue];
        rewrite ?Hn; cbn; by rewrite (leaving_release _ _ _ L).
    + eapply leaving_ext; [done|]. intros l1. unfold put. case_decide; [|done]. subst. by rewrite Hn.
  - destruct (leaving_pop _ _ _ _ _ _ _ L Hls Hc) as [L1 [o Ho]].
    destruct (leaving_destroy _ _ _ _ _ (writes wa) L1 Ho) as (s0' & s' & E & L2 & Hsrv & _).
    exists s0', (release s'). rewrite Hc. split_and!; [|done|done].
    assert (l_queue ls = destroyed c :: (destroyed <$> cs)) as Hqu.
    { rewrite Hl in Hls. apply fmap_Some in Hls as (ls0 & _ & ->). cbn. by rewrite Hc. }
    rewrite (step_run l wa s ls _ _ Hls Hqu). cbn [run_functor destroyed]. by rewrite E.
Qed.

(** How often loop [l] takes a turn. *)
Definition turns (l : ptr) (sched : list (ptr * write_answer)) : nat := length (filter (fun e => e.1 = l) sched).
Definition runs_of (sched : list (ptr * write_answer)) : list event := (fun e => EvRun e.1 e.2) <$> sched.

Lemma leaving_run sched s0 pend s : leaving None s0 pend s ->
  exists s0' s', run (runs_of sched) s = Ok s' /\ leaving None s0' (fun l => drop (turns l sched) (pend l)) s' /\
    srv s' = srv s.
Proof.
  revert s0 pend s. induction sched as [|[l wa] sched IH]; intros s0 pend s L.
  - exists s0, s. by split_and!.
  - destruct (leaving_run1 _ _ _ l wa L) as (s1 & s2 & E & L2 & Hs2).
    destruct (IH _ _ _ L2) as (s3 & s4 & E4 & L4 & Hs4). exists s3, s4.
    unfold runs_of. cbn [fmap list_fmap run fst snd]. rewrite E. cbn [mbind result_bind]. split_and!; [exact E4| |congruence].
    eapply leaving_ext; [exact L4|]. intros l1. cbv beta. unfold put, turns. destruct (decide (l1 = l)) as [->|Hne].
    + rewrite filter_cons_True by done. cbn [length]. destruct (pend l); [|done]. cbn [tail]. by rewrite drop_nil.
    + rewrite filter_cons_False by (cbn; congruence). done.
Qed.

(** ** The destructor's loop *)

Lemma leaving_names s0 pend s nm c : leaving None s0 pend s -> TcpServer.connection_maps (srv s) !! nm = Some (Some c) ->
  is_Some (objs s0 !! c) /\ (forall nm1, TcpServer.connection_maps (srv s) !! nm1 = Some (Some c) -> nm1 = nm).
Proof.
  intros L Hm. destruct (lv_maps _ _ _ _ L nm c Hm) as [Hm0 _].
  pose proof (lv_live _ _ _ _ L) as (H1 & _ & _ & _ & _ & _ & _ & H8 & _). split; [by eapply H8|].
  intros nm1 Hm1. destruct (lv_maps _ _ _ _ L nm1 c Hm1) as [Hm10 _]. destruct H1 as (_ & _ & _ & Hn & _).
  destruct (Hn _ _ Hm0) as (c1 & x & [= <-] & Hx & <-). destruct (Hn _ _ Hm10) as (c2 & y & [= <-] & Hy & <-). congruence.
Qed.

(** The server with an entry of its map reset. *)
Definition without_entry (nm : bytes) (s : System.t P) : System.t P :=
  let z := srv s in
  set_srv (TcpServer.mk (TcpServer.name_ z) (TcpServer.ip_port_ z) (TcpServer.loop_ z) (TcpServer.next_conn_id_ z)
    (TcpServer.started_ z) (TcpServer.thread_pool_ z) (<[nm := None]> (TcpServer.connection_maps z)) (TcpServer.conns z)
    (TcpServer.next_ptr z) []) s.

(** What a map with a reset entry still holds. *)
Lemma reset_lookup (m : gmap bytes (option ptr)) nm nm1 c :
  <[nm := None]> m !! nm1 = Some (Some c) <-> nm1 <> nm /\ m !! nm1 = Some (Some c).
Proof. rewrite lookup_insert. case_decide; naive_solver. Qed.

(** Its connection is then neither in the map nor in a queue. *)
Lemma leaving_without s0 pend s nm c : leaving None s0 pend s ->
  TcpServer.connection_maps (srv s) !! nm = Some (Some c) -> leaving (Some c) s0 pend (without_entry nm s).
Proof.
  intros L Hm. destruct (leaving_names _ _ _ _ _ L Hm) as [_ Hn].
  destruct L as [Hs Hq Hobj Hcon Hb Hca Hms Hlo Hp Hnd Hbase].
  split; unfold without_entry; cbn [set_srv srv objs loops TcpServer.conns TcpServer.loop_ TcpServer.calls TcpServer.connection_maps]; try done.
  - intros nm1 d [Hne Hd]%reset_lookup. destruct (Hms _ _ Hd) as [? _]. split; [done|].
    intros [= ->]. by rewrite (Hn nm1 Hd) in Hne.
  - intros l d. rewrite Hp. destruct (decide (d = c)) as [->|Hdc].
    + split; [|by intros (_ & ? & _)]. intros (_ & _ & Hout). by destruct (Hout nm).
    + split; intros (? & _ & Hout); split_and!; try done; try congruence; intros nm1 Hd.
      * apply reset_lookup in Hd as [_ Hd]. by apply (Hout nm1).
      * apply (Hout nm1), reset_lookup. split; [|done]. intros ->. congruence.
Qed.

(** Leaving it to its loop. *)
Lemma leaving_push s0 pend s c o : leaving (Some c) s0 pend s -> objs s0 !! c = Some o ->
  o_loop o <> TcpServer.loop_ (srv s0) -> (forall nm, TcpServer.connection_maps (srv s) !! nm <> Some (Some c)) ->
  leaving None s0 (put (o_loop o) (pend (o_loop o) ++ [c]) pend) (push (o_loop o) [destroyed c] s).
Proof.
  intros [Hs Hq Hobj Hcon Hb Hca Hms Hlo Hp Hnd Hbase] Ho Haway Hout.
  assert (forall l, c ∉ pend l) as Hno by (intros l (_ & ? & _)%Hp; done).
  split; cbn [push srv objs loops]; try done.
  - intros nm d Hd. destruct (Hms _ _ Hd). done.
  - intros l. unfold put. rewrite lookup_alter. case_decide as E.
    + subst l. rewrite decide_True by done. rewrite Hlo. destruct (loops s0 !! o_loop o); [|done]. cbn. f_equal. f_equal.
      by rewrite fmap_app.
    + rewrite decide_False by congruence. apply Hlo.
  - intros l d. unfold put. destruct (decide (d = c)) as [->|Hdc].
    + split; [|intros ((o' & Ho' & <-) & _); assert (o' = o) as -> by congruence; rewrite decide_True by done; apply elem_of_app; right; apply list_elem_of_here].
      case_decide as E; [subst l; intros _; split_and!; eauto|]. intros ?. by destruct (Hno l).
    + assert (d ∈ (if decide (l = o_loop o) then pend (o_loop o) ++ [c] else pend l) <-> d ∈ pend l) as ->.
      { case_decide as E; [|done]. subst l. rewrite elem_of_app, list_elem_of_singleton. naive_solver. }
      rewrite Hp. naive_solver congruence.
  - intros l. unfold put. case_decide as E; [|apply Hnd]. apply list.NoDup_app. split_and!; [apply Hnd| |apply list.NoDup_singleton].
    intros d Hd ->%list_elem_of_singleton. by destruct (Hno (o_loop o)).
  - unfold put. rewrite decide_False by congruence. done.
Qed.

(** One round of the destructor: the entry's connection is destroyed, when it belongs to
    the destructor's thread, or left to its loop. *)
Lemma leaving_entry s0 pend s nm c wa : leaving None s0 pend s ->
  TcpServer.connection_maps (srv s) !! nm = Some (Some c) ->
  exists s0' pend' s', destroy_entry wa nm s = Ok s' /\ leaving None s0' pend' s' /\
    TcpServer.connection_maps (srv s') = <[nm := None]> (TcpServer.connection_maps (srv s)) /\
    TcpServer.loop_ (srv s') = TcpServer.loop_ (srv s) /\
    exists o, objs s0 !! c = Some o /\
      objs s0' = if bool_decide (o_loop o = TcpServer.loop_ (srv s)) then delete c (objs s0) else objs s0.
Proof.
  intros L Hm. destruct (leaving_names _ _ _ _ _ L Hm) as [[o Ho] Hn].
  pose proof (leaving_without _ _ _ _ _ L Hm) as L1.
  destruct (leaving_mid s0 c o (lv_live _ _ _ _ L) (lv_quiet _ _ _ _ L) Ho) as (x & ls & (_ & _ & _ & Hlx & _) & _ & _ & Hx & _).
  rewrite <- (lv_conns _ _ _ _ L) in Hx. pose proof (lv_calls _ _ _ _ L) as Hca.
  assert (forall nm1, TcpServer.connection_maps (srv (without_entry nm s)) !! nm1 <> Some (Some c)) as Hout.
  { intros nm1. cbn. intros [Hne Hd]%reset_lookup. by rewrite (Hn nm1 Hd) in Hne. }
  assert (TcpServer.reset_entry (TcpServer.loop_ (srv s)) nm (srv s) =
    Ok (TcpServer.RunInLoop (TcpServer.loop_ (srv s)) (TcpServer.conn_loop x) (TcpServer.TDestroyed c) id
      (srv (without_entry nm s)))) as Er.
  { unfold TcpServer.reset_entry. rewrite Hm, Hx. unfold without_entry. cbn [srv set_srv]. by rewrite Hca. }
  unfold destroy_entry. rewrite Er. cbn [mbind result_bind]. rewrite Hm. unfold TcpServer.RunInLoop.
  case_bool_decide as Eio.
  - destruct (leaving_destroy _ _ _ _ _ (writes wa) L1 Ho) as (s0' & s' & E & L2 & Hsrv & Hobj).
    exists s0', pend, (release s'). split_and!; [|done|by rewrite Hsrv|by rewrite Hsrv|].
    2:{ exists o. split; [done|]. rewrite bool_decide_eq_true_2 by congruence. exact Hobj. }
    change (hand_out _) with (without_entry nm s). cbn [TcpServer.calls TcpServer.add_call without_entry set_srv srv id existsb app snd orb].
    by rewrite E.
  - pose proof (leaving_push _ _ _ _ _ L1 Ho) as L2.
    assert (o_loop o <> TcpServer.loop_ (srv s0)) as Haway.
    { rewrite <- (lv_base _ _ _ _ L). congruence. }
    specialize (L2 Haway Hout). eexists s0, _, _. split_and!; [|exact L2|done|done|].
    2:{ exists o. split; [done|]. by rewrite bool_decide_eq_false_2 by congruence. }
    cbn [TcpServer.calls TcpServer.add_call without_entry set_srv srv existsb app snd orb].
    rewrite <- (leaving_release _ _ _ L2). rewrite <- Hlx. unfold hand_out. done.
Qed.

Lemma leaving_destroy_all wa order s0 pend s : leaving None s0 pend s -> NoDup order ->
  (forall nm, nm ∈ order -> exists c, TcpServer.connection_maps (srv s) !! nm = Some (Some c)) ->
  exists s0' pend' s', destroy wa order s = Ok s' /\ leaving None s0' pend' s' /\
    TcpServer.loop_ (srv s') = TcpServer.loop_ (srv s) /\
    (forall nm, TcpServer.connection_maps (srv s') !! nm =
      if decide (nm ∈ order) then Some None else TcpServer.connection_maps (srv s) !! nm) /\
    objs s0' ⊆ objs s0 /\
    (forall c o, objs s0 !! c = Some o -> o_loop o <> TcpServer.loop_ (srv s) -> objs s0' !! c = Some o) /\
    (forall nm c o, nm ∈ order -> TcpServer.connection_maps (srv s) !! nm = Some (Some c) ->
       objs s0' !! c = Some o -> o_loop o <> TcpServer.loop_ (srv s)).
Proof.
  revert s0 pend s. induction order as [|nm order IH]; intros s0 pend s L Hnd Hord.
  - exists s0, pend, s. split_and!; try done. by intros nm c o ?%elem_of_nil.
  - apply list.NoDup_cons in Hnd as [Hnin Hnd].
    destruct (Hord nm (list_elem_of_here _ _)) as [c Hm].
    destruct (leaving_names _ _ _ _ _ L Hm) as [_ Hn].
    destruct (leaving_entry _ _ _ _ _ wa L Hm) as (s1 & pend1 & s2 & E & L2 & Hmaps & Hb & o & Ho & Hobj).
    destruct (IH _ _ _ L2 Hnd) as (s3 & pend3 & s4 & E4 & L4 & Hb4 & Hm4 & Hsub & Hkeep & Haway).
    { intros nm1 Hin. destruct (Hord nm1 (list_elem_of_further _ _ _ Hin)) as [d Hd]. exists d.
      rewrite Hmaps, lookup_insert_ne; [done|]. by intros ->. }
    exists s3, pend3, s4. cbn [destroy]. rewrite E. cbn [mbind result_bind].
    assert (objs s1 ⊆ objs s0) as Hsub1 by (rewrite Hobj; case_bool_decide; [apply delete_subseteq|done]).
    split_and!; [done|done|congruence| |by etrans| |].
    + intros nm1. rewrite Hm4, Hmaps, lookup_insert.
      destruct (decide (nm1 ∈ order)) as [Hin|Hin]; [by rewrite decide_True by by right|].
      destruct (decide (nm = nm1)) as [->|Hne]; [by rewrite decide_True by by left|].
      rewrite decide_False; [done|]. intros [->|?]%elem_of_cons; done.
    + intros d o1 Hd Hl. rewrite Hb in Hkeep. apply Hkeep; [|done]. rewrite Hobj. case_bool_decide as Eb; [|done].
      rewrite lookup_delete_ne; [done|]. intros <-. congruence.
    + rewrite Hb in Haway. intros nm1 d o1 Hin Hd Ho1. apply elem_of_cons in Hin as [->|Hin].
      * assert (d = c) as -> by congruence. eapply lookup_weaken in Ho1; [|exact Hsub]. rewrite Hobj in Ho1.
        case_bool_decide as Eb; [by rewrite lookup_delete_eq in Ho1|congruence].
      * eapply Haway; [exact Hin| |exact Ho1]. rewrite Hmaps, lookup_insert_ne; [done|]. by intros ->.
Qed.

(** The whole body: every entry of the map is reset, and what is left are the connections
    of the other loops. *)
Lemma destroy_law wa order s : sinv s -> quiet s = true ->
  order ≡ₚ (map_to_list (TcpServer.connection_maps (srv s))).*1 ->
  exists s0 pend s', destroy wa order s = Ok s' /\ leaving None s0 pend s' /\
    TcpServer.connection_maps (srv s') = (fun _ => None) <$> TcpServer.connection_maps (srv s) /\
    TcpServer.loop_ (srv s') = TcpServer.loop_ (srv s) /\
    (forall c o, objs s' !! c = Some o <-> objs s !! c = Some o /\ o_loop o <> TcpServer.loop_ (srv s)).
Proof.
  intros Hs Hq Hord. pose proof (proj1 (quiet_queues s) Hq) as Hqs.
  assert (forall nm, nm ∈ order <-> is_Some (TcpServer.connection_maps (srv s) !! nm)) as Hin.
  { intros nm. rewrite Hord, list_elem_of_fmap. split.
    - intros ([? e] & -> & He%elem_of_map_to_list). by exists e.
    - intros [e He%elem_of_map_to_list]. by exists (nm, e). }
  assert (forall nm e, TcpServer.connection_maps (srv s) !! nm = Some e -> exists c, e = Some c) as Hnn.
  { intros nm e He. destruct Hs as ((_ & _ & _ & Hn & _) & _). destruct (Hn _ _ He) as (c & _ & -> & _). by eexists. }
  destruct (leaving_destroy_all wa order s _ s (leaving_start s Hs Hqs)) as
    (s0 & pend & s' & E & L & Hb & Hm & Hsub & Hkeep & Haway).
  { rewrite Hord. apply NoDup_fst_map_to_list. }
  { intros nm [e He]%Hin. destruct (Hnn _ _ He) as [c ->]. by exists c. }
  exists s0, pend, s'. split; [done|]. split; [done|]. split; [|split; [done|]].
  - apply map_eq. intros nm. rewrite Hm, lookup_fmap. destruct (decide (nm ∈ order)) as [Hi|Hi].
    + apply Hin in Hi as [e ->]. done.
    + rewrite Hin in Hi. by apply eq_None_not_Some in Hi as ->.
  - intros c o. rewrite (lv_objs _ _ _ _ L). split; [|by intros [? ?]; apply Hkeep].
    intros Ho. pose proof (lookup_weaken _ _ _ _ Ho Hsub) as Hs0. split; [done|].
    destruct (quiet_law s c o Hs Hqs Hs0) as (x & _ & _ & Hmx & _).
    eapply Haway; [|exact Hmx|exact Ho]. apply Hin. by eexists.
Qed.

(** ** The loops' last turns *)

(** What waits in a queue is the destruction of the connections left to its loop. *)
Lemma leaving_queue s0 pend s l : leaving None s0 pend s -> queue_of l s = destroyed <$> pend l.
Proof.
  intros L. unfold queue_of. rewrite (lv_loops _ _ _ _ L).
  destruct (loops s0 !! l) as [ls|] eqn:Hls; [done|]. cbn. destruct (pend l) as [|c cs] eqn:Hc; [done|].
  assert (c ∈ pend l) as ((o & Ho & <-) & _)%(lv_pend _ _ _ _ L) by (rewrite Hc; apply list_elem_of_here).
  destruct (quiet_law s0 c o (lv_live _ _ _ _ L) (lv_quiet _ _ _ _ L) Ho) as (x & ls & _ & _ & _ & Hls' & _). congruence.
Qed.

(** The map holds nothing any more. *)
Definition all_reset (s : System.t P) : Prop := forall nm c, TcpServer.connection_maps (srv s) !! nm <> Some (Some c).

Lemma leaving_waits s0 pend s c o : leaving None s0 pend s -> all_reset s ->
  objs s !! c = Some o -> c ∈ pend (o_loop o).
Proof.
  intros L Hm Ho. rewrite (lv_objs _ _ _ _ L) in Ho. apply (lv_pend _ _ _ _ L).
  split_and!; [by exists o|done|]. intros nm. apply Hm.
Qed.

Lemma leaving_end sched s0 pend s1 : leaving None s0 pend s1 -> all_reset s1 ->
  exists s2, run (runs_of sched) s1 = Ok s2 /\
    ((forall l ls, loops s1 !! l = Some ls -> (length (l_queue ls) <= turns l sched)%nat) ->
     objs s2 = ∅ /\ quiet s2 = true /\
     forall l ls fd, loops s2 !! l = Some ls ->
       interest (CB := TcpConnection.handler) (OBJ := unit) (l_poller ls) fd = 0).
Proof.
  intros L Hm. destruct (leaving_run sched _ _ _ L) as (s4 & s2 & E2 & L2 & Hsrv). exists s2. split; [done|].
  intros Ht. assert (forall l, drop (turns l sched) (pend l) = []) as Hnil.
  { intros l. apply drop_ge. pose proof (leaving_queue _ _ _ l L) as Hl1. unfold queue_of in Hl1.
    destruct (loops s1 !! l) as [ls|] eqn:Hls; cbn in Hl1.
    - rewrite <- (length_fmap destroyed (pend l)), <- Hl1. by apply Ht.
    - by destruct (pend l); [cbn; lia|]. }
  assert (objs s2 = ∅) as Hempty.
  { apply map_empty. intros c. destruct (objs s2 !! c) as [o|] eqn:Ho; [|done]. exfalso.
    apply (leaving_waits _ _ _ _ _ L2) in Ho; [|unfold all_reset; by rewrite Hsrv]. rewrite Hnil in Ho. by apply elem_of_nil in Ho. }
  split_and!; [done| |].
  - apply quiet_queues. intros l ls Hls. pose proof (leaving_queue _ _ _ l L2) as Hq2. cbv beta in Hq2.
    rewrite Hnil in Hq2.
    unfold queue_of in Hq2. by rewrite Hls in Hq2.
  - intros l ls fd Hls. rewrite (lv_loops _ _ _ _ L2) in Hls. apply fmap_Some in Hls as (ls0 & Hls0 & ->). cbn.
    eapply (unwatched_fd s4); [apply (lv_live _ _ _ _ L2)|done|]. intros c x [o Ho].
    by rewrite <- (lv_objs _ _ _ _ L2), Hempty in Ho.
Qed.

End Facts.
End TeardownFacts.

(** * Properties *)
Module TeardownProps.
Import System SystemFacts SystemSteps SystemLaws Teardown TeardownFacts.

Section Props.
Context {P : Type} `{!Poller (CB := TcpConnection.handler) (OBJ := unit) P}
  `{!PollerLaws (CB := TcpConnection.handler) (OBJ := unit) P} `{!App, !AppLaws}.

(** C6: Taking down a server in whose queues nothing waits never fails, in whatever order
    its map is gone through: every entry of the map is still there, reset to null, the
    connections of the server's own loop are gone when the destructor's body ends, every
    other one is left, and what waits in the queue of a loop is the destruction of each of
    that loop's connections, once. From there, if no descriptor reports anything meanwhile,
    the loops can take turns in any order without a fault, and when each has had a turn for
    every functor it was left, every connection is destroyed and no loop watches any
    descriptor. *)
Theorem server_is_taken_down z (ps : gmap ptr P) es s wa order :
  started z ps -> legal es (initial z ps) -> run es (initial z ps) = Ok s -> quiet s = true ->
  order ≡ₚ (map_to_list (TcpServer.connection_maps (srv s))).*1 ->
  exists s1 pend, destroy wa order s = Ok s1 /\
    TcpServer.connection_maps (srv s1) = (fun _ => None) <$> TcpServer.connection_maps (srv s) /\
    (forall c o, objs s1 !! c = Some o <-> objs s !! c = Some o /\ o_loop o <> TcpServer.loop_ (srv s)) /\
    (forall l, queue_of l s1 = destroyed <$> pend l /\ NoDup (pend l) /\
       forall c, c ∈ pend l <-> exists o, objs s1 !! c = Some o /\ o_loop o = l) /\
    forall sched, exists s2, run (runs_of sched) s1 = Ok s2 /\
      ((forall l ls, loops s1 !! l = Some ls -> (length (l_queue ls) <= turns l sched)%nat) ->
       objs s2 = ∅ /\ quiet s2 = true /\
       forall l ls fd, loops s2 !! l = Some ls ->
         interest (CB := TcpConnection.handler) (OBJ := unit) (l_poller ls) fd = 0).
Proof.
  intros Hst Hl Hr Hq Hord. destruct (run_ok es _ (started_sinv _ _ Hst) Hl) as (s0 & E & Hs).
  assert (s0 = s) as -> by congruence.
  destruct (destroy_law wa order s Hs Hq Hord) as (s3 & pend & s1 & E1 & L & Hm & Hb & Hob).
  assert (all_reset s1) as Hreset by (intros nm c; rewrite Hm, lookup_fmap; by destruct (_ !! nm)).
  exists s1, pend. split; [done|]. split; [done|]. split; [done|]. split; [|intros sched; by eapply leaving_end].
  intros l. split; [by eapply leaving_queue|]. split; [by eapply lv_nodup|].
  intros c. rewrite (lv_pend _ _ _ _ L), <- (lv_objs _ _ _ _ L). split; [by intros (? & _)|].
  intros Ho. split_and!; [done|done|]. intros nm. apply Hreset.
Qed.

End Props.

(** ** The echo server on three loops, with one connection *)

Import EpollPoller EpollFacts SystemProps.
#[local] Existing Instance EchoServer.echo_app.
#[local] Existing Instance echo_laws.

Definition order_of (s : System.t EP) : list bytes := (map_to_list (TcpServer.connection_maps (srv s))).*1.

(** Case analysis on the loops of a concrete server. *)
Ltac each_loop Hl :=
  match type of Hl with _ ∈ map_to_list ?m =>
    let v := eval vm_compute in (map_to_list m) in
    let E := fresh in assert (map_to_list m = v) as E by reflexivity; rewrite E in Hl; clear E
  end;
  repeat (apply elem_of_cons in Hl as [[= -> ->]|Hl]; [vm_compute; lia|]); by apply elem_of_nil in Hl.

Lemma server_is_taken_down_witness :
  exists s1 s2, destroy (WTake 0) (order_of (after sending)) (after sending) = Ok s1 /\
    run (runs_of [(3%positive, WTake 0); (2%positive, WTake 0)]) s1 = Ok s2 /\ objs s2 = ∅.
Proof.
  destruct (server_is_taken_down (P := EP) _ _ sending (after sending) (WTake 0) (order_of (after sending))
    sample_started sending_legal) as (s1 & pend & E & _ & _ & _ & Hs); [run_it|run_it|done|].
  destruct (Hs [(3%positive, WTake 0); (2%positive, WTake 0)]) as (s2 & E2 & Hend).
  exists s1, s2. split; [exact E|]. split; [exact E2|]. apply Hend. intros l ls Hl.
  clear Hs E2 Hend. vm_compute in E. apply Ok_inj in E. rewrite <- E in Hl. clear E.
  apply elem_of_map_to_list in Hl. each_loop Hl.
Defined.

(** When a peer leaves between the destructor's body and the last turn of its loop, the
    close callback, which is bound to the server, leaves a functor in the base loop that
    is bound to it as well: it must not run any more. *)
Definition leaving_server : System.t EP :=
  match destroy (WTake 0) (order_of (after sending)) (after sending) with Ok s => s | Err _ => after sending end.

Example close_while_leaving :
  match step (EvIo 1%positive Channel.POLLIN (RGive []) (WTake 0) (WTake 0)) leaving_server with
  | Ok s => queue_of 1%positive s = [FServer (TcpServer.TRemoveInLoop 1%positive)] /\
      queue_of 2%positive s = [destroyed 1%positive]
  | Err _ => False
  end.
Proof. vm_compute. by split. Qed.

End TeardownProps.
