(* ===== verification/SystemEffects.v ===== *)
(** What the steps of System.v leave alone, whatever they are given: the lemmas follow the
    code of each step and assume nothing about the state. *)
From Stdlib Require Import ZArith Lia Ascii.
From stdpp Require Import base gmap list option strings.
From S2P Require Import Prelude Buffer Channel Poller EventLoop TcpConnection ThreadPool Net TcpServer.
From S2P Require Import System SystemFacts SystemSteps SystemProps Teardown.

Local Open Scope Z_scope.

Module SystemEffects.
Import System SystemFacts SystemSteps SystemLaws.

Section Effects.
Context {P : Type} `{!Poller (CB := TcpConnection.handler) (OBJ := unit) P} `{!App}.
Implicit Types (s : System.t P) (c d l : ptr).

(** What code about connection [c] may change: no connection object appears or goes, each
    keeps its server entry and all but [c] their state; queues only get longer. *)
Record touches (c : ptr) (s s1 : System.t P) : Prop := {
  to_conns : TcpServer.conns (srv s1) = TcpServer.conns (srv s);
  to_alive : forall d, is_Some (objs s1 !! d) <-> is_Some (objs s !! d);
  to_others : forall d, d <> c -> objs s1 !! d = objs s !! d;
  to_queues : forall l, exists fs, queue_of l s1 = queue_of l s ++ fs;
  to_loops : forall l, is_Some (loops s1 !! l) <-> is_Some (loops s !! l);
}.

#[export] Instance touches_preorder c : PreOrder (touches c).
Proof.
  split.
  - intros s. split; try done. intros l. exists []. by rewrite app_nil_r.
  - intros s1 s2 s3 [A1 A2 A3 A4 A5] [B1 B2 B3 B4 B5]. split.
    + congruence.
    + intros d. by rewrite B2.
    + intros d Hd. by rewrite B3, A3.
    + intros l. destruct (A4 l) as [fs E], (B4 l) as [fs' E']. exists (fs ++ fs'). by rewrite E', E, app_assoc.
    + intros l. by rewrite B5.
Qed.

(** A change of the server that keeps its connections. *)
Lemma touches_srv c z s : TcpServer.conns z = TcpServer.conns (srv s) -> touches c s (set_srv z s).
Proof. intros E. split; try done. intros l. exists []. by rewrite app_nil_r. Qed.

Lemma touches_push c l fs s : touches c s (push l fs s).
Proof.
  split; try done.
  - intros l1. unfold queue_of, push. cbn. rewrite lookup_alter. case_decide as E; [|exists []; by rewrite app_nil_r].
    subst l1. destruct (loops s !! l); [by exists fs|by exists []].
  - intros l1. unfold push. cbn. by rewrite lookup_alter_is_Some.
Qed.

Lemma touches_fold {A} c (f : System.t P -> A -> System.t P) xs s :
  (forall s x, touches c s (f s x)) -> touches c s (foldl f s xs).
Proof. intros Hf. revert s. induction xs as [|x xs IH]; intros s; [done|]. etransitivity; [apply Hf|apply IH]. Qed.

Lemma touches_hand_out c s : touches c s (hand_out s).
Proof.
  unfold hand_out. etransitivity; [by apply (touches_srv c (TcpServer.take_calls (srv s)))|].
  apply touches_fold. intros s1 [[l k] []]; [done|apply touches_push].
Qed.

Lemma RemoveconnectionInLoop_conns c z : TcpServer.conns (TcpServer.RemoveconnectionInLoop c z) = TcpServer.conns z.
Proof. unfold TcpServer.RemoveconnectionInLoop. by destruct (TcpServer.conns z !! c). Qed.

Lemma touches_close here c s : touches c s (close here c s).
Proof.
  unfold close. etransitivity; [|apply touches_hand_out]. apply touches_srv.
  unfold TcpServer.RemoveConnection, TcpServer.RunInLoop. case_bool_decide; [|done].
  by rewrite RemoveconnectionInLoop_conns.
Qed.

Lemma touches_on_conn c op s s1 : on_conn c op s = Ok s1 -> touches c s s1.
Proof.
  unfold on_conn. destruct (objs s !! c) as [o|] eqn:Ho; [|done].
  destruct (loops s !! o_loop o) as [ls|] eqn:Hls; [|done].
  destruct (op (enter o ls)) as [w|]; [|done]. cbn. intros [= <-].
  transitivity (leave c o ls w s); [|apply touches_fold; intros; apply touches_close]. split; [done|..].
  - intros d. cbn. rewrite lookup_insert_is_Some'. split; [intros [->|?]; [by eexists|done]|by right].
  - intros d Hd. cbn. by rewrite lookup_insert_ne.
  - intros l. unfold queue_of, leave. cbn. rewrite lookup_insert. case_decide as E.
    + subst l. rewrite Hls. by eexists.
    + exists []. by rewrite app_nil_r.
  - intros l. cbn. rewrite lookup_insert_is_Some'. split; [intros [<-|?]; [by eexists|done]|by right].
Qed.

Lemma touches_deliver c dt lost s : touches c s (deliver c dt lost s).
Proof.
  split; try done.
  - intros d. cbn. by rewrite lookup_alter_is_Some.
  - intros d Hd. cbn. by rewrite lookup_alter_ne.
  - intros l. exists []. by rewrite app_nil_r.
Qed.

Lemma touches_invoke rd rw ww c h s s1 : invoke rd rw ww c h s = Ok s1 -> touches c s s1.
Proof.
  destruct h; cbn; [|apply touches_on_conn..].
  intros Hr%touches_on_conn. etransitivity; [apply touches_deliver|exact Hr].
Qed.

Lemma touches_set_revents c r s : touches c s (set_revents c r s).
Proof.
  unfold set_revents. destruct (objs s !! c) as [o|]; [|done]. split; try done.
  - intros l. exists []. rewrite app_nil_r. unfold queue_of. cbn. rewrite lookup_alter. case_decide as E; [|done].
    subst l. by destruct (loops s !! o_loop o).
  - intros l. cbn. by rewrite lookup_alter_is_Some.
Qed.

Lemma touches_handle_io c r rd rw ww s s1 : handle_io c r rd rw ww s = Ok s1 -> touches c s s1.
Proof.
  intros Hr. transitivity (set_revents c r s); [apply touches_set_revents|]. revert Hr.
  apply ChannelFacts.HandleEvent_keeps; [apply _|]. intros f w w'. apply touches_invoke.
Qed.

(** A functor touches the connection it is about. *)
Lemma touches_run_functor wa f c s s1 : about f = Some c \/ about f = None -> run_functor wa f s = Ok s1 ->
  touches c s s1.
Proof.
  destruct f as [[|c'|c'|c']|c' k]; cbn; intros [Ha|Ha]; try done; try (injection Ha as ->);
    try apply touches_on_conn; intros [= <-]; [done|].
  etransitivity; [|apply touches_hand_out]. apply touches_srv, RemoveconnectionInLoop_conns.
Qed.

Lemma pop_queue_spec l s f s1 : pop_queue l s = Some (f, s1) ->
  queue_of l s = f :: queue_of l s1 /\ srv s1 = srv s /\ objs s1 = objs s /\
  (forall l', l' <> l -> queue_of l' s1 = queue_of l' s) /\
  forall l', is_Some (loops s1 !! l') <-> is_Some (loops s !! l').
Proof.
  unfold pop_queue, queue_of. destruct (loops s !! l) as [ls|] eqn:Hl; [|done].
  destruct (l_queue ls) as [|f' q] eqn:Hq; [done|]. intros [= -> <-]. cbn. rewrite lookup_insert_eq. cbn.
  rewrite Hq. split_and!; try done.
  - intros l' Hne. by rewrite lookup_insert_ne.
  - intros l'. rewrite lookup_insert_is_Some'. split; [intros [<-|?]; [by eexists|done]|by right].
Qed.

(** ** Steps *)

Definition accepts (e : System.event) : bool := match e with EvAccept _ => true | _ => false end.

(** No connection object appears, and each keeps its descriptor. *)
Definition shrinks s s1 : Prop :=
  TcpServer.conns (srv s1) = TcpServer.conns (srv s) /\
  forall d, is_Some (objs s1 !! d) -> is_Some (objs s !! d).

#[export] Instance shrinks_preorder : PreOrder shrinks.
Proof. split; [done|]. intros s1 s2 s3 [E1 H1] [E2 H2]. split; [congruence|]. auto. Qed.

Lemma touches_shrinks c s s1 : touches c s s1 -> shrinks s s1.
Proof. intros Ht. split; [apply (to_conns _ _ _ Ht)|]. intros d. apply (to_alive _ _ _ Ht). Qed.

Lemma shrinks_release s : shrinks s (release s).
Proof. split; [done|]. intros d [o Ho]. apply map_lookup_filter_Some in Ho as [Ho _]. by eexists. Qed.

Lemma shrinks_act e s s1 : accepts e = false -> act e s = Ok s1 -> shrinks s s1.
Proof.
  destruct e as [fd|c r rd rw ww|l wa|c k]; cbn; intros Hne; [done|..].
  - intros Hr. by eapply touches_shrinks, touches_handle_io.
  - destruct (pop_queue l s) as [[f s2]|] eqn:E; [|by intros [= <-]].
    apply pop_queue_spec in E as (_ & E1 & E2 & _). intros Hr.
    transitivity s2; [split; [by rewrite E1|by rewrite E2]|].
    eapply (touches_shrinks (default 1%positive (about f))), touches_run_functor; [|exact Hr].
    destruct (about f); [by left|by right].
  - destruct (objs s !! c); by intros [= <-].
Qed.

Lemma shrinks_step e s s1 : accepts e = false -> System.step e s = Ok s1 -> shrinks s s1.
Proof.
  intros Ha. unfold System.step. destruct (act e s) as [s2|] eqn:E; [|done]. intros [= <-].
  etransitivity; [by eapply shrinks_act|apply shrinks_release].
Qed.

Lemma reset_entry_conns here nm z z' : TcpServer.reset_entry here nm z = Ok z' -> TcpServer.conns z' = TcpServer.conns z.
Proof.
  unfold TcpServer.reset_entry, TcpServer.RunInLoop.
  destruct (TcpServer.connection_maps z !! nm) as [[c|]|]; [|done|by intros [= <-]].
  destruct (TcpServer.conns z !! c); [|done]. intros [= <-]. by case_bool_decide.
Qed.

Lemma shrinks_destroy wa order s s1 : Teardown.destroy wa order s = Ok s1 -> shrinks s s1.
Proof.
  revert s. induction order as [|nm order IH]; intros s; cbn; [by intros [= <-]|].
  unfold Teardown.destroy_entry.
  destruct (TcpServer.reset_entry _ nm _) as [x|] eqn:Ex; [|done]. cbn [mbind result_bind].
  assert (forall c, shrinks s (hand_out (set_srv x s))) as Hx.
  { intros c. apply (touches_shrinks c). etransitivity; [|apply touches_hand_out]. by eapply touches_srv, reset_entry_conns. }
  destruct (match _ with Some (Some _) => _ | _ => _ end) as [s2|] eqn:E2; [|done]. cbn. intros Hr%IH.
  assert (shrinks s s2) as Hk.
  { destruct (TcpServer.connection_maps (srv s) !! nm) as [[c|]|]; [|by injection E2 as <-..].
    destruct (existsb _ _); [|injection E2 as <-; by apply Hx].
    etransitivity; [by apply Hx|by eapply touches_shrinks, touches_on_conn]. }
  transitivity s2; [done|]. transitivity (release s2); [apply shrinks_release|exact Hr].
Qed.

(** Accepting adds one connection, with the new descriptor, and is otherwise only about
    that. *)
Lemma accept_adds fd s s1 : accept fd s = Ok s1 -> let c := TcpServer.next_ptr (srv s) in
  (exists nm io, TcpServer.conns (srv s1) = <[c := TcpServer.mk_conn nm io fd]> (TcpServer.conns (srv s))) /\
  (forall d, is_Some (objs s1 !! d) <-> d = c \/ is_Some (objs s !! d)) /\
  (forall d, d <> c -> objs s1 !! d = objs s !! d) /\
  (forall l, exists fs, queue_of l s1 = queue_of l s ++ fs) /\
  forall l, is_Some (loops s1 !! l) <-> is_Some (loops s !! l).
Proof.
  unfold accept, TcpServer.NewConnection. destruct (EventLoopThreadPool.GetNextLoop _) as [[io pool]|]; [|done].
  cbn. intros Hr. set (c := TcpServer.next_ptr (srv s)) in *.
  unfold TcpServer.RunInLoop in Hr. set (x := if bool_decide _ then _ else _) in Hr.
  assert (TcpServer.conns x = <[c := TcpServer.mk_conn (TcpServer.make_name (srv s) (TcpServer.next_conn_id_ (srv s))) io fd]>
    (TcpServer.conns (srv s))) as Hx by (subst x; by case_bool_decide).
  rewrite Hx, lookup_insert_eq in Hr. cbn in Hr. destruct (loops s !! io) as [ls|] eqn:Hls; [|done].
  destruct (TcpConnection.construct _ _ _ _ _) as [w|]; [|done]. cbn in Hr.
  set (s0 := leave _ _ _ _ _) in Hr.
  assert (touches c s0 s1) as [T1 T2 T3 T4 T5].
  { destruct (existsb _ _); [|injection Hr as <-; apply touches_hand_out].
    etransitivity; [apply touches_hand_out|by eapply touches_on_conn]. }
  split_and!.
  - eexists _, _. rewrite T1. exact Hx.
  - intros d. rewrite T2. cbn. rewrite lookup_insert_is_Some'. naive_solver.
  - intros d Hd. rewrite T3 by done. cbn. by rewrite lookup_insert_ne.
  - intros l. destruct (T4 l) as [fs ->]. unfold queue_of, s0, leave. cbn. rewrite lookup_insert. case_decide as E.
    + subst l. rewrite Hls. cbn. rewrite <- app_assoc. by eexists.
    + by eexists.
  - intros l. rewrite T5. cbn. rewrite lookup_insert_is_Some'. split; [intros [<-|?]; [by eexists|done]|by right].
Qed.

End Effects.
End SystemEffects.
