(* ===== verification/Descriptors.v ===== *)
(** The descriptors of a running server (src/acceptor.cc, src/socket.cc,
    src/socket_utils.cc and src/tcp_server.cc with the whole server of System.v): the
    kernel's table of open descriptors through the acceptances, the connections' sockets and
    their destructors. Everything System.v does is done here to the same state; what is
    added is which descriptor is open, with which options, and who closes it. *)
From Stdlib Require Import ZArith Lia Ascii.
From stdpp Require Import base gmap list option strings.
From S2P Require Import Prelude Buffer Channel Poller EpollPoller EventLoop TcpConnection ThreadPool Net TcpServer.
From S2P Require Import System SystemFacts Echo SystemSteps SystemProps Teardown SystemEffects.

Local Open Scope Z_scope.

Module Descriptors.
Import System.

Section Descriptors.
Context {P : Type} `{!Poller (CB := TcpConnection.handler) (OBJ := unit) P} `{!App} {any : Type}.

(** The server of System.v, its acceptor, the open descriptors, and the part of each
    connection object that has its socket. *)
Record t := mk {
  sys : System.t P;
  acceptor_ : Acceptor.t;
  fds : Socket.fds;
  sockets : gmap ptr (ConnectionSocket.t any);
}.

(** Whether the connection's code has called [socket_->ShutdownWrite()]. *)
Definition shut (s : System.t P) (c : ptr) : bool :=
  match objs s !! c with Some o => o_shut o | None => false end.

(** The value its code has last given to [socket_->SetTcpNoDelay]. *)
Definition no_delay (s : System.t P) (c : ptr) : bool :=
  match objs s !! c with Some o => TcpConnection.no_delay_ (o_conn o) | None => false end.

(** What a step that leaves the server at [s] means for one connection's descriptor: the
    socket is destroyed with the connection, and half closed or sent without delay when the
    connection asked for it. *)
Definition exists_ (s : System.t P) (c : ptr) : bool := bool_decide (is_Some (objs s !! c)).

Definition settle (s : System.t P) (k : Socket.fds) (e : ptr * ConnectionSocket.t any) : Socket.fds :=
  if exists_ s e.1 then
    let k := if shut s e.1 then Socket.ShutdownWrite (ConnectionSocket.socket_ e.2) true k else k in
    ConnectionSocket.SetTcpNoDelay (no_delay s e.1) e.2 k
  else ConnectionSocket.destruct_ e.2 k.

Definition finish (s : System.t P) (a : Acceptor.t) (k : Socket.fds)
    (socks : gmap ptr (ConnectionSocket.t any)) : t :=
  mk s a (foldl (settle s) k (map_to_list socks)) (filter (fun kv => exists_ s kv.1 = true) socks).

(** The listening descriptor is readable: [Acceptor::HandleRead], which calls
    [TcpServer::NewConnection] with what [accept4] answered; its connection's constructor
    takes the descriptor over. *)
Definition HandleRead (accept4 : option (Z * InetAddr.t)) (getsockname : option InetAddr.t) (d : t) :
    result t :=
  '(h, k) ← Acceptor.HandleRead accept4 (acceptor_ d) (fds d);
  match h with
  | None => Ok (mk (sys d) (acceptor_ d) k (sockets d))
  | Some (sockfd, peer_addr) =>
      let local_addr := SocketUtils.GetLocalAddr getsockname in
      let '(sk, k) := ConnectionSocket.construct sockfd local_addr peer_addr k in
      let c := TcpServer.next_ptr (srv (sys d)) in
      s ← System.step (EvAccept sockfd) (sys d);
      Ok (finish s (acceptor_ d) k (<[c := sk]> (sockets d)))
  end.

(** What can happen: a connection to accept, or another step of the server. *)
Inductive event :=
  | EvConnect (accept4 : option (Z * InetAddr.t)) (getsockname : option InetAddr.t)
  | EvServer (e : System.event).

Definition step (e : event) (d : t) : result t :=
  match e with
  | EvConnect a g => HandleRead a g d
  | EvServer e => s ← System.step e (sys d); Ok (finish s (acceptor_ d) (fds d) (sockets d))
  end.

Fixpoint run (es : list event) (d : t) : result t :=
  match es with
  | [] => Ok d
  | e :: es => d ← step e d; run es d
  end.

(** [TcpServer::~TcpServer] up to its members; the descriptors its rounds close are closed
    when it ends. *)
Definition destroy (wa : write_answer) (order : list bytes) (d : t) : result t :=
  s ← Teardown.destroy wa order (sys d);
  Ok (finish s (acceptor_ d) (fds d) (sockets d)).

(** A started server that listens, among the descriptors [k] of its process. *)
Definition initial (z : TcpServer.t) (ps : gmap ptr P) (a : Acceptor.t) (k : Socket.fds) : t :=
  mk (System.initial z ps) a k ∅.

End Descriptors.
Arguments t _ _ : clear implicits.
End Descriptors.

(** * Lemmas *)
Module DescriptorsFacts.
Import System SystemFacts SystemSteps SystemLaws SystemEffects Descriptors.

(** ** Settling the descriptors *)

Section Settle.
Context {P : Type} `{!Poller (CB := TcpConnection.handler) (OBJ := unit) P} `{!App} {any : Type}.
Implicit Types (s : System.t P) (k : Socket.fds) (e : ptr * ConnectionSocket.t any) (c : ptr) (fd : Z).

Lemma settle_ne s k e fd : ConnectionSocket.socket_ e.2 <> fd -> settle s k e !! fd = k !! fd.
Proof.
  intros Hne. unfold settle, ConnectionSocket.destruct_, Socket.destruct_, Socket.ShutdownWrite.
  destruct (exists_ s e.1); [|by rewrite lookup_delete_ne].
  unfold ConnectionSocket.SetTcpNoDelay, Socket.SetTcpNoDelay, Socket.setsockopt. rewrite lookup_alter_ne by done.
  destruct (shut s e.1); [|done]. by rewrite lookup_alter_ne.
Qed.

(** What it makes of its own descriptor. *)
Definition settled s c (f : Socket.sock) : Socket.sock :=
  Socket.with_opt Socket.TCP_NODELAY (no_delay s c) (if shut s c then Socket.set_shut_wr f else f).

Lemma settle_at s k e : settle s k e !! ConnectionSocket.socket_ e.2 =
  if exists_ s e.1 then settled s e.1 <$> k !! ConnectionSocket.socket_ e.2 else None.
Proof.
  unfold settle, ConnectionSocket.destruct_, Socket.destruct_, Socket.ShutdownWrite.
  destruct (exists_ s e.1); [|by rewrite lookup_delete_eq].
  unfold ConnectionSocket.SetTcpNoDelay, Socket.SetTcpNoDelay, Socket.setsockopt. rewrite lookup_alter_eq.
  unfold settled. destruct (no_delay s e.1), (shut s e.1); rewrite ?lookup_alter_eq;
    by destruct (k !! ConnectionSocket.socket_ e.2).
Qed.

Lemma settle_other s fd es k : (forall e, e ∈ es -> ConnectionSocket.socket_ e.2 <> fd) ->
  foldl (settle s) k es !! fd = k !! fd.
Proof.
  revert k. induction es as [|e es IH]; intros k Hne; [done|]. cbn. rewrite IH.
  - apply settle_ne, Hne, list_elem_of_here.
  - intros e' He. by apply Hne, list_elem_of_further.
Qed.

(** A connection's descriptor is settled once. *)
Lemma settle_here s e es k : NoDup es -> e ∈ es ->
  (forall e', e' ∈ es -> ConnectionSocket.socket_ e'.2 = ConnectionSocket.socket_ e.2 -> e' = e) ->
  foldl (settle s) k es !! ConnectionSocket.socket_ e.2 = settle s k e !! ConnectionSocket.socket_ e.2.
Proof.
  revert k. induction es as [|e1 es IH]; intros k Hnd He Hinj; [by apply elem_of_nil in He|].
  apply list.NoDup_cons in Hnd as [Hnin Hnd]. cbn. destruct (decide (ConnectionSocket.socket_ e1.2 = ConnectionSocket.socket_ e.2)) as [E1|Hfd].
  - apply (Hinj e1 (list_elem_of_here _ _)) in E1 as ->. apply settle_other. intros e' He' E. apply Hnin.
    by rewrite <- (Hinj e' (list_elem_of_further _ _ _ He') E).
  - apply elem_of_cons in He as [->|He]; [done|]. rewrite IH; [|done|done|].
    + rewrite !settle_at. by rewrite settle_ne.
    + intros e' He'. by apply Hinj, list_elem_of_further.
Qed.

Lemma exists_spec s c : exists_ s c = true <-> is_Some (objs s !! c).
Proof. apply bool_decide_eq_true. Qed.

End Settle.

(** ** The invariant *)

(** The options every accepted socket has: those [Acceptor::HandleRead] and the constructor
    of its connection set. It is in blocking mode. *)
Definition served (f : Socket.sock) : Prop :=
  Socket.nonblocking f = false /\ Socket.reuse_addr f = true /\ Socket.reuse_port f = true /\
  Socket.keep_alive f = true.

Section Invariant.
Context {P : Type} `{!Poller (CB := TcpConnection.handler) (OBJ := unit) P}
  `{!PollerLaws (CB := TcpConnection.handler) (OBJ := unit) P} `{!App, !AppLaws} {any : Type}.
Abbreviation state := (Descriptors.t P any).

(** The acceptor and the descriptors that were open when the server began to listen. *)
Context (a : Acceptor.t) (k0 : Socket.fds) (f0 : Socket.sock).
Hypothesis a_callback : Acceptor.new_connection_callback_ a = true.
Hypothesis a_open : k0 !! Acceptor.accept_fd a = Some f0.
Implicit Types (d : state) (s : System.t P) (k : Socket.fds) (c : ptr) (fd : Z).
Implicit Types (socks : gmap ptr (ConnectionSocket.t any)).

(** The descriptors [k] with connections that have the sockets [socks]: each has its own,
    the one its server entry and so its channel has, open since it was accepted; no
    other descriptor was touched but the listening one. *)
Record owned (z : TcpServer.t) (k : Socket.fds) socks : Prop := {
  ow_fd : forall c sk, socks !! c = Some sk ->
    exists x, TcpServer.conns z !! c = Some x /\ TcpServer.conn_fd x = ConnectionSocket.socket_ sk;
  ow_new : forall c sk, socks !! c = Some sk -> k0 !! ConnectionSocket.socket_ sk = None;
  ow_open : forall c sk, socks !! c = Some sk ->
    exists f, k !! ConnectionSocket.socket_ sk = Some f /\ served f;
  ow_inj : forall c c' sk sk', socks !! c = Some sk -> socks !! c' = Some sk' ->
    ConnectionSocket.socket_ sk = ConnectionSocket.socket_ sk' -> c = c';
  ow_rest : forall fd, fd <> Acceptor.accept_fd a ->
    (forall c sk, socks !! c = Some sk -> ConnectionSocket.socket_ sk <> fd) -> k !! fd = k0 !! fd;
  ow_listen : exists f, k !! Acceptor.accept_fd a = Some f /\
    Socket.set_nonblocking f = Socket.set_nonblocking f0;
}.

(** The descriptors go with the connection objects. *)
Record kept (d : state) : Prop := {
  kp_acceptor : acceptor_ d = a;
  kp_objs : forall c, is_Some (sockets d !! c) <-> is_Some (objs (sys d) !! c);
  kp_owned : owned (srv (sys d)) (fds d) (sockets d);
  kp_shut : forall c sk f, sockets d !! c = Some sk -> shut (sys d) c = true ->
    fds d !! ConnectionSocket.socket_ sk = Some f -> Socket.shut_wr f = true;
  kp_delay : forall c sk f, sockets d !! c = Some sk ->
    fds d !! ConnectionSocket.socket_ sk = Some f -> Socket.tcp_no_delay f = no_delay (sys d) c;
}.

Definition dinv (d : state) : Prop := sinv (sys d) /\ kept d.

Lemma owned_listen z k socks c sk : owned z k socks -> socks !! c = Some sk ->
  ConnectionSocket.socket_ sk <> Acceptor.accept_fd a.
Proof. intros Hk Hc E. pose proof (ow_new _ _ _ Hk _ _ Hc) as Hn. rewrite E in Hn. congruence. Qed.

Lemma owned_same z z1 k socks : owned z k socks -> TcpServer.conns z1 = TcpServer.conns z -> owned z1 k socks.
Proof. intros [] E. split; try done. by rewrite E. Qed.

(** The end of a step closes the descriptors of the connections that are gone, and only
    those. *)
Lemma finish_kept s k socks : owned (srv s) k socks ->
  (forall c, is_Some (objs s !! c) -> is_Some (socks !! c)) -> kept (finish s a k socks).
Proof.
  intros Hk Hobjs.
  assert (forall e, e ∈ map_to_list socks <-> socks !! e.1 = Some e.2) as Hin.
  { intros [c sk]. apply elem_of_map_to_list. }
  assert (forall c sk, socks !! c = Some sk ->
    foldl (settle s) k (map_to_list socks) !! ConnectionSocket.socket_ sk =
    if exists_ s c then settled s c <$> k !! ConnectionSocket.socket_ sk else None) as Hhere.
  { intros c sk Hc. etransitivity; [|exact (settle_at s k (c, sk))]. apply (settle_here s (c, sk)); [apply NoDup_map_to_list|by apply Hin|].
    intros [c' sk'] He' E. apply Hin in He'. cbn in *. rewrite (ow_inj _ _ _ Hk c' c sk' sk) in * by done. congruence. }
  assert (forall c sk, filter (fun kv => exists_ s kv.1 = true) socks !! c = Some sk <->
    socks !! c = Some sk /\ exists_ s c = true) as Hfilter by (intros c sk; apply map_lookup_filter_Some).
  split; cbn [finish sys acceptor_ fds sockets]; try done.
  - intros c. split.
    + intros [sk [_ Hc]%Hfilter]. by apply exists_spec.
    + intros Hc. destruct (Hobjs _ Hc) as [sk Hsk]. exists sk. apply Hfilter. by rewrite exists_spec.
  - split.
    + intros c sk [Hc _]%Hfilter. by apply (ow_fd _ _ _ Hk).
    + intros c sk [Hc _]%Hfilter. by apply (ow_new _ _ _ Hk c).
    + intros c sk [Hc Hd]%Hfilter. rewrite (Hhere _ _ Hc). rewrite Hd.
      destruct (ow_open _ _ _ Hk _ _ Hc) as (f & -> & Hserved). eexists. split; [done|].
      unfold settled. by destruct (shut s c).
    + intros c c' sk sk' [Hc _]%Hfilter [Hc' _]%Hfilter. by apply (ow_inj _ _ _ Hk).
    + intros fd Hne Hno. set (open := (fun e => ConnectionSocket.socket_ e.2) <$> map_to_list socks).
      destruct (decide (fd ∈ open)) as [([c sk] & -> & Hc%Hin)%list_elem_of_fmap|Hnone].
      * cbn in *. rewrite (Hhere _ _ Hc), (ow_new _ _ _ Hk _ _ Hc).
        destruct (exists_ s c) eqn:Hd; [by destruct (Hno c sk); [apply Hfilter|]|done].
      * rewrite settle_other; [|by intros e He <-; apply Hnone, list_elem_of_fmap; exists e].
        apply (ow_rest _ _ _ Hk); [done|]. intros c sk Hc <-.
        apply Hnone, list_elem_of_fmap. exists (c, sk). by rewrite Hin.
    + rewrite settle_other; [apply (ow_listen _ _ _ Hk)|]. intros [c sk] He%Hin. by eapply owned_listen.
  - intros c sk f [Hc Hd]%Hfilter Hsh. rewrite (Hhere _ _ Hc).
    rewrite Hd. intros (f1 & _ & ->)%fmap_Some. unfold settled. by rewrite Hsh.
  - intros c sk f [Hc Hd]%Hfilter. rewrite (Hhere _ _ Hc).
    rewrite Hd. by intros (f1 & _ & ->)%fmap_Some.
Qed.

(** Nothing else is needed of a step that accepts no connection. *)
Lemma shrinks_kept d s : kept d -> shrinks (sys d) s -> kept (finish s (acceptor_ d) (fds d) (sockets d)).
Proof.
  intros Hd [Hconns Hobjs]. rewrite (kp_acceptor _ Hd). apply finish_kept.
  - by eapply owned_same; [apply (kp_owned _ Hd)|].
  - intros c Hc. apply (kp_objs _ Hd). by apply Hobjs.
Qed.

(** Accepting, up to the end of the step. *)
Lemma owned_accepted z z1 k k1 socks c nm io fd local peer : owned z k socks -> socks !! c = None ->
  k !! fd = None -> TcpServer.conns z1 = <[c := TcpServer.mk_conn nm io fd]> (TcpServer.conns z) ->
  k1 !! fd = Some (Socket.mk_sock false true true true false false false) ->
  (exists f, k !! Acceptor.accept_fd a = Some f /\ k1 !! Acceptor.accept_fd a = Some (Socket.set_nonblocking f)) ->
  (forall fd', fd' <> fd -> fd' <> Acceptor.accept_fd a -> k1 !! fd' = k !! fd') ->
  owned z1 k1 (<[c := ConnectionSocket.mk fd local peer None]> socks).
Proof.
  intros Hk Hc Hfd Hz Hnew (fl & Hl & Hl1) Hrest.
  assert (forall c' sk, socks !! c' = Some sk -> ConnectionSocket.socket_ sk <> fd) as Hother.
  { intros c' sk Hs E. destruct (ow_open _ _ _ Hk _ _ Hs) as (f & Hf & _). congruence. }
  assert (fd <> Acceptor.accept_fd a) as Hnl by congruence.
  assert (forall c' sk, <[c := ConnectionSocket.mk fd local peer None]> socks !! c' = Some sk ->
    c' = c /\ sk = ConnectionSocket.mk fd local peer None \/ c' <> c /\ socks !! c' = Some sk) as Hsplit.
  { intros c' sk. rewrite lookup_insert. case_decide; [intros [= <-]; by left|by right]. }
  split.
  - intros c' sk [[-> ->]|[Hne Hs]]%Hsplit; rewrite Hz.
    + rewrite lookup_insert_eq. by eexists.
    + rewrite lookup_insert_ne by done. by apply (ow_fd _ _ _ Hk).
  - intros c' sk [[-> ->]|[Hne Hs]]%Hsplit; [|by apply (ow_new _ _ _ Hk c')]. cbn.
    by rewrite <- (ow_rest _ _ _ Hk) by done.
  - intros c' sk [[-> ->]|[Hne Hs]]%Hsplit; [by eexists|]. rewrite Hrest; [by apply (ow_open _ _ _ Hk c')|..].
    + by eapply Hother.
    + by eapply owned_listen.
  - intros c1 c2 sk1 sk2 [[-> ->]|[Hne1 Hs1]]%Hsplit [[-> ->]|[Hne2 Hs2]]%Hsplit E; [done| | |].
    + by destruct (Hother _ _ Hs2).
    + by destruct (Hother _ _ Hs1).
    + by apply (ow_inj _ _ _ Hk c1 c2 sk1 sk2).
  - intros fd' Hne Hno. rewrite Hrest; [|intros ->|done].
    + apply (ow_rest _ _ _ Hk); [done|]. intros c' sk Hs. apply (Hno c').
      rewrite lookup_insert_ne; [done|congruence].
    + apply (Hno c (ConnectionSocket.mk fd local peer None)); [apply lookup_insert_eq|done].
  - exists (Socket.set_nonblocking fl). split; [done|].
    destruct (ow_listen _ _ _ Hk) as (f & Hf & E). by replace f with fl in E by congruence.
Qed.

(** ** What the invariant says of the connections *)

Lemma socket_of d c o : kept d -> objs (sys d) !! c = Some o -> exists sk, sockets d !! c = Some sk.
Proof. intros Hd Ho. apply (kp_objs _ Hd). by eexists. Qed.

Lemma socket_fd d c sk x : kept d -> sockets d !! c = Some sk -> TcpServer.conns (srv (sys d)) !! c = Some x ->
  TcpServer.conn_fd x = ConnectionSocket.socket_ sk.
Proof. intros Hd Hsk Hx. destruct (ow_fd _ _ _ (kp_owned _ Hd) _ _ Hsk) as (x' & Hx' & E). congruence. Qed.

Lemma open_law d fd : kept d -> is_Some (fds d !! fd) <-> is_Some (k0 !! fd) \/
  exists c x, is_Some (objs (sys d) !! c) /\ TcpServer.conns (srv (sys d)) !! c = Some x /\ TcpServer.conn_fd x = fd.
Proof.
  intros Hd. pose proof (kp_owned _ Hd) as Hown. split.
  - intros Hfd. destruct (k0 !! fd) as [f|] eqn:E; [by left|]. right.
    set (open := (fun e => ConnectionSocket.socket_ e.2) <$> map_to_list (sockets d)).
    destruct (decide (fd ∈ open)) as [([c sk] & -> & Hc%elem_of_map_to_list)%list_elem_of_fmap|Hnone].
    + destruct (ow_fd _ _ _ Hown _ _ Hc) as (x & Hx & Efd). exists c, x. split; [|done].
      apply (kp_objs _ Hd). by eexists.
    + exfalso. rewrite (ow_rest _ _ _ Hown), E in Hfd; [by destruct Hfd|congruence|].
      intros c sk Hc <-. apply Hnone, list_elem_of_fmap. exists (c, sk). by rewrite elem_of_map_to_list.
  - intros [[f Hf]|(c & x & Hc & Hx & <-)].
    + destruct (decide (fd = Acceptor.accept_fd a)) as [->|Hne].
      * destruct (ow_listen _ _ _ Hown) as (f1 & -> & _). by eexists.
      * rewrite (ow_rest _ _ _ Hown); [by eexists|done|]. intros c sk Hsk <-.
        rewrite (ow_new _ _ _ Hown _ _ Hsk) in Hf. done.
    + apply (kp_objs _ Hd) in Hc as [sk Hsk]. rewrite (socket_fd _ _ _ _ Hd Hsk Hx).
      destruct (ow_open _ _ _ Hown _ _ Hsk) as (f & -> & _). by eexists.
Qed.

Lemma connection_law d c o x : kept d -> objs (sys d) !! c = Some o -> TcpServer.conns (srv (sys d)) !! c = Some x ->
  k0 !! TcpServer.conn_fd x = None /\
  (exists f, fds d !! TcpServer.conn_fd x = Some f /\ served f /\
     Socket.tcp_no_delay f = TcpConnection.no_delay_ (o_conn o) /\ (o_shut o = true -> Socket.shut_wr f = true)) /\
  forall c' x', is_Some (objs (sys d) !! c') -> TcpServer.conns (srv (sys d)) !! c' = Some x' ->
    TcpServer.conn_fd x' = TcpServer.conn_fd x -> c' = c.
Proof.
  intros Hd Ho Hx. pose proof (kp_owned _ Hd) as Hown. destruct (socket_of _ _ _ Hd Ho) as [sk Hsk].
  rewrite (socket_fd _ _ _ _ Hd Hsk Hx). split; [by apply (ow_new _ _ _ Hown c)|]. split.
  - destruct (ow_open _ _ _ Hown _ _ Hsk) as (f & Hf & Hs). exists f. split; [done|]. split; [done|]. split.
    { rewrite (kp_delay _ Hd c sk f) by done. unfold no_delay. by rewrite Ho. }
    intros Hsh. apply (kp_shut _ Hd c sk); [done| |done]. unfold shut. by rewrite Ho.
  - intros c' x' [o' Ho'] Hx' E. destruct (socket_of _ _ _ Hd Ho') as [sk' Hsk'].
    rewrite (socket_fd _ _ _ _ Hd Hsk' Hx') in E. by apply (ow_inj _ _ _ Hown c' c sk' sk).
Qed.

(** ** Steps *)

(** What each step relies on: the kernel accepts a connection and answers a positive
    descriptor that is not open, which can be watched, and the id counter lasts; and what
    System.v relies on. *)
Definition pre (e : event) (d : state) : Prop :=
  match e with
  | EvConnect answer _ =>
      exists fd peer, answer = Some (fd, peer) /\ 0 < fd /\ fds d !! fd = None /\
        TcpServer.next_conn_id_ (srv (sys d)) < 2 ^ 31 - 1 /\
        forall l ls, loops (sys d) !! l = Some ls ->
          can_watch (CB := TcpConnection.handler) (OBJ := unit) (l_poller ls) fd
  | EvServer e => accepts e = false /\ SystemLaws.pre e (sys d)
  end.

Fixpoint legal (es : list event) (d : state) : Prop :=
  match es with
  | [] => True
  | e :: es => pre e d /\ match Descriptors.step e d with Ok d' => legal es d' | Err _ => True end
  end.

(** The step of System.v that is part of a step here. *)
Definition forget (e : event) : list System.event :=
  match e with
  | EvConnect (Some (fd, _)) _ => [EvAccept fd]
  | EvConnect None _ => []
  | EvServer e => [e]
  end.

Lemma fresh_descriptor d fd : kept d -> fds d !! fd = None -> forall c y,
  is_Some (objs (sys d) !! c) -> TcpServer.conns (srv (sys d)) !! c = Some y -> TcpServer.conn_fd y <> fd.
Proof.
  intros Hd Hfd c y Hc Hy E. apply (kp_objs _ Hd) in Hc as [sk Hsk].
  destruct (ow_open _ _ _ (kp_owned _ Hd) _ _ Hsk) as (f & Hf & _).
  rewrite <- (socket_fd _ _ _ _ Hd Hsk Hy) in Hf. congruence.
Qed.

Lemma step_connect fd peer g d : dinv d -> pre (EvConnect (Some (fd, peer)) g) d ->
  exists d', Descriptors.step (EvConnect (Some (fd, peer)) g) d = Ok d' /\ dinv d' /\
    SystemLaws.pre (EvAccept fd) (sys d) /\ System.step (EvAccept fd) (sys d) = Ok (sys d').
Proof.
  intros [Hs Hd] (? & ? & [= <- <-] & Hpos & Hfd & Hid & Hcan).
  assert (SystemLaws.pre (EvAccept fd) (sys d)) as Hpre.
  { split_and!; [done|by apply fresh_descriptor|done]. }
  destruct (SystemLaws.step_ok _ _ Hs Hpre) as (s2 & E & Hs2).
  assert (exists s1, accept fd (sys d) = Ok s1 /\ s2 = release s1) as (s1 & Ea & ->).
  { unfold System.step in E. cbn [act] in E. destruct (accept fd (sys d)) as [s1|]; [|done].
    injection E as <-. by exists s1. }
  destruct (accept_adds _ _ _ Ea) as ((nm & io & Hconns) & Hobjs & _).
  destruct (ow_listen _ _ _ (kp_owned _ Hd)) as (fl & Hl & _).
  destruct (AcceptorFacts.HandleRead_accepts (any := any) a (fds d) fl fd peer (SocketUtils.GetLocalAddr g) Hl a_callback Hpos)
    as (k1 & E1 & H1 & H2 & H3); [congruence|].
  cbn [Descriptors.step]. unfold HandleRead. rewrite (kp_acceptor _ Hd), E1. cbn [mbind result_bind].
  unfold ConnectionSocket.construct in *. rewrite E. cbn [mbind result_bind].
  eexists. split; [done|]. split; [|by split]. split; [exact Hs2|].
  assert (sockets d !! TcpServer.next_ptr (srv (sys d)) = None) as Hnone.
  { apply eq_None_not_Some. rewrite (kp_objs _ Hd). destruct (new_nowhere _ Hs) as [-> _]. by intros []. }
  apply finish_kept.
  - eapply owned_accepted; [apply (kp_owned _ Hd)|done|exact Hfd|exact Hconns|exact H1|by eexists|exact H3].
  - intros c Hc. apply lookup_insert_is_Some'.
    apply (proj2 (shrinks_release s1)), Hobjs in Hc as [->|Hc]; [by left|right]. by apply (kp_objs _ Hd).
Qed.

Lemma step_server e d : dinv d -> pre (EvServer e) d ->
  exists d', Descriptors.step (EvServer e) d = Ok d' /\ dinv d' /\
    SystemLaws.pre e (sys d) /\ System.step e (sys d) = Ok (sys d').
Proof.
  intros [Hs Hd] [Hacc Hpre]. destruct (SystemLaws.step_ok _ _ Hs Hpre) as (s2 & E & Hs2).
  cbn [Descriptors.step]. rewrite E. cbn [mbind result_bind]. eexists. split; [done|]. split; [|by split].
  split; [exact Hs2|]. by apply shrinks_kept; [|eapply shrinks_step].
Qed.

Lemma run_dinv es d : dinv d -> legal es d ->
  exists d', Descriptors.run es d = Ok d' /\ dinv d' /\
    SystemLaws.legal (flat_map forget es) (sys d) /\ System.run (flat_map forget es) (sys d) = Ok (sys d').
Proof.
  revert d. induction es as [|e es IH]; intros d Hd Hl; [by exists d|]. destruct Hl as [Hp Hl].
  assert (exists e1 d1, forget e = [e1] /\ Descriptors.step e d = Ok d1 /\ dinv d1 /\
    SystemLaws.pre e1 (sys d) /\ System.step e1 (sys d) = Ok (sys d1)) as (e1 & d1 & Ef & E & H1 & Hp1 & E1).
  { destruct e as [[[fd peer]|] g|e].
    - destruct (step_connect _ _ _ _ Hd Hp) as (d1 & Hr). by exists (EvAccept fd), d1.
    - by destruct Hp as (? & ? & [=] & _).
    - destruct (step_server _ _ Hd Hp) as (d1 & Hr). by exists e, d1. }
  rewrite E in Hl. destruct (IH d1 H1 Hl) as (d2 & E2 & H2 & Hl2 & Hr2).
  exists d2. cbn [Descriptors.run flat_map]. rewrite E, Ef. cbn. rewrite E1. by split_and!.
Qed.

Lemma initial_inv z ps : started z ps -> dinv (Descriptors.initial z ps a k0).
Proof.
  intros Hst. split; [by apply started_sinv|]. split.
  - done.
  - intros c. cbn. rewrite !lookup_empty. by split; intros [].
  - split; try done. by exists f0.
  - done.
  - done.
Qed.

(** ** The end *)

(** A run of the server without acceptances is one of the server with its descriptors. *)
Lemma run_kept es d s : forallb (fun e => negb (accepts e)) es = true -> kept d -> System.run es (sys d) = Ok s ->
  exists d', Descriptors.run (EvServer <$> es) d = Ok d' /\ kept d' /\ sys d' = s.
Proof.
  revert d. induction es as [|e es IH]; intros d Ha Hd Hr; [injection Hr as <-; by exists d|].
  cbn in Ha, Hr. apply andb_prop in Ha as [Ha%negb_true_iff Has].
  destruct (System.step e (sys d)) as [s1|] eqn:E; [|done]. cbn [mbind result_bind] in Hr.
  destruct (IH (finish s1 (acceptor_ d) (fds d) (sockets d))) as (d' & E' & Hd' & Hs'); [done| |done|].
  { by apply shrinks_kept; [|eapply shrinks_step]. }
  exists d'. split; [|done]. cbn. by rewrite E.
Qed.

Lemma destroy_kept wa order d s : kept d -> Teardown.destroy wa order (sys d) = Ok s ->
  exists d', Descriptors.destroy wa order d = Ok d' /\ kept d' /\ sys d' = s.
Proof.
  intros Hd E. eexists. unfold Descriptors.destroy. rewrite E. split; [done|]. split; [|done].
  by apply shrinks_kept; [|eapply shrinks_destroy].
Qed.

(** Without connections only the listening descriptor differs from the start. *)
Lemma kept_empty d : kept d -> objs (sys d) = ∅ ->
  Socket.destruct_ (Acceptor.accept_fd a) (fds d) = delete (Acceptor.accept_fd a) k0.
Proof.
  intros Hd He. apply map_eq. intros fd. unfold Socket.destruct_.
  destruct (decide (fd = Acceptor.accept_fd a)) as [->|Hne]; [by rewrite !lookup_delete_eq|].
  rewrite !lookup_delete_ne by done. apply (ow_rest _ _ _ (kp_owned _ Hd)); [done|].
  intros c sk Hsk. destruct (proj1 (kp_objs _ Hd c)) as [o Ho]; [by eexists|]. by rewrite He in Ho.
Qed.

End Invariant.
End DescriptorsFacts.

(** * Properties *)
Module DescriptorsProps.
Import System SystemFacts SystemSteps SystemLaws Descriptors DescriptorsFacts.

Section Props.
Context {P : Type} `{!Poller (CB := TcpConnection.handler) (OBJ := unit) P}
  `{!PollerLaws (CB := TcpConnection.handler) (OBJ := unit) P} `{!App, !AppLaws} {any : Type}.

(** C7: If accept4 answers descriptors that are not open, as the kernel does, no connection
    ever shares a descriptor with another or with the rest of the process, so that System.v's
    own assumption on acceptances holds and every run here is a legal run there. At any time
    the open descriptors are those that were open when the server began to listen, and one
    for each connection object: each accepted descriptor is closed exactly once, together
    with its connection, and none is leaked. While it is open it is in blocking mode with
    address and port reuse and keep-alive set, its TCP_NODELAY option is what its connection
    last set it to, off at first, and it is half closed if its connection asked for that.
    A descriptor that is not open is watched by no loop, so that a number the kernel gives
    out again starts without old interest. *)
Theorem descriptors_follow_connections z ps a k0 f0 es :
  started z ps -> Acceptor.new_connection_callback_ a = true -> k0 !! Acceptor.accept_fd a = Some f0 ->
  DescriptorsFacts.legal es (Descriptors.initial (any := any) z ps a k0) ->
  exists d : Descriptors.t P any, Descriptors.run es (Descriptors.initial z ps a k0) = Ok d /\
    SystemLaws.legal (flat_map forget es) (System.initial z ps) /\
    System.run (flat_map forget es) (System.initial z ps) = Ok (sys d) /\
    (forall fd, is_Some (fds d !! fd) <-> is_Some (k0 !! fd) \/
       exists c x, is_Some (objs (sys d) !! c) /\ TcpServer.conns (srv (sys d)) !! c = Some x /\
         TcpServer.conn_fd x = fd) /\
    (forall c o x, objs (sys d) !! c = Some o -> TcpServer.conns (srv (sys d)) !! c = Some x ->
       k0 !! TcpServer.conn_fd x = None /\
       (exists f, fds d !! TcpServer.conn_fd x = Some f /\ served f /\
          Socket.tcp_no_delay f = TcpConnection.no_delay_ (o_conn o) /\
          (o_shut o = true -> Socket.shut_wr f = true)) /\
       forall c' x', is_Some (objs (sys d) !! c') -> TcpServer.conns (srv (sys d)) !! c' = Some x' ->
         TcpServer.conn_fd x' = TcpServer.conn_fd x -> c' = c) /\
    (forall fd, is_Some (k0 !! fd) -> fd <> Acceptor.accept_fd a -> fds d !! fd = k0 !! fd) /\
    (forall l ls fd, loops (sys d) !! l = Some ls -> fds d !! fd = None ->
       interest (CB := TcpConnection.handler) (OBJ := unit) (l_poller ls) fd = 0).
Proof.
  intros Hst Hcb Hk0 Hl.
  destruct (run_dinv a k0 f0 Hcb Hk0 es _ (initial_inv a k0 f0 Hk0 z ps Hst) Hl) as (d & E & Hd & Hleg & Hrun).
  destruct Hd as [Hs Hd]. pose proof (kp_owned _ _ _ _ Hd) as Hown. exists d. split_and!; [done..| | | |].
  - intros fd. by apply (open_law a k0 f0).
  - intros c o x Ho Hx. by eapply connection_law.
  - intros fd Hfd Hne. apply (ow_rest _ _ _ _ _ _ Hown); [done|]. intros c sk Hsk E2.
    pose proof (ow_new _ _ _ _ _ _ Hown _ _ Hsk) as Hn. rewrite E2 in Hn. by destruct Hfd; congruence.
  - intros l ls fd Hls Hfd. apply (unwatched_fd _ _ _ _ Hs Hls). by eapply fresh_descriptor.
Qed.

(** C9: A server leaves no descriptor behind. When a quiet server is destroyed, in whatever
    order its map is gone through, and the loops of its connections have then had a turn for
    each functor they were left, closing the listening descriptor, which the acceptor's
    destructor does, leaves open exactly the descriptors that were open before the server,
    each as it was. *)
Theorem server_returns_descriptors z ps a k0 f0 es (d : Descriptors.t P any) wa order :
  started z ps -> Acceptor.new_connection_callback_ a = true -> k0 !! Acceptor.accept_fd a = Some f0 ->
  DescriptorsFacts.legal es (Descriptors.initial (any := any) z ps a k0) ->
  Descriptors.run es (Descriptors.initial z ps a k0) = Ok d -> quiet (sys d) = true ->
  order ≡ₚ (map_to_list (TcpServer.connection_maps (srv (sys d)))).*1 ->
  exists d1, Descriptors.destroy wa order d = Ok d1 /\
    forall sched, exists d2, Descriptors.run (EvServer <$> TeardownFacts.runs_of sched) d1 = Ok d2 /\
      ((forall l ls, loops (sys d1) !! l = Some ls -> (length (l_queue ls) <= TeardownFacts.turns l sched)%nat) ->
       Socket.destruct_ (Acceptor.accept_fd a) (fds d2) = delete (Acceptor.accept_fd a) k0).
Proof.
  intros Hst Hcb Hk0 Hl Hr Hq Hord.
  destruct (run_dinv a k0 f0 Hcb Hk0 es _ (initial_inv a k0 f0 Hk0 z ps Hst) Hl) as (d0 & E & [Hs Hd] & _).
  assert (d0 = d) as -> by congruence.
  destruct (TeardownFacts.destroy_law wa order (sys d) Hs Hq Hord) as (s0 & pend & s1 & E1 & L & Hm & _).
  assert (TeardownFacts.all_reset s1) as Hreset by (intros nm c; rewrite Hm, lookup_fmap; by destruct (_ !! nm)).
  destruct (destroy_kept _ _ _ Hk0 wa order d s1 Hd E1) as (d1 & Ed1 & Hd1 & <-). exists d1. split; [done|].
  intros sched. destruct (TeardownFacts.leaving_end sched _ _ _ L Hreset) as (s2 & E2 & Hend).
  destruct (run_kept _ _ _ Hk0 (TeardownFacts.runs_of sched) d1 s2) as (d2 & Ed2 & Hd2 & <-); [|done|done|].
  { clear. by induction sched. }
  exists d2. split; [done|]. intros Ht. apply (kept_empty _ _ _ _ Hd2), Hend, Ht.
Qed.

End Props.

(** ** The echo server, whose second client gets the descriptor of the first *)

Import EpollPoller EpollFacts SystemProps.
#[local] Existing Instance EchoServer.echo_app.
#[local] Existing Instance echo_laws.

Abbreviation DEP := (Descriptors.t EP unit).

Definition listener : Acceptor.t := Acceptor.mk 3 1%positive true true.
Definition at_start : Socket.fds :=
  {[0 := Socket.fresh_sock false; 3 := Socket.set_listening (Socket.fresh_sock true)]}.
Definition descriptors0 : DEP := Descriptors.initial TcpServerProps.sample sample_pollers listener at_start.

Definition client : event := EvConnect (Some (7, InetAddr.default)) None.
Definition visit : list event :=
  client :: (EvServer <$> tail ending) ++ [EvServer (EvRun 2%positive (WTake 0))].

Definition reach : list event -> DEP := reach_steps Descriptors.step descriptors0.

Definition open_fds (d : DEP) : list Z := (map_to_list (fds d)).*1.

(** The descriptor is closed when the first client has gone, and open again for the
    second. *)
Example descriptor_used_again :
  open_fds (reach [client]) = [7; 3; 0] /\ open_fds (reach visit) = [3; 0] /\
  open_fds (reach (visit ++ [client])) = [7; 3; 0].
Proof. by vm_compute. Qed.

Lemma client_pre (d : DEP) : bool_decide (fds d !! 7 = None) = true ->
  (TcpServer.next_conn_id_ (srv (sys d)) <? 100) = true -> DescriptorsFacts.pre client d.
Proof.
  intros Hfd%bool_decide_eq_true_1 Hid. apply Z.ltb_lt in Hid. exists 7, InetAddr.default.
  split_and!; [done..|lia|by intros].
Qed.

Ltac each_event :=
  let n := fresh "n" in let Hn := fresh "Hn" in
  intros n ? Hn; repeat (destruct n as [|n]; [injection Hn as <-|try discriminate Hn]);
  first [apply client_pre; vm_compute; reflexivity|split; [done|]];
  first [intros ? ? ? ? _ _ _; exact I|vm_compute; by split_and!].

Lemma visit_legal : DescriptorsFacts.legal (visit ++ [client]) descriptors0.
Proof. apply (legal_steps_reach Descriptors.step DescriptorsFacts.pre); [run_it|each_event]. Qed.

(** A ping-pong connection asks for its data to be sent without delay when it is
    established, and not before. *)
Definition ponging (es : list event) : option (bool * bool) :=
  let d := reach_steps (Descriptors.step (H := PingpongServer.pingpong_app)) descriptors0 es in
  f ← fds d !! 7; o ← objs (sys d) !! 1%positive;
  Some (Socket.tcp_no_delay f, TcpConnection.no_delay_ (o_conn o)).

Example pingpong_no_delay :
  ponging [client] = Some (false, false) /\
  ponging [client; EvServer (EvRun 2%positive (WTake 0))] = Some (true, true).
Proof. by vm_compute. Qed.

Lemma descriptors_follow_connections_witness :
  exists d : DEP, Descriptors.run (visit ++ [client]) descriptors0 = Ok d /\
    SystemLaws.legal (flat_map forget (visit ++ [client])) sample0 /\
    exists f, fds d !! 7 = Some f /\ served f.
Proof.
  destruct (descriptors_follow_connections (P := EP) (any := unit) _ _ listener at_start _ _ sample_started
    eq_refl eq_refl visit_legal) as (d & E & Hleg & _ & _ & Hc & _).
  exists d. split; [exact E|]. split; [exact Hleg|].
  destruct (objs (sys d) !! 2%positive) as [o|] eqn:Ho.
  - destruct (TcpServer.conns (srv (sys d)) !! 2%positive) as [x|] eqn:Hx.
    + destruct (Hc _ _ _ Ho Hx) as (_ & (f & Hf & Hs & _) & _). exists f. split; [|exact Hs].
      vm_compute in E. injection E as <-. vm_compute in Hx. injection Hx as <-. exact Hf.
    + exfalso. vm_compute in E. injection E as <-. discriminate Hx.
  - exfalso. vm_compute in E. injection E as <-. discriminate Ho.
Defined.

(** And when the server is destroyed with a client that is still there. *)
Definition greeting : list event := client :: (EvServer <$> tail sending).

Lemma greeting_legal : DescriptorsFacts.legal greeting descriptors0.
Proof. apply (legal_steps_reach Descriptors.step DescriptorsFacts.pre); [run_it|each_event]. Qed.

Lemma server_returns_descriptors_witness :
  exists d1 d2, Descriptors.destroy (WTake 0) (TeardownProps.order_of (sys (reach greeting))) (reach greeting) = Ok d1 /\
    Descriptors.run (EvServer <$> TeardownFacts.runs_of [(3%positive, WTake 0); (2%positive, WTake 0)]) d1 = Ok d2 /\
    fds (reach greeting) !! 7 <> None /\ Socket.destruct_ 3 (fds d2) = delete 3 at_start.
Proof.
  destruct (server_returns_descriptors (P := EP) (any := unit) _ _ listener at_start _ greeting (reach greeting)
    (WTake 0) (TeardownProps.order_of (sys (reach greeting))) sample_started eq_refl eq_refl greeting_legal)
    as (d1 & E & Hs); [run_it|run_it|done|].
  destruct (Hs [(3%positive, WTake 0); (2%positive, WTake 0)]) as (d2 & E2 & Hend).
  exists d1, d2. split; [exact E|]. split; [exact E2|]. split; [by vm_compute|]. apply Hend. intros l ls Hl.
  clear Hs E2 Hend. vm_compute in E. apply Ok_inj in E. rewrite <- E in Hl. clear E.
  apply elem_of_map_to_list in Hl. TeardownProps.each_loop Hl.
Defined.

End DescriptorsProps.
