(* ===== verification/Servers.v ===== *)
(** The example servers as programs (example/echo_server.cc, example/pingpong_server.cc):
    from the configuration file or the command line to a server that listens, with the
    sockets of its acceptor, and what that server then does. *)
From Stdlib Require Import ZArith Lia Ascii.
From stdpp Require Import base gmap list option strings.
From S2P Require Import Prelude Channel Poller EpollPoller EventLoop TcpConnection ThreadPool Net TcpServer Config.
From S2P Require Import System SystemFacts Echo SystemSteps SystemProps Descriptors.

Local Open Scope Z_scope.

(** * A TcpServer with its acceptor *)
Module ServerProgram.

Section ServerProgram.
Context {ACB Q : Type} `{!Poller (CB := ACB) (OBJ := unit) Q}.

(** What a process brings to it: the answers of socket (negative on failure), bind and
    listen, the descriptors that are open, and the base loop's poller, with the address of
    the acceptor's channel and the callback that is bound to [Acceptor::HandleRead]. *)
Record env := mk_env {
  socket_answer : Z;
  bind_answer : bool;
  listen_answer : bool;
  open_fds : Socket.fds;
  base_poller : Q;
  channel : ptr;
  handle_read : ACB;
}.

(** The server and what its acceptor has: the descriptors, and the base loop's poller with the
    acceptor's channel. *)
Record t := mk {
  server : TcpServer.t;
  acceptor_ : Acceptor.t;
  fds : Socket.fds;
  channels : gmap ptr (Channel.t ACB unit);
  poller : Q;
}.

(** [TcpServer::TcpServer] with its default option, [kReusePort]. *)
Definition construct (v : env) (loop : ptr) (addr : InetAddr.t) (name : bytes) : result t :=
  ip_port ← InetAddr.ToIpPort addr;
  '(a, k, cs) ← Acceptor.construct (socket_answer v) (bind_answer v) true (channel v) (handle_read v) (open_fds v) ∅;
  Ok (mk (TcpServer.create loop ip_port name) (Acceptor.SetNewConnectionCallback a) k cs (base_poller v)).

Definition SetThreadNum (n : Z) (x : t) : t :=
  mk (TcpServer.SetThreadNum n (server x)) (acceptor_ x) (fds x) (channels x) (poller x).

(** [TcpServer::Start] in the thread of [here], the loop of thread [i] being [loop_of i]:
    [Acceptor::Listen] runs in place if that is the base loop's thread, and only at the first
    call. *)
Definition listens (before after : TcpServer.t) : bool :=
  existsb (fun x => match x with (_, TcpServer.TListen, true) => true | _ => false end)
    (drop (length (TcpServer.calls before)) (TcpServer.calls after)).
Definition Start (v : env) (here : ptr) (cb : bool) (loop_of : Z -> ptr) (x : t) : result t :=
  let s := TcpServer.Start here cb loop_of (server x) in
  if listens (server x) s then
    '(a, k, cs, q) ← Acceptor.Listen (listen_answer v) (acceptor_ x) (fds x) (channels x) (poller x);
    Ok (mk s a k cs q)
  else Ok (mk s (acceptor_ x) (fds x) (channels x) (poller x)).

(** The kernel gives the acceptor what it asks for. *)
Definition granted (v : env) : bool := (0 <=? socket_answer v) && bind_answer v && listen_answer v.

End ServerProgram.
Arguments env : clear implicits.
Arguments t : clear implicits.
End ServerProgram.

(** * The echo server *)
Module EchoServerMain.

Section EchoServerMain.
Context {ACB Q : Type} `{!Poller (CB := ACB) (OBJ := unit) Q}.

(** The class's constructor: the server, whose callbacks are
    [EchoServer.server_callbacks]. *)
Definition construct (v : ServerProgram.env ACB Q) (loop : ptr) (addr : InetAddr.t) (name : bytes) (thread_num : Z) :
    result (ServerProgram.t ACB Q) :=
  x ← ServerProgram.construct v loop addr name;
  Ok (ServerProgram.SetThreadNum thread_num x).

(** Whether the loops' threads have a callback to run first. *)
Definition thread_init_set (x : TcpServer.callbacks callback thread_callback) : bool :=
  match TcpServer.thread_init_callback_ x with Some _ => true | None => false end.

Definition Start (v : ServerProgram.env ACB Q) (here : ptr) (loop_of : Z -> ptr) (x : ServerProgram.t ACB Q) :
    result (ServerProgram.t ACB Q) :=
  ServerProgram.Start v here (thread_init_set EchoServer.server_callbacks) loop_of x.

(** [main] up to [loop.Loop()], whatever the configuration file holds. *)
Definition main (file : option (bytes * bool)) (v : ServerProgram.env ACB Q) (loop : ptr) (loop_of : Z -> ptr) :
    result (ServerProgram.t ACB Q) :=
  '(port, name, threads) ← EchoSettings.main file;
  x ← construct v loop (InetAddr.of_port port) name threads;
  Start v loop loop_of x.

End EchoServerMain.
End EchoServerMain.

(** * The ping-pong server *)
Module PingpongServerMain.

Section PingpongServerMain.
Context {ACB Q : Type} `{!Poller (CB := ACB) (OBJ := unit) Q}.

Definition construct (v : ServerProgram.env ACB Q) (loop : ptr) (addr : InetAddr.t) (name : bytes) (thread_num : Z) :
    result (ServerProgram.t ACB Q) :=
  x ← ServerProgram.construct v loop addr name;
  Ok (ServerProgram.SetThreadNum thread_num x).

Definition Start (v : ServerProgram.env ACB Q) (here : ptr) (loop_of : Z -> ptr) (x : ServerProgram.t ACB Q) :
    result (ServerProgram.t ACB Q) :=
  ServerProgram.Start v here (EchoServerMain.thread_init_set PingpongServer.server_callbacks) loop_of x.

(** [main] up to [loop.Loop()] on the arguments after the program's name; [None] when
    there are too few of them and it exits. The C library reads the address. *)
Definition main (inet_addr : bytes -> Z) (argv : list bytes) (v : ServerProgram.env ACB Q) (loop : ptr)
    (loop_of : Z -> ptr) : result (option (ServerProgram.t ACB Q)) :=
  r ← PingpongSettings.main argv;
  match r with
  | None => Ok None
  | Some (ip, port, thread_count) =>
      x ← construct v loop (InetAddr.of_ip (inet_addr ip) port) (str "PingPong") thread_count;
      x ← Start v loop loop_of x;
      Ok (Some x)
  end.

End PingpongServerMain.
End PingpongServerMain.

(** * Lemmas *)
Module ServersFacts.
Import System SystemFacts SystemSteps SystemLaws.

(** The loops of a server with [threads] threads. *)
Definition server_loops (loop : ptr) (loop_of : Z -> ptr) (threads : Z) : list ptr :=
  if threads <=? 0 then [loop] else (fun i => loop_of (Z.of_nat i)) <$> seq 0 (Z.to_nat threads).

(** No write of a step is answered with EPIPE. The mains leave SIGPIPE at its default, so
    that such an answer never reaches the library: the signal ends the process. *)
Definition no_sigpipe (e : Descriptors.event) : Prop :=
  match e with
  | Descriptors.EvServer (EvIo _ _ _ rw ww) => rw <> WFail TcpConnection.EPIPE /\ ww <> WFail TcpConnection.EPIPE
  | Descriptors.EvServer (EvRun _ wa) => wa <> WFail TcpConnection.EPIPE
  | _ => True
  end.

Section Facts.
Context {P : Type} `{!Poller (CB := TcpConnection.handler) (OBJ := unit) P}
  `{!PollerLaws (CB := TcpConnection.handler) (OBJ := unit) P}.
Context {ACB Q : Type} `{!Poller (CB := ACB) (OBJ := unit) Q} `{!PollerLaws (CB := ACB) (OBJ := unit) Q} {any : Type}.
Implicit Types (ps : gmap ptr P) (z : TcpServer.t) (v : ServerProgram.env ACB Q) (x : ServerProgram.t ACB Q).

(** A fresh poller for each of them and for the server's own. *)
Definition pollers_for (loop : ptr) (ls : list ptr) ps : Prop :=
  (forall l, l ∈ loop :: ls -> is_Some (ps !! l)) /\
  (forall l p, ps !! l = Some p -> poller_inv (CB := TcpConnection.handler) (OBJ := unit) ∅ p).

(** The acceptor finds a poller without channels that can watch its socket, which is not
    open yet. *)
Definition env_ok v : Prop :=
  poller_inv (CB := ACB) (OBJ := unit) ∅ (ServerProgram.base_poller v) /\
  can_watch (CB := ACB) (OBJ := unit) (ServerProgram.base_poller v) (ServerProgram.socket_answer v) /\
  ServerProgram.open_fds v !! ServerProgram.socket_answer v = None.

(** The listening socket: the address may be used again, the port option is never set. *)
Definition listening_sock : Socket.sock := Socket.mk_sock true true false false false true false.

(** What [main] leaves, for an address that prints as [ip_port]. *)
Definition serving v x (ip_port name : bytes) (loop : ptr) (ls : list ptr) : Prop :=
  let z := ServerProgram.server x in
  let a := ServerProgram.acceptor_ x in
  TcpServer.inv z /\ TcpServer.IpPort z = ip_port /\ TcpServer.Name z = name /\
  TcpServer.loop_ z = loop /\ TcpServer.connection_maps z = ∅ /\
  TcpServer.calls z = [(loop, TcpServer.TListen, true)] /\
  EventLoopThreadPool.GetAllLoops (TcpServer.thread_pool_ z) = ls /\
  a = Acceptor.mk (ServerProgram.socket_answer v) (ServerProgram.channel v) true true /\
  ServerProgram.fds x = <[Acceptor.accept_fd a := listening_sock]> (ServerProgram.open_fds v) /\
  interest (CB := ACB) (OBJ := unit) (ServerProgram.poller x) (Acceptor.accept_fd a) = Channel.kReadEvent.

(** ** The acceptor *)

Lemma granted_spec v : ServerProgram.granted v = true ->
  0 <= ServerProgram.socket_answer v /\ ServerProgram.bind_answer v = true /\ ServerProgram.listen_answer v = true.
Proof. unfold ServerProgram.granted. intros [[H1%Z.leb_le ?]%andb_prop ?]%andb_prop. done. Qed.

Definition bound_channel v : Channel.t ACB unit :=
  Channel.SetCallbacks (Some (ServerProgram.handle_read v)) None None None (Channel.create (ServerProgram.socket_answer v)).
Definition bound_fds v : Socket.fds :=
  <[ServerProgram.socket_answer v := Socket.mk_sock true true false false false false false]> (ServerProgram.open_fds v).

Lemma construct_ok v loop addr name ip_port : ServerProgram.granted v = true -> InetAddr.ToIpPort addr = Ok ip_port ->
  ServerProgram.construct v loop addr name = Ok (ServerProgram.mk (TcpServer.create loop ip_port name)
    (Acceptor.mk (ServerProgram.socket_answer v) (ServerProgram.channel v) false true) (bound_fds v)
    {[ServerProgram.channel v := bound_channel v]} (ServerProgram.base_poller v)).
Proof.
  intros (Hs & Hb & _)%granted_spec E. unfold ServerProgram.construct, Acceptor.construct. rewrite E, Hb. cbn.
  destruct (Z.ltb_spec (ServerProgram.socket_answer v) 0); [lia|]. cbn.
  unfold Socket.SetReuseAddr, Socket.setsockopt. by rewrite !alter_insert_eq.
Qed.

Lemma listen_ok v : ServerProgram.granted v = true -> env_ok v ->
  exists cs q, Acceptor.Listen (ServerProgram.listen_answer v)
      (Acceptor.mk (ServerProgram.socket_answer v) (ServerProgram.channel v) false true) (bound_fds v)
      {[ServerProgram.channel v := bound_channel v]} (ServerProgram.base_poller v) =
    Ok (Acceptor.mk (ServerProgram.socket_answer v) (ServerProgram.channel v) true true,
        <[ServerProgram.socket_answer v := listening_sock]> (ServerProgram.open_fds v), cs, q) /\
    interest (CB := ACB) (OBJ := unit) q (ServerProgram.socket_answer v) = Channel.kReadEvent.
Proof.
  intros (Hs & _ & Hl)%granted_spec (Hi & Hw & _). set (c := ServerProgram.channel v).
  pose proof (new_law ∅ _ c (ServerProgram.socket_answer v) Hi (lookup_empty c)) as Hn.
  assert (poller_inv {[c := bound_channel v]} (ServerProgram.base_poller v)) as Hi1.
  { rewrite <- insert_empty, <- (insert_insert_eq (∅ : gmap ptr (Channel.t ACB unit)) c (bound_channel v) (Channel.create (ServerProgram.socket_answer v))).
    eapply touch_law; [exact Hn|apply lookup_insert_eq|done..]. }
  destruct (LoopChannelFacts.change_events_law Channel.enable_read {[c := bound_channel v]} (ServerProgram.base_poller v)
    c (bound_channel v)) as (cs & q & ch & E & _ & _ & _ & _ & _ & Hint & _).
  - done.
  - apply lookup_singleton_eq.
  - eapply usable_new; [exact Hi1|apply lookup_singleton_eq|done| |done].
    intros d chd Hd [? _]%lookup_singleton_Some. by subst.
  - done.
  - exists cs, q. split; [|exact Hint]. unfold Acceptor.Listen, Socket.Listen. rewrite Hl.
    cbn [Acceptor.accept_channel_ Acceptor.accept_fd mbind result_bind]. unfold LoopChannel.EnableRead. rewrite E.
    cbn. unfold bound_fds. by rewrite alter_insert_eq.
Qed.

(** ** From the start *)

Lemma program_serving v cb loop loop_of addr ip_port name n : ServerProgram.granted v = true -> env_ok v ->
  InetAddr.ToIpPort addr = Ok ip_port -> zlen ip_port <= 21 -> n < 2 ^ 31 - 1 ->
  exists x, (x ← ServerProgram.construct v loop addr name;
             ServerProgram.Start v loop cb loop_of (ServerProgram.SetThreadNum n x)) = Ok x /\
    serving v x ip_port name loop (server_loops loop loop_of n).
Proof.
  intros Hg He E Hip Hn. rewrite (construct_ok _ _ _ _ _ Hg E). cbn [mbind result_bind].
  destruct (TcpServerFacts.Start_law loop cb loop_of loop ip_port name n Hip Hn) as (H1 & H2 & H3 & H4 & H5 & H6 & H7).
  rewrite bool_decide_eq_true_2 in H6 by done.
  destruct (listen_ok v Hg He) as (cs & q & El & Hint).
  unfold ServerProgram.Start. cbn [ServerProgram.SetThreadNum ServerProgram.server ServerProgram.acceptor_ ServerProgram.fds
    ServerProgram.channels ServerProgram.poller].
  unfold ServerProgram.listens. rewrite H6. cbn [TcpServer.SetThreadNum TcpServer.create TcpServer.calls length drop existsb orb].
  rewrite El. eexists. split; [done|]. by split_and!.
Qed.

(** Without what the acceptor needs the process is ended. *)
Lemma program_aborts v cb loop loop_of addr ip_port name n : ServerProgram.granted v = false ->
  InetAddr.ToIpPort addr = Ok ip_port -> zlen ip_port <= 21 -> n < 2 ^ 31 - 1 ->
  (x ← ServerProgram.construct v loop addr name;
   ServerProgram.Start v loop cb loop_of (ServerProgram.SetThreadNum n x)) = Err Aborted.
Proof.
  intros Hg E Hip Hn. unfold ServerProgram.construct, Acceptor.construct. rewrite E. cbn [mbind result_bind].
  destruct (Z.ltb_spec (ServerProgram.socket_answer v) 0) as [|Hs]; [done|]. unfold Socket.Bind.
  destruct (ServerProgram.bind_answer v) eqn:Hb; [|done]. cbn [mbind result_bind].
  destruct (TcpServerFacts.Start_law loop cb loop_of loop ip_port name n Hip Hn) as (_ & _ & H3 & _ & _ & H6 & _).
  rewrite bool_decide_eq_true_2 in H6 by done.
  unfold ServerProgram.Start. cbn [ServerProgram.SetThreadNum ServerProgram.server ServerProgram.acceptor_ ServerProgram.fds
    ServerProgram.channels ServerProgram.poller].
  unfold ServerProgram.listens. rewrite H6. cbn [TcpServer.SetThreadNum TcpServer.create TcpServer.calls length drop existsb orb].
  unfold ServerProgram.granted in Hg. rewrite (proj2 (Z.leb_le _ _) Hs), Hb in Hg. cbn in Hg.
  unfold Acceptor.Listen, Socket.Listen. by rewrite Hg.
Qed.

(** No sequence of steps that the kernel can produce makes it fail, SIGPIPE aside. *)
Definition never_fails (A : App) {L : AppLaws} x ps : Prop :=
  let d0 := Descriptors.initial (any := any) (ServerProgram.server x) ps (ServerProgram.acceptor_ x) (ServerProgram.fds x) in
  forall es, DescriptorsFacts.legal es d0 -> Forall no_sigpipe es ->
    exists d, Descriptors.run es d0 = Ok d /\ sinv (Descriptors.sys d).

Lemma serving_runs (A : App) {L : AppLaws} v x ip_port name loop ls ps :
  serving v x ip_port name loop ls -> pollers_for loop ls ps -> never_fails A x ps.
Proof.
  intros (H1 & _ & _ & H4 & H5 & _ & H7 & Ha & Hk & _) [P1 P2] es Hl _.
  assert (started (ServerProgram.server x) ps) as Hst.
  { split_and!; [done|done| |done]. rewrite H4, H7. intros l [->|Hi]; apply P1; by constructor. }
  assert (ServerProgram.fds x !! Acceptor.accept_fd (ServerProgram.acceptor_ x) = Some listening_sock) as Hf
    by (by rewrite Hk, lookup_insert_eq).
  assert (Acceptor.new_connection_callback_ (ServerProgram.acceptor_ x) = true) as Hcb by (by rewrite Ha).
  destruct (DescriptorsFacts.run_dinv _ _ _ Hcb Hf es _ (DescriptorsFacts.initial_inv _ _ _ Hf _ _ Hst) Hl)
    as (d & E & [Hs _] & _). by exists d.
Qed.

(** ** The two mains *)

(** The printed form of an address with port [port]. *)
Lemma prints_ok a port : InetAddr.sin_port a = InetAddr.htons port -> 0 <= port < 2 ^ 16 ->
  exists s, InetAddr.ToIpPort a = Ok s /\ zlen s <= 21 /\ s = InetAddr.ToIp a ++ [":"%char] ++ to_string port.
Proof.
  intros Ha Hp. destruct (InetAddrFacts.htons_involutive port Hp) as [E _].
  destruct (InetAddrFacts.ToIpPort_length a) as (s & Es & Hlen & Hs); [by rewrite Ha, E|].
  exists s. split_and!; try done. unfold InetAddr.ToPort in Hs. by rewrite Ha, E in Hs.
Qed.

(** A main that constructs and starts a server, whatever the kernel answers. *)
Definition outcome v (r : result (ServerProgram.t ACB Q)) (ip_port name : bytes) (loop : ptr) (ls : list ptr) : Prop :=
  if ServerProgram.granted v then env_ok v -> exists x, r = Ok x /\ serving v x ip_port name loop ls
  else r = Err Aborted.

Lemma program_outcome v cb loop loop_of addr port name n :
  InetAddr.sin_port addr = InetAddr.htons port -> 0 <= port < 2 ^ 16 -> n < 2 ^ 31 - 1 ->
  outcome v (x ← ServerProgram.construct v loop addr name;
             ServerProgram.Start v loop cb loop_of (ServerProgram.SetThreadNum n x))
    (InetAddr.ToIp addr ++ [":"%char] ++ to_string port) name loop (server_loops loop loop_of n).
Proof.
  intros Ha Hp Hn. destruct (prints_ok addr port Ha Hp) as (s & Es & Hlen & <-). unfold outcome.
  destruct (ServerProgram.granted v) eqn:Hg; [intros He; by apply program_serving|by eapply program_aborts].
Qed.

Lemma echo_main file v loop loop_of port name threads :
  EchoSettings.main file = Ok (port, name, threads) -> 0 <= port < 2 ^ 16 -> threads < 2 ^ 31 - 1 ->
  outcome v (EchoServerMain.main file v loop loop_of) (str "0.0.0.0:" ++ to_string port) name loop
    (server_loops loop loop_of threads).
Proof.
  intros E Hp Ht. unfold EchoServerMain.main. rewrite E. cbn [mbind result_bind].
  pose proof (program_outcome v (EchoServerMain.thread_init_set EchoServer.server_callbacks) loop loop_of
    (InetAddr.of_port port) port name threads eq_refl Hp Ht) as H.
  unfold EchoServerMain.construct, EchoServerMain.Start. by destruct (ServerProgram.construct _ _ _ _).
Qed.

Lemma pingpong_main inet_addr argv v loop loop_of ip port threads :
  PingpongSettings.main argv = Ok (Some (ip, port, threads)) -> 0 <= port < 2 ^ 16 -> threads < 2 ^ 31 - 1 ->
  exists r, PingpongServerMain.main inet_addr argv v loop loop_of = Some <$> r /\
    outcome v r (InetAddr.inet_ntop (inet_addr ip) ++ [":"%char] ++ to_string port) (str "PingPong") loop
      (server_loops loop loop_of threads).
Proof.
  intros E Hp Ht. unfold PingpongServerMain.main. rewrite E. cbn [mbind result_bind]. eexists. split.
  2:{ apply (program_outcome v (EchoServerMain.thread_init_set PingpongServer.server_callbacks) loop loop_of
        (InetAddr.of_ip (inet_addr ip) port) port (str "PingPong") threads eq_refl Hp Ht). }
  unfold PingpongServerMain.construct, PingpongServerMain.Start. destruct (ServerProgram.construct _ _ _ _); [|done].
  cbn [mbind result_bind]. by destruct (ServerProgram.Start _ _ _ _ _).
Qed.

End Facts.
End ServersFacts.

(** * Properties *)
Module ServersProps.
Import System SystemFacts SystemSteps SystemLaws ServersFacts.

Section Props.
Context {P : Type} `{!Poller (CB := TcpConnection.handler) (OBJ := unit) P}
  `{!PollerLaws (CB := TcpConnection.handler) (OBJ := unit) P}.
Context {ACB Q : Type} `{!Poller (CB := ACB) (OBJ := unit) Q} `{!PollerLaws (CB := ACB) (OBJ := unit) Q} {any : Type}.

(** C10: Take the echo server run with a configuration file that may be written to and says
    port, name (with a leading digit) and number of threads, and the ping-pong server run
    with such arguments. If socket, bind and listen succeed, each ends up with a server of
    that address and name and one loop per thread, or the base loop alone, and an acceptor
    whose socket listens and is watched for reading by the base loop; from there no
    sequence of acceptances, channel events and functors that the kernel can produce makes it
    fail, as long as no write is answered with EPIPE: SIGPIPE, which the mains do not ignore,
    would end the process. If socket, bind or listen fails the process aborts. Without a
    file the echo server listens on port 0. *)
Theorem servers_start_and_run port name threads inet_addr ip more (v : ServerProgram.env ACB Q) loop loop_of (ps : gmap ptr P) :
  0 <= port < 2 ^ 16 -> ConfigFacts.value_ok name -> 0 <= threads < 2 ^ 31 - 1 ->
  let file := concat (ConfigFacts.line_of <$> ConfigProps.settings_file port name threads) in
  let argv := ip :: to_string port :: to_string threads :: more in
  (ServerProgram.granted v = true -> env_ok v -> pollers_for loop (server_loops loop loop_of threads) ps ->
    (exists x, EchoServerMain.main (Some (file, true)) v loop loop_of = Ok x /\
      serving v x (str "0.0.0.0:" ++ to_string port) name loop (server_loops loop loop_of threads) /\
      never_fails (any := any) EchoServer.echo_app x ps) /\
    (exists x, PingpongServerMain.main inet_addr argv v loop loop_of = Ok (Some x) /\
      serving v x (InetAddr.inet_ntop (inet_addr ip) ++ [":"%char] ++ to_string port) (str "PingPong") loop
        (server_loops loop loop_of threads) /\
      never_fails (any := any) PingpongServer.pingpong_app x ps) /\
    (exists x, EchoServerMain.main None v loop loop_of = Ok x /\ serving v x (str "0.0.0.0:0") [] loop [loop])) /\
  (ServerProgram.granted v = false ->
    EchoServerMain.main (Some (file, true)) v loop loop_of = Err Aborted /\
    PingpongServerMain.main inet_addr argv v loop loop_of = Err Aborted).
Proof.
  intros Hp Hn Ht file argv. destruct (ConfigProps.settings_read port name threads) as (E1 & E2 & E3); [done|done|lia|].
  pose proof (echo_main _ v loop loop_of _ _ _ E1 Hp ltac:(lia)) as H1.
  destruct (pingpong_main inet_addr _ v loop loop_of _ _ _ (E3 ip more) Hp) as (r & Er & H2); [lia|].
  pose proof (echo_main _ v loop loop_of _ _ _ E2 ltac:(lia) ltac:(lia)) as H3.
  unfold outcome in *. unfold argv. rewrite Er. split; intros Hg; rewrite Hg in H1, H2, H3.
  - intros He Hps. destruct (H1 He) as (x1 & F1 & S1), (H2 He) as (x2 & -> & S2), (H3 He) as (x3 & F3 & S3). split_and!.
    + exists x1. split; [done|]. split; [done|]. by eapply serving_runs.
    + exists x2. split; [done|]. split; [done|]. by eapply serving_runs.
    + by exists x3.
  - by rewrite H2.
Qed.

End Props.

(** ** Servers with two threads over epoll *)

Import EpollPoller EpollFacts.

Definition sample_loop_of (i : Z) : ptr := if i =? 0 then 2%positive else 3%positive.

Lemma sample_pollers_for : pollers_for 1%positive (server_loops 1%positive sample_loop_of 2) SystemProps.sample_pollers.
Proof.
  destruct SystemProps.sample_started as (_ & _ & H3 & H4). split; [|exact H4].
  intros l [->|Hl]%elem_of_cons; [by apply H3; left|by apply H3; right].
Qed.

(** The first descriptor after the standard ones, over an epoll instance. *)
Definition sample_env : ServerProgram.env unit (EpollPoller.t SimpleEpoll.t) :=
  ServerProgram.mk_env 3 true true {[0 := Socket.fresh_sock false]} (EpollPoller.create (SimpleEpoll.mk ∅ [])) 1%positive tt.

Lemma sample_env_ok : env_ok sample_env.
Proof.
  split_and!; [|done|done]. split_and!.
  - intros fd c. cbn. split; [done|]. by intros (ch & [=] & _).
  - intros fd e c. cbn. split; [done|]. by intros (ch & [=] & _).
  - by intros c ch [=].
Qed.

Lemma servers_start_and_run_witness :
  exists x, EchoServerMain.main
      (Some (concat (ConfigFacts.line_of <$> ConfigProps.settings_file 8080 (str "1st") 2), true))
      sample_env 1%positive sample_loop_of = Ok x /\
    TcpServer.IpPort (ServerProgram.server x) = str "0.0.0.0:8080" /\
    EventLoopThreadPool.GetAllLoops (TcpServer.thread_pool_ (ServerProgram.server x)) = [2; 3]%positive /\
    ServerProgram.fds x !! 3 = Some listening_sock /\
    never_fails (any := unit) EchoServer.echo_app x SystemProps.sample_pollers.
Proof.
  destruct (servers_start_and_run (any := unit) 8080 (str "1st") 2 (fun _ => 0) (str "0.0.0.0") [] sample_env 1%positive
    sample_loop_of SystemProps.sample_pollers) as [H _];
    [lia|split; by repeat constructor|lia|].
  destruct (H eq_refl sample_env_ok sample_pollers_for) as ((x & E & Hz & Hrun) & _). destruct Hz as (_ & Hip & _ & _ & _ & _ & Hls & Ha & Hk & _).
  exists x. split; [exact E|]. split; [rewrite Hip; by vm_compute|]. split; [exact Hls|]. split; [by rewrite Hk, Ha|exact Hrun].
Defined.

(** A client that closes before it has read the answer can make the next write fail with
    EPIPE: a run the kernel can produce, at which the signal ends the whole server. *)
Definition client_gone : list Descriptors.event :=
  [DescriptorsProps.client; Descriptors.EvServer (EvRun 2%positive (WTake 0));
   Descriptors.EvServer (EvIo 1%positive Channel.POLLIN (RGive [Ascii.zero]) (WFail TcpConnection.EPIPE) (WTake 0))].

Example client_gone_kills :
  DescriptorsFacts.legal (H := EchoServer.echo_app) client_gone DescriptorsProps.descriptors0 /\ ~ Forall no_sigpipe client_gone.
Proof.
  split.
  - apply (legal_steps_reach Descriptors.step DescriptorsFacts.pre); [SystemProps.run_it|DescriptorsProps.each_event].
  - unfold client_gone. rewrite !Forall_cons. intros (_ & _ & [H _] & _). by apply H.
Qed.

(** A user who sets no connection callback: the write-complete callback is tested before
    it is called, this one is not, and the first connection ends the program. *)
Definition mute_app : App :=
  {| app := fun _ _ _ f w => match f with OnMessage => Ok w | _ => Err BadFunctionCall end;
     server_callbacks := TcpServer.SetMessageCallback OnMessage TcpServer.no_callbacks |}.

Example unset_callback_throws :
  run (H := mute_app) [EvAccept 7; EvRun 2%positive (WTake 0)] SystemProps.sample0 = Err BadFunctionCall.
Proof. by vm_compute. Qed.

End ServersProps.
