(* ===== verification/Reactor.v ===== *)
(** The loops of a server as the threads run them (EventLoop::Loop, PollAndHandleIoEvent and
    DoPendingFunctors of src/event_loop.cc, over the whole server of System.v): a loop polls,
    handles the channels the poller reported one after the other, then swaps out its
    functors and runs those. Between any two of these steps the other loops take theirs,
    so what was true when the poller returned has to hold when a channel's turn comes.

    The timers of a loop are in Timer.v: the servers add none. Which loop wakes which is in
    EventLoop.v. *)
From Stdlib Require Import ZArith Lia Ascii.
From stdpp Require Import base gmap list option strings.
From S2P Require Import Prelude Buffer Channel Poller EpollPoller EventLoop TcpConnection ThreadPool Net TcpServer.
From S2P Require Import System SystemFacts Echo SystemSteps SystemProps SystemEffects.

Local Open Scope Z_scope.

Module Reactor.
Import System SystemLaws.

(** An entry of [active_channels_]: the channel of a connection with the events reported for
    it, the acceptor's, or that of the wakeup descriptor. *)
Inductive active := AConn (c : ptr) (revents : Z) | AAccept | AWake.

(** Where the thread of a loop is in [Loop()]: in the poller, with channels left to handle,
    or with functors of its swapped batch left to run. *)
Inductive phase := InPoll | Handling (channels : list active) | Running (functors : nat).

(** What the kernel answers while a channel's events are handled. *)
Record answers := mk_answers {
  read_ : read_answer;
  read_write : write_answer;
  write_ : write_answer;
  accepted : Z;
}.

Section Reactor.
Context {P : Type} `{!Poller (CB := TcpConnection.handler) (OBJ := unit) P} `{!App}.

Record t := mk {
  sys : System.t P;
  at_ : gmap ptr phase;
}.

Definition go (l : ptr) (ph : phase) (d : t) : t := mk (sys d) (<[l := ph]> (at_ d)).

(** The step of the server that [channel->HandleEvent] is: the wakeup channel only reads its
    counter. *)
Definition handler (a : active) (k : answers) : list System.event :=
  match a with
  | AConn c r => [EvIo c r (read_ k) (read_write k) (write_ k)]
  | AAccept => [EvAccept (accepted k)]
  | AWake => []
  end.

(** [PollAndHandleIoEvent]: the poller returns, and a round of the loop over the channels. *)
Definition Polling (l : ptr) (channels : list active) (d : t) : result t :=
  match at_ d !! l with
  | Some InPoll => Ok (go l (Handling channels) d)
  | _ => Ok d
  end.
Definition HandleNext (l : ptr) (k : answers) (d : t) : result t :=
  match at_ d !! l with
  | Some (Handling (a :: channels)) =>
      s ← System.run (handler a k) (sys d);
      Ok (go l (Handling channels) (mk s (at_ d)))
  | _ => Ok d
  end.

(** [DoPendingFunctors]: the swap, and a round of the loop over the functors. *)
Definition Swap (l : ptr) (d : t) : result t :=
  match at_ d !! l with
  | Some (Handling []) => Ok (go l (Running (length (queue_of l (sys d)))) d)
  | _ => Ok d
  end.
Definition RunNext (l : ptr) (wa : write_answer) (d : t) : result t :=
  match at_ d !! l with
  | Some (Running (S n)) =>
      s ← System.step (EvRun l wa) (sys d);
      Ok (go l (Running n) (mk s (at_ d)))
  | _ => Ok d
  end.

(** The next turn of [Loop()]. *)
Definition Again (l : ptr) (d : t) : result t :=
  match at_ d !! l with
  | Some (Running O) => Ok (go l InPoll d)
  | _ => Ok d
  end.

(** The steps the threads take; one that is not due changes nothing. *)
Inductive event :=
  | EvPolled (l : ptr) (channels : list active)
  | EvHandle (l : ptr) (k : answers)
  | EvSwap (l : ptr)
  | EvFunctor (l : ptr) (wa : write_answer)
  | EvAgain (l : ptr).

Definition step (e : event) (d : t) : result t :=
  match e with
  | EvPolled l channels => Polling l channels d
  | EvHandle l k => HandleNext l k d
  | EvSwap l => Swap l d
  | EvFunctor l wa => RunNext l wa d
  | EvAgain l => Again l d
  end.

Fixpoint run (es : list event) (d : t) : result t :=
  match es with
  | [] => Ok d
  | e :: es => d ← step e d; run es d
  end.

(** A started server whose loops all wait in their pollers. *)
Definition initial (z : TcpServer.t) (ps : gmap ptr P) : t :=
  mk (System.initial z ps) ((fun _ => InPoll) <$> ps).

End Reactor.
Arguments t : clear implicits.
End Reactor.

(** * Lemmas *)
Module ReactorFacts.
Import System SystemFacts SystemSteps SystemLaws SystemEffects Reactor.

Section Server.
Context {P : Type} `{!Poller (CB := TcpConnection.handler) (OBJ := unit) P}
  `{!PollerLaws (CB := TcpConnection.handler) (OBJ := unit) P} `{!App, !AppLaws}.
Implicit Types (s : System.t P) (c l : ptr).

(** ** What a step of the server leaves alone *)

(** The functors about an open connection are in its own loop. *)
Lemma up_queue s l ls c o f : sinv s -> objs s !! c = Some o ->
  TcpConnection.state_ (o_conn o) = TcpConnection.kConnected -> o_loop o <> l ->
  loops s !! l = Some ls -> f ∈ l_queue ls -> about f <> Some c.
Proof.
  intros Hs Ho Hup Hne Hl Hf Ha. destruct (mid_intro s c o Hs Ho) as (g & n & x & ls1 & Hmid & [Hsh _] & _).
  assert (g = SUp) as -> by (by eapply up_stage). destruct Hmid as (_ & _ & _ & Hlo & _ & Hq & _).
  apply (proj2 (proj_elem c f _ Ha)) in Hf. rewrite (Hq _ _ Hl) in Hf. cbn in Hf.
  rewrite decide_False in Hf by congruence. by apply elem_of_nil in Hf.
Qed.

(** It is in the server's map, so it lives. *)
Lemma up_stays s s1 c o : sinv s -> objs s !! c = Some o ->
  TcpConnection.state_ (o_conn o) = TcpConnection.kConnected ->
  srv s1 = srv s -> objs s1 !! c = Some o -> objs (release s1) !! c = Some o.
Proof.
  intros Hs Ho Hup Hsrv Ho1. apply map_lookup_filter_Some. split; [done|]. cbn.
  unfold dead. apply andb_false_iff. right. apply negb_false_iff, referenced_true. left.
  destruct (mid_intro s c o Hs Ho) as (g & n & x & ls & Hmid & [Hsh _] & _).
  assert (g = SUp) as -> by (by eapply up_stage). destruct Hmid as (_ & _ & _ & _ & _ & _ & Hm).
  exists (TcpServer.conn_name x). by rewrite Hsrv.
Qed.

(** Whether step [e] is about connection [c] of loop [l]. *)
Definition about_conn (e : System.event) (c l : ptr) : Prop :=
  match e with
  | EvAccept _ => False
  | EvIo c' _ _ _ _ => c' = c
  | EvRun l' _ => l' = l
  | EvForeign _ _ => True
  end.

Lemma step_bystander e s s1 c o : sinv s -> SystemLaws.pre e s -> System.step e s = Ok s1 ->
  objs s !! c = Some o -> TcpConnection.state_ (o_conn o) = TcpConnection.kConnected ->
  ~ about_conn e c (o_loop o) -> objs s1 !! c = Some o.
Proof.
  intros Hs Hpre E Ho Hup Hne. destruct e as [fd|c' r rd rw ww|l wa|c' k]; [| | |done]; unfold System.step in E; cbn [act] in E.
  - destruct (accept_ok fd s Hs Hpre) as (s2 & E2 & Hs2). rewrite E2 in E. injection E as <-.
    rewrite release_id by done. destruct (accept_adds _ _ _ E2) as (_ & _ & Hoth & _). rewrite Hoth; [done|].
    intros ->. destruct (new_nowhere s Hs) as [Hn _]. congruence.
  - destruct Hpre as [Hpre Hhup]. destruct (objs s !! c') as [o'|] eqn:Ho'; [|done]. destruct Hpre as [Hup' Hio].
    destruct (handle_io_ok rd rw ww s c' r o' Hs Ho' Hup' Hio Hhup) as (s2 & E2 & Hs2). rewrite E2 in E.
    injection E as <-. rewrite release_id by done.
    rewrite (to_others _ _ _ (touches_handle_io _ _ _ _ _ _ _ E2)); [done|]. cbn in Hne. congruence.
  - cbn in Hne. destruct (pop_queue l s) as [[f s2]|] eqn:Epop; [|injection E as <-; by rewrite release_id].
    pose proof Epop as Hpop. unfold pop_queue in Epop. destruct (loops s !! l) as [ls|] eqn:Hl; [|done].
    destruct (l_queue ls) as [|f' q] eqn:Hq; [done|]. injection Epop as -> Es2.
    assert (about f <> Some c) as Hf.
    { eapply (up_queue s l ls c o f); try done. rewrite Hq. apply list_elem_of_here. }
    apply pop_queue_spec in Hpop as (_ & Hsrv & Hobjs & _).
    destruct (run_functor wa f s2) as [s3|] eqn:E3; [|done]. injection E as <-.
    destruct (about f) as [c'|] eqn:Ha.
    + pose proof (touches_run_functor wa f c' s2 s3 (or_introl Ha) E3) as Ht.
      assert (objs s3 !! c = Some o) as Ho3.
      { rewrite (to_others _ _ _ Ht), Hobjs; [done|congruence]. }
      destruct (run_functor_ok wa f c' s l ls q Hs Hl Hq Ha) as (s4 & E4 & _ & Hor).
      { intros x -> Hx. by eapply Hpre. }
      change (popped l ls q s) with (System.mk (srv s) (<[l := mk_loop (l_chans ls) (l_poller ls) q]> (loops s)) (objs s)) in E4.
      rewrite Es2, E3 in E4. injection E4 as <-. destruct Hor as [->|Hor]; [done|]. by eapply up_stays.
    + assert (s3 = s2) as -> by (destruct f as [[]|]; [by injection E3|done..]).
      eapply up_stays; [exact Hs|done..|by rewrite Hobjs].
Qed.

(** Queues only get longer, but for the functor that is taken. *)
Lemma step_queues e s s1 : System.step e s = Ok s1 ->
  (forall l, (forall wa, e <> EvRun l wa) -> exists fs, queue_of l s1 = queue_of l s ++ fs) /\
  (forall l wa f q, e = EvRun l wa -> queue_of l s = f :: q -> exists fs, queue_of l s1 = q ++ fs).
Proof.
  unfold System.step. destruct (act e s) as [s2|] eqn:E; [|done]. intros [= <-].
  assert (forall l1, queue_of l1 (release s2) = queue_of l1 s2) as Hr by (intros; apply release_queue).
  destruct e as [fd|c r rd rw ww|l wa|c k]; cbn in E.
  - destruct (accept_adds _ _ _ E) as (_ & _ & _ & Hq & _). split; [|done]. intros l _. rewrite Hr. apply Hq.
  - split; [|done]. intros l _. rewrite Hr. apply (to_queues _ _ _ (touches_handle_io _ _ _ _ _ _ _ E)).
  - destruct (pop_queue l s) as [[f s3]|] eqn:Epop.
    + apply pop_queue_spec in Epop as (Hq & _ & _ & Hoth & _).
      assert (touches (default 1%positive (about f)) s3 s2) as Ht.
      { eapply touches_run_functor; [|exact E]. destruct (about f); [by left|by right]. }
      split.
      * intros l1 Hne. rewrite Hr. rewrite <- Hoth; [apply (to_queues _ _ _ Ht)|]. intros ->. by destruct (Hne wa).
      * intros l1 wa1 f1 q [= <- _]. rewrite Hq. intros [= -> <-]. rewrite Hr. apply (to_queues _ _ _ Ht).
    + injection E as <-. split.
      * intros l1 _. rewrite Hr. exists []. by rewrite app_nil_r.
      * intros l1 wa1 f q [= <- _] Hq. unfold pop_queue, queue_of in *.
        destruct (loops s !! l) as [ls|]; [|done]. cbn in Hq. by rewrite Hq in Epop.
  - split; [|done]. intros l _. rewrite Hr. destruct (objs s !! c); injection E as <-.
    + apply (to_queues c), touches_push.
    + exists []. by rewrite app_nil_r.
Qed.

(** ** The invariant *)

Definition conns_of (channels : list active) : list ptr :=
  omap (fun a => match a with AConn c _ => Some c | _ => None end) channels.

(** POLLHUP does not come with POLLPRI alone. *)
Definition hup_ok (r : Z) : Prop :=
  Channel.slot_cond Channel.SClose r = true -> Channel.slot_cond Channel.SRead r = false.

(** The channels a loop has left to handle are there, each is of an open connection of that
    loop, and the functors it has left to run are in front of its queue. *)
Definition phase_ok (l : ptr) (ph : phase) (s : System.t P) : Prop :=
  match ph with
  | InPoll => True
  | Handling channels =>
      NoDup (conns_of channels) /\
      forall c r, AConn c r ∈ channels -> hup_ok r /\
        exists o, objs s !! c = Some o /\ o_loop o = l /\
          TcpConnection.state_ (o_conn o) = TcpConnection.kConnected
  | Running n => (n <= length (queue_of l s))%nat
  end.

Definition rinv (d : Reactor.t P) : Prop :=
  sinv (sys d) /\ forall l ph, at_ d !! l = Some ph -> phase_ok l ph (sys d).

Lemma elem_conns_of c r channels : AConn c r ∈ channels -> c ∈ conns_of channels.
Proof. intros Hc. apply list_elem_of_omap. by exists (AConn c r). Qed.

Lemma rinv_go l ph (d : Reactor.t P) : rinv d -> phase_ok l ph (sys d) -> rinv (go l ph d).
Proof.
  intros [Hs Hph] Hok. split; [done|]. intros l1 ph1. cbn. rewrite lookup_insert. case_decide; [|by apply Hph].
  intros [= <-]. by subst.
Qed.

(** A step of the server taken by loop [l] leaves the other loops where they are. *)
Lemma phase_other e s s1 l l1 ph : sinv s -> SystemLaws.pre e s -> System.step e s = Ok s1 -> l1 <> l ->
  (forall wa l2, e = EvRun l2 wa -> l2 = l) ->
  (forall c r rd rw ww, e = EvIo c r rd rw ww -> exists o, objs s !! c = Some o /\ o_loop o = l) ->
  phase_ok l1 ph s -> phase_ok l1 ph s1.
Proof.
  intros Hs Hpre E Hne Hrun Hio. destruct ph as [|channels|n]; [done|..]; cbn.
  - intros [Hnd Hc]. split; [done|]. intros c r Hcr. destruct (Hc c r Hcr) as (Hh & o & Ho & Hlo & Hup).
    split; [done|]. exists o. split; [|done]. eapply (step_bystander e s); try done.
    destruct e as [fd|c' r' rd rw ww|l' wa|c' k]; cbn; [tauto|..|destruct Hpre].
    + intros ->. destruct (Hio _ _ _ _ _ eq_refl) as (o' & Ho' & El). congruence.
    + intros ->. by rewrite Hlo in Hrun; destruct Hne; eapply Hrun.
  - intros Hn. destruct (step_queues e s s1 E) as [Hq _]. destruct (Hq l1) as [fs ->].
    + intros wa ->. by destruct Hne; eapply Hrun.
    + rewrite length_app. lia.
Qed.

(** ** Steps *)

(** What the poller of loop [l] may report. *)
Definition reportable (a : active) (l : ptr) (s : System.t P) : Prop :=
  match a with
  | AConn c r => hup_ok r /\ watched s c /\ o_loop <$> objs s !! c = Some l
  | AAccept => l = TcpServer.loop_ (srv s)
  | AWake => True
  end.

(** What each step relies on. The poller reports each connection at most once, only those
    its loop watches (so epoll; poll may add a hang-up on an empty mask), and to the
    server's loop alone the acceptor; from then on it is the
    kernel's answers that matter, and that a connection's descriptor can be watched. *)
Definition pre (e : event) (d : Reactor.t P) : Prop :=
  match e with
  | EvPolled l channels =>
      at_ d !! l = Some InPoll ->
      NoDup (conns_of channels) /\ Forall (fun a => reportable a l (sys d)) channels
  | EvHandle l k =>
      match at_ d !! l with
      | Some (Handling (AConn c _ :: _)) =>
          match objs (sys d) !! c with Some o => io_pre (read_ k) (read_write k) o | None => True end
      | Some (Handling (AAccept :: _)) => accept_pre (accepted k) (sys d)
      | _ => True
      end
  | EvFunctor l wa => SystemLaws.pre (EvRun l wa) (sys d)
  | EvSwap _ | EvAgain _ => True
  end.

Fixpoint legal (es : list event) (d : Reactor.t P) : Prop :=
  match es with
  | [] => True
  | e :: es => pre e d /\ match Reactor.step e d with Ok d' => legal es d' | Err _ => True end
  end.

(** The steps of the server in a step of a loop. *)
Definition forget (e : event) (d : Reactor.t P) : list System.event :=
  match e with
  | EvHandle l k => match at_ d !! l with Some (Handling (a :: _)) => handler a k | _ => [] end
  | EvFunctor l wa => match at_ d !! l with Some (Running (S _)) => [EvRun l wa] | _ => [] end
  | _ => []
  end.

Definition matched (e : event) (d d' : Reactor.t P) : Prop :=
  SystemLaws.legal (forget e d) (sys d) /\ System.run (forget e d) (sys d) = Ok (sys d').

Lemma one_step e s s1 : SystemLaws.pre e s -> System.step e s = Ok s1 ->
  SystemLaws.legal [e] s /\ System.run [e] s = Ok s1.
Proof. intros Hp E. cbn. by rewrite E. Qed.

Lemma step_polled l channels d : rinv d -> pre (EvPolled l channels) d ->
  exists d', Polling l channels d = Ok d' /\ rinv d' /\ matched (EvPolled l channels) d d'.
Proof.
  intros Hd Hpre. unfold Polling. destruct (at_ d !! l) as [[| |]|] eqn:El; [|by exists d..].
  eexists. split; [done|]. split; [|done]. destruct (Hpre El) as (Hnd & Hc). apply rinv_go; [done|].
  split; [done|]. intros c r Hcr. rewrite list.Forall_forall in Hc.
  destruct (Hc _ Hcr) as (Hh & Hw & Hlo). split; [done|].
  destruct (watched_is_up _ _ (proj1 Hd) Hw) as (o & Ho & Hup). exists o.
  rewrite Ho in Hlo. by injection Hlo as Hlo.
Qed.

Lemma step_handle l k d : rinv d -> pre (EvHandle l k) d ->
  exists d', HandleNext l k d = Ok d' /\ rinv d' /\ matched (EvHandle l k) d d'.
Proof.
  intros Hd Hpre. unfold HandleNext, matched, forget. cbn [pre] in Hpre.
  destruct (at_ d !! l) as [[|[|a channels]|]|] eqn:El; [by exists d| by exists d| |by exists d|by exists d].
  destruct Hd as [Hs Hph]. destruct (Hph l _ El) as [Hnd Hc].
  assert (forall s, phase_ok l (Handling channels) s ->
    (forall l1 ph, l1 <> l -> at_ d !! l1 = Some ph -> phase_ok l1 ph s) -> sinv s ->
    rinv (go l (Handling channels) (Reactor.mk s (at_ d)))) as Hgo.
  { intros s Hok Hoth Hs1. split; [done|]. intros l1 ph1. cbn. rewrite lookup_insert. case_decide as E1.
    - intros [= <-]. by subst.
    - intros Hl1. by apply Hoth. }
  assert (forall c r, AConn c r ∈ channels -> AConn c r ∈ a :: channels) as Hin by (intros; by right).
  destruct a as [c r| |]; cbn [handler].
  - destruct (Hc c r (list_elem_of_here _ _)) as (Hh & o & Ho & Hlo & Hup). rewrite Ho in Hpre.
    set (e := EvIo c r (read_ k) (read_write k) (write_ k)).
    assert (SystemLaws.pre e (sys d)) as Hpe by (cbn; rewrite Ho; by split).
    destruct (step_ok e _ Hs Hpe) as (s1 & E & Hs1). destruct (one_step e _ _ Hpe E) as [HL HR].
    rewrite HR. cbn [mbind result_bind]. eexists. split; [done|]. split; [|by split].
    cbn in Hnd. apply list.NoDup_cons in Hnd as [Hnin Hnd]. apply Hgo; [|..|done].
    + split; [done|]. intros c1 r1 Hc1. destruct (Hc c1 r1) as (Hh1 & o1 & Ho1 & Hlo1 & Hup1); [by apply Hin|].
      split; [done|]. exists o1. split; [|done]. eapply (step_bystander e (sys d)); try done.
      cbn. intros <-. by eapply Hnin, elem_conns_of.
    + intros l1 ph1 Hne1 Hl1. eapply (phase_other e (sys d)); try done; [|by apply Hph].
      intros ? ? ? ? ? [= <- <- <- <- <-]. by exists o.
  - set (e := EvAccept (accepted k)).
    assert (SystemLaws.pre e (sys d)) as Hpe by exact Hpre.
    destruct (step_ok e _ Hs Hpe) as (s1 & E & Hs1). destruct (one_step e _ _ Hpe E) as [HL HR].
    rewrite HR. cbn [mbind result_bind]. eexists. split; [done|]. split; [|by split]. apply Hgo; [|..|done].
    + split; [done|]. intros c1 r1 Hc1. destruct (Hc c1 r1) as (Hh1 & o1 & Ho1 & Hlo1 & Hup1); [by apply Hin|].
      split; [done|]. exists o1. split; [|done]. eapply (step_bystander e (sys d)); try done. cbn. tauto.
    + intros l1 ph1 Hne1 Hl1. eapply (phase_other e (sys d)); try done. by apply Hph.
  - cbn. eexists. split; [done|]. split; [|done]. apply Hgo; [|..|done].
    + split; [done|]. intros c1 r1 Hc1. by apply Hc, Hin.
    + intros l1 ph1 _. apply Hph.
Qed.

Lemma step_functor l wa d : rinv d -> pre (EvFunctor l wa) d ->
  exists d', RunNext l wa d = Ok d' /\ rinv d' /\ matched (EvFunctor l wa) d d'.
Proof.
  intros Hd Hpre. unfold RunNext, matched, forget. cbn [pre] in Hpre.
  destruct (at_ d !! l) as [[| |[|n]]|] eqn:El; [by exists d|by exists d|by exists d| |by exists d].
  destruct Hd as [Hs Hph]. pose proof (Hph l _ El) as Hn. cbn in Hn.
  destruct (step_ok (EvRun l wa) _ Hs Hpre) as (s1 & E & Hs1). destruct (one_step _ _ _ Hpre E) as [HL HR].
  rewrite E. cbn [mbind result_bind]. eexists. split; [done|]. split; [|by split]. split; [done|].
  intros l1 ph1. cbn. rewrite lookup_insert. case_decide as E1.
  - intros [= <-]. subst l1. cbn. destruct (queue_of l (sys d)) as [|f q] eqn:Hq; [cbn in Hn; lia|].
    destruct (proj2 (step_queues _ _ _ E) l wa f q eq_refl Hq) as [fs ->]. rewrite length_app. cbn in Hn. lia.
  - intros Hl1. eapply (phase_other (EvRun l wa) (sys d)); try done; [by intros ? ? [= <- <-]|by apply Hph].
Qed.

Lemma step_rinv e d : rinv d -> pre e d ->
  exists d', Reactor.step e d = Ok d' /\ rinv d' /\ matched e d d'.
Proof.
  intros Hd Hp. destruct e as [l channels|l k|l|l wa|l]; cbn [Reactor.step].
  - by apply step_polled.
  - by apply step_handle.
  - unfold Swap. destruct (at_ d !! l) as [[|[|a channels]|]|] eqn:El; [by exists d| |by exists d..].
    eexists. split; [done|]. split; [|done]. apply rinv_go; [done|]. cbn. lia.
  - by apply step_functor.
  - unfold Again. destruct (at_ d !! l) as [[| |[|n]]|] eqn:El; [by exists d|by exists d| |by exists d..].
    eexists. split; [done|]. split; [|done]. by apply rinv_go.
Qed.

Lemma run_rinv es d : rinv d -> legal es d ->
  exists d' es', Reactor.run es d = Ok d' /\ rinv d' /\
    SystemLaws.legal es' (sys d) /\ System.run es' (sys d) = Ok (sys d').
Proof.
  revert d. induction es as [|e es IH]; intros d Hd Hl; [by exists d, []|]. destruct Hl as [Hp Hl].
  destruct (step_rinv e d Hd Hp) as (d1 & E & H1 & HL & HR). rewrite E in Hl.
  destruct (IH d1 H1 Hl) as (d2 & es2 & E2 & H2 & HL2 & HR2). exists d2, (forget e d ++ es2).
  cbn. rewrite E. split_and!; [done..| |].
  - apply (legal_steps_app System.step SystemLaws.pre _ _ _ _ HR). by split.
  - etransitivity; [exact (run_steps_app System.step _ es2 _ _ HR)|exact HR2].
Qed.

Lemma initial_rinv z ps : started z ps -> rinv (Reactor.initial z ps).
Proof.
  intros Hst. split; [by apply started_sinv|]. intros l ph. cbn. rewrite lookup_fmap.
  destruct (ps !! l); [|done]. by intros [= <-].
Qed.

(** ** A batch of functors *)

(** The functors loop [l] runs during [es]. *)
Definition ran_now (l : ptr) (e : event) (d : Reactor.t P) : list functor :=
  match e with
  | EvFunctor l' _ =>
      if decide (l' = l) then
        match at_ d !! l with Some (Running (S _)) => take 1 (queue_of l (sys d)) | _ => [] end
      else []
  | _ => []
  end.

Fixpoint ran (l : ptr) (es : list event) (d : Reactor.t P) : list functor :=
  match es with
  | [] => []
  | e :: es => ran_now l e d ++ match Reactor.step e d with Ok d' => ran l es d' | Err _ => [] end
  end.

(** The rounds loop [l] makes of its functors' loop, and whether it starts another turn. *)
Definition is_round (l : ptr) (e : event) : bool := match e with EvFunctor l' _ => bool_decide (l' = l) | _ => false end.
Definition is_again (l : ptr) (e : event) : bool := match e with EvAgain l' => bool_decide (l' = l) | _ => false end.
Fixpoint rounds (l : ptr) (es : list event) : nat :=
  match es with [] => O | e :: es => if is_round l e then S (rounds l es) else rounds l es end.

Lemma set_phase_ne l l1 ph s (d : Reactor.t P) : l1 <> l -> at_ (go l1 ph (Reactor.mk s (at_ d))) !! l = at_ d !! l.
Proof. intros. cbn. by rewrite lookup_insert_ne. Qed.

Lemma handler_queues a k s s1 l : System.run (handler a k) s = Ok s1 ->
  exists fs, queue_of l s1 = queue_of l s ++ fs.
Proof.
  destruct a; cbn [handler System.run].
  1,2: destruct (System.step _ s) as [s2|] eqn:E; [|done]; cbn; intros [= <-];
    by apply (proj1 (step_queues _ _ _ E)).
  intros [= <-]. exists []. by rewrite app_nil_r.
Qed.

(** What other steps do to a loop that runs its functors: they add to its queue. *)
Lemma running_waits e l n d d1 : Reactor.step e d = Ok d1 -> at_ d !! l = Some (Running n) ->
  is_again l e = false -> (is_round l e = true -> n = O) ->
  at_ d1 !! l = Some (Running n) /\ ran_now l e d = [] /\
  exists fs, queue_of l (sys d1) = queue_of l (sys d) ++ fs.
Proof.
  intros E Hat Hag Hrd.
  assert (d1 = d -> at_ d1 !! l = Some (Running n) /\ exists fs, queue_of l (sys d1) = queue_of l (sys d) ++ fs) as Hsame.
  { intros ->. split; [done|]. exists []. by rewrite app_nil_r. }
  assert (forall l1 ph s, l1 <> l -> (exists fs, queue_of l s = queue_of l (sys d) ++ fs) ->
    d1 = go l1 ph (Reactor.mk s (at_ d)) ->
    at_ d1 !! l = Some (Running n) /\ exists fs, queue_of l (sys d1) = queue_of l (sys d) ++ fs) as Hother.
  { intros l1 ph s Hne Hq ->. by rewrite set_phase_ne. }
  assert (exists fs, queue_of l (sys d) = queue_of l (sys d) ++ fs) as Hnil by (exists []; by rewrite app_nil_r).
  assert (ran_now l e d = []) as Hran.
  { destruct e; try done. cbn in *. case_decide as El; [|done]. subst.
    rewrite bool_decide_eq_true_2 in Hrd by done. rewrite Hat, Hrd by done. done. }
  enough (at_ d1 !! l = Some (Running n) /\ exists fs, queue_of l (sys d1) = queue_of l (sys d) ++ fs) as [? ?] by done.
  destruct e as [l1 channels|l1 k|l1|l1 wa|l1]; cbn in E, Hag, Hrd; destruct (decide (l1 = l)) as [->|Hne].
  - apply Hsame. unfold Polling in E. rewrite Hat in E. by injection E.
  - unfold Polling in E. destruct (at_ d !! l1) as [[| |]|]; injection E as <-; auto.
    by apply (Hother l1 (Handling channels) (sys d)).
  - apply Hsame. unfold HandleNext in E. rewrite Hat in E. by injection E.
  - unfold HandleNext in E. destruct (at_ d !! l1) as [[|[|a channels]|]|]; try (injection E as <-; by auto).
    destruct (System.run (handler a k) (sys d)) as [s1|] eqn:E1; [|done]. injection E as <-.
    apply (Hother l1 (Handling channels) s1); [done| |done]. by eapply handler_queues.
  - apply Hsame. unfold Swap in E. rewrite Hat in E. by injection E.
  - unfold Swap in E. destruct (at_ d !! l1) as [[|[|a channels]|]|]; injection E as <-; auto.
    by apply (Hother l1 (Running (length (queue_of l1 (sys d)))) (sys d)).
  - rewrite bool_decide_eq_true_2 in Hrd by done. rewrite Hrd in Hat by done. apply Hsame.
    unfold RunNext in E. rewrite Hat in E. by injection E.
  - unfold RunNext in E. destruct (at_ d !! l1) as [[| |[|m]]|]; try (injection E as <-; by auto).
    destruct (System.step (EvRun l1 wa) (sys d)) as [s1|] eqn:E1; [|done]. injection E as <-.
    apply (Hother l1 (Running m) s1); [done| |done]. apply (proj1 (step_queues _ _ _ E1)). congruence.
  - by rewrite bool_decide_eq_true_2 in Hag.
  - unfold Again in E. destruct (at_ d !! l1) as [[| |[|m]]|]; injection E as <-; auto.
    by apply (Hother l1 InPoll (sys d)).
Qed.

Lemma batch_law es l : forall n d d2, rinv d -> legal es d -> at_ d !! l = Some (Running n) ->
  existsb (is_again l) es = false -> Reactor.run es d = Ok d2 ->
  let k := Nat.min n (rounds l es) in
  ran l es d = take k (queue_of l (sys d)) /\ at_ d2 !! l = Some (Running (n - k)) /\
  exists fs, queue_of l (sys d2) = drop k (queue_of l (sys d)) ++ fs.
Proof.
  induction es as [|e es IH]; intros n d d2 Hd Hl Hat Hag Hr.
  { injection Hr as <-. cbn. rewrite Nat.min_0_r, Nat.sub_0_r, drop_0. split_and!; [done|done|].
    exists []. by rewrite app_nil_r. }
  cbn in Hag, Hr. apply orb_false_iff in Hag as [Hag Hags]. destruct Hl as [Hp Hl].
  destruct (step_rinv e d Hd Hp) as (d1 & E & H1 & _). rewrite E in Hl, Hr. cbn in Hr.
  pose proof (proj2 Hd l _ Hat) as Hn. cbn in Hn.
  cbn [ran rounds]. rewrite E. destruct (is_round l e && bool_decide (n <> O)) eqn:Hdue.
  - apply andb_prop in Hdue as [Hrd Hnz%bool_decide_eq_true_1]. rewrite Hrd. destruct n as [|n]; [done|].
    destruct e as [| | |l1 wa|]; try done. cbn in Hrd. apply bool_decide_eq_true_1 in Hrd as ->.
    cbn in E. unfold RunNext in E. rewrite Hat in E.
    destruct (System.step (EvRun l wa) (sys d)) as [s1|] eqn:E1; [|done]. injection E as <-.
    destruct (queue_of l (sys d)) as [|f q] eqn:Hq; [cbn in Hn; lia|].
    destruct (proj2 (step_queues _ _ _ E1) l wa f q eq_refl Hq) as [fs Hq1].
    destruct (IH n _ d2 H1 Hl (lookup_insert_eq _ _ _) Hags Hr) as (I1 & I2 & fs' & I3).
    cbn [go sys] in I1, I2, I3. rewrite Hq1 in I1, I3. cbn [length] in Hn.
    rewrite I1, I2, I3. cbn [ran_now]. rewrite decide_True, Hat, Hq by done.
    rewrite <- Nat.succ_min_distr, take_app_le, drop_app_le by lia. cbn. split_and!; [done|done|].
    exists (fs ++ fs'). by rewrite app_assoc.
  - destruct (running_waits e l n d d1 E Hat Hag) as (W1 & W2 & fs & W3).
    { intros Hrd. rewrite Hrd in Hdue. by apply bool_decide_eq_false_1, dec_stable in Hdue. }
    destruct (IH n _ _ H1 Hl W1 Hags Hr) as (I1 & I2 & fs' & I3).
    assert (Nat.min n (if is_round l e then S (rounds l es) else rounds l es) = Nat.min n (rounds l es)) as ->.
    { destruct (is_round l e); [|done]. apply bool_decide_eq_false_1, dec_stable in Hdue. by rewrite Hdue. }
    rewrite W2, I1, I2, I3, W3. cbn [app].
    rewrite take_app_le, drop_app_le by lia. split_and!; [done|done|]. exists (fs ++ fs'). by rewrite app_assoc.
Qed.

End Server.
End ReactorFacts.

(** * Properties *)
Module ReactorProps.
Import System SystemFacts SystemSteps SystemLaws Reactor ReactorFacts.

Section Props.
Context {P : Type} `{!Poller (CB := TcpConnection.handler) (OBJ := unit) P}
  `{!PollerLaws (CB := TcpConnection.handler) (OBJ := unit) P} `{!App, !AppLaws}.

(** C3: The loops' threads, each polling, handling the channels it was given and running the
    functors it swapped out, with the steps of different loops interleaved in any way, do
    nothing that the steps of System.v do not: a run never fails, and is a legal run there
    that ends in the same state, so that all that is shown of those holds here. In
    particular what the poller said when it returned is still true when a channel's turn
    comes, however late: each channel left in a loop's list belongs to a connection that
    exists, is open and lives in that loop, so that no raw pointer in it dangles. *)
Theorem loops_refine_server z (ps : gmap ptr P) es :
  started z ps -> ReactorFacts.legal es (Reactor.initial z ps) ->
  exists d es', Reactor.run es (Reactor.initial z ps) = Ok d /\
    SystemLaws.legal es' (System.initial z ps) /\ System.run es' (System.initial z ps) = Ok (sys d) /\
    forall l channels c r, at_ d !! l = Some (Handling channels) -> AConn c r ∈ channels ->
      exists o, objs (sys d) !! c = Some o /\ o_loop o = l /\
        TcpConnection.state_ (o_conn o) = TcpConnection.kConnected.
Proof.
  intros Hst Hl. destruct (run_rinv es _ (initial_rinv z ps Hst) Hl) as (d & es' & E & [_ Hph] & HL & HR).
  exists d, es'. split_and!; [done..|]. intros l channels c r Hat Hc. by apply (Hph l _ Hat) in Hc as [_ Hc].
Qed.

(** C5: [DoPendingFunctors] runs what was queued when it swapped the queue, in the order in
    which it was queued, and nothing else: whatever the other loops do meanwhile and however
    much they and the functors themselves queue, after [k] rounds of its loop the first [k]
    of those functors have run, and after as many as there were the loop is done with them.
    What was queued in the meantime waits for its next turn. *)
Theorem batches_run_in_order z (ps : gmap ptr P) es l es2 d d2 :
  started z ps -> ReactorFacts.legal (es ++ EvSwap l :: es2) (Reactor.initial z ps) ->
  Reactor.run es (Reactor.initial z ps) = Ok d -> at_ d !! l = Some (Handling []) ->
  existsb (is_again l) es2 = false -> Reactor.run (EvSwap l :: es2) d = Ok d2 ->
  let batch := queue_of l (sys d) in
  let k := Nat.min (length batch) (rounds l es2) in
  ran l (EvSwap l :: es2) d = take k batch /\ at_ d2 !! l = Some (Running (length batch - k)) /\
  exists fs, queue_of l (sys d2) = drop k batch ++ fs.
Proof.
  intros Hst Hl Hr Hat Hag Hr2. apply (legal_steps_app Reactor.step ReactorFacts.pre _ _ _ _ Hr) in Hl as [Hl1 [_ Hl2]].
  destruct (run_rinv es _ (initial_rinv z ps Hst) Hl1) as (d0 & _ & E & Hd & _). assert (d0 = d) as -> by congruence.
  cbn [Reactor.step Reactor.run] in Hl2, Hr2. cbn [ran Reactor.step]. unfold Swap in *. rewrite Hat in *.
  cbn [mbind result_bind] in Hr2. cbn [ran_now app].
  apply (batch_law es2 l _ _ _ (rinv_go l (Running _) d Hd (le_n _)) Hl2); [apply lookup_insert_eq|done|done].
Qed.

End Props.

(** ** The echo server on three loops *)

Import EpollPoller EpollFacts SystemProps.
#[local] Existing Instance EchoServer.echo_app.
#[local] Existing Instance echo_laws.

Definition loops0 : Reactor.t EP := Reactor.initial TcpServerProps.sample sample_pollers.
Definition reach : list event -> Reactor.t EP := reach_steps Reactor.step loops0.

Definition nothing : answers := mk_answers (RGive []) (WTake 0) (WTake 0) 0.

(** The base loop accepts a client and goes on; the second loop is woken, establishes the
    connection and goes on. *)
Definition greeted : list event :=
  [EvPolled 1%positive [AAccept]; EvHandle 1%positive (mk_answers (RGive []) (WTake 0) (WTake 0) 7);
   EvSwap 1%positive; EvAgain 1%positive;
   EvPolled 2%positive [AWake]; EvHandle 2%positive nothing; EvSwap 2%positive;
   EvFunctor 2%positive (WTake 0); EvAgain 2%positive].

(** The client's word is reported, but before it is read the base loop accepts another
    client, which goes to the third loop. *)
Definition delayed : list event :=
  greeted ++ [EvPolled 2%positive [AConn 1%positive Channel.POLLIN; AWake]; EvPolled 1%positive [AAccept];
    EvHandle 1%positive (mk_answers (RGive []) (WTake 0) (WTake 0) 8)].
Definition answered : list event :=
  delayed ++ [EvHandle 2%positive (mk_answers (RGive (str "hello")) (WTake 5) (WTake 0) 0);
    EvHandle 2%positive nothing].

(** The third loop is woken for the second client; it runs its one functor while the base
    loop goes on to its own. *)
Definition woken : list event := answered ++ [EvPolled 3%positive [AWake]; EvHandle 3%positive nothing].
Definition batch : list event :=
  [EvSwap 3%positive; EvSwap 1%positive; EvFunctor 3%positive (WTake 0); EvFunctor 3%positive (WTake 0)].

Definition unused (fd : Z) (s : System.t EP) : bool :=
  forallb (fun kv => match TcpServer.conns (srv s) !! kv.1 with
                     | Some y => negb (TcpServer.conn_fd y =? fd)
                     | None => true
                     end) (map_to_list (objs s)).

Lemma accept_answer l k channels (d : Reactor.t EP) :
  at_ d !! l = Some (Handling (AAccept :: channels)) -> unused (accepted k) (sys d) = true ->
  (TcpServer.next_conn_id_ (srv (sys d)) <? 100) = true -> ReactorFacts.pre (EvHandle l k) d.
Proof.
  intros Hat Hu Hid. cbn. rewrite Hat. apply Z.ltb_lt in Hid. split_and!; [lia| |by intros].
  intros c y [o Ho] Hy E. unfold unused in Hu. rewrite forallb_forall in Hu.
  specialize (Hu (c, o)). cbn in Hu. rewrite Hy, E, Z.eqb_refl in Hu. discriminate Hu.
  by apply list_elem_of_In, elem_of_map_to_list.
Qed.

(** What the poller reports, and the kernel's answers, in a concrete run. *)
Ltac check_reported :=
  lazymatch goal with
  | |- Forall _ [] => apply list.Forall_nil_2
  | |- Forall _ (_ :: _) => apply list.Forall_cons_2; [|check_reported]
  end.
Ltac check_active :=
  lazymatch goal with
  | |- reportable AWake _ _ => exact I
  | |- reportable AAccept _ _ => vm_compute; reflexivity
  | |- reportable (AConn _ _) _ _ => vm_compute; by split_and!
  end.
Ltac check_event :=
  lazymatch goal with
  | |- ReactorFacts.pre (EvSwap _) _ => exact I
  | |- ReactorFacts.pre (EvAgain _) _ => exact I
  | |- ReactorFacts.pre (EvPolled _ _) _ =>
      intros _; split; [apply (bool_decide_eq_true_1 _); vm_compute; reflexivity|check_reported; check_active]
  | |- ReactorFacts.pre (EvFunctor _ _) _ => intros ? ? ? ? _ _ _; exact I
  | |- _ =>
      first [eapply accept_answer; vm_compute; reflexivity|vm_compute; first [exact I|by split_and!]]
  end.

Lemma whole_legal : ReactorFacts.legal (woken ++ batch) loops0.
Proof.
  apply (legal_steps_reach Reactor.step ReactorFacts.pre); [run_it|].
  intros n ? Hn; repeat (destruct n as [|n]; [injection Hn as <-|try discriminate Hn]).
  all: check_event.
Qed.

Lemma loops_refine_server_witness :
  exists o, objs (sys (reach answered)) !! 1%positive = Some o /\ o_sent o = str "hello" /\
    (exists channels, at_ (reach delayed) !! 2%positive = Some (Handling (AConn 1%positive Channel.POLLIN :: channels))) /\
    exists o', objs (sys (reach delayed)) !! 1%positive = Some o' /\ o_loop o' = 2%positive.
Proof.
  assert (Reactor.run delayed loops0 = Ok (reach delayed)) as Hr by run_it.
  destruct (proj1 (legal_steps_app Reactor.step ReactorFacts.pre delayed (drop 12 (woken ++ batch)) _ _ Hr) whole_legal) as [Hl _].
  destruct (loops_refine_server (P := EP) _ _ delayed sample_started Hl) as (d & es' & E & _ & _ & Hc).
  fold loops0 in E. rewrite Hr in E. apply Ok_inj in E. subst d.
  destruct (at_ (reach delayed) !! 2%positive) as [ph|] eqn:Hat; [|exfalso; vm_compute in Hat; discriminate Hat].
  pose proof Hat as Hat'. vm_compute in Hat'. injection Hat' as <-.
  destruct (Hc _ _ 1%positive Channel.POLLIN Hat) as (o' & Ho' & Hlo & _); [by left|].
  destruct (objs (sys (reach answered)) !! 1%positive) as [o|] eqn:Ho; [|exfalso; vm_compute in Ho; discriminate Ho].
  exists o. split; [done|]. split; [vm_compute in Ho; by injection Ho as <-|].
  split; [eexists; exact Hat|]. exists o'. split; [exact Ho'|exact Hlo].
Defined.

Lemma batches_run_in_order_witness :
  queue_of 3%positive (sys (reach woken)) = [FServer (TcpServer.TEstablished 2%positive)] /\
  ran 3%positive batch (reach woken) = [FServer (TcpServer.TEstablished 2%positive)] /\
  at_ (reach (woken ++ batch)) !! 3%positive = Some (Running 0).
Proof.
  split; [run_it|].
  destruct (batches_run_in_order (P := EP) _ _ woken 3%positive (tail batch) (reach woken) (reach (woken ++ batch))
    sample_started whole_legal) as (E1 & E2 & _).
  - run_it.
  - run_it.
  - run_it.
  - run_it.
  - split; [etransitivity; [exact E1|]; run_it|etransitivity; [exact E2|]; run_it].
Defined.

End ReactorProps.
