(* ===== verification/Calendar.v ===== *)
(** Clock readings and how they are printed (include/time_stamp.h, src/time_stamp.cc,
    and the names of src/log_file.cc): the C library's broken-down time, its
    arithmetic, and the two formats. *)
From Stdlib Require Import ZArith Lia Ascii.
From stdpp Require Import base list option strings.
From S2P Require Import Prelude.

Local Open Scope Z_scope.

(** * The C library's calendar *)
Module Calendar.

(** [struct tm]; [tm_mon] and [tm_yday] count from 0, [tm_year] from 1900. *)
Record tm := mk {
  tm_sec : Z; tm_min : Z; tm_hour : Z; tm_mday : Z; tm_mon : Z; tm_year : Z; tm_yday : Z;
}.

Definition leap (y : Z) : bool := (y mod 4 =? 0) && (negb (y mod 100 =? 0) || (y mod 400 =? 0)).
Definition leap_day (y : Z) : Z := if leap y then 1 else 0.

(** [gmtime_r]: years are counted from March, so that the leap day comes last. *)
Definition gmtime (t : Z) : tm :=
  let s := t mod 86400 in
  let z := t / 86400 + 719468 in
  let d := z mod 146097 in
  let c := Z.min 3 (d / 36524) in
  let d := d - 36524 * c in
  let q := Z.min 24 (d / 1461) in
  let d := d - 1461 * q in
  let r := Z.min 3 (d / 365) in
  let d := d - 365 * r in
  let y := 400 * (z / 146097) + 100 * c + 4 * q + r in
  let m := (5 * d + 2) / 153 in
  let mday := d - (153 * m + 2) / 5 + 1 in
  if m <? 10 then mk (s mod 60) (s / 60 mod 60) (s / 3600) mday (m + 2) (y - 1900) (d + 59 + leap_day y)
  else mk (s mod 60) (s / 60 mod 60) (s / 3600) mday (m - 10) (y - 1899) (d - 306).

(** The seconds of a broken-down time, as POSIX defines them. *)
Definition seconds (x : tm) : Z :=
  tm_sec x + tm_min x * 60 + tm_hour x * 3600 + tm_yday x * 86400 + (tm_year x - 70) * 31536000 +
  ((tm_year x - 69) / 4) * 86400 - ((tm_year x - 1) / 100) * 86400 + ((tm_year x + 299) / 400) * 86400.

(** The day of the year of the first day of a month. *)
Definition month_start (year mon : Z) : Z :=
  nth (Z.to_nat mon) [0; 31; 59; 90; 120; 151; 181; 212; 243; 273; 304; 334] 0 +
  (if 1 <? mon then leap_day year else 0).
Definition month_days (year mon : Z) : Z :=
  nth (Z.to_nat mon) [31; 28; 31; 30; 31; 30; 31; 31; 30; 31; 30; 31] 0 +
  (if mon =? 1 then leap_day year else 0).

End Calendar.

(** * TimeStamp *)
Module TimeStamp.
Import Calendar.

(** The field is called [micro_seconds_since_epoch_]; what it holds are seconds. *)
Definition t := Z.
Definition create : t := 0.
Definition of_micro_seconds (n : Z) : t := n.

(** [time(NULL)] gives [now]. *)
Definition Now (now : Z) : t := of_micro_seconds now.

(** [%02d] and [%4d] of a number that is not negative. *)
Definition pad2 (z : Z) : bytes := if z <? 10 then "0"%char :: to_string z else to_string z.
Definition pad4 (z : Z) : bytes := zreplicate (4 - zlen (to_string z)) " "%char ++ to_string z.

(** [TimeToString] in a time zone [offset] seconds east of UTC; the buffer has 128
    bytes. *)
Definition TimeToString (offset : Z) (x : t) : bytes :=
  let x := gmtime (x + offset) in
  ztake 127 (pad4 (tm_year x + 1900) ++ ["/"%char] ++ pad2 (tm_mon x + 1) ++ ["/"%char] ++ pad2 (tm_mday x) ++
    [" "%char] ++ pad2 (tm_hour x) ++ [":"%char] ++ pad2 (tm_min x) ++ [":"%char] ++ pad2 (tm_sec x)).

(** [strftime] with ".%Y%m%d-%H%M%S." into 32 bytes, for a year of four digits. *)
Definition stamp (now : Z) : bytes :=
  let x := gmtime now in
  ["."%char] ++ to_string (tm_year x + 1900) ++ pad2 (tm_mon x + 1) ++ pad2 (tm_mday x) ++ ["-"%char] ++
    pad2 (tm_hour x) ++ pad2 (tm_min x) ++ pad2 (tm_sec x) ++ ["."%char].

End TimeStamp.

(** * utils::TestTime *)
Module Utils.

(** [TestTime(f)]: runs [f] and prints how long it took, [start] and [finish] being the
    steady clock's nanoseconds; the quotients are truncated. *)
Definition TestTime {W} (f : W -> result W) (start finish : Z) (w : W) : result (W * bytes) :=
  w ← f w;
  let d := finish - start in
  Ok (w, str "f took " ++ to_string (d ÷ 1000) ++ str "µs ≈ " ++ to_string (d ÷ 1000000) ++
         str "ms ≈ " ++ to_string (d ÷ 1000000000) ++ str "s." ++ [ascii_of_nat 10]).

End Utils.

(** * Lemmas *)
Module CalendarFacts.
Import Calendar.

(** The day counted from March, by month. *)
Lemma march_day d : 0 <= d <= 365 ->
  let m := (5 * d + 2) / 153 in
  0 <= m < 12 /\ 1 <= d - (153 * m + 2) / 5 + 1 <= 31 /\ (10 <= m <-> 306 <= d).
Proof. intros Hd m. unfold m. Z.div_mod_to_equations. lia. Qed.

Lemma leap_day_range y : 0 <= leap_day y <= 1.
Proof. unfold leap_day. destruct (leap y); lia. Qed.

Lemma leap_day_spec y : leap_day y = (y / 4 - (y - 1) / 4) - (y / 100 - (y - 1) / 100) + (y / 400 - (y - 1) / 400).
Proof.
  unfold leap_day, leap.
  destruct (Z.eqb_spec (y mod 4) 0), (Z.eqb_spec (y mod 100) 0), (Z.eqb_spec (y mod 400) 0); cbn;
    Z.div_mod_to_equations; lia.
Qed.

Lemma month_start_march m y : 0 <= m < 10 -> month_start y (m + 2) = (153 * m + 2) / 5 + 59 + leap_day y.
Proof.
  intros Hm. assert (In m [0; 1; 2; 3; 4; 5; 6; 7; 8; 9]) as Hin by (cbn; lia). unfold month_start.
  cbn in Hin. by repeat destruct Hin as [<-|Hin].
Qed.

Lemma month_start_january m y : 10 <= m < 12 -> month_start y (m - 10) = (153 * m + 2) / 5 - 306.
Proof.
  intros Hm. assert (In m [10; 11]) as Hin by (cbn; lia). unfold month_start.
  cbn in Hin. by repeat destruct Hin as [<-|Hin].
Qed.

(** The decomposition of a day count: centuries, groups of four years, years. *)
Lemma year_split d : 0 <= d < 146097 ->
  let c := Z.min 3 (d / 36524) in let d1 := d - 36524 * c in
  let q := Z.min 24 (d1 / 1461) in let d2 := d1 - 1461 * q in
  let r := Z.min 3 (d2 / 365) in let d3 := d2 - 365 * r in
  0 <= c <= 3 /\ 0 <= q <= 24 /\ 0 <= r <= 3 /\ 0 <= d3 <= 365 /\
  (d3 = 365 -> r = 3 /\ (q = 24 -> c = 3)).
Proof.
  intros Hd c d1 q d2 r d3.
  assert (0 <= c <= 3 /\ 0 <= d1 <= 36524 /\ (d1 = 36524 -> c = 3)) as (Hc & H1 & H1').
  { unfold d1, c. Z.div_mod_to_equations. lia. }
  assert (0 <= q <= 24 /\ 0 <= d2 <= 1460 /\ (d2 = 1460 -> q = 24 -> c = 3)) as (Hq & H2 & H2').
  { unfold d2, q. clearbody d1 c. Z.div_mod_to_equations. lia. }
  assert (0 <= r <= 3 /\ 0 <= d3 <= 365 /\ (d3 = 365 -> r = 3 /\ d2 = 1460)) as (Hr & H3 & H3').
  { unfold d3, r. clearbody d2. Z.div_mod_to_equations. lia. }
  lia.
Qed.

(** The years before year [y] have this many leap days; the year [400 e + 100 c + 4 q + r]
    counts from March. *)
Lemma leap_days_split e c q r : 0 <= c <= 3 -> 0 <= q <= 24 -> 0 <= r <= 3 ->
  let y := 400 * e + 100 * c + 4 * q + r in
  y / 4 = 100 * e + 25 * c + q /\ y / 100 = 4 * e + c /\ y / 400 = e.
Proof. intros Hc Hq Hr y. unfold y. split_and!; Z.div_mod_to_equations; lia. Qed.

Lemma seconds_mk s mi h md mo yr yd :
  seconds (mk s mi h md mo yr yd) = s + mi * 60 + h * 3600 + 86400 *
    (yd + (yr - 70) * 365 + (yr - 69) / 4 - (yr - 1) / 100 + (yr + 299) / 400).
Proof. unfold seconds. cbn. lia. Qed.

(** Days up to a date of the year [y] counted from March, against the POSIX formula. *)
Lemma posix_days_march e c q r : 0 <= c <= 3 -> 0 <= q <= 24 -> 0 <= r <= 3 ->
  let y := 400 * e + 100 * c + 4 * q + r in
  59 + leap_day y + (y - 1900 - 70) * 365 + (y - 1900 - 69) / 4 - (y - 1900 - 1) / 100 + (y - 1900 + 299) / 400 =
  146097 * e + 36524 * c + 1461 * q + 365 * r - 719468.
Proof.
  intros Hc Hq Hr y. destruct (leap_days_split e c q r Hc Hq Hr) as (E4 & E100 & E400). fold y in E4, E100, E400.
  rewrite leap_day_spec. replace (y - 1900 - 69) with (y - 1 + (-492) * 4) by lia.
  replace (y - 1900 - 1) with (y - 1 + (-19) * 100) by lia. replace (y - 1900 + 299) with (y - 1 + (-4) * 400) by lia.
  rewrite !Z.div_add by lia. rewrite E4, E100, E400. unfold y. lia.
Qed.

Lemma posix_days_january e c q r : 0 <= c <= 3 -> 0 <= q <= 24 -> 0 <= r <= 3 ->
  let y := 400 * e + 100 * c + 4 * q + r in
  - 306 + (y - 1899 - 70) * 365 + (y - 1899 - 69) / 4 - (y - 1899 - 1) / 100 + (y - 1899 + 299) / 400 =
  146097 * e + 36524 * c + 1461 * q + 365 * r - 719468.
Proof.
  intros Hc Hq Hr y. destruct (leap_days_split e c q r Hc Hq Hr) as (E4 & E100 & E400). fold y in E4, E100, E400.
  replace (y - 1899 - 69) with (y + (-492) * 4) by lia.
  replace (y - 1899 - 1) with (y + (-19) * 100) by lia. replace (y - 1899 + 299) with (y + (-4) * 400) by lia.
  rewrite !Z.div_add by lia. rewrite E4, E100, E400. unfold y. lia.
Qed.

(** A time of day and its three fields. *)
Lemma time_of_day s : 0 <= s < 86400 ->
  0 <= s mod 60 < 60 /\ 0 <= s / 60 mod 60 < 60 /\ 0 <= s / 3600 < 24 /\
  s mod 60 + s / 60 mod 60 * 60 + s / 3600 * 3600 = s.
Proof. intros Hs. Z.div_mod_to_equations. lia. Qed.

Definition in_range (x : tm) : Prop :=
  0 <= tm_sec x < 60 /\ 0 <= tm_min x < 60 /\ 0 <= tm_hour x < 24 /\ 0 <= tm_mon x < 12 /\
  1 <= tm_mday x <= month_days (tm_year x + 1900) (tm_mon x) /\
  tm_yday x = month_start (tm_year x + 1900) (tm_mon x) + tm_mday x - 1.

Lemma march_month_days m y : 0 <= m < 10 ->
  month_days y (m + 2) = (153 * (m + 1) + 2) / 5 - (153 * m + 2) / 5.
Proof.
  intros Hm. assert (In m [0; 1; 2; 3; 4; 5; 6; 7; 8; 9]) as Hin by (cbn; lia). unfold month_days.
  cbn in Hin. by repeat destruct Hin as [<-|Hin].
Qed.

Lemma march_month_length d : 0 <= d < 306 -> let m := (5 * d + 2) / 153 in
  0 <= m < 10 /\ 1 <= d - (153 * m + 2) / 5 + 1 <= (153 * (m + 1) + 2) / 5 - (153 * m + 2) / 5.
Proof. intros Hd m. unfold m. Z.div_mod_to_equations. lia. Qed.

Lemma january_month_length d y : 306 <= d <= 365 -> (d = 365 -> leap_day y = 1) -> let m := (5 * d + 2) / 153 in
  10 <= m < 12 /\ 1 <= d - (153 * m + 2) / 5 + 1 <= month_days y (m - 10).
Proof.
  intros Hd Hl m. destruct (march_day d) as (Hm & Hday & Hmm); [lia|]. fold m in Hm, Hday, Hmm.
  assert (m = 10 \/ m = 11) as [E|E] by lia; rewrite E in *.
  - change (month_days y (10 - 10)) with 31. change ((153 * 10 + 2) / 5) with 306 in *. lia.
  - change (month_days y (11 - 10)) with (28 + leap_day y). change ((153 * 11 + 2) / 5) with 337 in *.
    pose proof (leap_day_range y). assert (d <= 364 \/ leap_day y = 1) by (destruct (decide (d = 365)); [right; auto|lia]).
    lia.
Qed.

(** The leap year a leap day of the March count belongs to. *)
Lemma leap_split e c q : 0 <= c <= 3 -> 0 <= q <= 24 -> (q = 24 -> c = 3) ->
  leap_day (400 * e + 100 * c + 4 * q + 3 + 1) = 1.
Proof.
  intros Hc Hq H. set (y := 400 * e + 100 * c + 4 * q + 3).
  destruct (leap_days_split e c q 3 Hc Hq ltac:(lia)) as (E4 & E100 & E400). fold y in E4, E100, E400.
  rewrite leap_day_spec. replace (y + 1 - 1) with y by lia. rewrite E4, E100, E400.
  assert (4 * ((y + 1) / 4) = y + 1) as D4 by (unfold y; Z.div_mod_to_equations; lia).
  destruct (decide (q = 24)) as [->|].
  - rewrite (H eq_refl) in *. assert ((y + 1) / 100 = 4 * (e + 1) /\ (y + 1) / 400 = e + 1) as [-> ->].
    { unfold y. Z.div_mod_to_equations. lia. }
    unfold y in *. lia.
  - assert ((y + 1) / 100 = 4 * e + c /\ (y + 1) / 400 = e) as [-> ->].
    { unfold y. Z.div_mod_to_equations. lia. }
    unfold y in *. lia.
Qed.

(** [gmtime] gives the fields of a valid date, and POSIX's seconds of it. *)
Lemma gmtime_law t : in_range (gmtime t) /\ seconds (gmtime t) = t.
Proof.
  unfold gmtime. set (s := t mod 86400). set (z := t / 86400 + 719468). set (d := z mod 146097).
  pose proof (Z.mod_pos_bound t 86400 ltac:(lia)) as Hs. fold s in Hs.
  pose proof (Z.mod_pos_bound z 146097 ltac:(lia)) as Hd. fold d in Hd.
  destruct (year_split d Hd) as (Hc & Hq & Hr & H3 & Hl). cbv zeta in *.
  set (c := Z.min 3 (d / 36524)) in *. set (q := Z.min 24 ((d - 36524 * c) / 1461)) in *.
  set (r := Z.min 3 ((d - 36524 * c - 1461 * q) / 365)) in *. set (d3 := d - 36524 * c - 1461 * q - 365 * r) in *.
  set (e := z / 146097). set (y := 400 * e + 100 * c + 4 * q + r).
  destruct (time_of_day s Hs) as (Hs1 & Hs2 & Hs3 & Hsum).
  assert (86400 * (146097 * e + 36524 * c + 1461 * q + 365 * r - 719468 + d3) + s = t) as Ht.
  { unfold d3. pose proof (Z.div_mod t 86400 ltac:(lia)) as H1. pose proof (Z.div_mod z 146097 ltac:(lia)) as H2.
    fold s in H1. fold e d in H2. unfold z in H2 at 1. lia. }
  clearbody c q r d3 e s. clear d Hd z.
  destruct (march_day d3 H3) as (Hm & _ & Hjan).
  destruct (Z.ltb_spec ((5 * d3 + 2) / 153) 10) as [Hlt|Hge].
  - destruct (march_month_length d3) as [Hm' Hlen]; [lia|]. split.
    + unfold in_range. cbn. replace (y - 1900 + 1900) with y by lia.
      rewrite march_month_days, month_start_march by lia. lia.
    + rewrite seconds_mk. pose proof (posix_days_march e c q r Hc Hq Hr) as E. cbv zeta in E. fold y in E. lia.
  - destruct (january_month_length d3 (y + 1)) as [Hm' Hlen]; [lia| |].
    { intros E. destruct (Hl E) as [-> Hqc]. by apply leap_split. }
    split.
    + unfold in_range. cbn. replace (y - 1899 + 1900) with (y + 1) by lia.
      rewrite month_start_january by lia. lia.
    + rewrite seconds_mk. pose proof (posix_days_january e c q r Hc Hq Hr) as E. cbv zeta in E. fold y in E. lia.
Qed.

End CalendarFacts.

(** * Printing *)
Module TimeFacts.
Import Calendar TimeStamp CalendarFacts.

Lemma pad2_law z : 0 <= z < 100 -> zlen (pad2 z) = 2 /\ digits 0 (pad2 z) = z.
Proof.
  intros Hz. unfold pad2. destruct (to_string_digits z) as (_ & Hne & Ev); [lia|]. destruct (Z.ltb_spec z 10).
  - split; [|exact Ev]. rewrite zlen_cons. pose proof (to_string_length 1 z ltac:(lia) ltac:(lia)).
    pose proof (zlen_nonneg (to_string z)). destruct (decide (zlen (to_string z) = 0)) as [E%zlen_nil_inv|]; [done|lia].
  - split; [by apply (numeral_width 2); cbn; lia|done].
Qed.

Lemma year_width y : 1000 <= y < 10000 -> zlen (to_string y) = 4 /\ digits 0 (to_string y) = y /\ pad4 y = to_string y.
Proof.
  intros Hy. destruct (to_string_digits y) as (_ & _ & Ev); [lia|].
  assert (zlen (to_string y) = 4) as E by (apply (numeral_width 4); cbn; lia).
  split_and!; [done|done|]. unfold pad4. by rewrite E.
Qed.

(** Reading a field of [n] digits. *)
Definition field (n : Z) (s : bytes) : Z * bytes := (digits 0 (ztake n s), zdrop n s).

Lemma field_app n p s : zlen p = n -> field n (p ++ s) = (digits 0 p, s).
Proof. intros <-. unfold field. by rewrite ztake_app_exact, zdrop_app_exact. Qed.

Lemma skip_char (c : ascii) l : zdrop 1 ([c] ++ l) = l.
Proof. done. Qed.

(** The seconds of a printed date. *)
Definition seconds_of (y mon mday h mi s : Z) : Z :=
  seconds (mk s mi h mday (mon - 1) (y - 1900) (month_start y (mon - 1) + mday - 1)).

Definition read_time (s : bytes) : Z :=
  let '(y, s) := field 4 s in let '(mon, s) := field 2 (zdrop 1 s) in let '(mday, s) := field 2 (zdrop 1 s) in
  let '(h, s) := field 2 (zdrop 1 s) in let '(mi, s) := field 2 (zdrop 1 s) in let '(sec, _) := field 2 (zdrop 1 s) in
  seconds_of y mon mday h mi sec.

Definition read_stamp (s : bytes) : Z :=
  let '(y, s) := field 4 (zdrop 1 s) in let '(mon, s) := field 2 s in let '(mday, s) := field 2 s in
  let '(h, s) := field 2 (zdrop 1 s) in let '(mi, s) := field 2 s in let '(sec, _) := field 2 s in
  seconds_of y mon mday h mi sec.

(** The day on which a year, counted from 1900, starts. *)
Definition year_start (n : Z) : Z := (n - 70) * 365 + (n - 69) / 4 - (n - 1) / 100 + (n + 299) / 400.

Lemma seconds_year x : seconds x = tm_sec x + tm_min x * 60 + tm_hour x * 3600 + 86400 * (tm_yday x + year_start (tm_year x)).
Proof. unfold seconds, year_start. lia. Qed.

Lemma leap_day_year n : 365 + leap_day (n + 1900) = year_start (n + 1) - year_start n.
Proof.
  rewrite leap_day_spec. unfold year_start. replace (n + 1 - 69) with (n + 1900 + (-492) * 4) by lia.
  replace (n - 69) with (n + 1900 - 1 + (-492) * 4) by lia. replace (n + 1 - 1) with (n + 1900 + (-19) * 100) by lia.
  replace (n - 1) with (n + 1900 - 1 + (-19) * 100) by lia. replace (n + 1 + 299) with (n + 1900 + (-4) * 400) by lia.
  replace (n + 299) with (n + 1900 - 1 + (-4) * 400) by lia. rewrite !Z.div_add by lia. lia.
Qed.

Lemma year_start_early n : n <= 70 -> year_start n <= 0.
Proof.
  intros Hn. destruct (decide (n <= 60)); [unfold year_start; Z.div_mod_to_equations; lia|].
  assert (In n [61; 62; 63; 64; 65; 66; 67; 68; 69; 70]) as Hin by (cbn; lia).
  cbn in Hin. by repeat destruct Hin as [<-|Hin].
Qed.

Lemma year_start_late n : 8100 <= n -> 2932897 <= year_start n.
Proof.
  intros Hn. destruct (decide (8110 <= n)); [unfold year_start; Z.div_mod_to_equations; lia|].
  assert (In n [8100; 8101; 8102; 8103; 8104; 8105; 8106; 8107; 8108; 8109]) as Hin by (cbn; lia).
  cbn in Hin. by repeat destruct Hin as [<-|Hin].
Qed.

(** The end of the year 9999. *)
Definition end_of_time : Z := 253402300800.

Lemma printed_range t : 0 <= t < end_of_time -> let x := gmtime t in
  1970 <= tm_year x + 1900 < 10000 /\ 0 <= tm_mon x + 1 < 100 /\ 0 <= tm_mday x < 100 /\ 0 <= tm_hour x < 100 /\
  0 <= tm_min x < 100 /\ 0 <= tm_sec x < 100 /\
  seconds_of (tm_year x + 1900) (tm_mon x + 1) (tm_mday x) (tm_hour x) (tm_min x) (tm_sec x) = t.
Proof.
  intros Ht x. destruct (gmtime_law t) as [(H1 & H2 & H3 & H4 & H5 & H6) Es]. fold x in H1, H2, H3, H4, H5, H6, Es.
  assert (tm_mday x <= 31 /\ 0 <= tm_yday x < 365 + leap_day (tm_year x + 1900)) as [Hmd Hyd].
  { assert (In (tm_mon x) [0; 1; 2; 3; 4; 5; 6; 7; 8; 9; 10; 11]) as Hin by (cbn; lia).
    rewrite H6. clear H6 Es. revert H5. unfold month_start, month_days.
    pose proof (leap_day_range (tm_year x + 1900)) as Hl. revert Hl. generalize (leap_day (tm_year x + 1900)).
    intros ld Hl. cbn in Hin. repeat destruct Hin as [<-|Hin];
      cbv [Z.to_nat Pos.to_nat Pos.iter_op Init.Nat.add nth Z.ltb Z.eqb Z.compare Pos.compare Pos.compare_cont Pos.eqb];
      lia. }
  assert (seconds_of (tm_year x + 1900) (tm_mon x + 1) (tm_mday x) (tm_hour x) (tm_min x) (tm_sec x) = t) as E.
  { etrans; [|exact Es]. unfold seconds_of. replace (tm_mon x + 1 - 1) with (tm_mon x) by lia.
    replace (tm_year x + 1900 - 1900) with (tm_year x) by lia. rewrite <- H6. by destruct x. }
  rewrite seconds_year in Es. rewrite leap_day_year in Hyd. unfold end_of_time in Ht.
  split_and!; try lia.
  - destruct (decide (70 <= tm_year x)); [lia|]. pose proof (year_start_early (tm_year x + 1) ltac:(lia)). lia.
  - destruct (decide (tm_year x < 8100)); [lia|]. pose proof (year_start_late (tm_year x) ltac:(lia)). lia.
Qed.

Ltac read_fields := repeat (rewrite ?skip_char; rewrite field_app by assumption; cbv beta iota zeta).

Lemma read_time_law offset x : 0 <= x + offset < end_of_time ->
  zlen (TimeToString offset x) = 19 /\ read_time (TimeToString offset x) = x + offset.
Proof.
  intros Hx. destruct (printed_range _ Hx) as (Hy & Hmo & Hd & Hh & Hmi & Hs & E). unfold TimeToString.
  destruct (year_width (tm_year (gmtime (x + offset)) + 1900)) as (Wy & Vy & ->); [lia|].
  destruct (pad2_law _ Hmo) as [Wmo Vmo], (pad2_law _ Hd) as [Wd Vd], (pad2_law _ Hh) as [Wh Vh],
    (pad2_law _ Hmi) as [Wmi Vmi], (pad2_law _ Hs) as [Ws Vs].
  rewrite <- (app_nil_r (pad2 (tm_sec _))).
  assert (forall l : bytes, zlen l = 19 -> ztake 127 l = l) as Hall by (intros l Hl; apply ztake_all; lia).
  rewrite Hall by (rewrite !zlen_app, Wy, Wmo, Wd, Wh, Wmi, Ws; done).
  split; [rewrite !zlen_app, Wy, Wmo, Wd, Wh, Wmi, Ws; done|].
  unfold read_time. read_fields. by rewrite Vy, Vmo, Vd, Vh, Vmi, Vs.
Qed.

Lemma read_stamp_law t : 0 <= t < end_of_time -> zlen (stamp t) = 17 /\ read_stamp (stamp t) = t.
Proof.
  intros Ht. destruct (printed_range _ Ht) as (Hy & Hmo & Hd & Hh & Hmi & Hs & E). unfold stamp.
  destruct (year_width (tm_year (gmtime t) + 1900)) as (Wy & Vy & _); [lia|].
  destruct (pad2_law _ Hmo) as [Wmo Vmo], (pad2_law _ Hd) as [Wd Vd], (pad2_law _ Hh) as [Wh Vh],
    (pad2_law _ Hmi) as [Wmi Vmi], (pad2_law _ Hs) as [Ws Vs].
  split; [rewrite !zlen_app, Wy, Wmo, Wd, Wh, Wmi, Ws; done|].
  unfold read_stamp. read_fields. by rewrite Vy, Vmo, Vd, Vh, Vmi, Vs.
Qed.

Lemma stamp_inj t u : 0 <= t < end_of_time -> 0 <= u < end_of_time -> stamp t = stamp u -> t = u.
Proof.
  intros Ht Hu E. destruct (read_stamp_law t Ht) as [_ Et], (read_stamp_law u Hu) as [_ Eu]. congruence.
Qed.

End TimeFacts.

(** * Properties *)
Module CalendarProps.
Import Calendar CalendarFacts TimeStamp TimeFacts.

(** The broken-down time of every clock reading, before or after 1970, is a date
    of the Gregorian calendar with a time of day, and POSIX's formula gives the reading
    back. *)
Theorem gmtime_correct t : in_range (gmtime t) /\ seconds (gmtime t) = t.
Proof. apply gmtime_law. Qed.

(** C35: In every time zone, a time stamp up to the end of the year 9999 prints as 19
    characters, which fit the buffer, and from which it can be read back: two stamps
    print the same only if they are the same second. *)
Theorem TimeToString_round_trip offset now : 0 <= Now now + offset < end_of_time ->
  zlen (TimeToString offset (Now now)) = 19 /\ read_time (TimeToString offset (Now now)) = now + offset.
Proof. apply read_time_law. Qed.

Lemma TimeToString_round_trip_witness :
  TimeToString 28800 (Now 1709164799) = str "2024/02/29 07:59:59" /\
  read_time (TimeToString 28800 (Now 1709164799)) = 1709164799 + 28800.
Proof.
  split; [by vm_compute|]. apply (TimeToString_round_trip 28800 1709164799). unfold end_of_time, Now, of_micro_seconds. lia.
Defined.

End CalendarProps.
