(* ===== verification/LogStream.v ===== *)
(** Log lines (include/log_stream.h, src/log_stream.cc, include/logger.h,
    src/logger.cc): the fixed-size buffer, the [<<] operators that append to it, and
    the numbers as they print, the assembly of a line, its output and level filter. *)
From Stdlib Require Import ZArith Lia Ascii.
From stdpp Require Import base list option strings.
From S2P Require Import Prelude Buffer Calendar.

Local Open Scope Z_scope.

(** * FixedBuffer<SIZE> *)
Module FixedBuffer.

Section FixedBuffer.
Context (SIZE : Z).

(** The array and the offset of [cur_] in it. *)
Record t := mk {
  data_ : bytes;
  cur_ : Z;
}.

(** [char data_[SIZE] = {' '}] *)
Definition create : t := mk (" "%char :: zreplicate (SIZE - 1) Ascii.zero) 0.

Definition Avail (b : t) : Z := i32 (SIZE - cur_ b).
Definition Length (b : t) : Z := i32 (cur_ b).
Definition Reset (b : t) : t := mk (data_ b) 0.
Definition Bzero (b : t) : t := mk (zreplicate SIZE Ascii.zero) (cur_ b).

(** [append(buf, len)]: what does not fit is dropped whole, and one byte of the
    array is never used. *)
Definition append (buf : bytes) (b : t) : result t :=
  if zlen buf <? u64 (Avail b) then
    v ← Vec.blit buf (cur_ b) (data_ b);
    Ok (mk v (cur_ b + zlen buf))
  else Ok b.

(** [GetData()], [Length()]: what a reader of the buffer gets. *)
Definition content (b : t) : bytes := ztake (Length b) (data_ b).

Definition wf (b : t) : Prop :=
  0 < SIZE < 2 ^ 31 /\ zlen (data_ b) = SIZE /\ 0 <= cur_ b < SIZE.

End FixedBuffer.
End FixedBuffer.

(** * Floating-point numbers *)
Module Double.

(** A [double], or a [float], which is passed on as the same number: a sign and
    [m * 2^e], an infinity or a NaN. *)
Inductive t :=
  | Finite (neg : bool) (m e : Z)
  | Infinity (neg : bool)
  | NaN (neg : bool).

(** The numbers of the two formats. *)
Definition is_double (x : t) : Prop :=
  match x with Finite _ m e => 0 <= m < 2 ^ 53 /\ -1074 <= e <= 971 | _ => True end.
Definition is_float (x : t) : Prop :=
  match x with Finite _ m e => 0 <= m < 2 ^ 24 /\ -149 <= e <= 104 | _ => True end.

(** [m * 2^e] in millionths, rounded to the nearest integer, a tie to the even one. *)
Definition micros (m e : Z) : Z :=
  if 0 <=? e then m * 2 ^ e * 10 ^ 6
  else
    let d := 2 ^ (- e) in
    let q := m * 10 ^ 6 / d in
    let r := (m * 10 ^ 6) mod d in
    if (d <? 2 * r) || (2 * r =? d) && Z.odd q then q + 1 else q.

(** [std::to_string], which prints with [%f]. *)
Definition sign (neg : bool) : bytes := if neg then ["-"%char] else [].
Definition std_to_string (x : t) : bytes :=
  match x with
  | Finite neg m e =>
      let q := micros m e in
      sign neg ++ to_string (q / 10 ^ 6) ++ ["."%char] ++ zero_pad 6 (q mod 10 ^ 6)
  | Infinity neg => sign neg ++ str "inf"
  | NaN neg => sign neg ++ str "nan"
  end.

End Double.

(** * LogStream *)
Module LogStream.

Definition kSmallBufferSize : Z := 4000.
Definition kBigBufferSize : Z := 4000 * 1000.

Abbreviation t := FixedBuffer.t.

Definition Append (data : bytes) (s : t) : result t := FixedBuffer.append kSmallBufferSize data s.

(** [strlen]: the offset of the first NUL in the memory the pointer leads to;
    running past its end is undefined. *)
Fixpoint strlen (mem : bytes) : result Z :=
  match mem with
  | [] => Err (UB OutOfBounds)
  | c :: mem => if bool_decide (c = Ascii.zero) then Ok 0 else n ← strlen mem; Ok (1 + n)
  end.

Definition put_int (z : Z) (s : t) : result t := Append (to_string z) s.

Definition put_float (x : Double.t) (s : t) : result t := Append (Double.std_to_string x) s.
Definition put_double (x : Double.t) (s : t) : result t := Append (Double.std_to_string x) s.

(** The false branch appends six of the seven characters. *)
Definition put_bool (b : bool) (s : t) : result t :=
  if b then Append (str "true ") s else Append (ztake 6 (str " false ")) s.

(** [operator<<(const char* )]: [None] is the null pointer. *)
Definition put_cstr (p : option bytes) (s : t) : result t :=
  match p with
  | Some mem => n ← strlen mem; Append (ztake n mem) s
  | None => Append (str "(null)") s
  end.

(** [operator<<(char)] makes a one-character array without a terminator and passes
    it on as a string. The language gives the array nothing after its one element
    ([None]): reading on is undefined. A platform on which the read goes on to the bytes
    that follow on the stack is [Some] of them. *)
Definition put_char (after : option bytes) (c : ascii) (s : t) : result t :=
  put_cstr (Some (c :: default [] after)) s.

Definition put_string (x : bytes) (s : t) : result t := Append x s.

End LogStream.

(** * Logger *)
Module Logger.
Import LogStream.

Inductive LogLevel := TRACE | DEBUG | INFO | WARN | ERROR | FATAL.

#[export] Instance LogLevel_eq_dec : EqDecision LogLevel.
Proof. solve_decision. Defined.

Definition rank (l : LogLevel) : Z :=
  match l with TRACE => 0 | DEBUG => 1 | INFO => 2 | WARN => 3 | ERROR => 4 | FATAL => 5 end.

Definition LogLevelName (l : LogLevel) : bytes :=
  match l with
  | TRACE => str "[TRACE]: " | DEBUG => str "[DEBUG]: " | INFO => str "[INFO]:  "
  | WARN => str "[WARN]:  " | ERROR => str "[ERROR]: " | FATAL => str "[FATAL]: "
  end.

(** The macros: three levels are filtered by [g_logLevel], the others are not. *)
Definition enabled (g_logLevel l : LogLevel) : bool :=
  match l with
  | TRACE | DEBUG | INFO => rank g_logLevel <=? rank l
  | _ => true
  end.

(** What a line is made of: what is read through the pointer [TidAsString().c_str()],
    whose string is destroyed before it is read, nothing as far as the language goes
    ([None]) and on some platform the bytes that are still there; the clock and the zone
    its time is printed in; the file name and the line number of the macro; and what is
    read after the one-character arrays, in the same way. *)
Record site := mk_site {
  tid_mem : option bytes;
  clock : Z;
  zone : Z;
  filename_ : bytes;
  line_ : Z;
  after : option bytes;
}.

(** [TimeStamp::Now().TimeToString()] *)
Definition time_str (x : site) : bytes := TimeStamp.TimeToString (zone x) (TimeStamp.Now (clock x)).

(** [T], a pointer with a length its constructor asserts to be the string's; the [<<]
    operator appends that many bytes. *)
Definition T (mem : bytes) (len : Z) : result bytes :=
  n ← strlen mem;
  _ ← require (n =? len) AssertFailed;
  Ok (ztake len mem).

(** [Impl::Impl] *)
Definition Impl (l : LogLevel) (x : site) : result t :=
  temp ← match tid_mem x with Some mem => Ok mem | None => Err (UB UseAfterFree) end;
  n ← strlen temp;
  d ← T temp n;
  s ← Append d (FixedBuffer.create kSmallBufferSize);
  s ← put_cstr (Some (str " " ++ [Ascii.zero])) s;
  s ← put_string (time_str x) s;
  s ← put_cstr (Some (str " " ++ [Ascii.zero])) s;
  d ← T (LogLevelName l ++ [Ascii.zero]) 9;
  s ← Append d s;
  put_cstr (Some (str " " ++ [Ascii.zero])) s.

(** [Impl::Finish]: the number printed after the file name is the constant 22. *)
Definition Finish (x : site) (s : t) : result t :=
  s ← put_cstr (Some (str " - " ++ [Ascii.zero])) s;
  s ← put_cstr (Some (filename_ x ++ [Ascii.zero])) s;
  s ← put_char (after x) ":"%char s;
  s ← put_int 22 s;
  put_cstr (Some ([Ascii.ascii_of_nat 10] ++ [Ascii.zero])) s.

(** The constructor with a function name, used by LOG_TRACE and LOG_DEBUG. *)
Definition construct (l : LogLevel) (func : option bytes) (x : site) : result t :=
  s ← Impl l x;
  match func with
  | Some f => s ← put_cstr (Some (f ++ [Ascii.zero])) s; put_char (after x) " "%char s
  | None => Ok s
  end.

(** The destructor: what goes to [g_output], and whether the process is aborted. *)
Definition destruct_ (l : LogLevel) (x : site) (s : t) : result (bytes * bool) :=
  s ← Finish x s;
  Ok (FixedBuffer.content s, bool_decide (l = FATAL)).

(** A whole statement [LOG_X << msg;] with one string. *)
Definition log (g_logLevel l : LogLevel) (func : option bytes) (x : site) (msg : bytes) :
    result (option (bytes * bool)) :=
  if enabled g_logLevel l then
    s ← construct l func x;
    s ← put_string msg s;
    r ← destruct_ l x s;
    Ok (Some r)
  else Ok None.

(** The level the program starts with: the first of the macros that is defined. Without
    one the function ends without a return. *)
Definition InitLogLevel (USE_LOG : LogLevel -> bool) : result LogLevel :=
  if USE_LOG TRACE then Ok TRACE else if USE_LOG DEBUG then Ok DEBUG
  else if USE_LOG INFO then Ok INFO else if USE_LOG WARN then Ok WARN
  else if USE_LOG ERROR then Ok ERROR else if USE_LOG FATAL then Ok FATAL
  else Err (UB MissingReturn).

Section Output.
(** What the output and flush functions act on. *)
Context {W : Type}.

(** The two functions and the level, which are global variables. *)
Record globals := mk_globals {
  g_output : bytes -> W -> result W;
  g_flush : W -> result W;
  g_logLevel : LogLevel;
}.

Definition SetOutputFunc (f : bytes -> W -> result W) (g : globals) : globals :=
  mk_globals f (g_flush g) (g_logLevel g).
Definition SetFlushFunc (f : W -> result W) (g : globals) : globals :=
  mk_globals (g_output g) f (g_logLevel g).
Definition SetLogLevel (l : LogLevel) (g : globals) : globals :=
  mk_globals (g_output g) (g_flush g) l.

(** The functions a program starts with: [fwrite] and [fflush] to the terminal. *)
Definition DefaultOutput (fwrite : bytes -> W -> Z * W) (msg : bytes) (w : W) : result W :=
  let '(n, w) := fwrite msg w in
  _ ← require (n =? zlen msg) AssertFailed;
  Ok w.
Definition DefaultFlush (fflush : W -> W) (w : W) : result W := Ok (fflush w).

(** A statement with its effect: the destructor hands the line to the output function,
    and after a FATAL one calls the flush function and aborts (the boolean). *)
Definition statement (g : globals) (l : LogLevel) (func : option bytes) (x : site) (msg : bytes) (w : W) :
    result (W * bool) :=
  r ← log (g_logLevel g) l func x msg;
  match r with
  | None => Ok (w, false)
  | Some (line, fatal) =>
      w ← g_output g line w;
      if fatal : bool then w ← g_flush g w; Ok (w, true) else Ok (w, false)
  end.

End Output.

End Logger.

(** * Lemmas *)
Module LogStreamFacts.
Import FixedBuffer LogStream.

Lemma create_wf SIZE : 0 < SIZE < 2 ^ 31 -> wf SIZE (create SIZE) /\ content (create SIZE) = [].
Proof.
  intros Hs. split; [|done]. unfold wf. cbn. rewrite zlen_cons, zlen_zreplicate by lia. lia.
Qed.

Lemma content_length SIZE b : wf SIZE b -> zlen (content b) = cur_ b.
Proof.
  intros (Hs & Hl & Hc). unfold content, Length. rewrite i32_small by lia. apply zlen_ztake. lia.
Qed.

Lemma append_law SIZE buf b : wf SIZE b ->
  exists b', append SIZE buf b = Ok b' /\ wf SIZE b' /\
    content b' = content b ++ (if zlen (content b) + zlen buf <? SIZE then buf else []).
Proof.
  intros Hwf. rewrite (content_length SIZE b Hwf). pose proof Hwf as (Hs & Hl & Hc).
  unfold append, Avail. pose proof (zlen_nonneg buf). rewrite i32_small, u64_small by lia.
  destruct (Z.ltb_spec (zlen buf) (SIZE - cur_ b)); destruct (Z.ltb_spec (cur_ b + zlen buf) SIZE);
    try lia.
  - rewrite VecFacts.blit_ok by lia. cbn. eexists. split; [done|]. split.
    + unfold wf. cbn. rewrite !zlen_app, zlen_ztake, zlen_zdrop by lia. lia.
    + unfold content, Length. cbn. rewrite !i32_small by lia. rewrite app_assoc.
      replace (cur_ b + zlen buf) with (zlen (ztake (cur_ b) (data_ b) ++ buf))
        by (rewrite zlen_app, zlen_ztake; lia).
      by rewrite ztake_app_exact.
  - exists b. by rewrite app_nil_r.
Qed.

Lemma strlen_terminated g rest : Ascii.zero ∉ g -> strlen (g ++ Ascii.zero :: rest) = Ok (zlen g).
Proof.
  induction g as [|c g IH]; intros Hg; cbn.
  - by rewrite bool_decide_eq_true_2.
  - apply not_elem_of_cons in Hg as [Hc Hg]. rewrite bool_decide_eq_false_2 by done.
    rewrite IH by done. by rewrite zlen_cons.
Qed.

Lemma strlen_unterminated g : Ascii.zero ∉ g -> strlen g = Err (UB OutOfBounds).
Proof.
  induction g as [|c g IH]; intros Hg; [done|]. cbn.
  apply not_elem_of_cons in Hg as [Hc Hg]. rewrite bool_decide_eq_false_2 by done. by rewrite IH.
Qed.

(** A chain of appends in which everything fits. *)
Definition holds (b : t) (x : bytes) : Prop :=
  wf kSmallBufferSize b /\ content b = x /\ zlen x < kSmallBufferSize.

Lemma holds_append b x d : holds b x -> zlen x + zlen d < kSmallBufferSize ->
  exists b', Append d b = Ok b' /\ holds b' (x ++ d).
Proof.
  intros (Hwf & Hc & Hl) Hd. destruct (append_law kSmallBufferSize d b Hwf) as (b' & E & Hwf' & Hc').
  exists b'. split; [done|]. rewrite Hc in Hc'. destruct (Z.ltb_spec (zlen x + zlen d) kSmallBufferSize);
    [|lia]. split_and!; try done. by rewrite zlen_app.
Qed.

Lemma holds_cstr b x g rest : holds b x -> Ascii.zero ∉ g -> zlen x + zlen g < kSmallBufferSize ->
  exists b', put_cstr (Some (g ++ Ascii.zero :: rest)) b = Ok b' /\ holds b' (x ++ g).
Proof.
  intros Hh Hg Hl. unfold put_cstr. rewrite strlen_terminated by done. cbn.
  rewrite ztake_app_exact. by apply holds_append.
Qed.

(** ** Numbers *)

Import Double.

Lemma micros_near m e : 0 <= m ->
  0 <= micros m e /\
  2 * Z.abs (micros m e * 2 ^ Z.max 0 (- e) - m * 2 ^ Z.max 0 e * 10 ^ 6) <= 2 ^ Z.max 0 (- e).
Proof.
  intros Hm. unfold micros. destruct (Z.leb_spec 0 e).
  - rewrite (Z.max_r 0 e), (Z.max_l 0 (- e)) by lia. pose proof (Z.pow_pos_nonneg 2 e ltac:(lia) ltac:(lia)).
    rewrite Z.mul_1_r, Z.sub_diag. split; [nia|]. cbn. lia.
  - rewrite (Z.max_l 0 e), (Z.max_r 0 (- e)) by lia. rewrite Z.mul_1_r. cbn zeta.
    pose proof (Z.pow_pos_nonneg 2 (- e) ltac:(lia) ltac:(lia)) as Hd. set (d := 2 ^ (- e)) in *.
    pose proof (Z.div_mod (m * 10 ^ 6) d ltac:(lia)). pose proof (Z.mod_pos_bound (m * 10 ^ 6) d Hd).
    pose proof (Z.div_pos (m * 10 ^ 6) d ltac:(lia) Hd).
    set (q := m * 10 ^ 6 / d) in *. set (r := (m * 10 ^ 6) mod d) in *.
    destruct (Z.ltb_spec d (2 * r)); cbn [orb]; [lia|].
    destruct (Z.eqb_spec (2 * r) d); cbn [andb]; [|lia]. destruct (Z.odd q); lia.
Qed.

(** The largest double is below 10^309. *)
Lemma largest_double : 2 ^ 53 * 2 ^ 971 < 10 ^ 309.
Proof.
  rewrite <- Z.pow_add_r by lia. change (53 + 971) with (93 * 11 + 1). change 309 with (28 * 11 + 1).
  rewrite !Z.pow_add_r, !Z.pow_mul_r by lia. rewrite !Z.pow_1_r.
  assert (2 ^ 93 <= 10 ^ 28) as H by (by vm_compute).
  assert (0 < 2 ^ 93) as H0 by (by vm_compute).
  pose proof (Z.pow_le_mono_l (2 ^ 93) (10 ^ 28) 11 ltac:(split; [by apply Z.lt_le_incl|exact H])) as Hp.
  pose proof (Z.pow_pos_nonneg (2 ^ 93) 11 H0 ltac:(lia)) as Hq.
  generalize dependent ((2 ^ 93) ^ 11). generalize dependent ((10 ^ 28) ^ 11). clear. intros. lia.
Qed.

Lemma micros_bound m e : 0 <= m < 2 ^ 53 -> e <= 971 -> micros m e < 10 ^ 309 * 10 ^ 6.
Proof.
  intros Hm He. pose proof largest_double as Hbig. destruct (micros_near m e ltac:(lia)) as [_ Hn].
  pose proof (Z.pow_le_mono_r 2 0 971 ltac:(lia) ltac:(lia)) as Hone. rewrite Z.pow_0_r in Hone.
  destruct (Z.le_gt_cases 0 e) as [Hpos|Hneg].
  - unfold micros. destruct (Z.leb_spec 0 e); [|lia]. pose proof (Z.pow_le_mono_r 2 e 971 ltac:(lia) He).
    pose proof (Z.pow_pos_nonneg 2 e ltac:(lia) Hpos).
    generalize dependent (10 ^ 309). generalize dependent (2 ^ 971). clear Hn. intros. nia.
  - rewrite (Z.max_l 0 e), (Z.max_r 0 (- e)), Z.mul_1_r in Hn by lia.
    pose proof (Z.pow_pos_nonneg 2 (- e) ltac:(lia) ltac:(lia)) as Hd.
    generalize dependent (10 ^ 309). generalize dependent (2 ^ 971). generalize dependent (2 ^ (- e)).
    intros d Hn Hd big Hbig ten Hten. assert (2 ^ 53 <= ten) by nia. nia.
Qed.

(** Reading a printed number back: its sign and its millionths. *)
Fixpoint skip_digits (s : bytes) : bytes :=
  match s with c :: s' => if is_digit c then skip_digits s' else s | [] => [] end.
Definition read_fixed (s : bytes) : bool * Z :=
  let '(neg, s) := match s with c :: s' => if bool_decide (c = "-"%char) then (true, s') else (false, s) | [] => (false, s) end in
  (neg, digits 0 s * 10 ^ 6 + digits 0 (zdrop 1 (skip_digits s))).

Lemma skip_digits_app d l : Forall (fun c => is_digit c = true) d -> skip_digits (d ++ l) = skip_digits l.
Proof. induction 1 as [|c d Hc _ IH]; [done|]. cbn. by rewrite Hc. Qed.

Lemma read_fixed_law neg q : 0 <= q ->
  read_fixed (sign neg ++ to_string (q / 10 ^ 6) ++ ["."%char] ++ zero_pad 6 (q mod 10 ^ 6)) = (neg, q).
Proof.
  intros Hq. destruct (to_string_digits (q / 10 ^ 6)) as (Hd & Hne & Ev); [by apply Z.div_pos|].
  destruct (zero_pad_law 6 (q mod 10 ^ 6)) as [_ Ef]; [lia|apply Z.mod_pos_bound; lia|].
  assert (forall tl, (match to_string (q / 10 ^ 6) ++ tl with
    | c :: s' => if bool_decide (c = "-"%char) then (true, s') else (false, to_string (q / 10 ^ 6) ++ tl)
    | [] => (false, to_string (q / 10 ^ 6) ++ tl) end) = (false, to_string (q / 10 ^ 6) ++ tl)) as Hsign.
  { intros tl. destruct (to_string (q / 10 ^ 6)) as [|c l]; [done|]. inversion Hd as [|? ? Hc]; subst.
    cbn. by rewrite bool_decide_eq_false_2 by (intros ->; discriminate Hc). }
  assert (digits 0 (to_string (q / 10 ^ 6) ++ ["."%char] ++ zero_pad 6 (q mod 10 ^ 6)) * 10 ^ 6 +
    digits 0 (zdrop 1 (skip_digits (to_string (q / 10 ^ 6) ++ ["."%char] ++ zero_pad 6 (q mod 10 ^ 6)))) = q) as Hv.
  { rewrite digits_app, skip_digits_app, Ev by done. change (skip_digits (["."%char] ++ ?l)) with ("."%char :: l).
    change (digits ?z (["."%char] ++ ?l)) with z. change (zdrop 1 ("."%char :: ?l)) with l.
    change (Z.of_nat 6) with 6 in Ef. rewrite Ef. pose proof (Z.div_mod q (10 ^ 6) ltac:(lia)). lia. }
  unfold read_fixed. destruct neg; cbn [sign].
  - change (["-"%char] ++ ?l) with ("-"%char :: l). cbn [bool_decide decide]. by f_equal.
  - change ([] ++ ?l) with l. rewrite Hsign. by f_equal.
Qed.

Lemma printed_length x : is_double x -> zlen (std_to_string x) <= 317.
Proof.
  destruct x as [neg m e|neg|neg]; [|by destruct neg..]. cbn [is_double std_to_string]. intros [Hm He].
  destruct (micros_near m e ltac:(lia)) as [Hq _]. pose proof (micros_bound m e Hm ltac:(lia)) as Hb.
  destruct (zero_pad_law 6 (micros m e mod 10 ^ 6)) as [Hp _]; [lia|apply Z.mod_pos_bound; lia|].
  rewrite !zlen_app. change (Z.of_nat 6) with 6 in Hp. rewrite Hp. change (zlen ["."%char]) with 1.
  assert (zlen (sign neg) <= 1) by by destruct neg.
  pose proof (to_string_length 309 (micros m e / 10 ^ 6)) as Hl.
  assert (zlen (to_string (micros m e / 10 ^ 6)) <= 309); [|lia]. apply Hl; [|lia].
  split; [by apply Z.div_pos|]. apply Z.div_lt_upper_bound; [lia|]. rewrite Z.mul_comm. exact Hb.
Qed.

End LogStreamFacts.

(** * Properties *)
Module LogStreamProps.
Import FixedBuffer LogStream Logger LogStreamFacts.

(** The text of a line: thread, time, level, function, message, file, and what the
    unterminated one-character arrays drag in. *)
Definition func_text (func : option bytes) (g : bytes) : bytes :=
  match func with Some f => f ++ str " " ++ g | None => [] end.

Definition line_text (tid time : bytes) (l : LogLevel) (func : option bytes) (msg file g : bytes) : bytes :=
  (((((((((((tid ++ str " ") ++ time) ++ str " ") ++ LogLevelName l) ++ str " ") ++ func_text func g) ++ msg)
    ++ str " - ") ++ file) ++ (":"%char :: g)) ++ to_string 22) ++ [Ascii.ascii_of_nat 10].

Lemma zlen_space : zlen (str " ") = 1.
Proof. done. Qed.

Ltac concrete := apply (bool_decide_unpack _); vm_compute; exact I.

Ltac fits :=
  rewrite ?zlen_app, ?zlen_cons, ?zlen_space; change (zlen (@nil ascii)) with 0;
  change (zlen (str " - ")) with 3; change (zlen (to_string 22)) with 2; lia.

(** One append of a chain: [H] describes the stream before and after. *)
Ltac put_done E H H' := rewrite E; cbn [mbind result_bind]; clear H E; rename H' into H.
Ltac put_bytes H d :=
  let b := fresh "b" in let E := fresh "E" in let H' := fresh "H" in
  edestruct (holds_append _ _ d H) as (b & E & H'); [try first [done | fits]..|put_done E H H'].
Ltac put_text H g rest :=
  let b := fresh "b" in let E := fresh "E" in let H' := fresh "H" in
  edestruct (holds_cstr _ _ g rest H) as (b & E & H');
  [try first [done | fits | concrete]..|put_done E H H'].

Lemma T_law d rest : Ascii.zero ∉ d -> T (d ++ Ascii.zero :: rest) (zlen d) = Ok d.
Proof.
  intros Hd. unfold T. rewrite strlen_terminated by done. cbn. rewrite Z.eqb_refl. cbn. by rewrite ztake_app_exact.
Qed.

Lemma T_level l : T (LogLevelName l ++ [Ascii.zero]) 9 = Ok (LogLevelName l).
Proof. by destruct l; vm_compute. Qed.

Lemma construct_text l func x tid rest g rest' :
  tid_mem x = Some (tid ++ Ascii.zero :: rest) -> after x = Some (g ++ Ascii.zero :: rest') ->
  Ascii.zero ∉ tid -> Ascii.zero ∉ g -> (forall f, func = Some f -> Ascii.zero ∉ f) ->
  zlen tid + zlen (time_str x) + zlen (LogLevelName l) + 3 + zlen (func_text func g) < kSmallBufferSize ->
  exists s, construct l func x = Ok s /\
    holds s ((((((tid ++ str " ") ++ time_str x) ++ str " ") ++ LogLevelName l) ++ str " ") ++ func_text func g).
Proof.
  intros Ht Ha Hnt Hng Hnf Hlen.
  assert (holds (FixedBuffer.create kSmallBufferSize) []) as H.
  { destruct (create_wf kSmallBufferSize) as [? ?]; [done|]. by split_and!. }
  pose proof (zlen_nonneg tid). pose proof (zlen_nonneg (time_str x)).
  pose proof (zlen_nonneg (LogLevelName l)). pose proof (zlen_nonneg (func_text func g)).
  unfold construct, Impl, put_string. rewrite Ht. cbn [mbind result_bind]. rewrite strlen_terminated by done. cbn [mbind result_bind].
  rewrite T_law by done. cbn [mbind result_bind].
  put_bytes H tid.
  put_text H (str " ") (@nil ascii).
  put_bytes H (time_str x).
  put_text H (str " ") (@nil ascii).
  rewrite T_level. cbn [mbind result_bind].
  put_bytes H (LogLevelName l).
  put_text H (str " ") (@nil ascii).
  destruct func as [f|]; cbn [func_text] in *; [|exists b4; by rewrite app_nil_r].
  rewrite !zlen_app, zlen_space in Hlen. pose proof (zlen_nonneg f). pose proof (zlen_nonneg g).
  put_text H f (@nil ascii); [by apply Hnf|].
  unfold put_char. rewrite Ha. cbn [default from_option id]. change (" "%char :: g ++ Ascii.zero :: rest') with ((" "%char :: g) ++ Ascii.zero :: rest').
  put_text H (" "%char :: g) rest'.
  { by apply not_elem_of_cons. }
  exists b6. split; [done|]. by rewrite <- app_assoc in H.
Qed.

Lemma log_law thr l func x tid rest g rest' msg :
  tid_mem x = Some (tid ++ Ascii.zero :: rest) -> after x = Some (g ++ Ascii.zero :: rest') ->
  Ascii.zero ∉ tid -> Ascii.zero ∉ g -> Ascii.zero ∉ filename_ x ->
  (forall f, func = Some f -> Ascii.zero ∉ f) ->
  zlen (line_text tid (time_str x) l func msg (filename_ x) g) < kSmallBufferSize ->
  log thr l func x msg =
    (if enabled thr l
     then Ok (Some (line_text tid (time_str x) l func msg (filename_ x) g, bool_decide (l = FATAL)))
     else Ok None).
Proof.
  intros Ht Ha Hnt Hng Hnfile Hnf Hlen.
  unfold log. destruct (enabled thr l); [|done].
  unfold line_text in Hlen. rewrite !zlen_app, !zlen_cons in Hlen.
  change (zlen (str " ")) with 1 in Hlen. change (zlen (str " - ")) with 3 in Hlen.
  change (zlen (to_string 22)) with 2 in Hlen. change (zlen (@nil ascii)) with 0 in Hlen.
  pose proof (zlen_nonneg tid). pose proof (zlen_nonneg (time_str x)).
  pose proof (zlen_nonneg (LogLevelName l)). pose proof (zlen_nonneg (func_text func g)).
  pose proof (zlen_nonneg msg). pose proof (zlen_nonneg (filename_ x)). pose proof (zlen_nonneg g).
  destruct (construct_text l func x tid rest g rest') as (s & E & Hs); [done..|lia|].
  rewrite E. cbn [mbind result_bind]. unfold put_string.
  put_bytes Hs msg.
  unfold destruct_, Finish.
  put_text Hs (str " - ") (@nil ascii).
  put_text Hs (filename_ x) (@nil ascii).
  unfold put_char. rewrite Ha. cbn [default from_option id]. change (":"%char :: g ++ Ascii.zero :: rest') with ((":"%char :: g) ++ Ascii.zero :: rest').
  put_text Hs (":"%char :: g) rest'.
  { by apply not_elem_of_cons. }
  unfold put_int.
  put_bytes Hs (to_string 22).
  put_text Hs ([Ascii.ascii_of_nat 10]) (@nil ascii).
  by destruct Hs as (_ & -> & _).
Qed.

(** Digits are no terminators. *)
Lemma number_no_zero n : 0 <= n -> Ascii.zero ∉ to_string n.
Proof.
  intros Hn Hin. destruct (to_string_digits n Hn) as (Hd & _). rewrite list.Forall_forall in Hd.
  by specialize (Hd _ Hin).
Qed.

(** C38: As far as the language goes no log statement is defined unless its level is
    filtered out, because it reads the thread id from a string that is destroyed; and
    where a character is printed the read past its one-character array is not defined
    either. On a platform where the destroyed string's bytes are still there, the
    digits of the thread id, and the read past the array goes on to bytes [g] and a NUL,
    a log line consists of the thread id, the time, the level, for the levels
    TRACE and DEBUG the function, the message and the file name, in this order, and
    the output function gets it once; only FATAL aborts the process, after the output
    and the flush function; levels below the threshold do nothing. The number after the
    file name is always 22, whatever the line is, and [g] gets into the text after each
    of the characters. *)
Theorem log_line_text {W} (G : globals (W := W)) l func x msg w :
  (enabled (g_logLevel G) l = false -> statement G l func x msg w = Ok (w, false)) /\
  (enabled (g_logLevel G) l = true -> tid_mem x = None ->
     statement G l func x msg w = Err (UB UseAfterFree)) /\
  (forall c s, c <> Ascii.zero -> put_char None c s = Err (UB OutOfBounds)) /\
  (forall tid rest g rest', 0 <= tid < 2 ^ 31 ->
     tid_mem x = Some (to_string tid ++ Ascii.zero :: rest) -> after x = Some (g ++ Ascii.zero :: rest') ->
     Ascii.zero ∉ g -> Ascii.zero ∉ filename_ x -> (forall f, func = Some f -> Ascii.zero ∉ f) ->
     let line := line_text (to_string tid) (time_str x) l func msg (filename_ x) g in
     zlen line < kSmallBufferSize -> enabled (g_logLevel G) l = true ->
     statement G l func x msg w =
       w1 ← g_output G line w;
       if bool_decide (l = FATAL) then w2 ← g_flush G w1; Ok (w2, true) else Ok (w1, false)).
Proof.
  split_and!.
  - intros E. unfold statement, log. by rewrite E.
  - intros E Ht. unfold statement, log, construct, Impl. by rewrite E, Ht.
  - intros c s Hc. unfold put_char, put_cstr. cbn. by rewrite bool_decide_eq_false_2.
  - intros tid rest g rest' Htid Ht Ha Hg Hfile Hf line Hlen E. unfold statement.
    rewrite (log_law _ _ _ _ (to_string tid) rest g rest') by (done || (apply number_no_zero; lia)).
    by rewrite E.
Qed.

(** A site in a file a.cc, and output to a list of lines. *)
Definition sample_site : site :=
  mk_site (Some (str "41" ++ [Ascii.zero])) 1704164645 0 (str "a.cc") 7 (Some [Ascii.zero]).
Definition to_list (level : LogLevel) : globals (W := list bytes) :=
  mk_globals (fun d w => Ok (w ++ [d])) (fun w => Ok w) level.

Lemma log_line_text_witness :
  statement (to_list INFO) ERROR None sample_site (str "oops") [] =
    Ok ([str "41 2024/01/02 03:04:05 [ERROR]:  oops - a.cc:22" ++ [Ascii.ascii_of_nat 10]], false).
Proof.
  destruct (log_line_text (to_list INFO) ERROR None sample_site (str "oops") []) as (_ & _ & _ & H).
  apply (H 41 [] [] []); try done; try (by vm_compute); concrete.
Defined.

(** C39: A finite number, in either format, prints as at most 317 characters; appended
    to a stream that has room for them they are the whole of what is added, and they
    read back as the sign and the number rounded to the nearest millionth. *)
Theorem put_double_prints neg m e b x :
  Double.is_double (Double.Finite neg m e) \/ Double.is_float (Double.Finite neg m e) ->
  holds b x -> zlen x + 317 < kSmallBufferSize ->
  exists b' s, put_double (Double.Finite neg m e) b = Ok b' /\ put_float (Double.Finite neg m e) b = Ok b' /\
    holds b' (x ++ s) /\ zlen s <= 317 /\ read_fixed s = (neg, Double.micros m e) /\
    2 * Z.abs (Double.micros m e * 2 ^ Z.max 0 (- e) - m * 2 ^ Z.max 0 e * 10 ^ 6) <= 2 ^ Z.max 0 (- e).
Proof.
  intros Hx Hb Hl. assert (Double.is_double (Double.Finite neg m e)) as Hd by (destruct Hx as [?|H]; [done|cbn in *; lia]).
  pose proof (printed_length _ Hd) as Hp. destruct Hd as [Hm He]. destruct (micros_near m e ltac:(lia)) as [Hq Hn].
  destruct (holds_append b x (Double.std_to_string (Double.Finite neg m e)) Hb) as (b' & E & Hb'); [lia|].
  exists b', (Double.std_to_string (Double.Finite neg m e)). split_and!; [done|done|done|done|by apply read_fixed_law|done].
Qed.

Lemma put_double_prints_witness : exists b' s,
  put_double (Double.Finite true 5 (-1)) (FixedBuffer.create kSmallBufferSize) = Ok b' /\
  holds b' ([] ++ s) /\ read_fixed s = (true, 2500000).
Proof.
  destruct (put_double_prints true 5 (-1) (FixedBuffer.create kSmallBufferSize) []) as (b' & s & E & _ & H & _ & R & _).
  - left. cbn. lia.
  - destruct (create_wf kSmallBufferSize) as [? ?]; [done|]. by split_and!.
  - done.
  - exists b', s. split; [exact E|]. split; [exact H|]. rewrite R. by vm_compute.
Defined.

(** 0.1 as a double, 0.5 as a double, a tie, and the smallest numbers. *)
Example printed_numbers :
  Double.std_to_string (Double.Finite false 7205759403792794 (-56)) = str "0.100000" /\
  Double.std_to_string (Double.Finite true 1 (-1)) = str "-0.500000" /\
  Double.std_to_string (Double.Finite false 1 (-7)) = str "0.007812" /\
  Double.std_to_string (Double.Finite true 1 (-1074)) = str "-0.000000".
Proof. by vm_compute. Qed.

End LogStreamProps.
