(* ===== verification/LogFile.v ===== *)
(** Log files (include/log_file.h, src/log_file.cc): appending to a stdio stream
    whose writes may be short, the rules by which the file is rolled and flushed,
    and why a rolled log never goes on in a file it wrote before. The clock readings
    and the stream's answers are arguments; the formatted date is one too, and is
    [TimeStamp.stamp] of Calendar.v where its content matters. *)
From Stdlib Require Import ZArith Lia Ascii.
From stdpp Require Import base list option strings.
From S2P Require Import Prelude Calendar.

Local Open Scope Z_scope.

(** * AppendFile *)
Module AppendFile.

(** The name, the bytes handed to the stream, how many of them are known to be on
    disk, and the object's own count. *)
Record t := mk {
  fname : bytes;
  fdata : bytes;
  fflushed : Z;
  written_bytes_ : Z;
}.

(** The constructor asserts that [fopen] succeeded. *)
Definition create (open_ok : bool) (name : bytes) : result t :=
  if open_ok then Ok (mk name [] 0 0) else Err AssertFailed.

Definition Flush (f : t) : t := mk (fname f) (fdata f) (zlen (fdata f)) (written_bytes_ f).

(** The loop of [Append]: each answer of [fwrite_unlocked] is the number of bytes
    it took and whether the stream is in error. A short write with an error leaves
    the loop before its bytes are counted. [None] when the answers run out. *)
Fixpoint append_loop (ws : list (Z * bool)) (rest : bytes) (written : Z) (f : t) : option (Z * t) :=
  if bool_decide (rest = []) then Some (written, f)
  else
    match ws with
    | [] => None
    | (n, err) :: ws =>
        let f := mk (fname f) (fdata f ++ ztake n rest) (fflushed f) (written_bytes_ f) in
        if negb (n =? zlen rest) && err then Some (written, f)
        else append_loop ws (zdrop n rest) (written + n) f
    end.

Definition Append (ws : list (Z * bool)) (line : bytes) (f : t) : option t :=
  match append_loop ws line 0 f with
  | Some (written, f) => Some (mk (fname f) (fdata f) (fflushed f) (written_bytes_ f + written))
  | None => None
  end.

End AppendFile.

(** * LogFile *)
Module LogFile.

Definition kRollPerSeconds_ : Z := 60 * 60 * 24.

(** [closed] are the files rolled away, oldest first. *)
Record t := mk {
  base_name_ : bytes;
  roll_size_ : Z;
  flush_interval_ : Z;
  check_every_n_ : Z;
  count_ : Z;
  start_of_period_ : Z;
  last_roll_ : Z;
  last_flush_ : Z;
  file_ : AppendFile.t;
  closed : list AppendFile.t;
}.

Section LogFile.
(** [strftime] of a time in the format ".%Y%m%d-%H%M%S.", and the process id. *)
Context (stamp : Z -> bytes) (pid : Z).

Definition GetLogFileName (basename : bytes) (now : Z) : bytes :=
  basename ++ stamp now ++ ["."%char] ++ to_string pid ++ str ".log".

Definition period (now : Z) : Z := now ÷ kRollPerSeconds_ * kRollPerSeconds_.

(** [RollFile] at clock reading [now]; replacing [file_] closes the old stream,
    which flushes it. *)
Definition RollFile (open_ok : bool) (now : Z) (l : t) : result (bool * t) :=
  if last_roll_ l <? now then
    f ← AppendFile.create open_ok (GetLogFileName (base_name_ l) now);
    Ok (true, mk (base_name_ l) (roll_size_ l) (flush_interval_ l) (check_every_n_ l) (count_ l)
          (period now) now now f (closed l ++ [AppendFile.Flush (file_ l)]))
  else Ok (false, l).

(** The constructor: the first roll opens the first file. *)
Definition construct (base_name : bytes) (roll_size flush_interval check_every_n now : Z)
    (open_ok : bool) : result t :=
  if 0 <? now then
    f ← AppendFile.create open_ok (GetLogFileName base_name now);
    Ok (mk base_name roll_size flush_interval check_every_n 0 (period now) now now f [])
  else Err (UB NullDeref).

Definition set_file (f : AppendFile.t) (l : t) : t :=
  mk (base_name_ l) (roll_size_ l) (flush_interval_ l) (check_every_n_ l) (count_ l)
    (start_of_period_ l) (last_roll_ l) (last_flush_ l) f (closed l).
Definition set_count (n : Z) (l : t) : t :=
  mk (base_name_ l) (roll_size_ l) (flush_interval_ l) (check_every_n_ l) n
    (start_of_period_ l) (last_roll_ l) (last_flush_ l) (file_ l) (closed l).
Definition set_last_flush (n : Z) (l : t) : t :=
  mk (base_name_ l) (roll_size_ l) (flush_interval_ l) (check_every_n_ l) (count_ l)
    (start_of_period_ l) (last_roll_ l) n (file_ l) (closed l).

Definition Flush (l : t) : t := set_file (AppendFile.Flush (file_ l)) l.

(** [++count_] on an [int]. *)
Definition require_int (n : Z) : result Z := _ ← require (n <? 2 ^ 31) (UB SignedOverflow); Ok n.

(** [AppendUnlocked]: [now1] is read by the period check, [now2] by [RollFile]. The
    [else] belongs to the inner [if]. *)
Definition AppendUnlocked (ws : list (Z * bool)) (open_ok : bool) (now1 now2 : Z) (line : bytes) (l : t) :
    result (option t) :=
  match AppendFile.Append ws line (file_ l) with
  | None => Ok None
  | Some f =>
      let l := set_file f l in
      if roll_size_ l <? AppendFile.written_bytes_ (file_ l) then
        '(_, l) ← RollFile open_ok now2 l; Ok (Some l)
      else
        count ← require_int (count_ l + 1);
        let l := set_count count l in
        if check_every_n_ l <=? count_ l then
          let l := set_count 0 l in
          if negb (period now1 =? start_of_period_ l) then
            '(rolled, l) ← RollFile open_ok now2 l;
            if rolled : bool then Ok (Some l)
            else if flush_interval_ l <? now1 - last_flush_ l then
              Ok (Some (Flush (set_last_flush now1 l)))
            else Ok (Some l)
          else Ok (Some l)
        else Ok (Some l)
  end.

(** [Append]: the mutex, when there is one, serialises callers; the effect of one
    call is the same either way. *)
Definition Append (thread_safe : bool) (ws : list (Z * bool)) (open_ok : bool) (now1 now2 : Z)
    (line : bytes) (l : t) : result (option t) := AppendUnlocked ws open_ok now1 now2 line l.

(** Everything ever appended, across the files. *)
Definition all_data (l : t) : bytes :=
  concat (AppendFile.fdata <$> closed l) ++ AppendFile.fdata (file_ l).

End LogFile.
End LogFile.

(** * Lemmas *)
Module LogFileFacts.
Import LogFile.

(** A stream that takes at least a byte per call and reports no error. *)
Definition good_answers (ws : list (Z * bool)) : Prop :=
  Forall (fun x => 0 < x.1 /\ x.2 = false) ws.

(** Answers never exceed what was offered. *)
Fixpoint within (ws : list (Z * bool)) (len : Z) : Prop :=
  match ws with
  | [] => True
  | (n, _) :: ws => 0 <= n <= len /\ within ws (len - n)
  end.

Lemma append_loop_good ws rest w f :
  good_answers ws -> within ws (zlen rest) -> zlen rest <= fold_right (fun x a => x.1 + a) 0 ws ->
  AppendFile.append_loop ws rest w f =
    Some (w + zlen rest, AppendFile.mk (AppendFile.fname f) (AppendFile.fdata f ++ rest)
      (AppendFile.fflushed f) (AppendFile.written_bytes_ f)).
Proof.
  revert rest w f. induction ws as [|[n err] ws IH]; intros rest w f Hg Hw Hs.
  - cbn in Hs. pose proof (zlen_nonneg rest). assert (rest = []) as -> by (apply zlen_nil_inv; lia).
    cbn. rewrite app_nil_r. change (zlen (@nil ascii)) with 0. rewrite Z.add_0_r. by destruct f.
  - cbn [AppendFile.append_loop]. destruct (decide (rest = [])) as [->|Hne].
    + rewrite bool_decide_eq_true_2 by done. rewrite app_nil_r. change (zlen (@nil ascii)) with 0.
      rewrite Z.add_0_r. by destruct f.
    + rewrite bool_decide_eq_false_2 by done. inversion Hg as [|? ? [Hn He] Hg']; subst.
      cbn in Hn, He, Hw, Hs. subst err. destruct Hw as [Hle Hw]. rewrite andb_false_r.
      assert (zlen (zdrop n rest) = zlen rest - n) as Hd by (apply zlen_zdrop; lia).
      rewrite IH; [|done|by rewrite Hd|rewrite Hd; lia].
      rewrite Hd. cbn. rewrite <- app_assoc, ztake_zdrop.
      by replace (w + n + (zlen rest - n)) with (w + zlen rest) by lia.
Qed.

Lemma Append_good ws line f :
  good_answers ws -> within ws (zlen line) -> zlen line <= fold_right (fun x a => x.1 + a) 0 ws ->
  AppendFile.Append ws line f =
    Some (AppendFile.mk (AppendFile.fname f) (AppendFile.fdata f ++ line) (AppendFile.fflushed f)
      (AppendFile.written_bytes_ f + zlen line)).
Proof.
  intros. unfold AppendFile.Append. rewrite append_loop_good by done. cbn. by rewrite Z.add_0_l.
Qed.

(** ** Names *)

Lemma GetLogFileName_inj pid base t u : 0 <= t < TimeFacts.end_of_time -> 0 <= u < TimeFacts.end_of_time ->
  GetLogFileName TimeStamp.stamp pid base t = GetLogFileName TimeStamp.stamp pid base u -> t = u.
Proof.
  intros Ht Hu E%app_inv_head. apply TimeFacts.stamp_inj; [done|done|].
  destruct (TimeFacts.read_stamp_law t Ht) as [Lt _], (TimeFacts.read_stamp_law u Hu) as [Lu _].
  apply app_inj_1 in E as [E _]; [done|]. unfold zlen in *. lia.
Qed.

End LogFileFacts.

(** * Properties *)
Module LogFileProps.
Import LogFile LogFileFacts.

Section Props.
Context (stamp : Z -> bytes) (pid : Z).

(** When a line makes the file roll: the size limit is passed, or the count of
    lines is up and the day is another one; and the clock is past the last roll. *)
Definition rolls (now1 now2 : Z) (line : bytes) (l : t) : bool :=
  ((roll_size_ l <? AppendFile.written_bytes_ (file_ l) + zlen line) ||
   ((check_every_n_ l <=? count_ l + 1) && negb (period now1 =? start_of_period_ l))) &&
  (last_roll_ l <? now2).

(** When a line makes the stream be flushed: it does not pass the size limit, the count of
    lines is up, the day is another one, the clock is not past the last roll (two days
    within the second of a roll, or a clock that was set back), and more than the interval
    has passed since the last flush. *)
Definition flushes (now1 now2 : Z) (line : bytes) (l : t) : bool :=
  negb (roll_size_ l <? AppendFile.written_bytes_ (file_ l) + zlen line) &&
  (check_every_n_ l <=? count_ l + 1) && negb (period now1 =? start_of_period_ l) &&
  negb (last_roll_ l <? now2) && (flush_interval_ l <? now1 - last_flush_ l).

(** The count of lines after a line. *)
Definition counted (line : bytes) (l : t) : Z :=
  if roll_size_ l <? AppendFile.written_bytes_ (file_ l) + zlen line then count_ l
  else if check_every_n_ l <=? count_ l + 1 then 0 else count_ l + 1.

(** C37: With a stream that makes progress, appending a line terminates and keeps
    every byte in order across the files; the file is rolled exactly when the size
    limit is passed or the line count is up on another day, and the clock has moved
    since the last roll; the stream is flushed exactly when the file was to be rolled for
    the day, could not be, and more than the interval has passed since the last flush, so
    that within one day nothing is ever flushed, however much time has passed; and all the
    fields of the object are what that leaves. *)
Theorem AppendUnlocked_spec ws now1 now2 line l :
  good_answers ws -> within ws (zlen line) ->
  zlen line <= fold_right (fun x a => x.1 + a) 0 ws ->
  0 <= count_ l < 2 ^ 31 - 1 ->
  let f := AppendFile.mk (AppendFile.fname (file_ l)) (AppendFile.fdata (file_ l) ++ line)
    (AppendFile.fflushed (file_ l)) (AppendFile.written_bytes_ (file_ l) + zlen line) in
  exists l', AppendUnlocked stamp pid ws true now1 now2 line l = Ok (Some l') /\
    all_data l' = all_data l ++ line /\
    base_name_ l' = base_name_ l /\ roll_size_ l' = roll_size_ l /\ flush_interval_ l' = flush_interval_ l /\
    check_every_n_ l' = check_every_n_ l /\ count_ l' = counted line l /\
    if rolls now1 now2 line l
    then closed l' = closed l ++ [AppendFile.Flush f] /\
         file_ l' = AppendFile.mk (GetLogFileName stamp pid (base_name_ l) now2) [] 0 0 /\
         start_of_period_ l' = period now2 /\ last_roll_ l' = now2 /\ last_flush_ l' = now2
    else closed l' = closed l /\ start_of_period_ l' = start_of_period_ l /\ last_roll_ l' = last_roll_ l /\
         if flushes now1 now2 line l
         then file_ l' = AppendFile.Flush f /\ last_flush_ l' = now1
         else file_ l' = f /\ last_flush_ l' = last_flush_ l.
Proof.
  intros Hg Hw Hs Hc f.
  assert (require_int (count_ l + 1) = Ok (count_ l + 1)) as Hcount.
  { unfold require_int, require. by rewrite (proj2 (Z.ltb_lt _ _)) by lia. }
  unfold AppendUnlocked, rolls, flushes, counted. rewrite Append_good by done. fold f.
  cbn [set_file file_ roll_size_ AppendFile.written_bytes_ count_ f].
  destruct (roll_size_ l <? AppendFile.written_bytes_ (file_ l) + zlen line) eqn:E1; cbn [orb andb negb].
  - unfold RollFile. cbn [last_roll_ set_file]. destruct (last_roll_ l <? now2) eqn:E2.
    + eexists. split; [done|]. split; [|by split_and!]. unfold all_data. cbn.
      rewrite fmap_app, concat_app. cbn. by rewrite !app_nil_r, ?app_assoc.
    + eexists. split; [done|]. split; [|by split_and!]. unfold all_data. cbn. by rewrite app_assoc.
  - rewrite Hcount. cbn [mbind result_bind set_count count_ check_every_n_ set_file].
    destruct (check_every_n_ l <=? count_ l + 1) eqn:E2; cbn [andb].
    2:{ eexists. split; [done|]. split; [|by split_and!]. unfold all_data. cbn. by rewrite app_assoc. }
    cbn [start_of_period_ set_count set_file].
    destruct (period now1 =? start_of_period_ l) eqn:E3; cbn [negb andb].
    { eexists. split; [done|]. split; [|by split_and!]. unfold all_data. cbn. by rewrite app_assoc. }
    unfold RollFile. cbn [last_roll_ set_file set_count]. destruct (last_roll_ l <? now2) eqn:E4; cbn [negb andb].
    + eexists. split; [done|]. split; [|by split_and!]. unfold all_data. cbn.
      rewrite fmap_app, concat_app. cbn. by rewrite !app_nil_r, ?app_assoc.
    + cbn [flush_interval_ last_flush_ set_count set_file mbind result_bind].
      destruct (flush_interval_ l <? now1 - last_flush_ l); eexists; (split; [done|]);
        (split; [unfold all_data; cbn; by rewrite app_assoc|by split_and!]).
Qed.

End Props.

Section Names.
Context (pid : Z).

(** The names of the files so far, in the order they were opened. *)
Definition names (l : t) : list bytes := AppendFile.fname <$> closed l ++ [file_ l].

(** The stream's answers, whether a file could be opened, the two clock readings and
    the line of one call. *)
Abbreviation call := (list (Z * bool) * bool * Z * Z * bytes)%type.

Fixpoint append_all (calls : list call) (l : t) : result (option t) :=
  match calls with
  | [] => Ok (Some l)
  | (ws, ok, now1, now2, line) :: calls =>
      r ← AppendUnlocked TimeStamp.stamp pid ws ok now1 now2 line l;
      match r with Some l => append_all calls l | None => Ok None end
  end.

(** The files were opened at times [ts], each later than the one before. *)
Definition opened (ts : list Z) (l : t) : Prop :=
  names l = GetLogFileName TimeStamp.stamp pid (base_name_ l) <$> ts /\
  (forall i j t u, (i < j)%nat -> ts !! i = Some t -> ts !! j = Some u -> t < u) /\
  (forall t, t ∈ ts -> 0 < t <= last_roll_ l) /\ 0 < last_roll_ l.

Lemma opened_same ts l l' : opened ts l -> base_name_ l' = base_name_ l -> names l' = names l ->
  last_roll_ l' = last_roll_ l -> opened ts l'.
Proof. intros (H1 & H2 & H3 & H4) E1 E2 E3. unfold opened. by rewrite E1, E2, E3. Qed.

Lemma append_fname ws line f f' : AppendFile.Append ws line f = Some f' -> AppendFile.fname f' = AppendFile.fname f.
Proof.
  unfold AppendFile.Append. intros H. destruct (AppendFile.append_loop ws line 0 f) as [[n f1]|] eqn:E; [|done].
  injection H as <-. cbn. revert E. generalize 0. revert line f. induction ws as [|[k err] ws IH]; intros line f w; cbn.
  - case_bool_decide; [by intros [= _ <-]|done].
  - case_bool_decide; [by intros [= _ <-]|]. destruct (_ && _); [by intros [= _ <-]|]. intros E. by apply IH in E.
Qed.

Lemma roll_opened ts ok now l b l' : opened ts l -> RollFile TimeStamp.stamp pid ok now l = Ok (b, l') ->
  exists ts', opened ts' l' /\ base_name_ l' = base_name_ l /\ last_roll_ l' <= Z.max now (last_roll_ l).
Proof.
  intros Ho. pose proof Ho as (H1 & H2 & H3 & H4). unfold RollFile. destruct (Z.ltb_spec (last_roll_ l) now).
  2:{ intros [= <- <-]. exists ts. split; [done|]. split; [done|lia]. }
  unfold AppendFile.create. destruct ok; [|done]. cbn. intros [= <- <-]. exists (ts ++ [now]). split; [|split; [done|cbn; lia]].
  split_and!; cbn.
  - unfold names in *. cbn. rewrite fmap_app in *. rewrite fmap_app. cbn in *. by rewrite fmap_app, H1.
  - intros i j t u Hij Ht Hu. apply lookup_app_Some in Ht as [Ht|[? Ht]], Hu as [Hu|[? Hu]].
    + by apply (H2 i j).
    + apply list_elem_of_lookup_2 in Ht, Hu. apply list_elem_of_singleton in Hu as ->. specialize (H3 _ Ht). lia.
    + apply lookup_lt_Some in Hu. lia.
    + apply lookup_lt_Some in Ht, Hu. cbn in *. lia.
  - intros t [Ht|Ht]%elem_of_app; [specialize (H3 _ Ht); lia|]. apply list_elem_of_singleton in Ht as ->. lia.
  - lia.
Qed.

Lemma append_opened ts ws ok now1 now2 line l l' : opened ts l ->
  AppendUnlocked TimeStamp.stamp pid ws ok now1 now2 line l = Ok (Some l') ->
  exists ts', opened ts' l' /\ base_name_ l' = base_name_ l /\ last_roll_ l' <= Z.max now2 (last_roll_ l).
Proof.
  intros Ho. unfold AppendUnlocked. destruct (AppendFile.Append ws line (file_ l)) as [f|] eqn:Ef; [|done].
  apply append_fname in Ef. set (l1 := set_file f l).
  assert (names l1 = names l) as Hn1 by (unfold names, l1; cbn; by rewrite !fmap_app; cbn; rewrite Ef).
  assert (forall l2, base_name_ l2 = base_name_ l -> names l2 = names l -> last_roll_ l2 = last_roll_ l ->
    exists ts', opened ts' l2 /\ base_name_ l2 = base_name_ l /\ last_roll_ l2 <= Z.max now2 (last_roll_ l)) as Hsame.
  { intros l2 E1 E2 E3. exists ts. split; [by apply (opened_same ts l)|]. split; [done|lia]. }
  assert (forall l2 b l3, base_name_ l2 = base_name_ l -> names l2 = names l -> last_roll_ l2 = last_roll_ l ->
    RollFile TimeStamp.stamp pid ok now2 l2 = Ok (b, l3) ->
    exists ts', opened ts' l3 /\ base_name_ l3 = base_name_ l /\ last_roll_ l3 <= Z.max now2 (last_roll_ l)) as Hroll.
  { intros l2 b l3 E1 E2 E3 Er. rewrite <- E1, <- E3. eapply (roll_opened ts); [by apply (opened_same ts l)|exact Er]. }
  destruct (_ <? _); cbn [mbind result_bind].
  - destruct (RollFile _ _ _ _ l1) as [[b l3]|] eqn:Er; [|done]. intros [= <-]. by apply (Hroll l1 b l3).
  - destruct (require_int _) as [n|]; [|done]. cbn [mbind result_bind].
    destruct (_ <=? _); [|by intros [= <-]; apply Hsame]. destruct (negb _); [|by intros [= <-]; apply Hsame].
    destruct (RollFile _ _ _ _ _) as [[b l3]|] eqn:Er; [|done]. cbn [mbind result_bind].
    apply Hroll in Er as (ts' & Ho' & Hb & Hlr); [|done..]. destruct b; [intros [= <-]; by exists ts'|].
    destruct (_ <? _); intros [= <-]; [|by exists ts']. exists ts'. split; [|done].
    apply (opened_same ts' l3); [done|done| |done]. unfold names. by rewrite !fmap_app.
Qed.

Lemma append_all_opened calls ts l l' last : opened ts l -> last_roll_ l <= last ->
  Forall (fun '(_, _, _, now2, _) => now2 <= last) calls -> append_all calls l = Ok (Some l') ->
  exists ts', opened ts' l' /\ last_roll_ l' <= last.
Proof.
  intros Ho Hl Hc. revert ts l Ho Hl. induction Hc as [|[[[[ws ok] now1] now2] line] calls Hn _ IH]; intros ts l Ho Hl; cbn.
  - intros [= <-]. by exists ts.
  - destruct (AppendUnlocked _ _ _ _ _ _ _ _) as [[l1|]|] eqn:E; [|done|done]. cbn.
    destruct (append_opened _ _ _ _ _ _ _ _ Ho E) as (ts1 & Ho1 & _ & Hl1). apply (IH ts1); [done|lia].
Qed.

(** C29: However often it is rolled, a log file never goes on in a file it wrote
    before: whatever the calls, the answers of the streams and the readings of a clock
    that stays before the year 10000, the files opened have different names, so that
    each of them starts empty. *)
Theorem log_files_are_new base roll_size flush_interval check_every_n now calls l0 l :
  construct TimeStamp.stamp pid base roll_size flush_interval check_every_n now true = Ok l0 ->
  now < TimeFacts.end_of_time ->
  Forall (fun '(_, _, _, now2, _) => now2 < TimeFacts.end_of_time) calls ->
  append_all calls l0 = Ok (Some l) -> NoDup (names l).
Proof.
  unfold construct. destruct (Z.ltb_spec 0 now); [|done]. cbn. intros [= <-] Hnow Hc Hr.
  set (l0 := mk _ _ _ _ _ _ _ _ _ _) in Hr.
  assert (opened [now] l0) as Ho.
  { split; [done|]. split.
    - intros i j t u Hij Ht Hu. apply lookup_lt_Some in Ht, Hu. cbn in *. lia.
    - split; [|done]. intros t Ht. apply list_elem_of_singleton in Ht as ->. cbn. lia. }
  destruct (append_all_opened calls [now] l0 l (TimeFacts.end_of_time - 1) Ho) as (ts & (H1 & H2 & H3 & _) & Hl).
  - cbn. lia.
  - eapply list.Forall_impl; [exact Hc|]. intros [[[[? ?] ?] ?] ?]. lia.
  - exact Hr.
  - rewrite H1. apply list.NoDup_alt. intros i j nm Hi Hj.
    apply list_lookup_fmap_Some in Hi as (t & -> & Ht), Hj as (u & E & Hu).
    pose proof (H3 t (list_elem_of_lookup_2 _ _ _ Ht)) as Rt. pose proof (H3 u (list_elem_of_lookup_2 _ _ _ Hu)) as Ru.
    apply GetLogFileName_inj in E; [|lia|lia]. subst u.
    destruct (Nat.lt_trichotomy i j) as [Hij|[?|Hij]]; [|done|].
    + specialize (H2 _ _ _ _ Hij Ht Hu). lia.
    + specialize (H2 _ _ _ _ Hij Hu Ht). lia.
Qed.

End Names.

Lemma log_files_are_new_witness : exists l0 l,
  construct TimeStamp.stamp 7 (str "log") 4 3 1 100000 true = Ok l0 /\
  append_all 7 [([(6, false)], true, 100001, 100001, str "abcdef"); ([(6, false)], true, 100001, 100001, str "ghijkl");
    ([(6, false)], true, 190000, 190000, str "mnopqr")] l0 = Ok (Some l) /\
  length (names l) = 3%nat /\ NoDup (names l).
Proof.
  eexists _, _. split; [by vm_compute|]. split; [by vm_compute|]. split; [by vm_compute|].
  eapply (log_files_are_new 7 (str "log") 4 3 1 100000 [([(6, false)], true, 100001, 100001, str "abcdef");
    ([(6, false)], true, 100001, 100001, str "ghijkl"); ([(6, false)], true, 190000, 190000, str "mnopqr")]).
  - by vm_compute.
  - by vm_compute.
  - repeat (apply Forall_cons_2; [by vm_compute|]). by apply Forall_nil_2.
  - by vm_compute.
Defined.

Definition no_stamp (now : Z) : bytes := to_string now.

Definition sample : t :=
  mk (str "log") 10 3 1024 0 0 5 5 (AppendFile.mk (str "log.5") (str "abc") 0 3) [].

Lemma AppendUnlocked_spec_witness :
  exists l', AppendUnlocked no_stamp 7 [(4, false); (4, false)] true 9 9 (str "12345678") sample =
      Ok (Some l') /\ all_data l' = str "abc12345678" /\ length (closed l') = 1%nat.
Proof.
  destruct (AppendUnlocked_spec no_stamp 7 [(4, false); (4, false)] 9 9 (str "12345678") sample)
    as (l' & E & Hd & _ & _ & _ & _ & _ & Hr).
  - by repeat (apply Forall_cons_2; [done|]).
  - vm_compute. repeat split; discriminate.
  - vm_compute. discriminate.
  - cbn. lia.
  - exists l'. split_and!; [done|by rewrite Hd|]. by destruct Hr as [-> _].
Defined.

End LogFileProps.
