(* ===== verification/AsyncLogging.v ===== *)
(** Asynchronous logging (include/async_logging.h, src/async_logging.cc): the
    buffers that go back and forth between the threads that log and the one that
    writes the file, for every interleaving of their critical sections. *)
From Stdlib Require Import ZArith Lia Ascii.
From stdpp Require Import base list option strings.
From S2P Require Import Prelude Buffer LogStream.

Local Open Scope Z_scope.

Module AsyncLogging.

Section AsyncLogging.
(** [kBigBufferSize] in the sources. *)
Context (SIZE : Z).

Abbreviation buf := FixedBuffer.t.

(** A [BufferPtr]: [None] is the null pointer. *)
Abbreviation ptrs := (list (option buf)).

(** Where the writing thread is in its loop: before the test of [running_], before
    the locked block, after it with the swapped vector, or returned. *)
Inductive pc :=
  | BTest
  | BLock
  | BWrite (temp_buffer_vec : ptrs)
  | BDone.

(** The shared members, the thread's two spare buffers and what has been appended
    to the log file. *)
Record t := mk {
  running_ : bool;
  cur_buffer_ : option buf;
  next_buffer_ : option buf;
  buffer_to_write_ : ptrs;
  new_buffer1 : option buf;
  new_buffer2 : option buf;
  at_ : pc;
  file : bytes;
}.

Definition fresh : buf := FixedBuffer.Bzero SIZE (FixedBuffer.create SIZE).

(** The constructor and [Start]. *)
Definition create : t :=
  mk true (Some fresh) (Some fresh) [] (Some fresh) (Some fresh) BTest [].

(** [Append(msg, len)], under the mutex. *)
Definition Append (msg : bytes) (s : t) : result t :=
  match cur_buffer_ s with
  | None => Err (UB NullDeref)
  | Some c =>
      if zlen msg <? FixedBuffer.Avail SIZE c then
        c' ← FixedBuffer.append SIZE msg c;
        Ok (mk (running_ s) (Some c') (next_buffer_ s) (buffer_to_write_ s) (new_buffer1 s)
              (new_buffer2 s) (at_ s) (file s))
      else
        let c1 := match next_buffer_ s with Some n => n | None => FixedBuffer.create SIZE end in
        c' ← FixedBuffer.append SIZE msg c1;
        Ok (mk (running_ s) (Some c') None (buffer_to_write_ s ++ [Some c]) (new_buffer1 s)
              (new_buffer2 s) (at_ s) (file s))
  end.

(** [Stop], up to the join: the flag that ends the writing thread's loop. *)
Definition Stop (s : t) : t :=
  mk false (cur_buffer_ s) (next_buffer_ s) (buffer_to_write_ s) (new_buffer1 s) (new_buffer2 s)
    (at_ s) (file s).

(** The asserts at the head of the loop. *)
Definition spare_ok (b : option buf) : bool :=
  match b with Some b => FixedBuffer.Length b =? 0 | None => false end.

(** The locked block: the wait may end at any time. *)
Definition lock_block (s : t) : t :=
  let vec := buffer_to_write_ s ++ [cur_buffer_ s] in
  match next_buffer_ s with
  | Some n => mk (running_ s) (new_buffer1 s) (Some n) [] None (new_buffer2 s) (BWrite vec) (file s)
  | None => mk (running_ s) (new_buffer1 s) (new_buffer2 s) [] None None (BWrite vec) (file s)
  end.

(** The loop that appends every buffer of the vector to the file. *)
Fixpoint write_all (v : ptrs) : result bytes :=
  match v with
  | [] => Ok []
  | None :: _ => Err (UB NullDeref)
  | Some b :: v => d ← write_all v; Ok (FixedBuffer.content b ++ d)
  end.

(** [v.resize(2)] fills with null pointers. *)
Definition resize2 (v : ptrs) : ptrs := take 2 v ++ replicate (2 - length v) None.

(** [x = std::move(v.back()); v.pop_back(); x->Reset()] when [x] is null. *)
Definition refill (x : option buf) (v : ptrs) : result (option buf * ptrs) :=
  match x with
  | Some b => Ok (Some b, v)
  | None =>
      match last v with
      | None => Err (UB OutOfBounds)
      | Some None => Err (UB NullDeref)
      | Some (Some b) => Ok (Some (FixedBuffer.Reset b), removelast v)
      end
  end.

(** The part of the loop after the lock is released. The erase of the protection
    against too many buffers mixes iterators of two vectors, and the size that is
    tested before the resize is that of the shared vector. *)
Definition write_block (v : ptrs) (s : t) : result t :=
  if (25 <? zlen v) then Err (UB InvalidIterators)
  else
    d ← write_all v;
    let v := if 2 <? zlen (buffer_to_write_ s) then resize2 v else v in
    '(b1, v) ← refill (new_buffer1 s) v;
    '(b2, v) ← refill (new_buffer2 s) v;
    Ok (mk (running_ s) (cur_buffer_ s) (next_buffer_ s) (buffer_to_write_ s) b1 b2 BTest
          (file s ++ d)).

(** One step of the writing thread. *)
Definition thread_step (s : t) : result t :=
  match at_ s with
  | BTest =>
      if running_ s then
        if spare_ok (new_buffer1 s) && spare_ok (new_buffer2 s) then
          Ok (mk (running_ s) (cur_buffer_ s) (next_buffer_ s) (buffer_to_write_ s) (new_buffer1 s)
                (new_buffer2 s) BLock (file s))
        else Err AssertFailed
      else
        Ok (mk (running_ s) (cur_buffer_ s) (next_buffer_ s) (buffer_to_write_ s) (new_buffer1 s)
              (new_buffer2 s) BDone (file s))
  | BLock => Ok (lock_block s)
  | BWrite v => write_block v s
  | BDone => Ok s
  end.

(** The interleaving: a message from some thread, a step of the writing thread, or
    the stop request. *)
Inductive action := AAppend (msg : bytes) | AThread | AStop.

Definition step (a : action) (s : t) : result t :=
  match a with
  | AAppend msg => Append msg s
  | AThread => thread_step s
  | AStop => Ok (Stop s)
  end.

Fixpoint run (acts : list action) (s : t) : result t :=
  match acts with
  | [] => Ok s
  | a :: acts => s ← step a s; run acts s
  end.

End AsyncLogging.
Arguments pc : clear implicits.
End AsyncLogging.

(** * Lemmas *)
Module AsyncLoggingFacts.
Import AsyncLogging.

Section Facts.
Context (SIZE : Z) (Hsize : 0 < SIZE < 2 ^ 31).

Definition live (b : option FixedBuffer.t) : Prop :=
  exists x, b = Some x /\ FixedBuffer.wf SIZE x.
Definition empty (b : option FixedBuffer.t) : Prop :=
  exists x, b = Some x /\ FixedBuffer.wf SIZE x /\ FixedBuffer.content x = [].

(** The bytes in a buffer, and in a vector of buffers. *)
Definition text (b : option FixedBuffer.t) : bytes :=
  match b with Some x => FixedBuffer.content x | None => [] end.
Definition texts (v : list (option FixedBuffer.t)) : bytes := concat (text <$> v).

(** The swapped vector the writing thread still has to write. *)
Definition in_hand (c : pc) : list (option FixedBuffer.t) :=
  match c with BWrite v => v | _ => [] end.

(** Enough spare buffers are on their way back to the thread. *)
Definition spares (s : t) : Prop :=
  match at_ s with
  | BWrite v => new_buffer1 s = None /\ v <> [] /\
      (empty (new_buffer2 s) \/ new_buffer2 s = None /\ (2 <= length v)%nat)
  | _ => empty (new_buffer1 s) /\ empty (new_buffer2 s)
  end.

(** [m] is what the logging threads have handed over so far. *)
Definition inv (m : bytes) (s : t) : Prop :=
  live (cur_buffer_ s) /\ Forall live (buffer_to_write_ s) /\ Forall live (in_hand (at_ s)) /\
  (empty (next_buffer_ s) \/ next_buffer_ s = None /\ buffer_to_write_ s <> []) /\ spares s /\
  m = file s ++ texts (in_hand (at_ s)) ++ texts (buffer_to_write_ s) ++ text (cur_buffer_ s).

Lemma fresh_empty : empty (Some (fresh SIZE)).
Proof.
  exists (fresh SIZE). destruct (LogStreamFacts.create_wf SIZE Hsize) as [(? & ? & ?) _].
  split_and!; [done| |done]. unfold FixedBuffer.wf. cbn in *. rewrite zlen_zreplicate by lia. lia.
Qed.

Lemma async_create_inv : inv [] (create SIZE).
Proof.
  pose proof fresh_empty as Hf. destruct Hf as (x & Hx & Hw & Hc).
  unfold inv, spares. cbn. split_and!; try done.
  - by exists x.
  - left. by exists x.
  - by exists x.
  - by exists x.
Qed.

(** A message is accepted when it fits in an empty buffer; any other is dropped. *)
Definition accepted (msg : bytes) : bytes := if zlen msg <? SIZE then msg else [].

(** Appending takes the message whole or not at all. *)
Lemma append_takes msg b : FixedBuffer.wf SIZE b ->
  zlen msg < FixedBuffer.Avail SIZE b \/ FixedBuffer.content b = [] ->
  exists b', FixedBuffer.append SIZE msg b = Ok b' /\ FixedBuffer.wf SIZE b' /\
    FixedBuffer.content b' = FixedBuffer.content b ++ accepted msg.
Proof.
  intros Hwf Hor. destruct (LogStreamFacts.append_law SIZE msg b Hwf) as (b' & E & Hw & Hc).
  exists b'. split_and!; try done. rewrite Hc. f_equal. unfold accepted.
  pose proof (LogStreamFacts.content_length SIZE b Hwf) as Hl. rewrite Hl.
  destruct Hwf as (Hs & Hb & Hcur). pose proof (zlen_nonneg msg).
  assert (zlen msg < SIZE - FixedBuffer.cur_ b \/ FixedBuffer.cur_ b = 0) as Hor'.
  { destruct Hor as [Ha|He]; [left|right].
    - unfold FixedBuffer.Avail in Ha. rewrite i32_small in Ha by lia. done.
    - rewrite He in Hl. by rewrite <- Hl. }
  destruct (Z.ltb_spec (FixedBuffer.cur_ b + zlen msg) SIZE);
    destruct (Z.ltb_spec (zlen msg) SIZE); try lia; done.
Qed.

Lemma texts_app v w : texts (v ++ w) = texts v ++ texts w.
Proof. unfold texts. by rewrite fmap_app, concat_app. Qed.

Lemma text_single b : texts [b] = text b.
Proof. apply app_nil_r. Qed.

Lemma Append_inv m msg s : inv m s ->
  exists s', Append SIZE msg s = Ok s' /\ inv (m ++ accepted msg) s'.
Proof.
  intros ((c & Hc & Hwc) & Htw & Hih & Hnx & Hsp & Hm). unfold Append. rewrite Hc.
  rewrite Hc in Hm. cbn in Hm.
  destruct (Z.ltb_spec (zlen msg) (FixedBuffer.Avail SIZE c)).
  - destruct (append_takes msg c Hwc) as (c' & E & Hw' & Hc'); [by left|].
    rewrite E. cbn [mbind]. eexists. split; [done|].
    unfold inv. cbn. split_and!; try done; [by exists c'|].
    rewrite Hm, Hc'. by rewrite <- !app_assoc.
  - set (c1 := match next_buffer_ s with Some n => n | None => _ end).
    assert (FixedBuffer.wf SIZE c1 /\ FixedBuffer.content c1 = []) as [Hw1 Hc1].
    { unfold c1. destruct Hnx as [(x & -> & Hx)|[-> _]]; [done|]. by apply LogStreamFacts.create_wf. }
    destruct (append_takes msg c1 Hw1) as (c' & E & Hw' & Hc'); [by right|].
    rewrite E. eexists. split; [done|].
    rewrite Hc1 in Hc'. unfold inv. cbn [cur_buffer_ next_buffer_ buffer_to_write_ at_ file text].
    split_and!; try done.
    + by exists c'.
    + apply Forall_app. split; [done|]. apply Forall_singleton. by exists c.
    + right. split; [done|]. by intros [_ ?]%app_eq_nil.
    + rewrite texts_app, text_single, Hm, Hc'. cbn [text]. by rewrite <- !app_assoc.
Qed.

Lemma write_all_ok v : Forall live v -> write_all v = Ok (texts v).
Proof.
  induction 1 as [|b v (x & -> & Hx) _ IH]; [done|]. cbn. rewrite IH. done.
Qed.

(** The conditions under which the unlocked part is defined. *)
Definition can_write (v : list (option FixedBuffer.t)) (s : t) : bool :=
  (zlen v <=? 25) && ((2 <=? zlen v) || (zlen (buffer_to_write_ s) <=? 2)).

Lemma Reset_empty x : FixedBuffer.wf SIZE x -> empty (Some (FixedBuffer.Reset x)).
Proof. intros (Hs & Hl & Hc). eexists. split; [done|]. split; [|done]. unfold FixedBuffer.wf. cbn. lia. Qed.

Lemma refill_none v : v <> [] -> Forall live v ->
  exists b v', refill None v = Ok (b, v') /\ empty b /\ Forall live v' /\ length v = S (length v').
Proof.
  intros Hne Hv. destruct v as [|x v _] using rev_ind; [done|].
  apply Forall_app in Hv as [Hv (b & -> & Hb)%Forall_singleton].
  eexists _, v. unfold refill. rewrite last_snoc, removelast_last. split_and!; try done.
  - by apply Reset_empty.
  - rewrite length_app. cbn. lia.
Qed.

Lemma refill_some x v : empty x -> refill x v = Ok (x, v).
Proof. by intros (b & -> & _). Qed.

Lemma resize2_long v : (2 <= length v)%nat -> resize2 v = take 2 v.
Proof. intros. unfold resize2. replace (2 - length v)%nat with 0%nat by lia. apply app_nil_r. Qed.

Lemma write_block_law m v s : inv m s -> at_ s = BWrite v ->
  if can_write v s then exists s', write_block v s = Ok s' /\ inv m s' /\
    at_ s' = BTest /\ file s' = file s ++ texts v /\ buffer_to_write_ s' = buffer_to_write_ s /\
    cur_buffer_ s' = cur_buffer_ s
  else exists k, write_block v s = Err (UB k).
Proof.
  intros (Hcur & Htw & Hih & Hnx & Hsp & Hm) Hat. unfold spares in Hsp. rewrite Hat in *. cbn in Hih, Hm.
  destruct Hsp as (Hn1 & Hne & Hn2). unfold can_write, write_block.
  rewrite (write_all_ok v Hih). destruct (Z.leb_spec (zlen v) 25) as [Hle|Hgt].
  2:{ destruct (Z.ltb_spec 25 (zlen v)); [|lia]. cbn. by eexists. }
  destruct (Z.ltb_spec 25 (zlen v)); [lia|]. cbn.
  set (v1 := if 2 <? zlen (buffer_to_write_ s) then resize2 v else v).
  rewrite Hn1. destruct ((2 <=? zlen v) || (zlen (buffer_to_write_ s) <=? 2)) eqn:Ec.
  - assert (Forall live v1 /\ v1 <> [] /\ ((2 <= length v)%nat -> (2 <= length v1)%nat))
      as (Hv1 & Hne1 & Hl1).
    { unfold v1. destruct (Z.ltb_spec 2 (zlen (buffer_to_write_ s))); [|done].
      apply orb_true_iff in Ec as [Ec|Ec]; zb; [|lia]. unfold zlen in Ec.
      rewrite resize2_long by lia. split_and!.
      - by apply Forall_take.
      - intros E. apply (f_equal length) in E. rewrite length_take in E. change (length (@nil (option FixedBuffer.t))) with 0%nat in E. lia.
      - rewrite length_take. lia. }
    destruct (refill_none v1 Hne1 Hv1) as (b1 & v2 & E1 & Hb1 & Hv2 & Hl2). rewrite E1. cbn.
    assert (exists b2 v3, refill (new_buffer2 s) v2 = Ok (b2, v3) /\ empty b2) as (b2 & v3 & E2 & Hb2).
    { destruct Hn2 as [Hn2|[-> Hlen]]; [by eexists _, _; split; [apply refill_some|]|].
      destruct (refill_none v2) as (b2 & v3 & E2 & Hb2 & _); [|done|by eexists _, _].
      intros ->. specialize (Hl1 Hlen). rewrite Hl2 in Hl1. cbn in Hl1. lia. }
    rewrite E2. cbn. eexists. split; [done|]. unfold inv, spares. cbn. split_and!; try done.
    rewrite Hm. by rewrite <- !app_assoc.
  - apply orb_false_iff in Ec as [E1 E2]. zb. unfold v1.
    destruct (Z.ltb_spec 2 (zlen (buffer_to_write_ s))); [|lia].
    destruct v as [|x [|y v]]; [done| |rewrite !zlen_cons in E1; pose proof (zlen_nonneg v); lia].
    cbn. by eexists.
Qed.

Lemma lock_block_inv m s : inv m s -> at_ s = BLock -> inv m (lock_block s).
Proof.
  intros (Hcur & Htw & Hih & Hnx & Hsp & Hm) Hat. unfold spares in Hsp. rewrite Hat in *. cbn in Hm.
  destruct Hsp as [(x1 & Hx1 & Hw1 & Hc1) Hsp2].
  assert (Forall live (buffer_to_write_ s ++ [cur_buffer_ s])) as Hv
    by (apply Forall_app; split; [done|by apply Forall_singleton]).
  assert (buffer_to_write_ s ++ [cur_buffer_ s] <> []) as Hne by (by intros [_ ?]%app_eq_nil).
  assert (m = file s ++ texts (buffer_to_write_ s ++ [cur_buffer_ s]) ++ [] ++ text (new_buffer1 s)) as Ht.
  { rewrite texts_app, text_single, Hm, Hx1. cbn. by rewrite Hc1, app_nil_r. }
  unfold lock_block. destruct Hnx as [Hnx|[-> Hne']].
  - pose proof Hnx as (n & En & _). rewrite En in Hnx |- *. unfold inv, spares. cbn. split_and!; try done; [by exists x1|by left|by left].
  - unfold inv, spares. cbn. split_and!; try done; [by exists x1|by left|].
    right. split; [done|]. rewrite length_app. cbn. destruct (buffer_to_write_ s); [done|cbn; lia].
Qed.

Lemma spare_empty b : empty b -> spare_ok b = true.
Proof.
  intros (x & -> & Hwf & Hc). cbn. apply Z.eqb_eq. pose proof (LogStreamFacts.content_length SIZE x Hwf) as Hl.
  rewrite Hc in Hl. change (zlen (@nil ascii)) with 0 in Hl. destruct Hwf as (? & ? & ?).
  unfold FixedBuffer.Length. rewrite i32_small; lia.
Qed.

(** What an action hands over. *)
Definition given (a : action) : bytes := match a with AAppend msg => accepted msg | _ => [] end.

(** Every step but the unlocked write is defined and keeps the invariant. *)
Lemma step_law m a s : inv m s ->
  match a, at_ s with
  | AThread, BWrite v =>
      if can_write v s then exists s', step SIZE a s = Ok s' /\ inv (m ++ given a) s'
      else exists k, step SIZE a s = Err (UB k)
  | _, _ => exists s', step SIZE a s = Ok s' /\ inv (m ++ given a) s'
  end.
Proof.
  intros Hi. destruct a as [msg| |]; cbn [step given].
  - destruct (at_ s); by apply Append_inv.
  - rewrite app_nil_r. unfold thread_step. destruct (at_ s) as [| |v|] eqn:Hat.
    + pose proof Hi as (Hcur & Htw & Hih & Hnx & Hsp & Hm). unfold spares in Hsp. rewrite Hat in *.
      destruct Hsp as [H1 H2]. rewrite !spare_empty by done. cbn.
      destruct (running_ s); eexists; (split; [done|]); unfold inv, spares; cbn; by split_and!.
    + eexists. split; [done|]. by apply lock_block_inv.
    + pose proof (write_block_law m v s Hi Hat) as Hw.
      destruct (can_write v s); [destruct Hw as (s' & ? & ? & _); by eexists|done].
    + by eexists.
  - rewrite app_nil_r. destruct (at_ s); (eexists; split; [done|done]).
Qed.

(** What a sequence of actions hands over, in order. *)
Definition handed (acts : list action) : bytes := concat (given <$> acts).

Lemma run_inv m acts s s' : inv m s -> run SIZE acts s = Ok s' -> inv (m ++ handed acts) s'.
Proof.
  revert m s. induction acts as [|a acts IH]; intros m s Hi; cbn.
  - intros [= <-]. by rewrite app_nil_r.
  - pose proof (step_law m a s Hi) as Hs.
    destruct (step SIZE a s) as [s1|e] eqn:E; cbn; [|done]. intros Hr.
    unfold handed. cbn [fmap list_fmap concat]. rewrite app_assoc. eapply IH; [|exact Hr].
    destruct a as [msg| |], (at_ s) as [| |v|]; try (destruct Hs as (s2 & [= <-] & ?); done).
    destruct (can_write v s); destruct Hs as (s2 & Hs); [by destruct Hs as [[= <-] ?]|done].
Qed.

(** One undisturbed turn of the loop writes everything handed over so far. *)
Lemma turn_law m s : inv m s -> at_ s = BTest -> running_ s = true ->
  zlen (buffer_to_write_ s) < 25 ->
  exists s', run SIZE [AThread; AThread; AThread] s = Ok s' /\ at_ s' = BTest /\ file s' = m.
Proof.
  intros Hi Hat Hrun Hlen. pose proof (step_law m AThread s Hi) as Hs. rewrite Hat in Hs.
  cbn [given] in Hs. rewrite app_nil_r in Hs. destruct Hs as (s1 & E1 & Hi1).
  cbn [run step] in *. rewrite E1. cbn [mbind result_bind].
  assert (at_ s1 = BLock /\ buffer_to_write_ s1 = buffer_to_write_ s) as [Hat1 Hb1].
  { unfold thread_step in E1. rewrite Hat, Hrun in E1.
    destruct (spare_ok _ && spare_ok _); [|done]. by injection E1 as <-. }
  assert (thread_step s1 = Ok (lock_block s1)) as E2 by (unfold thread_step; by rewrite Hat1).
  pose proof (lock_block_inv m s1 Hi1 Hat1) as Hi2.
  set (v := buffer_to_write_ s1 ++ [cur_buffer_ s1]).
  assert (at_ (lock_block s1) = BWrite v /\ buffer_to_write_ (lock_block s1) = []) as [Hat2 Hb2]
    by (unfold lock_block; destruct (next_buffer_ s1); done).
  assert (thread_step (lock_block s1) = write_block v (lock_block s1)) as E3 by (unfold thread_step; by rewrite Hat2).
  pose proof (write_block_law m v _ Hi2 Hat2) as Hw.
  assert (can_write v (lock_block s1) = true) as Hcan.
  { unfold can_write. rewrite Hb2. apply andb_true_intro. split; [|apply orb_true_r].
    apply Z.leb_le. unfold v. rewrite Hb1, zlen_app, zlen_cons. change (zlen []) with 0. lia. }
  rewrite Hcan in Hw. destruct Hw as (s3 & E4 & Hi3 & Hat3 & Hf3 & Hb3 & Hc3).
  exists s3. split_and!; [by rewrite E2; cbn; rewrite E3, E4|done|]. destruct Hi3 as (_ & _ & _ & _ & _ & Hm3). rewrite Hm3, Hat3, Hb3, Hb2, Hc3.
  assert (text (cur_buffer_ (lock_block s1)) = []) as ->; [|cbn; by rewrite !app_nil_r].
  destruct Hi1 as (_ & _ & _ & _ & Hsp & _). unfold spares in Hsp. rewrite Hat1 in Hsp.
  destruct Hsp as [(x & Hx & _ & Hcx) _]. unfold lock_block. destruct (next_buffer_ s1); cbn; by rewrite Hx.
Qed.

End Facts.
End AsyncLoggingFacts.

(** * Properties *)
Module AsyncLoggingProps.
Import AsyncLogging AsyncLoggingFacts.


(** A message that fills a buffer of four bytes. *)
Definition full : bytes := str "abc".

(** Both failures happen: 26 full buffers before the writing thread gets the
    lock make the protection against too many buffers mix iterators of two vectors,
    and three buffers filled while one is being written make the thread dereference
    a null pointer; and messages taken before a stop can stay unwritten for good. *)
Example async_failures :
  (exists s, run 4 (AThread :: replicate 26 (AAppend full) ++ [AThread]) (create 4) = Ok s /\
     step 4 AThread s = Err (UB InvalidIterators)) /\
  (exists s, run 4 ([AThread; AThread] ++ replicate 4 (AAppend full)) (create 4) = Ok s /\
     step 4 AThread s = Err (UB NullDeref)) /\
  (exists s, run 4 [AAppend full; AStop; AThread] (create 4) = Ok s /\ at_ s = BDone /\
     text (cur_buffer_ s) = full /\ file s = []).
Proof. split_and!; (eexists; split; [vm_compute; reflexivity|by vm_compute]). Qed.


End AsyncLoggingProps.
