(* ===== verification/Logging.v ===== *)
(** Logging as the servers use it (example/echo_server.cc, example/pingpong_server.cc,
    src/logger.cc, src/async_logging.cc): LOG statements of any threads whose output
    function appends to the asynchronous log, together with the thread that writes the
    file. *)
From Stdlib Require Import ZArith Lia Ascii.
From stdpp Require Import base list option strings.
From S2P Require Import Prelude Buffer LogStream AsyncLogging.

Local Open Scope Z_scope.

Module Logging.
Import LogStream Logger.

Abbreviation async := AsyncLogging.t.

Section Logging.
(** The size of the asynchronous log's buffers, kBigBufferSize in the sources. *)
Context (SIZE : Z).

(** [MyOutput] of the mains. *)
Definition MyOutput (msg : bytes) (s : async) : result async := AsyncLogging.Append SIZE msg s.

(** The global variables once a main has set the output function: the flush function
    is still the one for the terminal, which does nothing to the log file. *)
Definition globals_of (level : LogLevel) : globals (W := async) :=
  SetOutputFunc MyOutput (mk_globals (DefaultOutput (fun msg s => (zlen msg, s))) (DefaultFlush (fun s => s)) level).

(** A statement of some thread, a step of the writing thread, or the stop request. *)
Inductive action :=
  | ALog (l : LogLevel) (func : option bytes) (x : site) (msg : bytes)
  | AWriter
  | AStopLog.

Definition step (level : LogLevel) (a : action) (s : async) : result (async * bool) :=
  match a with
  | ALog l func x msg => statement (globals_of level) l func x msg s
  | AWriter => s ← AsyncLogging.step SIZE AsyncLogging.AThread s; Ok (s, false)
  | AStopLog => s ← AsyncLogging.step SIZE AsyncLogging.AStop s; Ok (s, false)
  end.

(** The process ends with the first statement that aborts (the boolean). *)
Fixpoint run (level : LogLevel) (acts : list action) (s : async) : result (async * bool) :=
  match acts with
  | [] => Ok (s, false)
  | a :: acts =>
      '(s, aborted) ← step level a s;
      if aborted : bool then Ok (s, true) else run level acts s
  end.

End Logging.

End Logging.

(** * Lemmas *)
Module LoggingFacts.
Import LogStream Logger Logging.

Abbreviation small b := (FixedBuffer.wf kSmallBufferSize b).

Lemma append_small d b b' : small b -> Append d b = Ok b' -> small b'.
Proof.
  intros Hb E. destruct (LogStreamFacts.append_law kSmallBufferSize d b Hb) as (b1 & E1 & Hb1 & _).
  unfold Append in E. rewrite E1 in E. by injection E as <-.
Qed.

Lemma put_cstr_small p b b' : small b -> put_cstr p b = Ok b' -> small b'.
Proof.
  intros Hb. unfold put_cstr. destruct p as [mem|]; [|by apply append_small].
  destruct (strlen mem); [|done]. by apply append_small.
Qed.

Lemma put_char_small g c b b' : small b -> put_char g c b = Ok b' -> small b'.
Proof. apply put_cstr_small. Qed.

(** One operation of a chain. *)
Ltac op H :=
  match goal with
  | |- (mbind _ ?m) = Ok _ -> _ =>
      let E := fresh "E" in let H' := fresh "H" in
      destruct m eqn:E; [|done]; cbn [mbind result_bind];
      first [ first [ pose proof (append_small _ _ _ H E) as H' | pose proof (put_cstr_small _ _ _ H E) as H'
                    | pose proof (put_char_small _ _ _ _ H E) as H' ]; clear H E; rename H' into H
            | clear E ]
  end.

Lemma Impl_small l x b : Impl l x = Ok b -> small b.
Proof.
  destruct (LogStreamFacts.create_wf kSmallBufferSize) as [H _]; [done|]. unfold Impl, put_string.
  op H. op H. op H. op H. op H. op H. op H. op H. op H. by apply put_cstr_small.
Qed.

Lemma construct_small l func x b : construct l func x = Ok b -> small b.
Proof.
  unfold construct. destruct (Impl l x) as [s|] eqn:E; [|done]. apply Impl_small in E as H. cbn [mbind result_bind].
  destruct func; [|by intros [= <-]]. op H. by apply put_char_small.
Qed.

Lemma Finish_small x s b : small s -> Finish x s = Ok b -> small b.
Proof. intros H. unfold Finish, put_int. op H. op H. op H. op H. by apply put_cstr_small. Qed.

(** A line is shorter than the small buffer, whatever its parts are. *)
Lemma log_small thr l func x msg line fatal :
  log thr l func x msg = Ok (Some (line, fatal)) -> zlen line < kSmallBufferSize /\ fatal = bool_decide (l = FATAL).
Proof.
  unfold log. destruct (enabled thr l); [|done]. destruct (construct l func x) as [s|] eqn:E; [|done].
  apply construct_small in E as H. cbn [mbind result_bind]. unfold put_string. op H. unfold destruct_.
  destruct (Finish x _) as [b|] eqn:Ef; [|done]. cbn. intros [= <- <-]. split; [|done].
  apply (Finish_small _ _ _ H) in Ef as Hb. rewrite (LogStreamFacts.content_length kSmallBufferSize b Hb).
  destruct Hb as (_ & _ & ?). lia.
Qed.

Section Facts.
Context (SIZE : Z) (Hsize : kSmallBufferSize <= SIZE < 2 ^ 31).

(** What is handed to the asynchronous log, up to the statement that aborts. *)
Fixpoint performed (level : LogLevel) (acts : list action) : list AsyncLogging.action :=
  match acts with
  | [] => []
  | ALog l func x msg :: acts =>
      match log level l func x msg with
      | Ok (Some (line, fatal)) =>
          AsyncLogging.AAppend line :: (if fatal : bool then [] else performed level acts)
      | _ => performed level acts
      end
  | AWriter :: acts => AsyncLogging.AThread :: performed level acts
  | AStopLog :: acts => AsyncLogging.AStop :: performed level acts
  end.

(** The lines themselves, in order. *)
Definition lines (level : LogLevel) (acts : list action) : list bytes :=
  flat_map (fun a => match a with AsyncLogging.AAppend line => [line] | _ => [] end) (performed level acts).

(** A statement whose line can be printed ([LogStreamProps.log_line_text] says when). *)
Definition prints (level : LogLevel) (a : action) : Prop :=
  match a with ALog l func x msg => exists r, log level l func x msg = Ok r | _ => True end.

Lemma statement_eq level l func x msg s :
  statement (globals_of SIZE level) l func x msg s =
    r ← log level l func x msg;
    match r with
    | None => Ok (s, false)
    | Some (line, fatal) => s ← AsyncLogging.Append SIZE line s; Ok (s, fatal)
    end.
Proof.
  unfold statement. destruct (log _ _ _ _ _) as [[[line fatal]|]|]; [|done..]. cbn.
  unfold MyOutput. destruct (AsyncLogging.Append _ _ _); [|done]. cbn. by destruct fatal.
Qed.

Lemma run_more level acts more s s1 : run SIZE level acts s = Ok (s1, false) -> run SIZE level (acts ++ more) s = run SIZE level more s1.
Proof.
  revert s. induction acts as [|a acts IH]; intros s; cbn; [by intros [= <-]|].
  destruct (step SIZE level a s) as [[s2 [|]]|]; [done| |done]. apply IH.
Qed.

(** ** Lines in buffers *)

(** A buffer holds a number of lines, each of them whole. *)
Definition filled (b : option FixedBuffer.t) (ls : list bytes) : Prop := AsyncLoggingFacts.text b = concat ls.

(** The lines are in the file, in the vector the writing thread has in hand, in the queue and
    in the current buffer, in this order, and no line is in two places. *)
Definition grouped (ls : list bytes) (s : async) : Prop :=
  exists fl hs qs cl, ls = fl ++ concat hs ++ concat qs ++ cl /\ AsyncLogging.file s = concat fl /\
    Forall2 filled (AsyncLoggingFacts.in_hand (AsyncLogging.at_ s)) hs /\
    Forall2 filled (AsyncLogging.buffer_to_write_ s) qs /\ filled (AsyncLogging.cur_buffer_ s) cl.

Lemma grouped_create : grouped [] (AsyncLogging.create SIZE).
Proof. exists [], [], [], []. by split_and!; try constructor. Qed.

Lemma filled_texts v hs : Forall2 filled v hs -> AsyncLoggingFacts.texts v = concat (concat hs).
Proof.
  induction 1 as [|b ls v hs Hb _ IH]; [done|].
  unfold AsyncLoggingFacts.texts in *. cbn. by rewrite concat_app, IH, Hb.
Qed.

Lemma grouped_append m msg s ls : AsyncLoggingFacts.inv SIZE m s -> zlen msg < SIZE -> grouped ls s ->
  exists s' m', AsyncLogging.Append SIZE msg s = Ok s' /\ AsyncLoggingFacts.inv SIZE m' s' /\ grouped (ls ++ [msg]) s' /\
    AsyncLogging.file s' = AsyncLogging.file s /\ exists pre, AsyncLoggingFacts.text (AsyncLogging.cur_buffer_ s') = pre ++ msg.
Proof.
  intros Hi Hmsg (fl & hs & qs & cl & -> & Hf & Hh & Hq & Hc).
  assert (0 < SIZE < 2 ^ 31) as Hs by (unfold kSmallBufferSize in *; lia).
  destruct (AsyncLoggingFacts.Append_inv SIZE Hs m msg s Hi) as (s' & E & Hi').
  exists s', (m ++ AsyncLoggingFacts.accepted SIZE msg). split; [done|]. split; [done|].
  pose proof Hi as ((c & Ec & Hw) & _ & _ & Hnx & _).
  assert (AsyncLoggingFacts.accepted SIZE msg = msg) as Hacc.
  { unfold AsyncLoggingFacts.accepted. by destruct (Z.ltb_spec (zlen msg) SIZE); [|lia]. }
  unfold AsyncLogging.Append in E. rewrite Ec in E. unfold filled in Hc. rewrite Ec in Hc. cbn in Hc.
  destruct (Z.ltb_spec (zlen msg) (FixedBuffer.Avail SIZE c)) as [Hlt|Hge].
  - destruct (AsyncLoggingFacts.append_takes SIZE msg c Hw) as (c' & Ea & _ & Ht); [by left|].
    rewrite Ea in E. injection E as <-. rewrite Hacc in Ht. split; [|by split; [|eexists]].
    exists fl, hs, qs, (cl ++ [msg]). split; [by rewrite <- !app_assoc|]. split; [done|]. split; [done|].
    split; [done|]. unfold filled. cbn. rewrite Ht, Hc, concat_app. cbn. by rewrite app_nil_r.
  - assert (exists c1, match AsyncLogging.next_buffer_ s with Some n => n | None => FixedBuffer.create SIZE end = c1 /\
      FixedBuffer.wf SIZE c1 /\ FixedBuffer.content c1 = []) as (c1 & E1 & Hw1 & Hc1).
    { destruct Hnx as [(x & -> & ? & ?)|[-> _]]; [by eexists|]. eexists. split; [done|].
      by apply LogStreamFacts.create_wf. }
    rewrite E1 in E. destruct (AsyncLoggingFacts.append_takes SIZE msg c1 Hw1) as (c' & Ea & _ & Ht); [by right|].
    rewrite Ea in E. injection E as <-. rewrite Hacc, Hc1 in Ht. split; [|split; [done|by eexists]].
    exists fl, hs, (qs ++ [cl]), [msg]. split_and!; [|done|done| |].
    + rewrite concat_app. cbn. by rewrite app_nil_r, <- !app_assoc.
    + apply Forall2_app; [done|]. constructor; [|constructor]. exact Hc.
    + unfold filled. cbn. by rewrite app_nil_r.
Qed.

Lemma grouped_thread m s s' ls : AsyncLoggingFacts.inv SIZE m s -> AsyncLogging.thread_step s = Ok s' ->
  grouped ls s -> grouped ls s'.
Proof.
  intros Hi E (fl & hs & qs & cl & -> & Hf & Hh & Hq & Hc). unfold AsyncLogging.thread_step in E.
  destruct (AsyncLogging.at_ s) as [| |v|] eqn:Hat; cbn in Hh.
  - exists fl, hs, qs, cl. destruct (AsyncLogging.running_ s).
    + destruct (_ && _); [|done]. by injection E as <-.
    + by injection E as <-.
  - apply Forall2_nil_inv_l in Hh as ->. injection E as <-.
    assert (AsyncLogging.file (AsyncLogging.lock_block s) = AsyncLogging.file s /\
      AsyncLoggingFacts.in_hand (AsyncLogging.at_ (AsyncLogging.lock_block s)) =
        AsyncLogging.buffer_to_write_ s ++ [AsyncLogging.cur_buffer_ s] /\
      AsyncLogging.buffer_to_write_ (AsyncLogging.lock_block s) = [] /\
      AsyncLogging.cur_buffer_ (AsyncLogging.lock_block s) = AsyncLogging.new_buffer1 s) as (E1 & E2 & E3 & E4).
    { unfold AsyncLogging.lock_block. by destruct (AsyncLogging.next_buffer_ s). }
    exists fl, (qs ++ [cl]), [], []. unfold filled. rewrite E1, E2, E3, E4. split_and!; [|done| |done|].
    + rewrite concat_app. cbn. by rewrite !app_nil_r.
    + apply Forall2_app; [done|]. by constructor; [|constructor].
    + destruct Hi as (_ & _ & _ & _ & Hsp & _). unfold AsyncLoggingFacts.spares in Hsp. rewrite Hat in Hsp.
      destruct Hsp as [(x & -> & _ & Hx) _]. exact Hx.
  - pose proof (AsyncLoggingFacts.write_block_law SIZE ltac:(unfold kSmallBufferSize in *; lia) m v s Hi Hat) as Hl.
    destruct (AsyncLoggingFacts.can_write v s); [|by destruct Hl as [k Hl]; rewrite Hl in E].
    destruct Hl as (s1 & E1 & _ & Hat1 & Hf1 & Hb1 & Hc1). rewrite E1 in E. injection E as <-.
    exists (fl ++ concat hs), [], qs, cl. rewrite Hat1, Hf1, Hb1, Hc1. split_and!; [by rewrite <- !app_assoc| | |done|done].
    + by rewrite concat_app, Hf, (filled_texts v hs).
    + constructor.
  - injection E as <-. by exists fl, hs, qs, cl; rewrite Hat.
Qed.

(** Where the writing thread leaves what the language defines. *)
Definition breaks_at (level : LogLevel) (acts : list action) (s0 : async) (acts1 : list action) (s : async) : Prop :=
  exists acts2 v k, acts = acts1 ++ AWriter :: acts2 /\ run SIZE level acts1 s0 = Ok (s, false) /\
    AsyncLogging.at_ s = AsyncLogging.BWrite v /\ AsyncLoggingFacts.can_write v s = false /\
    run SIZE level acts s0 = Err (UB k).

Lemma breaks_cons level a acts s0 s1 acts1 s : step SIZE level a s0 = Ok (s1, false) ->
  breaks_at level acts s1 acts1 s -> breaks_at level (a :: acts) s0 (a :: acts1) s.
Proof.
  intros E (acts2 & v & k & -> & Hr & Hat & Hcan & He). exists acts2, v, k. cbn [run app]. rewrite E. cbn.
  by split_and!.
Qed.

(** Every action but the unlocked write is defined, and each puts its line where it
    belongs. *)
Lemma run_grouped level acts m ls s0 : AsyncLoggingFacts.inv SIZE m s0 -> grouped ls s0 ->
  Forall (prints level) acts ->
  (exists s b m', run SIZE level acts s0 = Ok (s, b) /\ AsyncLoggingFacts.inv SIZE m' s /\
     grouped (ls ++ lines level acts) s) \/
  (exists acts1 s, breaks_at level acts s0 acts1 s /\ grouped (ls ++ lines level acts1) s).
Proof.
  assert (0 < SIZE < 2 ^ 31) as Hsz by (unfold kSmallBufferSize in *; lia).
  revert m ls s0. induction acts as [|a acts IH]; intros m ls s0 Hi Hg Hp.
  { left. exists s0, false, m. split_and!; [done|done|]. by rewrite app_nil_r. }
  apply list.Forall_cons in Hp as [Ha Hp].
  assert (forall s1 m1 ls1, step SIZE level a s0 = Ok (s1, false) -> AsyncLoggingFacts.inv SIZE m1 s1 ->
    grouped (ls ++ ls1) s1 -> (forall acts', lines level (a :: acts') = ls1 ++ lines level acts') ->
    (exists s b m', run SIZE level (a :: acts) s0 = Ok (s, b) /\ AsyncLoggingFacts.inv SIZE m' s /\
       grouped (ls ++ lines level (a :: acts)) s) \/
    (exists acts1 s, breaks_at level (a :: acts) s0 acts1 s /\ grouped (ls ++ lines level acts1) s)) as Hgo.
  { intros s1 m1 ls1 E Hi1 Hg1 Hl.
    destruct (IH m1 (ls ++ ls1) s1 Hi1 Hg1 Hp) as [(s & b & m' & Hr & Hi' & Hg')|(acts1 & s & Hb & Hg')].
    - left. exists s, b, m'. cbn [run]. rewrite E. cbn [mbind result_bind]. rewrite Hl, app_assoc. by split_and!.
    - right. exists (a :: acts1), s. split; [by eapply breaks_cons|]. by rewrite Hl, app_assoc. }
  destruct a as [l func x msg| |]; cbn [prints] in Ha.
  - destruct Ha as [[[line fatal]|] E].
    + apply log_small in E as Hl. destruct Hl as [Hl Hfatal].
      destruct (grouped_append m line s0 ls Hi) as (s1 & m1 & Ea & Hi1 & Hg1 & _); [lia|done|].
      assert (step SIZE level (ALog l func x msg) s0 = Ok (s1, fatal)) as Es.
      { cbn [step]. rewrite statement_eq, E. cbn. by rewrite Ea. }
      destruct fatal.
      * left. exists s1, true, m1. cbn [run]. rewrite Es. cbn. split_and!; [done|done|].
        unfold lines. cbn [performed]. by rewrite E.
      * apply (Hgo s1 m1 [line] Es Hi1 Hg1). intros acts'. unfold lines. cbn [performed]. by rewrite E.
    + apply (Hgo s0 m []); [cbn [step]; by rewrite statement_eq, E|done|by rewrite app_nil_r|].
      intros acts'. unfold lines. cbn [performed]. by rewrite E.
  - pose proof (AsyncLoggingFacts.step_law SIZE Hsz m AsyncLogging.AThread s0 Hi) as Hl.
    cbn [AsyncLogging.step AsyncLoggingFacts.given] in Hl. rewrite app_nil_r in Hl.
    assert ((exists s1, AsyncLogging.thread_step s0 = Ok s1 /\ AsyncLoggingFacts.inv SIZE m s1) \/
      exists v k, AsyncLogging.at_ s0 = AsyncLogging.BWrite v /\ AsyncLoggingFacts.can_write v s0 = false /\
        AsyncLogging.thread_step s0 = Err (UB k)) as [(s1 & E & Hi1)|(v & k & Hat & Hcan & E)].
    { destruct (AsyncLogging.at_ s0) as [| |v|] eqn:Hat; [by left|by left| |by left].
      destruct (AsyncLoggingFacts.can_write v s0) eqn:Hcan; [by left|right]. destruct Hl as [k Hk]. by exists v, k. }
    + apply (Hgo s1 m []); [cbn; by rewrite E|done| |done]. rewrite app_nil_r. exact (grouped_thread m s0 s1 ls Hi E Hg).
    + right. exists [], s0. split; [|by rewrite app_nil_r]. exists acts, v, k. split_and!; [done..|].
      cbn [run step AsyncLogging.step]. by rewrite E.
  - apply (Hgo (AsyncLogging.Stop s0) m []); [done|done| |done]. by rewrite app_nil_r.
Qed.

End Facts.
End LoggingFacts.

(** * Properties *)
Module LoggingProps.
Import LogStream Logger Logging LoggingFacts AsyncLoggingFacts.

(** C27: Whatever the interleaving of the threads that log, the thread that writes and the
    request to stop, with buffers of at least 4000 bytes, as in the sources, which have
    4000000, and statements whose lines can be printed: either nothing fails, or the writing
    thread comes to an unlocked write of more than 25 buffers, or of a single one while more
    than two are already queued again, which is undefined, and nothing failed before that. Up
    to there every line of a statement that is not filtered out is, whole and in the order of
    the statements, in the file or in exactly one of the buffers on their way to it. The line
    of a FATAL statement never is in the file: it stays in the current buffer when the process
    aborts. *)
Theorem logged_lines_are_kept SIZE level acts :
  kSmallBufferSize <= SIZE < 2 ^ 31 -> Forall (prints level) acts ->
  (exists s aborted, run SIZE level acts (AsyncLogging.create SIZE) = Ok (s, aborted) /\
     grouped (lines level acts) s /\
     forall func x msg line, aborted = false -> log level FATAL func x msg = Ok (Some (line, true)) ->
       exists s' pre, run SIZE level (acts ++ [ALog FATAL func x msg]) (AsyncLogging.create SIZE) = Ok (s', true) /\
         AsyncLogging.file s' = AsyncLogging.file s /\ text (AsyncLogging.cur_buffer_ s') = pre ++ line) \/
  (exists acts1 s, breaks_at SIZE level acts (AsyncLogging.create SIZE) acts1 s /\ grouped (lines level acts1) s).
Proof.
  intros HS Hp. assert (0 < SIZE < 2 ^ 31) as Hsize by (unfold kSmallBufferSize in *; lia).
  destruct (run_grouped SIZE HS level acts [] [] _ (async_create_inv SIZE Hsize) (grouped_create SIZE) Hp)
    as [(s & b & m & Hr & Hi & Hg)|?]; [left|by right].
  exists s, b. split; [done|]. split; [done|]. intros func x msg line -> E.
  apply log_small in E as Hl. destruct Hl as [Hl _].
  destruct (grouped_append SIZE HS m line s _ Hi ltac:(lia) Hg) as (s' & m' & Ea & _ & _ & Hf & pre & Hpre).
  exists s', pre. split; [|done]. rewrite (run_more _ _ _ _ _ _ Hr). cbn [run step]. rewrite statement_eq, E. cbn.
  by rewrite Ea.
Qed.

(** An error line and a fatal one, with the writing thread between them. *)
Definition sample_acts : list action :=
  [ALog ERROR None LogStreamProps.sample_site (str "oops"); AWriter; AWriter; AWriter].

Lemma logged_lines_are_kept_witness : exists s s',
  run 4000 INFO sample_acts (AsyncLogging.create 4000) = Ok (s, false) /\
  run 4000 INFO (sample_acts ++ [ALog FATAL None LogStreamProps.sample_site (str "bye")]) (AsyncLogging.create 4000) =
    Ok (s', true) /\
  grouped (lines INFO sample_acts) s /\ AsyncLogging.file s' = AsyncLogging.file s.
Proof.
  destruct (logged_lines_are_kept 4000 INFO sample_acts) as [(s & b & Hr & Hg & Hf)|(acts1 & s & Hb & _)].
  - done.
  - repeat apply Forall_cons_2; [eexists; vm_compute; reflexivity|done..|apply Forall_nil_2].
  - assert (b = false) as ->.
    { assert (b = match run 4000 INFO sample_acts (AsyncLogging.create 4000) with Ok r => r.2 | Err _ => true end) as ->
        by (by rewrite Hr). by vm_compute. }
    destruct (Hf None LogStreamProps.sample_site (str "bye")
      (str "41 2024/01/02 03:04:05 [FATAL]:  bye - a.cc:22" ++ [Ascii.ascii_of_nat 10]) eq_refl) as (s' & pre & Hr' & Hfile & _);
      [vm_compute; reflexivity|].
    exists s, s'. by split_and!.
  - exfalso. destruct Hb as (_ & _ & k & _ & _ & _ & _ & Hr).
    assert (match run 4000 INFO sample_acts (AsyncLogging.create 4000) with Ok _ => true | Err _ => false end = true) as Hok
      by (by vm_compute). by rewrite Hr in Hok.
Defined.

End LoggingProps.
